(* ===== verification/_CoqProject ===== *)
-Q . S2P
Prelude.v
Structs.v
Memory.v
Lists.v
Message.v
Queue.v
Listener.v
Connection.v
Accept.v
Resources.v
Frame.v
Lifecycle.v
Serving.v
Listening.v
Requests.v
Sending.v
Release.v
Receiving.v
ReceiveQueue.v
TransportProperties.v
Endpoint.v
Cfg.v
Preconnection.v
Bits.v
Tests.v
Tcp.v
TcpStack.v
Echo.v
EchoRound.v
Simulate.v
TcpPort.v
EchoTcp.v
EchoClose.v
EchoMain.v
Clients.v
Server.v
Stopping.v
Program.v
Daemon.v
