(* ===== verification/Prelude.v ===== *)
(** * A verification library for dynamic-taps

    dynamic-taps implements the Transport Services API in C: an application
    describes endpoints and transport properties, the library finds the
    protocols of the host that fit, loads one as a shared object and carries
    connections, sends and receives between the two through callbacks.

    ** The program and the files that model it

    The library is under src/src/ of the repository, the example under
    src/examples/.

    - Structs.v: the C structures, as records with the fields of their
      declarations, and the events that leave the library (taps.h,
      taps_internals.h and the structures local to each C file).
    - Memory.v: what the code runs on.  A world is a heap of typed blocks, the
      next address, errno, and the trace of calls that left the library.
      Operations are in the monad [M] of state and faults: reading through NULL
      or a freed block, freeing twice, calling NULL or a pointer to another
      function, leaving an array, and running out of fuel are faults.  The
      allocator, the loader and libevent are the class [Machine], the callbacks
      of the application are [App] (taps.h), the functions of the loaded
      protocol are [Proto] (taps_protocol.h), inet_pton and inet_ntop are [Net]
      (Endpoint.v).
    - Lists.v: the LIST macros of taps_internals.h, for any item type.
    - Message.v: taps_message.c.
    - Queue.v: the macros ADD_ITEM and DELETE_ITEM of taps_connection.c, for any
      item type with links, and the doubly linked list they keep.
    - Listener.v, Accept.v: taps_listener.c; Accept.v has what calls into the
      connection, that is the report of a new connection, and the creation.
    - Connection.v: taps_connection.c.
    - TransportProperties.v: taps_transport_properties.c.
    - Endpoint.v: taps_endpoint.c.
    - Cfg.v: taps_cfg.c.
    - Preconnection.v: taps_preconnection.c.
    - Tcp.v: tcp/tcp.c, the protocol the repository brings along, over the socket
      layer and libevent as the class [Sys] and the library as the classes
      [Taps] and [TapsStop].
    - TcpStack.v: the two halves put together.  The functions of tcp/tcp.c are an
      instance of [Proto], those of taps_listener.c and taps_connection.c one of
      [Taps], and the transition system of the whole has the events of libevent
      and the requests of the application as its steps.
    - Echo.v: examples/echoapp.c.  Its callbacks are an instance of [App], and
      its [main] calls the endpoint, the transport properties, the
      preconnection and the listener.
    - Tests.v: the unit tests under src/test/, as programs over the library.
    - Daemon.v: old/tapsd.c.

    What puts the layers of the running server together has files of its own.
    Simulate.v relates two runs of the library and the application above two
    protocols, TcpPort.v the TCP library and a protocol without state of its own
    (one writable socket, one vector to read into), EchoTcp.v closes the circle:
    the application, the library and the TCP library call each other, and
    libevent calls the TCP library.  EchoClose.v has the end of a connection,
    EchoMain.v has [main].  Clients.v says when what happens at a connection
    leaves another one as it is, Server.v has any number of connections and the
    contract of the server, Stopping.v the interrupt, and Program.v all of it,
    from the start of [main] to its end.

    Definitions have the names of the C functions.  A function with a loop has
    the loop as a definition of its own ([select_loop], [yaml_loop], ...); an
    assignment to a field is [modify] with the update of that field; a macro or
    a label is a definition ([state_must_be], [reset], [listener_fail],
    [main_fail]).

    ** The theorems

    The listener and its connections:
    - Resources.v counts what a protocol holds and what the trace opened; Frame.v
      and Serving.v say what most operations leave alone, as relations on worlds
      every such operation preserves.
    - Lifecycle.v runs the library around one listener as a transition system
      whose steps are the requests of the application and the reports of a
      protocol that reports its stop after its Stop has returned.  Stopped is
      reported once, and exactly when no connection is left, since the counter is
      the number of attached connections; the reports complete; tapsListenerFree
      after the stop, and before it.
    - Listening.v has the creation of a listener on every branch.
    - TcpStack.v has the same over tcp.c itself, whose Stop reports from inside:
      the counter is the number of TCP contexts, which belong to
      connections one to one; the sockets open are those of the contexts;
      Stopped is reported exactly when the TCP library holds nothing; the close
      of a connection completes; tapsListenerFree before the stop ends in a call
      through NULL.

    Sending and receiving:
    - Requests.v has what both queues of a connection have in common.  Sending.v
      and ReceiveQueue.v prove that each refines a contract over a plain list,
      for all runs of requests and reports, and what happens to requests that
      are refused.  Receiving.v has the reports below the minimum, with the
      vector they make, and what is read after free.
    - Release.v: tapsConnectionFree with requests pending.
    - Message.v: truncation as a prefix of the bytes.
    - EchoRound.v: the echo server sends back what arrived, for all runs of
      reports through the library and the application, and begins to with every
      connection it accepts; it touches no block of the heap but its own and loses
      none between two rounds; what it does with a refused send, and what it
      leaks at the end.  These hold above any protocol whose calls do not call back.
    - Simulate.v, TcpPort.v: what the library and the application do above the
      TCP library is what they do above the protocol without state, since the two
      differ in the context of a connection only, which neither looks at.
    - EchoTcp.v: with that, the whole program echoes.  From the acceptance of a
      connection on every read is answered by a write of what was read, for any
      number of rounds; with two reads before the socket is writable it is not,
      and memory is read after it is freed.

    - EchoClose.v: from the acceptance of a connection to its end, sockets,
      events and memory are given back, but for two blocks per connection.
    - Clients.v, Server.v: any number of connections, whose events interleave in
      any way, refine a contract that keeps, for each of them, the receive that
      waits, the send under way and what was read; what was read from a socket
      is what was written to it.  The invariant is [serving]; one event is
      [event_at], and [serving_after] carries the invariant over it.
    - Stopping.v: the interrupt at any moment; the connections that are left are
      served until the last one has ended, and then the stop is reported.

    Setting up:
    - EchoMain.v: [main] of the echo server when no resource fails: it gives back
      all it took, or serves with three blocks in memory, which it gives back when
      it is stopped.  Program.v: with the loop of Server.v and Stopping.v inside,
      [main] returns with all sockets, events and memory given back but for two
      blocks per connection.
    - TransportProperties.v: the setter by name bit by bit, and the invariant
      that no ability has two preferences.
    - Endpoint.v: the attributes as a partial record which the setters refine,
      the queries, the lists of aliases, and a life of an endpoint that gives
      back all it took.
    - Cfg.v: a file of documents is read into the rows it describes, the bounds
      of the parser on any events, the clean-up after a failure, and two files.
    - Preconnection.v: the selection of protocols with the release of what was
      not selected, the count that is not cleared, and the address a listener is
      started on.  Bits.v: the population count the scores are made of.

    - Lists.v: the macros refine a queue, their loops end, and an insertion in
      order loses the element.

    Tcp.v: a TCP connection gives back its socket, its events and its context,
    what a refused connection and a stopped listener leave behind, and one write
    at a time.  Daemon.v: where the loop over the events of a read ends.  Tests.v:
    the tests of the repository, evaluated, succeed.

    Some theorems state what the code does where that is not what it means to
    do; their comments say so.  Every theorem that has hypotheses is applied
    once at concrete data, next to it or in the Module of samples of its file.

    ** Machine integers, bounds and fuel

    The counter of a listener is 32 bits wide and lengths are 64 bits wide, both
    reduced by [wrap]; the masks of abilities have 16 bits.  Loops that are not
    structural take fuel, and the theorems say how much is enough: one turn per
    vector of a message, plus one; one turn per member of a list of aliases; one
    turn per row of a preconnection, plus one; one turn per element of a list of
    the LIST macros, or per event of a read of the daemon, plus one; for the
    queues of a connection, one turn per address in use.  The application of Echo.v and the library call
    each other; [echo_app] takes how often, and its theorems need one call, or
    two where the application is called while it releases a connection.
    Events in Server.v are a list, one step each; every connection uses new
    addresses, so that their blocks are apart, and the counter of the listener
    must have room for one more where a connection is accepted.
    The loops over the events of a file and over the entries of a directory are
    structural; a list of events that stops before the stream does counts as out
    of fuel.

    ** What the theorems assume

    An application ([TameApp], Frame.v) whose callbacks return and do not stop
    or free the listener; in Lifecycle.v a protocol ([TameStop]) that reports its
    stop after Stop has returned.  The contracts of Sending.v and ReceiveQueue.v,
    and the files from EchoRound.v on, have memory that never fails; from
    TcpPort.v on ([Working]) sockets and libevent do not either, and event_new,
    event_add and event_pending do what they document.  A receive item that was
    freed still holds its byte count when the code reads it (length_survives,
    lengths_survive), and so does the freed context of the listener: a machine is
    free to trap both reads, and then the code does not return
    (reports_at_minimum_read_freed_item, freed_listener_is_read).  The memory of
    a new TCP context holds no callbacks (can_accept), and that of a new
    preconnection the count 0.  Preconnection.v, EchoMain.v and Program.v have a
    directory with at most one configuration file, which is well formed
    ([configured], Cfg.v).

    ** What is not modelled

    What libyaml makes of a file, what the directory holds and what sockets
    answer are arguments; the memory of libyaml, libevent and the loader is not in
    the heap, so a heap that is as before says nothing of the buffers of libyaml's
    events, which the code never deletes.  event_add on the NULL that a failed
    event_new returns is a fault; event_del, event_free and event_pending on it
    are recorded as calls; the bytes of a buffer are not modelled, only where it
    is and how long.  Printing is left out.  [main] of Echo.v takes the dispatch
    of libevent as an argument; EchoMain.v is about any dispatch, Program.v about
    one that calls the handlers in the order of a list of events, which it is
    given.  Where a peer sends again, or ends its connection, before its socket is
    writable the contract of Server.v has no event; in the first case the server
    reads freed memory ([tcp_echo_overrun]).  The code under #if 0 and LIST_PREPEND, which does not compile, are not modelled;
    of the daemon, the call of a function that does not exist is left out. *)

From Stdlib Require Export ZArith Lia.
From stdpp Require Export base list gmap strings fin_maps.

(** ** Scope and notations of the development *)

Declare Scope taps_scope.
Delimit Scope taps_scope with taps.

(** C integers are [Z] kept in range by an explicit reduction. *)
Definition wrap (w z : Z) : Z := (z mod 2 ^ w)%Z.

Notation "'u16' z" := (wrap 16 z) (at level 9, z at level 8, only parsing) : taps_scope.
Notation "'u32' z" := (wrap 32 z) (at level 9, z at level 8, only parsing) : taps_scope.
Notation "'size_t' z" := (wrap 64 z) (at level 9, z at level 8, only parsing) : taps_scope.

(** A [size_t] or [ssize_t] assigned to an [int]. *)
Definition to_int (z : Z) : Z := (let v := wrap 32 z in if v <? 2 ^ 31 then v else v - 2 ^ 32)%Z.

(** [TRUE] and [FALSE] of taps_internals.h, and C truth of an [int]. *)
Definition TRUE : Z := 1.
Definition FALSE : Z := 0.
Definition truth (z : Z) : bool := negb (Z.eqb z 0).

Lemma truth_TRUE : truth TRUE = true.
Proof. done. Qed.

Lemma truth_FALSE : truth FALSE = false.
Proof. done. Qed.

(** ** Hint databases

    [taps] holds the rewriting equations that unfold one step of a component's
    operation; [taps_inv] the lemmas that re-establish invariants. *)
Create Rewrite HintDb taps.
Create HintDb taps_inv.

(** ** Tactics *)

(** Split a conjunctive goal completely. *)
Ltac splits := repeat match goal with |- _ /\ _ => split end.

(** Case analysis on the innermost [match]/[if] of the goal. *)
Ltac case_goal :=
  match goal with
  | |- context [match ?x with _ => _ end] =>
      lazymatch x with context [match _ with _ => _ end] => fail | _ => destruct x eqn:? end
  end.

(** ** Machine integers *)

Section wrap.
Local Open Scope Z_scope.

Lemma wrap_bound w z : 0 <= w -> 0 <= wrap w z < 2 ^ w.
Proof. intros. unfold wrap. apply Z.mod_pos_bound. lia. Qed.

Lemma wrap_small w z : 0 <= z < 2 ^ w -> wrap w z = z.
Proof. intros. unfold wrap. by apply Z.mod_small. Qed.

Lemma to_int_small z : 0 <= z < 2 ^ 31 -> to_int z = z.
Proof. intros. unfold to_int. rewrite wrap_small by lia. by rewrite (proj2 (Z.ltb_lt _ _)) by lia. Qed.

Lemma wrap_wrap w z : wrap w (wrap w z) = wrap w z.
Proof. unfold wrap. apply Z.mod_mod_divide, Z.divide_refl. Qed.

Lemma wrap_add_l w a b : wrap w (wrap w a + b) = wrap w (a + b).
Proof. unfold wrap. by rewrite Zplus_mod_idemp_l. Qed.

Lemma wrap_sub_l w a b : wrap w (wrap w a - b) = wrap w (a - b).
Proof. unfold wrap. by rewrite Zminus_mod_idemp_l. Qed.

Lemma wrap_testbit w z i :
  0 <= w -> Z.testbit (wrap w z) i = (i <? w) && Z.testbit z i.
Proof.
  intros Hw. unfold wrap. rewrite Z.testbit_mod_pow2 by done. done.
Qed.

End wrap.

#[export] Hint Rewrite truth_TRUE truth_FALSE wrap_wrap wrap_add_l wrap_sub_l : taps.

(** ** Lists *)

Section lists.
Context {A : Type}.

Lemma last_snoc_cons (l : list A) x y : last (x :: l ++ [y]) = Some y.
Proof. rewrite app_comm_cons. apply last_snoc. Qed.

Lemma last_app_cons (l1 l2 : list A) x : last (l1 ++ x :: l2) = last (x :: l2).
Proof. by rewrite last_app_cons. Qed.

Lemma head_app_cons (l1 l2 : list A) x : head (l1 ++ x :: l2) = head (l1 ++ [x]).
Proof. by destruct l1. Qed.

End lists.

(** ** Counting the entries of a map *)

Section count.
Context `{Countable K} {A : Type}.
Local Open Scope Z_scope.

Definition count (P : A -> bool) (m : gmap K A) : Z := Z.of_nat (size (filter (fun p : K * A => P p.2 = true) m)).

Lemma count_nonneg P m : 0 <= count P m.
Proof. unfold count. lia. Qed.

Lemma count_insert P m k v : m !! k = None -> count P (<[k := v]> m) = count P m + Z.b2z (P v).
Proof.
  intros Hk. unfold count. destruct (P v) eqn:Ev; simpl.
  - rewrite map_filter_insert_True by done.
    rewrite map_size_insert_None by (apply map_lookup_filter_None; auto). lia.
  - rewrite map_filter_insert_False by (simpl; congruence). rewrite delete_id by done. lia.
Qed.

Lemma count_delete P m k v : m !! k = Some v -> count P (delete k m) = count P m - Z.b2z (P v).
Proof.
  intros Hk. rewrite <- (insert_delete_id m k v Hk) at 2. rewrite count_insert by apply lookup_delete_eq. lia.
Qed.

Lemma count_empty P : count P ∅ = 0.
Proof. unfold count. by rewrite map_filter_empty, map_size_empty. Qed.

Lemma count_singleton P k v : count P {[k := v]} = Z.b2z (P v).
Proof. rewrite <- insert_empty, count_insert by apply lookup_empty. by rewrite count_empty. Qed.

Lemma count_zero P m : count P m = 0 <-> forall k v, m !! k = Some v -> P v = false.
Proof.
  unfold count. rewrite (Nat2Z.inj_iff _ 0), map_size_empty_iff. split.
  - intros Hm k v Hk. destruct (P v) eqn:Ev; [|done]. assert (filter (fun p : K * A => P p.2 = true) m !! k = Some v) as E
      by (by apply map_lookup_filter_Some). by rewrite Hm, lookup_empty in E.
  - intros Hf. apply map_empty. intros k. apply map_lookup_filter_None. right. intros v Hk. simpl.
    by rewrite (Hf k v Hk).
Qed.

Lemma count_ext P Q m : (forall k v, m !! k = Some v -> P v = Q v) -> count P m = count Q m.
Proof.
  intros Heq. unfold count. do 2 f_equal. apply map_filter_ext. intros k v Hk. simpl. by rewrite (Heq k v).
Qed.

End count.

(** Index of the first occurrence of a string, the search loop of the property
    tables: [length l] when it is absent, as the C loop counter is. *)
Fixpoint index_of (s : string) (l : list string) : nat :=
  match l with
  | [] => 0
  | x :: r => if String.eqb s x then 0 else S (index_of s r)
  end.

Lemma index_of_le s l : index_of s l <= length l.
Proof. induction l; simpl; [lia|]. case_goal; lia. Qed.

Lemma index_of_lookup s l : index_of s l < length l -> l !! index_of s l = Some s.
Proof.
  induction l as [|x l IH]; simpl; [lia|].
  destruct (String.eqb_spec s x) as [->|]; [done|]. intros. apply IH. lia.
Qed.

Lemma index_of_notin s l : index_of s l = length l <-> s ∉ l.
Proof.
  induction l as [|x l IH]; simpl; [set_solver|].
  destruct (String.eqb_spec s x) as [->|]; [set_solver|].
  rewrite not_elem_of_cons, <- IH. split; [|intros [_ ?]; lia].
  intros ?. split; [congruence|lia].
Qed.

Lemma index_of_nodup l i s : NoDup l -> l !! i = Some s -> index_of s l = i.
Proof.
  intros Hnd Hi. eapply NoDup_lookup; [done| |done].
  apply index_of_lookup. pose proof (index_of_le s l).
  destruct (decide (index_of s l = length l)) as [E|]; [|lia].
  apply index_of_notin in E. destruct E. by eapply list_elem_of_lookup_2.
Qed.
