(* ===== verification/Structs.v ===== *)
(** * Structs: the C structures of the library

    Every structure the library allocates, with the fields of its declaration,
    the callbacks record the application passes, and the record of calls that
    leave the library.  Pointers are [ptr]: [None] is NULL.  A function pointer
    is [fptr], NULL or the identity of a function. *)

From S2P Require Import Prelude.

(** ** Pointers *)

Abbreviation loc := positive.
Abbreviation ptr := (option loc).
Abbreviation fn := positive.
Abbreviation fptr := (option fn).

(** ** taps_message.c, sys/uio.h *)

Record iovec := Iovec { iov_base : Z; iov_len : Z }.

(** [list] points to an array that only the message owns: the array is kept in
    the record, [None] is the NULL of a one-buffer message. *)
Record tapsMessage := Message {
  m_buf : iovec;
  m_list : option (list iovec);
  m_iovcnt : Z;
}.

(** A [struct iovec *]: the vector inside a message, or an array of its own. *)
Inductive iovptr :=
| IovMessage (m : loc)
| IovArray (a : loc).

(** ** arpa/inet.h *)

(** A socket address: the fields of [sockaddr_in] and of [sockaddr_in6] a
    family selects.  Ports are 16-bit values, addresses the 32- or 128-bit value
    of the bytes copied. *)
Record sockaddr := Sockaddr {
  sa_family : Z;
  sa_port : Z;
  sa_in : Z;
  sa_in6 : Z;
}.

(** ** taps.h: the callbacks an application hands over *)

Record tapsCallbacks := Callbacks {
  cb_connectionReceived : fptr;
  cb_establishmentError : fptr;
  cb_stopped : fptr;
  cb_sent : fptr;
  cb_expired : fptr;
  cb_sendError : fptr;
  cb_received : fptr;
  cb_receivedPartial : fptr;
  cb_receiveError : fptr;
  cb_closed : fptr;
  cb_connectionError : fptr;
}.

(** ** taps_internals.h *)

Record proto_handles := Handles {
  ph_proto : ptr;
  ph_listen : fptr;
  ph_stop : fptr;
  ph_send : fptr;
  ph_receive : fptr;
}.

(** A [struct proto_handles *]: [&l->handles] of a listener, or a block of its own. *)
Inductive handles_ptr :=
| HListener (l : loc)
| HBlock (l : loc).

(** ** taps_listener.c *)

Record tapsListener := Listener {
  l_proto_ctx : ptr;
  l_app_ctx : ptr;
  l_handles : proto_handles;
  l_connectionReceived : fptr;
  l_establishmentError : fptr;
  l_stopped : fptr;
  l_ref_count : Z;
  l_conn_limit : Z;
  l_base : ptr;
  l_readyToStop : Z;
  l_baseCreatedHere : Z;
}.

(** ** taps_connection.c *)

Record send_item := SendItem {
  s_message : ptr;
  s_connection : ptr;
  s_app_ctx : ptr;
  s_sent : fptr;
  s_expired : fptr;
  s_sendError : fptr;
  s_next : ptr;
  s_prev : ptr;
}.

Record recv_item := RecvItem {
  r_message : ptr;
  r_minLength : Z;
  r_maxLength : Z;
  r_currLength : Z;
  r_connection : ptr;
  r_app_ctx : ptr;
  r_received : fptr;
  r_receivedPartial : fptr;
  r_receiveError : fptr;
  r_next : ptr;
  r_prev : ptr;
}.

Record tapsConnection := Connection {
  c_proto_ctx : ptr;
  c_app_ctx : ptr;
  c_handles : option handles_ptr;
  c_sndq : ptr;
  c_rcvq : ptr;
  c_closed : fptr;
  c_connectionError : fptr;
  c_sendReady : Z;
  c_receiveReady : Z;
  c_listener : ptr;
}.

(** ** taps_endpoint.c *)

Record tapsEndpoint := Endpoint {
  e_has_port : bool;
  e_has_ipv4 : bool;
  e_has_ipv6 : bool;
  e_has_hostname : bool;
  e_has_service : bool;
  e_has_protocol : bool;
  e_has_interface : bool;
  e_has_stun : bool;
  e_ipv4 : Z;
  e_ipv6 : Z;
  e_port : Z;
  e_stun : sockaddr;
  e_stun_credentials : ptr;
  e_hostname : ptr;
  e_service : ptr;
  e_protocol : ptr;
  e_interface : ptr;
  e_prevAlias : ptr;
  e_nextAlias : ptr;
}.

(** ** taps.h, taps_internals.h: transport properties *)

Inductive tapsConnectionType := TAPS_LISTENER | TAPS_INITIATE | TAPS_RENDEZVOUS.
Inductive tapsPreference := TAPS_REQUIRE | TAPS_PREFER | TAPS_IGNORE | TAPS_AVOID | TAPS_PROHIBIT.
Inductive tapsMultipath := TAPS_MP_DISABLED | TAPS_MP_ACTIVE | TAPS_MP_PASSIVE.
Inductive tapsDirection := TAPS_BIDIR | TAPS_UNIDIR_SEND | TAPS_UNIDIR_RECV.

(** A node of the list getifaddrs() makes: the name, the family of the address
    ([None] for an interface without one) and the word of [ifa_data]. *)
Record ifaddrs := Ifaddrs {
  ifa_name : string;
  ifa_addr : option Z;
  ifa_data : Z;
}.

(** ifList of taps_internals.h: an interface with a [LIST_ENTRY], and the
    [LIST_HEAD] of a list. *)
Record ifList := IfList {
  if_ifa : ifaddrs;
  if_next : ptr;
}.

Record list_head := ListHead {
  lh_head : ptr;
  lh_tail : ptr;
}.

(** [interfaces] owns its list: the empty list is NULL. *)
Record transportProperties := Transport {
  t_require : Z;
  t_prefer : Z;
  t_avoid : Z;
  t_prohibit : Z;
  t_explicitlySet : Z;
  t_multipath : tapsMultipath;
  t_direction : tapsDirection;
  t_advertises_altaddr : bool;
  t_interfaces : list ifaddrs;
}.

Record tapsProtocol := Protocol {
  p_name : ptr;
  p_protocol : ptr;
  p_libpath : ptr;
  p_properties : Z;
}.

(** ** taps_preconnection.c *)

Record tapsPreconnection := Preconnection {
  pc_local : list ptr;
  pc_numLocal : Z;
  pc_remote : list ptr;
  pc_numRemote : Z;
  pc_protocol : list tapsProtocol;
  pc_numProtocols : Z;
  pc_transport : ptr;
  pc_security : ptr;
}.

(** ** tcp/tcp.c *)

Record conn_ctx := ConnCtx {
  cc_fd : Z;
  cc_base : ptr;
  cc_closeEvent : ptr;
  cc_sendEvent : ptr;
  cc_receiveEvent : ptr;
  cc_errorEvent : ptr;
  cc_closed : fptr;
  cc_connectionError : fptr;
  cc_sent : fptr;
  cc_expired : fptr;
  cc_sendError : fptr;
  cc_received : fptr;
  cc_receivedPartial : fptr;
  cc_receiveError : fptr;
  cc_taps_ctx : ptr;
  cc_send_ctx : ptr;
  cc_receive_ctx : ptr;
  cc_receive_buffer : option iovptr;
  cc_iovcnt : Z;
}.

Record listener_ctx := ListenerCtx {
  lc_base : ptr;
  lc_event : ptr;
  lc_fd : Z;
  lc_connectionReceived : fptr;
  lc_establishmentError : fptr;
  lc_closed : fptr;
  lc_connectionError : fptr;
  lc_taps_ctx : ptr;
}.

(** ** examples/echoapp.c *)

Record app_listener := AppListener {
  al_base : ptr;
  al_taps : ptr;
  al_callbacks : tapsCallbacks;
}.

Record app_conn := AppConn {
  ac_l : ptr;
  ac_taps : ptr;
}.

(** The array [buf] is known by its address, which the block determines. *)
Record app_msg := AppMsg { am_taps : ptr }.

(** ** What a heap block holds *)

Inductive obj :=
| OMessage (m : tapsMessage)
| OIovec (v : list iovec)
| OHandles (h : proto_handles)
| OListener (l : tapsListener)
| OSend (s : send_item)
| ORecv (r : recv_item)
| OConnection (c : tapsConnection)
| OString (s : string)
| OEndpoint (e : tapsEndpoint)
| OTransport (t : transportProperties)
| OPreconnection (p : tapsPreconnection)
| OConnCtx (c : conn_ctx)
| OListenerCtx (l : listener_ctx)
| OAppListener (l : app_listener)
| OAppConn (c : app_conn)
| OAppMsg (m : app_msg)
| OIfList (i : ifList)
| OListHead (h : list_head).

(** ** Calls that leave the library, in the order they are made *)

Inductive event :=
(* to the application; the first argument is the function called *)
| EvConnectionReceived (f : fn) (app conn : ptr)
| EvStopped (f : fn) (app : ptr)
| EvSent (f : fn) (conn item : ptr)
| EvExpired (f : fn) (conn item : ptr)
| EvSendError (f : fn) (conn item : ptr) (reason : option string)
| EvReceived (f : fn) (conn item : ptr) (len : Z)
| EvReceivedPartial (f : fn) (conn item : ptr) (len eom : Z)
| EvReceiveError (f : fn) (conn item : ptr) (reason : option string)
| EvClosed (f : fn) (app : ptr)
| EvConnectionError (f : fn) (app : ptr) (reason : option string)
(* to the protocol library *)
| PListen (f : fn) (taps_ctx base : ptr) (addr : sockaddr)
| PStop (f : fn) (proto_ctx : ptr)
| PSend (f : fn) (proto_ctx taps_ctx : ptr) (data : iovptr) (iovcnt : Z)
| PReceive (f : fn) (proto_ctx taps_ctx : ptr) (data : iovptr) (iovcnt : Z)
(* to the dynamic loader *)
| EvDlopen (path : string)
| EvDlclose (handle : ptr)
(* to libevent *)
| EvBaseFree (base : ptr)
| EvLoopBreak (base : ptr)
(* from the TCP library to the socket layer, with what it answered *)
| KSocket (fd : Z)
| KBind (fd : Z) (addr : sockaddr)
| KListen (fd : Z)
| KAccept (listener fd : Z)
| KReadv (fd : Z) (data : option iovptr) (iovcnt bytes : Z)
| KWritev (fd : Z) (data : iovptr) (iovcnt bytes : Z)
| KClose (fd : Z)
(* and to libevent *)
| LNew (ev : ptr) (fd what : Z) (arg : ptr)
| LAdd (ev : ptr) (answer : Z)
| LDel (ev : ptr)
| LFree (ev : ptr)
(* from libevent: an event that was added happens, and is not pending any more *)
| LFire (ev : ptr) (what : Z) (arg : ptr)
(* from the TCP library to the library *)
| UConnectionReceived (f : fn) (taps_ctx proto_ctx : ptr)
| UClosed (f : fn) (taps_ctx : ptr)
| USent (f : fn) (item : ptr)
| UReceivedPartial (f : fn) (item : ptr) (data : option iovptr) (len : Z)
| UStopped (f : fn) (taps_ctx : ptr)
(* a read of memory the program no longer owns *)
| DeadRead (l : loc).

#[export] Instance tapsPreference_eq_dec : EqDecision tapsPreference.
Proof. solve_decision. Defined.

#[export] Instance tapsMultipath_eq_dec : EqDecision tapsMultipath.
Proof. solve_decision. Defined.

#[export] Instance tapsDirection_eq_dec : EqDecision tapsDirection.
Proof. solve_decision. Defined.

(** ** Field updates *)

Definition set_iov_len (n : Z) (v : iovec) : iovec := Iovec (iov_base v) n.

Definition set_l_stopped (f : fptr) (l : tapsListener) : tapsListener :=
  Listener (l_proto_ctx l) (l_app_ctx l) (l_handles l) (l_connectionReceived l)
    (l_establishmentError l) f (l_ref_count l) (l_conn_limit l) (l_base l)
    (l_readyToStop l) (l_baseCreatedHere l).

Definition set_l_ref_count (n : Z) (l : tapsListener) : tapsListener :=
  Listener (l_proto_ctx l) (l_app_ctx l) (l_handles l) (l_connectionReceived l)
    (l_establishmentError l) (l_stopped l) n (l_conn_limit l) (l_base l)
    (l_readyToStop l) (l_baseCreatedHere l).

Definition set_l_readyToStop (n : Z) (l : tapsListener) : tapsListener :=
  Listener (l_proto_ctx l) (l_app_ctx l) (l_handles l) (l_connectionReceived l)
    (l_establishmentError l) (l_stopped l) (l_ref_count l) (l_conn_limit l) (l_base l)
    n (l_baseCreatedHere l).

Definition set_l_handles (h : proto_handles) (l : tapsListener) : tapsListener :=
  Listener (l_proto_ctx l) (l_app_ctx l) h (l_connectionReceived l)
    (l_establishmentError l) (l_stopped l) (l_ref_count l) (l_conn_limit l) (l_base l)
    (l_readyToStop l) (l_baseCreatedHere l).

Definition set_l_base (b : ptr) (created : Z) (l : tapsListener) : tapsListener :=
  Listener (l_proto_ctx l) (l_app_ctx l) (l_handles l) (l_connectionReceived l)
    (l_establishmentError l) (l_stopped l) (l_ref_count l) (l_conn_limit l) b
    (l_readyToStop l) created.

Definition set_l_proto_ctx (p : ptr) (l : tapsListener) : tapsListener :=
  Listener p (l_app_ctx l) (l_handles l) (l_connectionReceived l)
    (l_establishmentError l) (l_stopped l) (l_ref_count l) (l_conn_limit l) (l_base l)
    (l_readyToStop l) (l_baseCreatedHere l).

Definition set_l_conn_limit (n : Z) (l : tapsListener) : tapsListener :=
  Listener (l_proto_ctx l) (l_app_ctx l) (l_handles l) (l_connectionReceived l)
    (l_establishmentError l) (l_stopped l) (l_ref_count l) n (l_base l)
    (l_readyToStop l) (l_baseCreatedHere l).

Definition set_l_callbacks (received error : fptr) (app : ptr) (l : tapsListener) : tapsListener :=
  Listener (l_proto_ctx l) app (l_handles l) received error
    (l_stopped l) (l_ref_count l) (l_conn_limit l) (l_base l)
    (l_readyToStop l) (l_baseCreatedHere l).

Definition set_s_links (n p : ptr) (s : send_item) : send_item :=
  SendItem (s_message s) (s_connection s) (s_app_ctx s) (s_sent s) (s_expired s)
    (s_sendError s) n p.

Definition set_r_links (n p : ptr) (r : recv_item) : recv_item :=
  RecvItem (r_message r) (r_minLength r) (r_maxLength r) (r_currLength r)
    (r_connection r) (r_app_ctx r) (r_received r) (r_receivedPartial r)
    (r_receiveError r) n p.

Definition set_r_currLength (n : Z) (r : recv_item) : recv_item :=
  RecvItem (r_message r) (r_minLength r) (r_maxLength r) n
    (r_connection r) (r_app_ctx r) (r_received r) (r_receivedPartial r)
    (r_receiveError r) (r_next r) (r_prev r).

Definition set_c_proto_ctx (p : ptr) (c : tapsConnection) : tapsConnection :=
  Connection p (c_app_ctx c) (c_handles c) (c_sndq c) (c_rcvq c) (c_closed c)
    (c_connectionError c) (c_sendReady c) (c_receiveReady c) (c_listener c).

Definition set_c_handles (h : option handles_ptr) (c : tapsConnection) : tapsConnection :=
  Connection (c_proto_ctx c) (c_app_ctx c) h (c_sndq c) (c_rcvq c) (c_closed c)
    (c_connectionError c) (c_sendReady c) (c_receiveReady c) (c_listener c).

Definition set_c_callbacks (app : ptr) (closed error : fptr) (c : tapsConnection) : tapsConnection :=
  Connection (c_proto_ctx c) app (c_handles c) (c_sndq c) (c_rcvq c) closed
    error (c_sendReady c) (c_receiveReady c) (c_listener c).

Definition set_c_sndq (q : ptr) (c : tapsConnection) : tapsConnection :=
  Connection (c_proto_ctx c) (c_app_ctx c) (c_handles c) q (c_rcvq c) (c_closed c)
    (c_connectionError c) (c_sendReady c) (c_receiveReady c) (c_listener c).

Definition set_c_rcvq (q : ptr) (c : tapsConnection) : tapsConnection :=
  Connection (c_proto_ctx c) (c_app_ctx c) (c_handles c) (c_sndq c) q (c_closed c)
    (c_connectionError c) (c_sendReady c) (c_receiveReady c) (c_listener c).

Definition set_c_sendReady (n : Z) (c : tapsConnection) : tapsConnection :=
  Connection (c_proto_ctx c) (c_app_ctx c) (c_handles c) (c_sndq c) (c_rcvq c) (c_closed c)
    (c_connectionError c) n (c_receiveReady c) (c_listener c).

Definition set_c_receiveReady (n : Z) (c : tapsConnection) : tapsConnection :=
  Connection (c_proto_ctx c) (c_app_ctx c) (c_handles c) (c_sndq c) (c_rcvq c) (c_closed c)
    (c_connectionError c) (c_sendReady c) n (c_listener c).

Definition set_c_listener (l : ptr) (c : tapsConnection) : tapsConnection :=
  Connection (c_proto_ctx c) (c_app_ctx c) (c_handles c) (c_sndq c) (c_rcvq c) (c_closed c)
    (c_connectionError c) (c_sendReady c) (c_receiveReady c) l.
