(* ===== verification/Memory.v ===== *)
(** * Memory: the abstract machine the library runs on

    A state-and-fault monad over a heap of typed blocks.  A fault keeps the
    state it occurred in.  What the C library, the loader and the allocator
    answer is the parameter [Machine]; what the application and the protocol
    library do when they are called are the parameters [App] and [Proto]. *)

From S2P Require Import Prelude Structs.

(** ** The state *)

Record world := World {
  heap : gmap loc obj;
  brk : loc;
  errno : Z;
  trace : list event;
}.

Definition set_heap (h : gmap loc obj) (w : world) : world :=
  World h (brk w) (errno w) (trace w).
Definition set_brk (b : loc) (w : world) : world :=
  World (heap w) b (errno w) (trace w).
Definition set_errno_w (e : Z) (w : world) : world :=
  World (heap w) (brk w) e (trace w).
Definition add_event (e : event) (w : world) : world :=
  World (heap w) (brk w) (errno w) (trace w ++ [e]).

(** What stops a run: leaving the behaviour C defines, or exit(). *)
Inductive fault :=
| NullDeref
| UseAfterFree (l : loc)
| BadType (l : loc)
| DoubleFree (l : loc)
| InvalidFree
| NullCall
| WildCall (f : fn)
| OutOfBounds
| OutOfFuel
| Exited (code : Z).

Inductive result (A : Type) :=
| Ok (a : A)
| Fault (f : fault).
Arguments Ok {A} a.
Arguments Fault {A} f.

Definition M (A : Type) : Type := world -> result A * world.

#[export] Instance M_ret : MRet M := fun A a w => (Ok a, w).

#[export] Instance M_bind : MBind M := fun A B k m w =>
  match m w with
  | (Ok a, w') => k a w'
  | (Fault f, w') => (Fault f, w')
  end.

Definition throw {A} (f : fault) : M A := fun w => (Fault f, w).

Arguments M_bind : simpl never.
Arguments M_ret : simpl never.
Open Scope taps_scope.

(** ** Typed blocks *)

Class Object (T : Type) := {
  inj : T -> obj;
  proj : obj -> option T;
  zero : T;
  proj_inj x : proj (inj x) = Some x;
  inj_proj o x : proj o = Some x -> o = inj x;
}.

Ltac solve_object := intros; simpl in *; repeat case_match; simplify_eq; done.

Definition zero_iovec : iovec := Iovec 0 0.
Definition zero_handles : proto_handles := Handles None None None None None.

#[export] Instance message_object : Object tapsMessage.
Proof.
  refine {| inj := OMessage; proj o := match o with OMessage m => Some m | _ => None end;
            zero := Message zero_iovec None 0 |}; abstract solve_object.
Defined.

#[export] Instance iovec_object : Object (list iovec).
Proof.
  refine {| inj := OIovec; proj o := match o with OIovec m => Some m | _ => None end;
            zero := [] |}; abstract solve_object.
Defined.

#[export] Instance handles_object : Object proto_handles.
Proof.
  refine {| inj := OHandles; proj o := match o with OHandles m => Some m | _ => None end;
            zero := zero_handles |}; abstract solve_object.
Defined.

#[export] Instance listener_object : Object tapsListener.
Proof.
  refine {| inj := OListener; proj o := match o with OListener m => Some m | _ => None end;
            zero := Listener None None zero_handles None None None 0 0 None 0 0 |};
  abstract solve_object.
Defined.

#[export] Instance send_object : Object send_item.
Proof.
  refine {| inj := OSend; proj o := match o with OSend m => Some m | _ => None end;
            zero := SendItem None None None None None None None None |};
  abstract solve_object.
Defined.

#[export] Instance recv_object : Object recv_item.
Proof.
  refine {| inj := ORecv; proj o := match o with ORecv m => Some m | _ => None end;
            zero := RecvItem None 0 0 0 None None None None None None None |};
  abstract solve_object.
Defined.

#[export] Instance connection_object : Object tapsConnection.
Proof.
  refine {| inj := OConnection; proj o := match o with OConnection m => Some m | _ => None end;
            zero := Connection None None None None None None None 0 0 None |};
  abstract solve_object.
Defined.

#[export] Instance string_object : Object string.
Proof.
  refine {| inj := OString; proj o := match o with OString m => Some m | _ => None end;
            zero := EmptyString |}; abstract solve_object.
Defined.

#[export] Instance endpoint_object : Object tapsEndpoint.
Proof.
  refine {| inj := OEndpoint; proj o := match o with OEndpoint m => Some m | _ => None end;
            zero := Endpoint false false false false false false false false 0 0 0
                      (Sockaddr 0 0 0 0) None None None None None None None |};
  abstract solve_object.
Defined.

#[export] Instance transport_object : Object transportProperties.
Proof.
  refine {| inj := OTransport; proj o := match o with OTransport m => Some m | _ => None end;
            zero := Transport 0 0 0 0 0 TAPS_MP_DISABLED TAPS_BIDIR false [] |};
  abstract solve_object.
Defined.

#[export] Instance preconnection_object : Object tapsPreconnection.
Proof.
  refine {| inj := OPreconnection; proj o := match o with OPreconnection m => Some m | _ => None end;
            zero := Preconnection (replicate 8 None) 0 (replicate 8 None) 0
                      (replicate 256 (Protocol None None None 0)) 0 None None |};
  abstract solve_object.
Defined.

#[export] Instance conn_ctx_object : Object conn_ctx.
Proof.
  refine {| inj := OConnCtx; proj o := match o with OConnCtx m => Some m | _ => None end;
            zero := ConnCtx 0 None None None None None None None None None None None None None None None None None 0 |};
  abstract solve_object.
Defined.

#[export] Instance listener_ctx_object : Object listener_ctx.
Proof.
  refine {| inj := OListenerCtx; proj o := match o with OListenerCtx m => Some m | _ => None end;
            zero := ListenerCtx None None 0 None None None None None |}; abstract solve_object.
Defined.

#[export] Instance app_listener_object : Object app_listener.
Proof.
  refine {| inj := OAppListener; proj o := match o with OAppListener m => Some m | _ => None end;
            zero := AppListener None None (Callbacks None None None None None None None None None None None) |};
  abstract solve_object.
Defined.

#[export] Instance app_conn_object : Object app_conn.
Proof.
  refine {| inj := OAppConn; proj o := match o with OAppConn m => Some m | _ => None end;
            zero := AppConn None None |}; abstract solve_object.
Defined.

#[export] Instance app_msg_object : Object app_msg.
Proof.
  refine {| inj := OAppMsg; proj o := match o with OAppMsg m => Some m | _ => None end;
            zero := AppMsg None |}; abstract solve_object.
Defined.

#[export] Instance if_list_object : Object ifList.
Proof.
  refine {| inj := OIfList; proj o := match o with OIfList m => Some m | _ => None end;
            zero := IfList (Ifaddrs EmptyString None 0) None |}; abstract solve_object.
Defined.

#[export] Instance list_head_object : Object list_head.
Proof.
  refine {| inj := OListHead; proj o := match o with OListHead m => Some m | _ => None end;
            zero := ListHead None None |}; abstract solve_object.
Defined.

(** ** The parameters of the model *)

(** The allocator, the loader and libevent.  [malloc_ok l] says whether the
    allocation that would return [l] succeeds, [uninit] what a new block holds,
    [stale] what a read of a freed block yields and [wild] what a read past the
    end of an array of vectors yields ([None]: the read traps). *)
Class Machine := {
  malloc_ok : loc -> bool;
  uninit : forall {T : Type} `{Object T}, loc -> T;
  stale : loc -> option obj;
  wild : Z -> option Z;
  dlopen : string -> ptr;
  dlsym : ptr -> string -> fptr;
  event_base_new : ptr;
}.

(** The application: its callbacks, each called with the event that records
    the call.  Only connectionReceived returns values: the application context
    of the connection, and what the out-parameter holds afterwards. *)
Class App := {
  app_call : event -> M unit;
  app_connectionReceived : fn -> ptr -> ptr -> M (ptr * option tapsCallbacks);
}.

(** The protocol library: the functions found by name in the shared object. *)
Class Proto := {
  proto_listen : fn -> ptr -> ptr -> sockaddr -> M ptr;
  proto_stop : fn -> ptr -> M unit;
  proto_send : fn -> ptr -> ptr -> iovptr -> Z -> M Z;
  proto_receive : fn -> ptr -> ptr -> iovptr -> Z -> M unit;
}.

(** ** Primitive operations *)

Definition emit (e : event) : M unit := fun w => (Ok tt, add_event e w).
Definition set_errno (e : Z) : M unit := fun w => (Ok tt, set_errno_w e w).

Section machine.
Context `{Machine}.

(** errno values (errno.h). *)
Definition ENOMEM : Z := 12.
Definition EINVAL : Z := 22.

(** A new block, or NULL with errno ENOMEM, as POSIX has it. *)
Definition malloc (T : Type) `{Object T} : M ptr := fun w =>
  let l := brk w in
  if malloc_ok l
  then (Ok (Some l), World (<[l := inj (uninit l : T)]> (heap w)) (Pos.succ l) (errno w) (trace w))
  else (Ok None, set_errno_w ENOMEM (set_brk (Pos.succ l) w)).

(** Read the structure at [p]. *)
Definition load {T : Type} `{Object T} (p : ptr) : M T := fun w =>
  match p with
  | None => (Fault NullDeref, w)
  | Some l =>
      match heap w !! l with
      | Some o => match proj o with
                  | Some x => (Ok x, w)
                  | None => (Fault (BadType l), w)
                  end
      | None => match stale l with
                | Some o => match proj o with
                            | Some x => (Ok x, add_event (DeadRead l) w)
                            | None => (Fault (BadType l), w)
                            end
                | None => (Fault (UseAfterFree l), w)
                end
      end
  end.

(** Assign to fields of the structure at [p]: [f] is the update. *)
Definition modify {T : Type} `{Object T} (p : ptr) (f : T -> T) : M unit := fun w =>
  match p with
  | None => (Fault NullDeref, w)
  | Some l =>
      match heap w !! l with
      | Some o => match proj o with
                  | Some x => (Ok tt, set_heap (<[l := inj (f x)]> (heap w)) w)
                  | None => (Fault (BadType l), w)
                  end
      | None => (Fault (UseAfterFree l), w)
      end
  end.

(** [free(p)] for a [p] of type [T *]: nothing for NULL. *)
Definition free (T : Type) `{Object T} (p : ptr) : M unit := fun w =>
  match p with
  | None => (Ok tt, w)
  | Some l =>
      match heap w !! l with
      | Some o => match proj o : option T with
                  | Some _ => (Ok tt, set_heap (delete l (heap w)) w)
                  | None => (Fault (BadType l), w)
                  end
      | None => (Fault (DoubleFree l), w)
      end
  end.

(** [memset(p, 0, sizeof( *p))]. *)
Definition memset0 (T : Type) `{Object T} (p : ptr) : M unit := modify p (fun _ : T => zero).

End machine.

Arguments malloc : simpl never.
Arguments load : simpl never.
Arguments modify : simpl never.
Arguments free : simpl never.
Arguments memset0 : simpl never.

(** A call through a void function pointer of the application. *)
Definition call_app `{App} (f : fptr) (e : fn -> event) : M unit :=
  match f with
  | None => throw NullCall
  | Some f => emit (e f) ;; app_call (e f)
  end.

Arguments call_app : simpl never.

(** Calls through the handles of a protocol. *)
Definition call_stop `{Proto} (f : fptr) (p : ptr) : M unit :=
  match f with
  | None => throw NullCall
  | Some f => emit (PStop f p) ;; proto_stop f p
  end.

Definition call_send `{Proto} (f : fptr) (p t : ptr) (d : iovptr) (n : Z) : M Z :=
  match f with
  | None => throw NullCall
  | Some f => emit (PSend f p t d n) ;; proto_send f p t d n
  end.

Definition call_receive `{Proto} (f : fptr) (p t : ptr) (d : iovptr) (n : Z) : M unit :=
  match f with
  | None => throw NullCall
  | Some f => emit (PReceive f p t d n) ;; proto_receive f p t d n
  end.

Arguments call_stop : simpl never.
Arguments call_send : simpl never.
Arguments call_receive : simpl never.

(** A call through a pointer is a call of [m] if it points to [f]. *)
Definition call_if {A} (f g : fn) (m : M A) : M A := if bool_decide (g = f) then m else throw (WildCall g).

(** A [char *] argument that must not be NULL, and [callbacks->field]. *)
Definition deref {A} (p : option A) : M A :=
  match p with Some a => mret a | None => throw NullDeref end.

(** ** Quiet parameters

    A callback that returns without calling back into the library.  Where a
    callback is the last thing a function does, the calls the application makes
    from inside it are the same run as the calls made right after. *)
Class QuietApp `{App} : Prop :=
  quiet_app e w : app_call e w = (Ok tt, w).

Class QuietProto `{Proto} : Prop := {
  quiet_stop f p w : proto_stop f p w = (Ok tt, w);
  quiet_send f p t d n w : exists z, proto_send f p t d n w = (Ok z, w);
  quiet_receive f p t d n w : proto_receive f p t d n w = (Ok tt, w);
}.

(** A machine that traps on every read of memory that is not live. *)
Class StrictMachine `{Machine} : Prop := {
  strict_stale l : stale l = None;
  strict_wild i : wild i = None;
}.

(** ** Running a computation step by step *)

Section run.
Context {A B : Type}.

Lemma bind_ok (m : M A) (k : A -> M B) w a w' :
  m w = (Ok a, w') -> (m ≫= k) w = k a w'.
Proof. intros E. unfold mbind, M_bind. by rewrite E. Qed.

Lemma bind_fault (m : M A) (k : A -> M B) w f w' :
  m w = (Fault f, w') -> (m ≫= k) w = (Fault f, w').
Proof. intros E. unfold mbind, M_bind. by rewrite E. Qed.

Lemma bind_inv (m : M A) (k : A -> M B) w b w' :
  (m ≫= k) w = (Ok b, w') -> exists a w1, m w = (Ok a, w1) /\ k a w1 = (Ok b, w').
Proof.
  unfold mbind, M_bind. destruct (m w) as [[a|f] w1] eqn:E; [|done]. eauto.
Qed.

Lemma bind_assoc {C} (m : M A) (k1 : A -> M B) (k2 : B -> M C) w :
  ((m ≫= k1) ≫= k2) w = (m ≫= (fun a => k1 a ≫= k2)) w.
Proof. unfold mbind, M_bind. by destruct (m w) as [[a|f] w']. Qed.

Lemma ret_ok (a : A) w : (mret a : M A) w = (Ok a, w).
Proof. done. Qed.

End run.

Section ops.
Context `{Machine}.
Context {T : Type} `{Object T}.

Lemma load_ok l w (x : T) : heap w !! l = Some (inj x) -> load (Some l) w = (Ok x, w).
Proof. intros E. unfold load. by rewrite E, proj_inj. Qed.

Lemma load_strict l w :
  StrictMachine -> heap w !! l = None -> (load (Some l) : M T) w = (Fault (UseAfterFree l), w).
Proof. intros S E. unfold load. by rewrite E, strict_stale. Qed.

Lemma load_stale l w (x : T) :
  heap w !! l = None -> stale l = Some (inj x) -> load (Some l) w = (Ok x, add_event (DeadRead l) w).
Proof. intros E S. unfold load. by rewrite E, S, proj_inj. Qed.

Lemma modify_ok l w (x : T) f :
  heap w !! l = Some (inj x) ->
  modify (Some l) f w = (Ok tt, set_heap (<[l := inj (f x)]> (heap w)) w).
Proof. intros E. unfold modify. by rewrite E, proj_inj. Qed.

Lemma free_ok l w (x : T) :
  heap w !! l = Some (inj x) -> free T (Some l) w = (Ok tt, set_heap (delete l (heap w)) w).
Proof. intros E. unfold free. by rewrite E, proj_inj. Qed.

Lemma malloc_succeeds w :
  malloc_ok (brk w) = true ->
  malloc T w = (Ok (Some (brk w)),
                World (<[brk w := inj (uninit (brk w) : T)]> (heap w)) (Pos.succ (brk w))
                      (errno w) (trace w)).
Proof. intros E. unfold malloc. by rewrite E. Qed.

Lemma malloc_fails w :
  malloc_ok (brk w) = false -> malloc T w = (Ok None, set_errno_w ENOMEM (set_brk (Pos.succ (brk w)) w)).
Proof. intros E. unfold malloc. by rewrite E. Qed.

End ops.

(** ** Staying inside arrays *)

(** [m] never leaves an array, and its results satisfy [Q]. *)
Definition inside {A} (m : M A) (Q : A -> Prop) : Prop :=
  forall w, match fst (m w) with Ok a => Q a | Fault f => f <> OutOfBounds end.

Section inside.
Context `{Machine}.

Lemma inside_bind {A B} (m : M A) (k : A -> M B) P Q :
  inside m P -> (forall a, P a -> inside (k a) Q) -> inside (m ≫= k) Q.
Proof.
  intros Hm Hk w. specialize (Hm w). unfold mbind, M_bind. destruct (m w) as [[a|f] w1]; simpl in *; [|done].
  by apply Hk.
Qed.

Lemma inside_ret {A} (a : A) (Q : A -> Prop) : Q a -> inside (mret a) Q.
Proof. by intros Hq w. Qed.

Lemma inside_throw {A} f (Q : A -> Prop) : f <> OutOfBounds -> inside (throw f) Q.
Proof. by intros Hf w. Qed.

Lemma inside_load {T} `{Object T} p : inside (load p : M T) (fun _ => True).
Proof. intros w. unfold load. by repeat (case_goal; simpl). Qed.

Lemma inside_free {T} `{Object T} p : inside (free T p) (fun _ => True).
Proof. intros w. unfold free. by repeat (case_goal; simpl). Qed.

Lemma inside_modify {T} `{Object T} p (f : T -> T) : inside (modify p f) (fun _ => True).
Proof. intros w. unfold modify. by repeat (case_goal; simpl). Qed.

Lemma inside_malloc T `{Object T} : inside (malloc T) (fun _ => True).
Proof. intros w. unfold malloc. by repeat (case_goal; simpl). Qed.

End inside.

#[export] Hint Resolve inside_load inside_free inside_modify inside_malloc : taps_inv.

(** ** Strings *)

Section strings.
Context `{Machine}.

(** A copy of a string, or NULL. *)
Definition strdup (s : string) : M ptr :=
  p ← malloc string;
  match p with
  | None => mret None
  | Some _ => modify p (fun _ : string => s) ;; mret p
  end.

Lemma strdup_ok s w :
  malloc_ok (brk w) = true ->
  strdup s w = (Ok (Some (brk w)), World (<[brk w := OString s]> (heap w)) (Pos.succ (brk w)) (errno w) (trace w)).
Proof.
  intros Ha. unfold strdup. erewrite bind_ok by (by apply malloc_succeeds). cbv beta iota.
  erewrite bind_ok by (apply modify_ok, lookup_insert_eq). rewrite ret_ok.
  unfold set_heap. simpl. by rewrite insert_insert_eq.
Qed.

Lemma strdup_fails s w : malloc_ok (brk w) = false -> strdup s w = (Ok None, set_errno_w ENOMEM (set_brk (Pos.succ (brk w)) w)).
Proof. intros Ha. unfold strdup. by erewrite bind_ok by (by apply malloc_fails). Qed.

Lemma inside_strdup s : inside (strdup s) (fun _ => True).
Proof.
  unfold strdup. eapply inside_bind; [apply inside_malloc|]. intros [l|] _; [|by apply inside_ret].
  eapply inside_bind; [apply inside_modify|]. intros. by apply inside_ret.
Qed.

End strings.

Lemma call_app_ok `{QuietApp} f e w : call_app (Some f) e w = (Ok tt, add_event (e f) w).
Proof. unfold call_app, mbind, M_bind, emit. simpl. by rewrite quiet_app. Qed.

Lemma call_stop_ok `{QuietProto} f p w :
  call_stop (Some f) p w = (Ok tt, add_event (PStop f p) w).
Proof. unfold call_stop, mbind, M_bind, emit. by rewrite quiet_stop. Qed.

Lemma call_receive_ok `{QuietProto} f p t d n w :
  call_receive (Some f) p t d n w = (Ok tt, add_event (PReceive f p t d n) w).
Proof. unfold call_receive, mbind, M_bind, emit. by rewrite quiet_receive. Qed.

Lemma call_send_ok `{QuietProto} f p t d n w :
  exists z, call_send (Some f) p t d n w = (Ok z, add_event (PSend f p t d n) w)
    /\ exists v, trace v = trace w ++ [PSend f p t d n] /\ proto_send f p t d n v = (Ok z, v).
Proof.
  unfold call_send, mbind, M_bind, emit.
  destruct (quiet_send f p t d n (add_event (PSend f p t d n) w)) as [z E].
  exists z. rewrite E. split; [done|]. by exists (add_event (PSend f p t d n) w).
Qed.

Lemma call_app_null `{App} e w : call_app None e w = (Fault NullCall, w).
Proof. done. Qed.

(** [step] runs the first primitive of a sequence whose preconditions are in
    the context or follow from the map lemmas. *)
Ltac heap_look :=
  cbn;
  repeat first
    [ rewrite lookup_insert_eq
    | rewrite lookup_delete_eq
    | rewrite lookup_insert_ne by (assumption || congruence)
    | rewrite lookup_delete_ne by (assumption || congruence) ].

Ltac heap_lookup := heap_look; first [reflexivity | eassumption].

Ltac step1 :=
  first
    [ match goal with
      | |- context [mbind ?k2 (mbind ?k1 ?m) ?w] => rewrite (bind_assoc m k1 k2 w)
      end
    | rewrite ret_ok
    | erewrite bind_ok by (apply ret_ok)
    | erewrite bind_ok by (apply load_ok; heap_lookup)
    | erewrite bind_ok by (eapply modify_ok; heap_lookup)
    | erewrite bind_ok by (eapply free_ok; heap_lookup)
    | erewrite bind_ok by (eapply call_app_ok)
    | erewrite bind_fault by (apply call_app_null)
    | erewrite bind_ok by reflexivity
    | erewrite modify_ok by heap_lookup
    | erewrite free_ok by heap_lookup
    | erewrite bind_ok by (eapply call_stop_ok)
    | erewrite bind_ok by (eapply call_receive_ok)
    | rewrite call_app_ok
    | rewrite call_stop_ok
    | rewrite call_receive_ok
    | rewrite call_app_null ].

Ltac steps := simpl; repeat (step1; simpl).

(** ** Concrete parameters, for evaluating the model *)

Definition test_machine (st : loc -> option obj) (wd : Z -> option Z) : Machine := {|
  malloc_ok _ := true;
  uninit T _ _ := zero;
  stale := st;
  wild := wd;
  dlopen _ := Some 1%positive;
  dlsym _ s := if String.eqb s "Listen" then Some 101%positive
               else if String.eqb s "Stop" then Some 102%positive
               else if String.eqb s "Send" then Some 103%positive
               else if String.eqb s "Receive" then Some 104%positive else None;
  event_base_new := None;
|}.

Definition strict_machine : Machine := test_machine (fun _ => None) (fun _ => None).

Definition test_app (answer : ptr * option tapsCallbacks) : App := {|
  app_call _ := mret tt;
  app_connectionReceived _ _ _ := mret answer;
|}.

Definition test_proto (n : Z) : Proto := {|
  proto_listen _ _ _ _ := mret (Some 1%positive);
  proto_stop _ _ := mret tt;
  proto_send _ _ _ _ _ := mret n;
  proto_receive _ _ _ _ _ := mret tt;
|}.

#[export] Instance strict_machine_strict : @StrictMachine strict_machine.
Proof. split; done. Defined.

#[export] Instance test_app_quiet a : @QuietApp (test_app a).
Proof. done. Defined.

#[export] Instance test_proto_quiet n : @QuietProto (test_proto n).
Proof. split; try done. by exists n. Defined.

(** A state with the given blocks. *)
Definition test_world (l : list (loc * obj)) (b : loc) : world :=
  World (list_to_map l) b 0 [].
