(* ===== verification/Lists.v ===== *)
(** * Lists: the LIST macros of taps_internals.h

    Singly linked lists with a pointer to the last element, for any structure
    with a [next] field.  No function that is compiled uses them yet; the lists
    of candidates under #if 0 in taps_preconnection.c do.  LIST_PREPEND lacks a
    semicolon, so no use of it compiles, and it has no definition here. *)

From S2P Require Import Prelude Structs Memory.

(** ** Definitions *)

(** A structure with a [LIST_ENTRY]. *)
Class Entry (T : Type) `{Object T} := {
  next_of : T -> ptr;
  set_next : ptr -> T -> T;
  next_set p x : next_of (set_next p x) = p;
  set_set p q x : set_next p (set_next q x) = set_next p x;
}.

#[export] Instance if_list_entry : Entry ifList.
Proof.
  refine {| next_of := if_next; set_next p x := IfList (if_ifa x) p |}; abstract done.
Defined.

Definition set_lh_head (p : ptr) (l : list_head) : list_head := ListHead p (lh_tail l).
Definition set_lh_tail (p : ptr) (l : list_head) : list_head := ListHead (lh_head l) p.

Section macros.
Context `{Machine} {T : Type} `{Entry T}.

Definition LIST_INIT (name : ptr) : M unit :=
  modify name (set_lh_head None) ;;
  modify name (set_lh_tail None).

Definition LIST_NEXT (elem : ptr) : M ptr := x ← (load elem : M T); mret (next_of x).

Definition LIST_EMPTY (list : ptr) : M bool :=
  h ← load list; mret (match lh_head h with None => true | Some _ => false end).

Definition LIST_START (list : ptr) : M ptr := h ← load list; mret (lh_head h).

Definition LIST_APPEND (list elem : ptr) : M unit :=
  h ← load list;
  match lh_head h with
  | None => modify list (set_lh_head elem)
  | Some _ => h ← load list; modify (lh_tail h) (set_next elem : T -> T)
  end ;;
  modify elem (set_next None : T -> T) ;;
  modify list (set_lh_tail elem).

(** [while ((var) && !(test)) (var) = (var)->next]; the result is [var]. *)
Fixpoint insert_loop (fuel : nat) (var : ptr) (test : ptr -> M bool) : M ptr :=
  match fuel with
  | O => throw OutOfFuel
  | S fuel =>
      match var with
      | None => mret None
      | Some _ => t ← test var; if t : bool then mret var else var ← LIST_NEXT var; insert_loop fuel var test
      end
  end.

(** What is linked once [var] is known. *)
Definition insert_link (list elem var : ptr) : M unit :=
  h ← load list;
  (if bool_decide (var = lh_head h) then modify list (set_lh_head elem) else mret tt) ;;
  match var with
  | None => h ← load list; modify (lh_tail h) (set_next elem : T -> T) ;; modify list (set_lh_tail elem)
  | Some _ => mret tt
  end ;;
  modify elem (set_next var : T -> T).

Definition LIST_INSERT_ORDER (fuel : nat) (list elem : ptr) (test : ptr -> M bool) : M unit :=
  h ← load list;
  var ← insert_loop fuel (lh_head h) test;
  insert_link list elem var.

(** [for ((var) = (list)->head; (var); (var) = (var)->next) body]. *)
Fixpoint foreach_loop (fuel : nat) (var : ptr) (body : ptr -> M unit) : M unit :=
  match fuel with
  | O => throw OutOfFuel
  | S fuel =>
      match var with
      | None => mret tt
      | Some _ => body var ;; var ← LIST_NEXT var; foreach_loop fuel var body
      end
  end.

Definition LIST_FOREACH (fuel : nat) (list : ptr) (body : ptr -> M unit) : M unit :=
  h ← load list; foreach_loop fuel (lh_head h) body.

(** The result is [var]. *)
Definition LIST_DELETE_FIRST (list : ptr) : M ptr :=
  h ← load list;
  let var := lh_head h in
  n ← LIST_NEXT var;
  modify list (set_lh_head n) ;;
  h ← load list;
  (if bool_decide (lh_tail h = var) then modify list (set_lh_tail None) else mret tt) ;;
  mret var.

Fixpoint LIST_DELETE (fuel : nat) (list : ptr) (instructions : ptr -> M unit) : M unit :=
  match fuel with
  | O => throw OutOfFuel
  | S fuel =>
      e ← LIST_EMPTY list;
      if e : bool then mret tt
      else
        var ← LIST_DELETE_FIRST list;
        instructions var ;;
        free T var ;;
        LIST_DELETE fuel list instructions
  end.

End macros.

(** ** Representation *)

Section rep.
Context {T : Type} `{Entry T}.

Definition head_of (nx : ptr) (q : list (loc * T)) : ptr := match q with [] => nx | (l, _) :: _ => Some l end.
Definition tail_of (q : list (loc * T)) : ptr := match last q with None => None | Some (l, _) => Some l end.

(** The elements of [q] in a row, up to [nx]. *)
Fixpoint seg (h : gmap loc obj) (nx : ptr) (q : list (loc * T)) : Prop :=
  match q with
  | [] => True
  | (l, x) :: r => h !! l = Some (inj (set_next (head_of nx r) x)) /\ seg h nx r
  end.

(** In [h], [name] heads the list of the elements [q]. *)
Record listed (h : gmap loc obj) (name : loc) (q : list (loc * T)) : Prop := {
  ls_head : h !! name = Some (OListHead (ListHead (head_of None q) (tail_of q)));
  ls_seg : seg h None q;
  ls_nodup : NoDup (name :: q.*1);
}.

Lemma tail_snoc q l (x : T) : tail_of (q ++ [(l, x)]) = Some l.
Proof. unfold tail_of. by rewrite last_snoc. Qed.

Lemma head_app nx q1 q2 : head_of nx (q1 ++ q2) = head_of (head_of nx q2) q1.
Proof. by destruct q1 as [|[]]. Qed.

Lemma seg_app h nx q1 q2 : seg h nx (q1 ++ q2) <-> seg h (head_of nx q2) q1 /\ seg h nx q2.
Proof.
  induction q1 as [|[l x] q1 IH]; simpl; [tauto|]. rewrite IH, head_app. tauto.
Qed.

Lemma seg_same h h' nx q : (forall l, l ∈ q.*1 -> h' !! l = h !! l) -> seg h nx q -> seg h' nx q.
Proof.
  induction q as [|[l x] q IH]; simpl; [done|]. intros Hs [Hl Hq]. split.
  - rewrite Hs by set_solver. exact Hl.
  - apply IH; [set_solver|done].
Qed.

(** The last element points elsewhere. *)
Lemma seg_relink h nx nx' q l x :
  l ∉ q.*1 -> seg h nx (q ++ [(l, x)]) -> seg (<[l := inj (set_next nx' x)]> h) nx' (q ++ [(l, x)]).
Proof.
  rewrite !seg_app. simpl. intros Hl [Hq _]. split.
  - eapply seg_same; [|exact Hq]. intros j Hj. rewrite lookup_insert_ne; [done|set_solver].
  - by rewrite lookup_insert_eq.
Qed.

End rep.

(** ** What the macros do to a list *)

Section lemmas.
Context `{Machine} {T : Type} `{Entry T}.
Implicit Types (q : list (loc * T)) (w : world).

Lemma head_load w name q :
  listed (heap w) name q ->
  (load (Some name) : M list_head) w = (Ok (ListHead (head_of None q) (tail_of q)), w).
Proof. intros Hl. apply (load_ok (T := list_head)), Hl. Qed.

Lemma LIST_INIT_ok w name x :
  heap w !! name = Some (OListHead x) ->
  LIST_INIT (Some name) w = (Ok tt, set_heap (<[name := OListHead (ListHead None None)]> (heap w)) w)
  /\ listed (T := T) (<[name := OListHead (ListHead None None)]> (heap w)) name [].
Proof.
  intros Hx. split.
  - unfold LIST_INIT. erewrite bind_ok by (apply (modify_ok (T := list_head)); exact Hx).
    erewrite (modify_ok (T := list_head)) by apply lookup_insert_eq. unfold set_heap. simpl. by rewrite insert_insert_eq.
  - split; [apply lookup_insert_eq|done|]. apply NoDup_singleton.
Qed.

(** A list with one element more, behind its last. *)
Lemma listed_snoc h name q t y e x :
  listed h name (q ++ [(t, y)]) -> e ∉ name :: (q ++ [(t, y)]).*1 ->
  t <> name /\ e <> t /\ h !! t = Some (inj (set_next None y))
  /\ listed (<[name := OListHead (ListHead (head_of None (q ++ [(t, y)])) (Some e))]>
              (<[e := inj (set_next None x)]> (<[t := inj (set_next (Some e) y)]> h))) name ((q ++ [(t, y)]) ++ [(e, x)]).
Proof.
  intros [Hh Hs Hd] Hn. apply not_elem_of_cons in Hn as [Hne Hnq].
  assert (NoDup (name :: ((q ++ [(t, y)]) ++ [(e, x)]).*1)) as Hd'.
  { rewrite fmap_app, app_comm_cons. apply NoDup_app. split; [done|]. split; [|apply NoDup_singleton].
    intros j Hj Hje. apply list_elem_of_singleton in Hje; simpl in Hje; subst j. apply elem_of_cons in Hj as [->|Hj]; done. }
  rewrite fmap_app in Hd, Hnq. apply NoDup_cons in Hd as [Hnn [Hd [Ht _]]%NoDup_app].
  assert (t ∉ q.*1) as Htq by (intros Hi; eapply Ht; [exact Hi|set_solver]).
  assert (t <> name /\ e <> t) as [Htn Het] by (split; set_solver).
  pose proof Hs as [_ [Ht' _]]%seg_app. splits; [done|done|exact Ht'|]. split; [|apply seg_app; split|done].
  - rewrite lookup_insert_eq, tail_snoc. by destruct q as [|[]].
  - eapply (seg_same (<[t := inj (set_next (Some e) y)]> h)); [|by apply (seg_relink h None)].
    intros j Hj. rewrite fmap_app in Hj. assert (j <> name /\ j <> e) as [Hj1 Hj2] by (split; intros ->; done).
    rewrite (lookup_insert_ne _ name), (lookup_insert_ne _ e) by done. done.
  - split; [|done]. rewrite lookup_insert_ne by done. apply lookup_insert_eq.
Qed.

Lemma head_some nx q t (y : T) : exists l, head_of nx (q ++ [(t, y)]) = Some l.
Proof. destruct q as [|[l ?]]; by eexists. Qed.

(** The new element goes to the end. *)
Lemma LIST_APPEND_ok w name q e x :
  listed (heap w) name q -> heap w !! e = Some (inj x) -> e ∉ name :: q.*1 ->
  exists h', LIST_APPEND (T := T) (Some name) (Some e) w = (Ok tt, set_heap h' w)
    /\ listed h' name (q ++ [(e, x)])
    /\ forall j, j ∉ name :: e :: q.*1 -> h' !! j = heap w !! j.
Proof.
  intros Hl He Hn. pose proof (head_load _ _ _ Hl) as Hld. pose proof (ls_head _ _ _ Hl) as Hh.
  assert (e <> name) as Hne by set_solver. unfold LIST_APPEND. erewrite bind_ok by exact Hld. cbn [lh_head].
  destruct q as [|[t y] q' _] using rev_ind.
  - simpl head_of. cbv iota. erewrite bind_ok by (apply (modify_ok (T := list_head)); exact Hh).
    erewrite bind_ok by (apply modify_ok; simpl; rewrite lookup_insert_ne by done; exact He).
    erewrite (modify_ok (T := list_head)) by (simpl; rewrite lookup_insert_ne by done; apply lookup_insert_eq).
    eexists. split; [reflexivity|]. split; [split; [apply lookup_insert_eq|simpl; split; [|done]|]|].
    + by rewrite lookup_insert_ne, lookup_insert_eq by done.
    + apply NoDup_cons. split; [set_solver|apply NoDup_singleton].
    + intros j Hj. simpl. rewrite !lookup_insert_ne by set_solver. done.
  - destruct (listed_snoc _ _ _ _ _ e x Hl Hn) as (Htn & Het & Ht & Hl').
    destruct (head_some None q' t y) as [l El]. rewrite El. cbv iota. rewrite bind_assoc.
    erewrite bind_ok by exact Hld. cbn [lh_tail]. rewrite tail_snoc in *.
    erewrite bind_ok by (apply modify_ok; exact Ht).
    erewrite bind_ok by (apply modify_ok; simpl; rewrite lookup_insert_ne by done; exact He).
    erewrite (modify_ok (T := list_head)) by (simpl; rewrite !lookup_insert_ne by done; exact Hh).
    rewrite set_set. eexists. split; [reflexivity|]. split; [exact Hl'|].
    intros j Hj. rewrite fmap_app in Hj. simpl in *. rewrite !lookup_insert_ne by set_solver. done.
Qed.

(** The first element leaves the list and stays in memory. *)
Lemma LIST_DELETE_FIRST_ok w name l x q :
  listed (heap w) name ((l, x) :: q) ->
  let h' := <[name := OListHead (ListHead (head_of None q) (tail_of q))]> (heap w) in
  LIST_DELETE_FIRST (T := T) (Some name) w = (Ok (Some l), set_heap h' w) /\ listed h' name q.
Proof.
  intros Hl h'. pose proof (head_load _ _ _ Hl) as Hld. destruct Hl as [Hh [Hx Hs] Hd].
  apply NoDup_cons in Hd as [Hn [Hlq Hd]%NoDup_cons]. simpl in Hn, Hlq. split.
  - unfold LIST_DELETE_FIRST, LIST_NEXT. erewrite bind_ok by exact Hld. cbn [lh_head head_of]. cbv zeta.
    erewrite bind_ok by (erewrite bind_ok by (apply load_ok; exact Hx); reflexivity). rewrite next_set.
    erewrite bind_ok by (apply (modify_ok (T := list_head)); exact Hh).
    erewrite bind_ok by (apply (load_ok (T := list_head)), lookup_insert_eq). cbn [lh_tail set_lh_head].
    assert (tail_of ((l, x) :: q) = Some l <-> q = []) as Ht.
    { destruct q as [|[t y] q' _] using rev_ind; [done|]. rewrite app_comm_cons, tail_snoc. split.
      - intros [= ->]. destruct Hlq. change (l ∈ (q' ++ [(l, y)]).*1). rewrite fmap_app. set_solver.
      - by intros [_ [=]]%app_nil. }
    case_bool_decide as Hb.
    + apply Ht in Hb as ->. erewrite bind_ok by (apply (modify_ok (T := list_head)), lookup_insert_eq).
      rewrite ret_ok. unfold set_heap, h'. simpl. by rewrite insert_insert_eq.
    + rewrite (bind_ok _ _ _ _ _ (ret_ok tt _)), ret_ok. unfold h', set_lh_head. simpl. do 5 f_equal.
      destruct q as [|[t y] q' _] using rev_ind; [by destruct Hb|]. by rewrite app_comm_cons, !tail_snoc.
  - split; [apply lookup_insert_eq| |].
    + eapply seg_same; [|exact Hs]. intros j Hj. apply lookup_insert_ne. set_solver.
    + apply NoDup_cons. split; [set_solver|done].
Qed.

Lemma LIST_DELETE_FIRST_empty w name :
  listed (T := T) (heap w) name [] -> LIST_DELETE_FIRST (T := T) (Some name) w = (Fault NullDeref, w).
Proof. intros Hl. unfold LIST_DELETE_FIRST. by erewrite bind_ok by (by apply head_load). Qed.

(** The search of LIST_INSERT_ORDER stops at the first element the test holds for. *)
Lemma insert_loop_ok w test (b : loc -> bool) q1 q2 : forall fuel,
  seg (heap w) (head_of None q2) q1 -> (length q1 < fuel)%nat ->
  (forall l, l ∈ q1.*1 -> test (Some l) w = (Ok (b l), w)) -> (forall l, l ∈ q1.*1 -> b l = false) ->
  (forall l, head_of None q2 = Some l -> test (Some l) w = (Ok true, w)) ->
  insert_loop (T := T) fuel (head_of None (q1 ++ q2)) test w = (Ok (head_of None q2), w).
Proof.
  induction q1 as [|[l x] q1 IH]; intros [|fuel] Hs Hf Ht Hb H2; simpl in Hf; try lia; cbn [insert_loop].
  - simpl. destruct (head_of None q2) as [l|]; [|done]. by erewrite bind_ok by (by apply H2).
  - destruct Hs as [Hx Hs]. cbn [app head_of]. erewrite bind_ok by (apply Ht; set_solver).
    rewrite Hb by set_solver. cbv iota. unfold LIST_NEXT.
    erewrite bind_ok by (erewrite bind_ok by (apply load_ok; exact Hx); reflexivity). rewrite next_set, <- head_app.
    apply IH; [done|lia|intros; apply Ht; set_solver|intros; apply Hb; set_solver|done].
Qed.

(** The elements visited by a loop. *)
Definition each (body : ptr -> M unit) (ls : list loc) : M unit :=
  foldr (fun l m => body (Some l) ;; m) (mret tt) ls.

Lemma foreach_loop_ok body (P : world -> Prop) q : forall fuel w,
  (forall v, P v -> seg (heap v) None q) ->
  (forall l v, l ∈ q.*1 -> P v -> exists v', body (Some l) v = (Ok tt, v') /\ P v') ->
  (length q < fuel)%nat -> P w -> foreach_loop (T := T) fuel (head_of None q) body w = each body q.*1 w.
Proof.
  induction q as [|[l x] q IH]; intros [|fuel] w Hs Hb Hf Hp; simpl in Hf; try lia; [done|].
  cbn [foreach_loop head_of each fmap list_fmap foldr fst]. destruct (Hb l w) as (v & E & Hv); [simpl; set_solver|done|].
  rewrite !(bind_ok _ _ _ _ _ E). destruct (Hs v Hv) as [Hx _]. unfold LIST_NEXT.
  erewrite bind_ok by (erewrite bind_ok by (apply load_ok; exact Hx); reflexivity). rewrite next_set.
  apply IH; [intros u Hu; by apply Hs|intros j u Hj; apply Hb; simpl; set_solver|lia|done].
Qed.

End lemmas.

(** ** Properties *)

Section properties.
Context `{Machine} {T : Type} `{Entry T}.
Implicit Types (w : world).

(** A list as a queue: an element comes in, or the first leaves. *)
Inductive list_op := Append (e : loc) | Take.

Definition run_op (name : loc) (op : list_op) : M ptr :=
  match op with
  | Append e => LIST_APPEND (T := T) (Some name) (Some e) ;; mret None
  | Take => LIST_DELETE_FIRST (T := T) (Some name)
  end.

Fixpoint run_list (name : loc) (ops : list list_op) : M (list ptr) :=
  match ops with
  | [] => mret []
  | op :: ops => r ← run_op name op; rs ← run_list name ops; mret (r :: rs)
  end.

(** The contract: what the operations return, and the elements at the end. *)
Fixpoint fifo (ops : list list_op) (q : list loc) : option (list ptr * list loc) :=
  match ops with
  | [] => Some ([], q)
  | Append e :: ops =>
      if decide (e ∈ q) then None else '(rs, q) ← fifo ops (q ++ [e]); Some (None :: rs, q)
  | Take :: ops =>
      match q with
      | [] => None
      | l :: q => '(rs, q) ← fifo ops q; Some (Some l :: rs, q)
      end
  end.

(** The elements of [pool] are in memory, with their contents. *)
Definition available (pool : list loc) (pay : loc -> T) (h : gmap loc obj) : Prop :=
  forall e, e ∈ pool -> exists p, h !! e = Some (inj (set_next p (pay e))).

Definition paid (pay : loc -> T) (q : list loc) : list (loc * T) := (fun l => (l, pay l)) <$> q.

Lemma paid_fst pay q : (paid pay q).*1 = q.
Proof. unfold paid. rewrite <- list_fmap_compose. by apply list_fmap_id. Qed.

Lemma listed_payload h name q1 e x y q2 :
  set_next None x = set_next None y -> listed (T := T) h name (q1 ++ (e, x) :: q2) -> listed h name (q1 ++ (e, y) :: q2).
Proof.
  intros Hxy [Hh Hs Hd]. assert (forall p, set_next p x = set_next p y) as Hp.
  { intros p. rewrite <- (set_set p None x), Hxy, set_set. done. }
  split.
  - rewrite Hh, !head_app. unfold tail_of. rewrite !last_app_cons, !last_cons. simpl. by destruct (last q2) as [[]|].
  - apply seg_app in Hs as [Ha [Hb Hc]]. apply seg_app. split; [exact Ha|]. split; [by rewrite <- Hp|done].
  - rewrite fmap_app in *. exact Hd.
Qed.

(** The elements stay available while their links change. *)
Lemma run_op_ok pool pay name op w q rs q' :
  name ∉ pool -> q ⊆ pool -> match op with Append e => e ∈ pool | Take => True end ->
  available pool pay (heap w) -> listed (heap w) name (paid pay q) -> fifo [op] q = Some (rs, q') ->
  exists r h', run_op name op w = (Ok r, set_heap h' w) /\ rs = [r] /\ q' ⊆ pool
    /\ available pool pay h' /\ listed h' name (paid pay q') /\ forall j, j ∉ name :: pool -> h' !! j = heap w !! j.
Proof.
  intros Hn Hq Hop Ha Hl Hf.
  assert (forall h', listed h' name (paid pay q') -> (forall j, j ∉ name :: q' -> h' !! j = heap w !! j) -> available pool pay h')
    as Hav.
  { intros h' [_ Hs _] Hsame e He. destruct (decide (e ∈ q')) as [Hi|Hi].
    - apply list_elem_of_split in Hi as (l1 & l2 & ->). unfold paid in Hs. rewrite fmap_app, seg_app in Hs.
      destruct Hs as [_ [He' _]]. by eexists.
    - rewrite Hsame by set_solver. by apply Ha. }
  destruct op as [e|].
  - simpl in Hf. case_decide as Hi; [done|]. injection Hf as <- <-. destruct (Ha e Hop) as [p He].
    destruct (LIST_APPEND_ok w name (paid pay q) e (set_next p (pay e)) Hl He) as (h' & E & Hl' & Hsame).
    { rewrite paid_fst. set_solver. }
    rewrite paid_fst in Hsame. exists None, h'. assert (listed h' name (paid pay (q ++ [e]))) as Hl2.
    { unfold paid. rewrite fmap_app. eapply listed_payload; [|exact Hl']. by rewrite set_set. }
    splits; [by simpl; erewrite bind_ok by exact E|done|set_solver| |done|].
    + apply Hav; [done|]. intros j Hj. apply Hsame. set_solver.
    + intros j Hj. apply Hsame. set_solver.
  - destruct q as [|l q]; [done|]. simpl in Hf. injection Hf as <- <-.
    destruct (LIST_DELETE_FIRST_ok w name l (pay l) (paid pay q) Hl) as [E Hl'].
    eexists _, _. split; [exact E|]. splits; [done|set_solver| |exact Hl'|].
    + apply Hav; [done|]. intros j Hj. apply lookup_insert_ne. set_solver.
    + intros j Hj. apply lookup_insert_ne. set_solver.
Qed.

Lemma fifo_cons op ops q rs q2 :
  fifo (op :: ops) q = Some (rs, q2) ->
  exists r q1 rs', fifo [op] q = Some ([r], q1) /\ fifo ops q1 = Some (rs', q2) /\ rs = r :: rs'.
Proof.
  destruct op as [e|]; simpl.
  - case_decide; [done|]. destruct (fifo ops (q ++ [e])) as [[rs' q']|] eqn:E; [|done]. intros [= <- <-].
    by exists None, (q ++ [e]), rs'.
  - destruct q as [|l q]; [done|]. destruct (fifo ops q) as [[rs' q']|] eqn:E; [|done]. intros [= <- <-].
    by exists (Some l), q, rs'.
Qed.

(** C29: lists made with LIST_INIT, LIST_APPEND and LIST_DELETE_FIRST are queues:
    for every run the contract allows, the macros return what the contract says,
    the list holds the elements that are left, in order, the elements keep what
    they carry, and nothing else in memory changes. *)
Theorem list_refines_fifo pool pay name ops w x rs q :
  heap w !! name = Some (OListHead x) -> name ∉ pool -> available pool pay (heap w) ->
  (forall e, Append e ∈ ops -> e ∈ pool) -> fifo ops [] = Some (rs, q) ->
  exists h', (LIST_INIT (Some name) ;; run_list name ops) w = (Ok rs, set_heap h' w)
    /\ listed h' name (paid pay q) /\ available pool pay h' /\ forall j, j ∉ name :: pool -> h' !! j = heap w !! j.
Proof.
  intros Hx Hn Ha Hops Hf. destruct (LIST_INIT_ok (T := T) w name x Hx) as [E0 Hl0]. erewrite bind_ok by exact E0.
  set (w0 := set_heap _ w).
  assert (available pool pay (heap w0)) as Ha0.
  { intros e He. simpl. rewrite lookup_insert_ne by (intros ->; done). by apply Ha. }
  assert (forall j, j ∉ name :: pool -> heap w0 !! j = heap w !! j) as Hs0.
  { intros j Hj. apply lookup_insert_ne. set_solver. }
  assert (forall q0 w0, q0 ⊆ pool -> available pool pay (heap w0) -> listed (heap w0) name (paid pay q0) ->
    fifo ops q0 = Some (rs, q) ->
    exists h', run_list name ops w0 = (Ok rs, set_heap h' w0) /\ listed h' name (paid pay q)
      /\ available pool pay h' /\ forall j, j ∉ name :: pool -> h' !! j = heap w0 !! j) as Hrun.
  { clear -Hn Hops. revert rs q. induction ops as [|op ops IH]; intros rs q q0 w0 Hq Ha Hl Hf.
    - injection Hf as <- <-. exists (heap w0). split; [by destruct w0|done].
    - apply fifo_cons in Hf as (r & q1 & rs' & F1 & F2 & ->).
      destruct (run_op_ok pool pay name op w0 q0 [r] q1 Hn Hq) as (r' & h1 & E1 & [= <-] & Hq1 & Ha1 & Hl1 & S1);
        [destruct op; [apply Hops; set_solver|done]|done..|].
      destruct (IH (fun e He => Hops e (list_elem_of_further _ _ _ He)) rs' q q1 (set_heap h1 w0)) as (h2 & E2 & Hl2 & Ha2 & S2);
        [done..|].
      exists h2. cbn [run_list]. erewrite bind_ok by exact E1. erewrite bind_ok by exact E2. splits; [done..|].
      intros j Hj. rewrite S2, <- S1 by done. done. }
  destruct (Hrun [] w0) as (h' & E & Hl & Ha' & Hs); [set_solver|done|exact Hl0|done|].
  exists h'. splits; [exact E|done|done|]. intros j Hj. by rewrite Hs, Hs0.
Qed.

(** The same list with an element outside of it changed. *)
Lemma listed_other h name (q : list (loc * T)) e o : e ∉ name :: q.*1 -> listed h name q -> listed (<[e := o]> h) name q.
Proof.
  intros Hn [Hh Hs Hd]. split; [by rewrite lookup_insert_ne by set_solver| |done].
  eapply seg_same; [|exact Hs]. intros j Hj. apply lookup_insert_ne. set_solver.
Qed.

Lemma link_empty w name e :
  listed (T := T) (heap w) name [] -> exists w', insert_link (T := T) (Some name) (Some e) None w = (Fault NullDeref, w').
Proof.
  intros Hl. unfold insert_link. erewrite bind_ok by (by apply head_load). cbn [lh_head].
  rewrite bool_decide_eq_true_2 by done. erewrite bind_ok by (apply (modify_ok (T := list_head)), (ls_head _ _ _ Hl)).
  rewrite bind_assoc. erewrite bind_ok by (apply (load_ok (T := list_head)), lookup_insert_eq). eexists. reflexivity.
Qed.

Lemma link_front w name e x l y (q : list (loc * T)) :
  listed (heap w) name ((l, y) :: q) -> heap w !! e = Some (inj x) -> e ∉ name :: ((l, y) :: q).*1 ->
  exists h', insert_link (T := T) (Some name) (Some e) (Some l) w = (Ok tt, set_heap h' w)
    /\ listed h' name ((e, x) :: (l, y) :: q).
Proof.
  intros Hl He Hn. assert (e <> name) as Hne by set_solver. pose proof (ls_nodup _ _ _ Hl) as [Hnn Hd]%NoDup_cons.
  unfold insert_link. erewrite bind_ok by (by apply head_load). cbn [lh_head head_of].
  rewrite bool_decide_eq_true_2 by done. erewrite bind_ok by (apply (modify_ok (T := list_head)), (ls_head _ _ _ Hl)).
  erewrite (bind_ok (mret tt)) by reflexivity. erewrite modify_ok by (simpl; rewrite lookup_insert_ne by done; exact He).
  eexists. split; [reflexivity|]. split.
  - simpl. rewrite lookup_insert_ne, lookup_insert_eq by done. unfold set_lh_head, tail_of. simpl.
    done.
  - split; [apply lookup_insert_eq|]. eapply seg_same; [|apply Hl]. intros j Hj.
    assert (j <> e /\ j <> name) as [Hj1 Hj2] by (split; intros ->; set_solver).
    cbn [heap set_heap]. by rewrite !lookup_insert_ne by done.
  - apply NoDup_cons. split; [simpl in *; set_solver|]. apply NoDup_cons. split; [set_solver|exact Hd].
Qed.

Lemma link_behind w name e x t y (q : list (loc * T)) :
  listed (heap w) name (q ++ [(t, y)]) -> heap w !! e = Some (inj x) -> e ∉ name :: (q ++ [(t, y)]).*1 ->
  exists h', insert_link (T := T) (Some name) (Some e) None w = (Ok tt, set_heap h' w)
    /\ listed h' name ((q ++ [(t, y)]) ++ [(e, x)]).
Proof.
  intros Hl He Hn. pose proof (head_load _ _ _ Hl) as Hld. assert (e <> name) as Hne by set_solver.
  destruct (listed_snoc _ _ _ _ _ e x Hl Hn) as (Htn & Het & Ht & Hl').
  unfold insert_link. erewrite bind_ok by exact Hld. cbn [lh_head].
  rewrite bool_decide_eq_false_2 by (by destruct (head_some None q t y) as [? ->]).
  erewrite (bind_ok (mret tt)) by reflexivity. rewrite bind_assoc. erewrite bind_ok by exact Hld. cbn [lh_tail].
  rewrite tail_snoc, bind_assoc. erewrite bind_ok by (apply modify_ok; exact Ht).
  erewrite bind_ok by (apply (modify_ok (T := list_head)); simpl; rewrite lookup_insert_ne by done; apply Hl).
  erewrite modify_ok by (simpl; rewrite !lookup_insert_ne by done; exact He).
  eexists. split; [reflexivity|]. simpl. rewrite set_set, insert_insert_ne by done. exact Hl'.
Qed.

Lemma link_between w name e x q1 l y (q2 : list (loc * T)) :
  q1 <> [] -> listed (heap w) name (q1 ++ (l, y) :: q2) -> heap w !! e = Some (inj x) ->
  e ∉ name :: (q1 ++ (l, y) :: q2).*1 ->
  exists h', insert_link (T := T) (Some name) (Some e) (Some l) w = (Ok tt, set_heap h' w)
    /\ listed h' name (q1 ++ (l, y) :: q2) /\ h' !! e = Some (inj (set_next (Some l) x)).
Proof.
  intros Hq Hl He Hn. unfold insert_link. erewrite bind_ok by (by apply head_load). cbn [lh_head].
  rewrite bool_decide_eq_false_2.
  2: { destruct q1 as [|[t z] q1]; [done|]. intros [= ->].
       pose proof (ls_nodup _ _ _ Hl) as [_ [Hd _]%NoDup_cons]%NoDup_cons. destruct Hd.
       change (t ∈ (q1 ++ (t, y) :: q2).*1). rewrite fmap_app. set_solver. }
  erewrite (bind_ok (mret tt)) by reflexivity. erewrite (bind_ok (mret tt)) by reflexivity.
  erewrite modify_ok by exact He. eexists. split; [reflexivity|]. split; [by apply listed_other|]. apply lookup_insert_eq.
Qed.

(** C38: LIST_INSERT_ORDER, by where the test first holds.  Before the first
    element the new one is put in front; nowhere, it is put behind the last; in
    between the list stays as it was: the new element points into it, but
    nothing points to the new element.  On an empty list the macro writes
    through the NULL tail. *)
Theorem LIST_INSERT_ORDER_outcomes fuel w name (q1 q2 : list (loc * T)) e x test (b : loc -> bool) :
  listed (heap w) name (q1 ++ q2) -> heap w !! e = Some (inj x) -> e ∉ name :: (q1 ++ q2).*1 ->
  (forall l, l ∈ (q1 ++ q2).*1 -> test (Some l) w = (Ok (b l), w)) ->
  (forall l, l ∈ q1.*1 -> b l = false) -> (forall l, head_of None q2 = Some l -> b l = true) ->
  (length q1 < fuel)%nat ->
  let run := LIST_INSERT_ORDER (T := T) fuel (Some name) (Some e) test w in
  match q1, q2 with
  | [], [] => exists w', run = (Fault NullDeref, w')
  | [], _ => exists h', run = (Ok tt, set_heap h' w) /\ listed h' name ((e, x) :: q2)
  | _, [] => exists h', run = (Ok tt, set_heap h' w) /\ listed h' name (q1 ++ [(e, x)])
  | _, _ => exists h', run = (Ok tt, set_heap h' w) /\ listed h' name (q1 ++ q2)
              /\ h' !! e = Some (inj (set_next (head_of None q2) x))
  end.
Proof.
  intros Hl He Hn Ht Hb1 Hb2 Hf run. pose proof (ls_seg _ _ _ Hl) as [Hs1 _]%seg_app.
  assert (run = insert_link (T := T) (Some name) (Some e) (head_of None q2) w) as ->.
  { unfold run, LIST_INSERT_ORDER. erewrite bind_ok by (by apply head_load). cbn [lh_head].
    erewrite bind_ok; [reflexivity|]. apply (insert_loop_ok w test b); [done|done| |done|].
    - intros l Hi. apply Ht. rewrite fmap_app. set_solver.
    - intros l Hi. rewrite <- (Hb2 l Hi). apply Ht. destruct q2 as [|[l' ?] q2]; [done|]. injection Hi as ->.
      rewrite fmap_app. set_solver. }
  destruct q1 as [|[t1 y1] q1'], q2 as [|[t2 y2] q2'].
  - by apply link_empty.
  - by apply link_front.
  - rewrite app_nil_r in *. destruct (exists_last (l := (t1, y1) :: q1')) as (q & [t y] & Eq); [done|].
    rewrite Eq in *. by apply link_behind.
  - by apply link_between.
Qed.

(** What is left of a heap when the elements are freed. *)
Definition emptied (name : loc) (ls : list loc) (h : gmap loc obj) : gmap loc obj :=
  foldr delete (<[name := OListHead (ListHead None None)]> h) ls.

Lemma emptied_cons name l ls o h :
  l <> name -> l ∉ ls -> emptied name ls (delete l (<[name := o]> h)) = emptied name (l :: ls) h.
Proof.
  intros Hl Hn. unfold emptied. simpl. rewrite <- delete_insert_ne, insert_insert_eq by done.
  induction ls as [|k ls IH]; [done|]. simpl. apply not_elem_of_cons in Hn as [Hk Hn].
  rewrite IH by done. by rewrite delete_delete_eq || by rewrite delete_delete.
Qed.

(** The loops of the lists come to an end, with one turn per element and
    one to see that there is none left.  LIST_FOREACH runs its body once for
    each element, in order, if the body keeps the list.  LIST_DELETE runs the
    instructions for each element, in order, frees them all and leaves an empty
    list. *)
Theorem list_loops_end w name (q : list (loc * T)) body (P : world -> Prop) instructions (tr : loc -> list event) fuel :
  listed (heap w) name q -> (length q < fuel)%nat ->
  ((forall v, P v -> listed (heap v) name q) ->
   (forall l v, l ∈ q.*1 -> P v -> exists v', body (Some l) v = (Ok tt, v') /\ P v') -> P w ->
   LIST_FOREACH (T := T) fuel (Some name) body w = each body q.*1 w) /\
  ((forall l v, l ∈ q.*1 -> instructions (Some l) v = (Ok tt, World (heap v) (brk v) (errno v) (trace v ++ tr l))) ->
   LIST_DELETE (T := T) fuel (Some name) instructions w
   = (Ok tt, World (emptied name q.*1 (heap w)) (brk w) (errno w) (trace w ++ (q.*1 ≫= tr)))).
Proof.
  intros Hl Hf. split.
  - intros HP Hb Hw. unfold LIST_FOREACH. erewrite bind_ok by (by apply head_load).
    apply (foreach_loop_ok body P); [intros v Hv; by apply (ls_seg _ name), HP|done|done|done].
  - revert w q Hl Hf. induction fuel as [|fuel IH]; intros w q Hl Hf Hi; [lia|]. cbn [LIST_DELETE]. unfold LIST_EMPTY.
    erewrite bind_ok by (erewrite bind_ok by (by apply head_load); reflexivity). cbn [lh_head].
    destruct q as [|[l x] q].
    { simpl. rewrite ret_ok, app_nil_r. unfold emptied. simpl. rewrite insert_id by apply Hl. by destruct w. }
    pose proof (ls_nodup _ _ _ Hl) as [Hn [Hnl Hd]%NoDup_cons]%NoDup_cons. cbn [head_of].
    destruct (LIST_DELETE_FIRST_ok w name l x q Hl) as [E Hl']. erewrite bind_ok by exact E.
    erewrite bind_ok by (apply Hi; simpl; set_solver).
    assert (l <> name) as Hne by (simpl in *; set_solver).
    erewrite bind_ok by (apply (free_ok (T := T) l _ (set_next (head_of None q) x)); simpl;
      rewrite lookup_insert_ne by done; apply Hl).
    rewrite (IH _ q); [| |simpl in Hf; lia|intros; apply Hi; simpl; set_solver].
    + simpl. rewrite emptied_cons, <- app_assoc by done. done.
    + destruct Hl' as [Hh Hs _]. cbn [heap set_heap]. split; [rewrite lookup_delete_ne by done; exact Hh| |apply NoDup_cons; simpl in *; set_solver].
      eapply seg_same; [|exact Hs]. intros j Hj. apply lookup_delete_ne. intros ->. done.
Qed.

End properties.

(** ** The macros at a list of interfaces *)

Module ListsSample.

#[local] Existing Instance strict_machine.

Definition interface (l : loc) : ifList :=
  IfList (Ifaddrs (if decide (l = 2%positive) then "lo" else "eth0") (Some (Zpos l)) 0) None.
Definition memory (n : list_head) (p2 p3 p4 : ptr) : world :=
  test_world [(1%positive, OListHead n); (2%positive, OIfList (set_next p2 (interface 2)));
              (3%positive, OIfList (set_next p3 (interface 3))); (4%positive, OIfList (set_next p4 (interface 4)))] 5.
Definition pool : list loc := [2; 3; 4]%positive.
Definition garbage : world := memory (ListHead (Some 9%positive) (Some 9%positive)) (Some 9%positive) None (Some 2%positive).
Definition ops : list list_op := [Append 2; Append 3; Take; Append 4; Append 2].

Lemma list_refines_fifo_witness :
  exists h', (LIST_INIT (Some 1%positive) ;; run_list (T := ifList) 1 ops) garbage
      = (Ok [None; None; Some 2%positive; None; None], set_heap h' garbage)
    /\ listed h' 1 (paid interface [3; 4; 2]%positive).
Proof.
  destruct (list_refines_fifo (T := ifList) pool interface 1 ops garbage (ListHead (Some 9%positive) (Some 9%positive))
    [None; None; Some 2%positive; None; None] [3; 4; 2]%positive) as (h' & E & Hl & _).
  - done.
  - by apply (bool_decide_unpack _).
  - intros e He. unfold pool in He. rewrite !elem_of_cons in He. destruct He as [->|[->|[->|[]%elem_of_nil]]]; eexists; reflexivity.
  - intros e He. unfold ops in He. unfold pool. rewrite !elem_of_cons in He. rewrite !elem_of_cons.
    destruct He as [[= ->]|[[= ->]|[?|[[= ->]|[[= ->]|[]%elem_of_nil]]]]]; tauto || done.
  - by vm_compute.
  - exists h'. exact (conj E Hl).
Defined.

(** Interfaces 2 and 3 in a list. *)
Definition two : world := memory (ListHead (Some 2%positive) (Some 3%positive)) (Some 3%positive) None None.
Definition both : list (loc * ifList) := [(2%positive, interface 2); (3%positive, interface 3)].

Lemma two_listed : listed (heap two) 1 both.
Proof. split; [done|done|]. by apply (bool_decide_unpack _). Qed.

(** Interface 4 should go before interface 3: it gets lost. *)
Definition before (k : loc) (var : ptr) : M bool := mret (bool_decide (var = Some k)).

Lemma LIST_INSERT_ORDER_outcomes_witness :
  exists h', LIST_INSERT_ORDER (T := ifList) 3 (Some 1%positive) (Some 4%positive) (before 3) two = (Ok tt, set_heap h' two)
    /\ listed h' 1 both /\ h' !! 4%positive = Some (OIfList (set_next (Some 3%positive) (interface 4))).
Proof.
  destruct (LIST_INSERT_ORDER_outcomes 3 two 1 [(2%positive, interface 2)] [(3%positive, interface 3)] 4 (interface 4)
    (before 3) (fun l => bool_decide (Some l = Some 3%positive)) two_listed) as (h & E & Hl & He).
  - done.
  - by apply (bool_decide_unpack _).
  - done.
  - intros l Hl. apply list_elem_of_singleton in Hl as ->. done.
  - intros l [= <-]. done.
  - simpl. lia.
  - exists h. exact (conj E (conj Hl He)).
Defined.

Definition note (var : ptr) : M unit := emit (LFree var).

Lemma list_loops_end_witness :
  LIST_FOREACH (T := ifList) 3 (Some 1%positive) note two = each note [2; 3]%positive two
  /\ LIST_DELETE (T := ifList) 3 (Some 1%positive) note two
     = (Ok tt, World (emptied 1 [2; 3]%positive (heap two)) 5 0 [LFree (Some 2%positive); LFree (Some 3%positive)]).
Proof.
  destruct (list_loops_end two 1 both note (fun v => heap v = heap two) note (fun l => [LFree (Some l)]) 3) as [F D];
    [apply two_listed|simpl; lia|].
  split; [apply F|apply D].
  - intros v ->. apply two_listed.
  - intros l v _ Hv. eexists. split; [reflexivity|exact Hv].
  - done.
  - intros l v _. reflexivity.
Defined.

End ListsSample.
