(* ===== verification/Message.v ===== *)
(** * Message: taps_message.c

    A message is a vector of buffers.  The buffers' bytes belong to the
    application: a vector is described by the addresses it covers. *)

From S2P Require Import Prelude Structs Memory.
Local Open Scope Z_scope.

Section message.
Context `{Machine}.

(** The array a message uses: [(m->list) ? m->list : &(m->buf)]. *)
Definition m_array (m : tapsMessage) : list iovec :=
  match m_list m with Some l => l | None => [m_buf m] end.

Definition set_m_array (a : list iovec) (m : tapsMessage) : tapsMessage :=
  match m_list m with
  | Some _ => Message (m_buf m) (Some a) (m_iovcnt m)
  | None => Message (default (m_buf m) (head a)) None (m_iovcnt m)
  end.

Definition set_m_iovcnt (n : Z) (m : tapsMessage) : tapsMessage :=
  Message (m_buf m) (m_list m) n.

(** [buf[row].iov_len], inside the array or past its end. *)
Definition iov_len_at (a : list iovec) (row : Z) : M Z := fun w =>
  match (if row <? 0 then None else a !! Z.to_nat row) with
  | Some v => (Ok (iov_len v), w)
  | None => match wild row with
            | Some n => (Ok n, w)
            | None => (Fault OutOfBounds, w)
            end
  end.

Definition tapsMessageNew (data len : Z) : M ptr :=
  m ← malloc tapsMessage;
  match m with
  | None => set_errno ENOMEM ;; mret None
  | Some _ =>
      modify m (fun x => Message (Iovec data len) (m_list x) (m_iovcnt x)) ;;
      modify m (fun x => Message (m_buf x) None (m_iovcnt x)) ;;
      modify m (set_m_iovcnt 1) ;;
      mret m
  end.

(** Returns the buffer and, through [len], its length. *)
Definition tapsMessageGetFirstBuf (message : ptr) : M (Z * Z) :=
  m ← load message;
  len ← iov_len_at (m_array m) 0;
  mret (iov_base (default zero_iovec (head (m_array m))), len).

(** Returns the vector and, through [iovcnt], its count. *)
Definition tapsMessageGetIovec (message : ptr) : M (iovptr * Z) :=
  m ← (load message : M tapsMessage);
  match message with
  | Some l => mret (IovMessage l, m_iovcnt m)
  | None => throw NullDeref
  end.

(** The loop of [tapsMessageTruncate]: it stops at the row that holds the last
    byte kept, or at [iovcnt].  [fuel] bounds the iterations. *)
Fixpoint truncate_loop (fuel : nat) (a : list iovec) (iovcnt remaining row : Z) : M (Z * Z) :=
  match fuel with
  | O => throw OutOfFuel
  | S fuel =>
      n ← iov_len_at a row;
      if (n <? remaining) && (row <? iovcnt)
      then truncate_loop fuel a iovcnt (size_t (remaining - n)) (row + 1)
      else mret (remaining, row)
  end.

Definition truncate_fuel (m : tapsMessage) : nat := S (Z.to_nat (m_iovcnt m)).

Definition tapsMessageTruncate (message : ptr) (length : Z) : M unit :=
  m ← (load message : M tapsMessage);
  '(remaining, row) ← truncate_loop (truncate_fuel m) (m_array m) (m_iovcnt m) length 0;
  if row =? m_iovcnt m
  then modify message (set_m_iovcnt 0)
  else
    modify message (set_m_iovcnt (row + 1)) ;;
    modify message (fun m => set_m_array (alter (set_iov_len remaining) (Z.to_nat row) (m_array m)) m).

Definition tapsMessageFree (message : ptr) : M unit :=
  m ← (load message : M tapsMessage);
  free tapsMessage message.

End message.

(** ** What a vector covers *)

(** The addresses of the bytes of a buffer, of an array, of a message. *)
Definition iov_bytes (v : iovec) : list Z := seqZ (iov_base v) (iov_len v).
Definition vec_bytes (a : list iovec) : list Z := concat (map iov_bytes a).
Definition m_bytes (m : tapsMessage) : list Z :=
  vec_bytes (take (Z.to_nat (m_iovcnt m)) (m_array m)).

(** The number of bytes of an array. *)
Fixpoint vec_len (a : list iovec) : Z :=
  match a with [] => 0 | v :: r => iov_len v + vec_len r end.

Definition iov_ok (v : iovec) : Prop := 0 <= iov_len v.

(** A message as the library builds them: the array holds at least [iovcnt]
    rows, lengths are [size_t] values, and so is their sum. *)
Definition m_ok (m : tapsMessage) : Prop :=
  0 <= m_iovcnt m <= Z.of_nat (length (m_array m)) /\
  Forall iov_ok (m_array m) /\
  vec_len (m_array m) < 2 ^ 64.

(** The reference definition of truncation: keep the first [n] bytes. *)
Fixpoint vec_truncate (n : Z) (a : list iovec) : list iovec :=
  match a with
  | [] => []
  | v :: r => if iov_len v <? n then v :: vec_truncate (n - iov_len v) r
              else [set_iov_len n v]
  end.

(** ** Lemmas on vectors *)

Section vectors.

Lemma vec_len_nonneg a : Forall iov_ok a -> 0 <= vec_len a.
Proof. induction 1 as [|v a Hv _ IH]; simpl; [lia|]. unfold iov_ok in Hv. lia. Qed.

Lemma vec_len_app a b : vec_len (a ++ b) = vec_len a + vec_len b.
Proof. induction a; simpl; lia. Qed.

Lemma length_vec_bytes a : Forall iov_ok a -> Z.of_nat (length (vec_bytes a)) = vec_len a.
Proof.
  induction 1 as [|v a Hv _ IH]; [done|].
  unfold vec_bytes in *. simpl. rewrite length_app, Nat2Z.inj_add, IH.
  unfold iov_bytes. rewrite length_seqZ. unfold iov_ok in Hv. lia.
Qed.

Lemma take_seqZ base len n :
  0 <= n <= len -> take (Z.to_nat n) (seqZ base len) = seqZ base n.
Proof.
  intros. replace len with (n + (len - n)) by lia.
  rewrite seqZ_app by lia. rewrite take_app_le; rewrite ?length_seqZ; [|lia].
  apply take_ge. rewrite length_seqZ. lia.
Qed.

Lemma drop_seqZ base len n :
  0 <= n <= len -> drop (Z.to_nat n) (seqZ base len) = seqZ (base + n) (len - n).
Proof.
  intros. replace len with (n + (len - n)) at 1 by lia.
  rewrite seqZ_app by lia. rewrite drop_app_ge; rewrite ?length_seqZ; [|lia].
  by rewrite Nat.sub_diag.
Qed.

(** The reference truncation keeps a prefix of the addresses. *)
Lemma vec_truncate_bytes a n :
  Forall iov_ok a -> 0 <= n <= vec_len a ->
  vec_bytes (vec_truncate n a) = take (Z.to_nat n) (vec_bytes a).
Proof.
  intros Ha. revert n. induction Ha as [|v a Hv Ha IH]; intros n Hn; simpl in *.
  - by replace n with 0 by lia.
  - unfold iov_ok in Hv. unfold vec_bytes in *.
    destruct (Z.ltb_spec (iov_len v) n).
    + simpl. rewrite IH by lia.
      rewrite take_app_ge by (unfold iov_bytes; rewrite length_seqZ; lia).
      f_equal. unfold iov_bytes. rewrite length_seqZ. f_equal. lia.
    + simpl. rewrite app_nil_r.
      rewrite take_app_le by (unfold iov_bytes; rewrite length_seqZ; lia).
      unfold iov_bytes, set_iov_len. simpl. by rewrite take_seqZ by lia.
Qed.

End vectors.

(** ** Truncation *)

Section truncate.
Context `{Machine}.

Lemma iov_len_at_in a pre v suf w :
  a = pre ++ v :: suf ->
  iov_len_at a (Z.of_nat (length pre)) w = (Ok (iov_len v), w).
Proof.
  intros ->. unfold iov_len_at. rewrite (proj2 (Z.ltb_ge _ _)) by lia.
  by rewrite Nat2Z.id, list_lookup_middle.
Qed.

(** While enough bytes remain, the loop ends inside the array, on the row the
    reference truncation cuts. *)
Lemma truncate_loop_in a cnt suf : forall fuel pre n w,
  a = pre ++ suf -> (length pre < cnt <= length a)%nat -> (cnt - length pre < fuel)%nat ->
  Forall iov_ok suf -> 0 <= n < 2 ^ 64 -> n <= vec_len (take (cnt - length pre) suf) ->
  exists k v r, suf !! k = Some v /\ (length pre + k < cnt)%nat /\ 0 <= r <= iov_len v /\
    vec_truncate n suf = take k suf ++ [set_iov_len r v] /\
    truncate_loop fuel a (Z.of_nat cnt) n (Z.of_nat (length pre)) w
      = (Ok (r, Z.of_nat (length pre + k)), w).
Proof.
  induction suf as [|v suf IH]; intros fuel pre n w -> Hc Hf Hok Hn Hlen.
  { rewrite length_app in Hc. simpl in Hc. lia. }
  destruct fuel as [|fuel]; [lia|].
  apply Forall_cons in Hok as [Hv Hok]. unfold iov_ok in Hv.
  cbn [truncate_loop]. erewrite bind_ok by (by eapply iov_len_at_in).
  destruct (Z.ltb_spec (iov_len v) n) as [Hlt|Hge]; simpl.
  - destruct (Z.ltb_spec (Z.of_nat (length pre)) (Z.of_nat cnt)); [|lia].
    replace (cnt - length pre)%nat with (S (cnt - length (pre ++ [v]))) in Hlen
      by (rewrite length_app; simpl; lia).
    simpl in Hlen.
    destruct (IH fuel (pre ++ [v]) (n - iov_len v) w) as (k & v' & r & Hk & Hlt' & Hr & Ht & E).
    + by rewrite <- app_assoc.
    + rewrite !length_app in *. simpl in *. split; [|lia].
      destruct (decide (cnt = length pre + 1)%nat); [|lia]. subst. exfalso.
      replace (_ - _)%nat with 0%nat in Hlen by lia. simpl in Hlen. lia.
    + rewrite length_app. simpl. lia.
    + done.
    + lia.
    + lia.
    + exists (S k), v', r. rewrite length_app in *. simpl in *.
      splits; [done|lia|lia|lia| |].
      * destruct (Z.ltb_spec (iov_len v) n); [|lia]. by rewrite Ht.
      * rewrite wrap_small by lia.
        replace (Z.of_nat (length pre) + 1) with (Z.of_nat (length pre + 1)) by lia.
        rewrite E. do 3 f_equal. lia.
  - exists 0%nat, v, n. simpl. splits; [done|lia|lia|lia| |].
    + destruct (Z.ltb_spec (iov_len v) n); [lia|done].
    + rewrite Nat.add_0_r. done.
Qed.

(** When the bytes run out, the loop has gone through every row of the message
    and has read the length of the row behind the last one. *)
Lemma truncate_loop_out a cnt suf : forall fuel pre n w,
  a = pre ++ suf -> (length pre <= cnt <= length a)%nat -> (cnt - length pre < fuel)%nat ->
  Forall iov_ok suf -> 0 <= n < 2 ^ 64 -> vec_len (take (cnt - length pre) suf) < n ->
  exists r, truncate_loop fuel a (Z.of_nat cnt) n (Z.of_nat (length pre)) w
      = match iov_len_at a (Z.of_nat cnt) w with
        | (Ok _, w') => (Ok (r, Z.of_nat cnt), w')
        | (Fault f, w') => (Fault f, w')
        end.
Proof.
  induction suf as [|v suf IH]; intros fuel pre n w Ea Hc Hf Hok Hn Hlen;
    (destruct fuel as [|fuel]; [lia|]);
    (destruct (decide (length pre = cnt)) as [->|];
     [exists n; cbn [truncate_loop]; unfold mbind, M_bind;
      destruct (iov_len_at _ _ w) as [[z|f] w']; [|done];
      by rewrite Z.ltb_irrefl, andb_false_r|]).
  { subst a. rewrite length_app in Hc. simpl in Hc. lia. }
  apply Forall_cons in Hok as [Hv Hok]. unfold iov_ok in Hv.
  replace (cnt - length pre)%nat with (S (cnt - length (pre ++ [v]))) in Hlen
    by (rewrite length_app; simpl; lia).
  simpl in Hlen.
  assert (0 <= vec_len (take (cnt - length (pre ++ [v])) suf)) by (by apply vec_len_nonneg, Forall_take).
  cbn [truncate_loop]. erewrite bind_ok by (by eapply iov_len_at_in).
  destruct (Z.ltb_spec (iov_len v) n); [|lia].
  destruct (Z.ltb_spec (Z.of_nat (length pre)) (Z.of_nat cnt)); [|lia]. simpl.
  rewrite wrap_small by lia.
  replace (Z.of_nat (length pre) + 1) with (Z.of_nat (length (pre ++ [v])))
    by (rewrite length_app; simpl; lia).
  eapply IH; try done.
  - by rewrite <- app_assoc.
  - rewrite length_app. simpl. lia.
  - rewrite length_app. simpl. lia.
  - lia.
  - lia.
Qed.

End truncate.

Arguments truncate_loop : simpl never.

(** ** The operations on a message in memory *)

Section operations.
Context `{Machine}.

Lemma vec_bytes_app a b : vec_bytes (a ++ b) = vec_bytes a ++ vec_bytes b.
Proof. unfold vec_bytes. by rewrite map_app, concat_app. Qed.

Lemma take_vec_bytes a k n :
  Forall iov_ok a -> 0 <= n <= vec_len (take k a) ->
  take (Z.to_nat n) (vec_bytes a) = take (Z.to_nat n) (vec_bytes (take k a)).
Proof.
  intros Ha Hn. rewrite <- (take_drop k a) at 1. rewrite vec_bytes_app.
  apply take_app_le. apply (Forall_take _ k) in Ha.
  pose proof (length_vec_bytes _ Ha). lia.
Qed.

Lemma m_array_set a m :
  length a = length (m_array m) -> m_array (set_m_array a m) = a.
Proof.
  unfold m_array, set_m_array. destruct m as [b [l|] c]; simpl; [done|].
  destruct a as [|v [|]]; done.
Qed.

Lemma m_iovcnt_set_array a m : m_iovcnt (set_m_array a m) = m_iovcnt m.
Proof. unfold set_m_array. by destruct (m_list m). Qed.

Lemma m_array_set_iovcnt n m : m_array (set_m_iovcnt n m) = m_array m.
Proof. done. Qed.

Lemma take_S_alter {A} (f : A -> A) (a : list A) k v :
  a !! k = Some v -> take (S k) (alter f k a) = take k a ++ [f v].
Proof.
  intros Hk. erewrite take_S_r by (rewrite list_lookup_alter_eq, Hk; done).
  rewrite take_alter_ge by lia. done.
Qed.

Lemma vec_len_alter a k v r :
  a !! k = Some v -> vec_len (alter (set_iov_len r) k a) = vec_len a - iov_len v + r.
Proof.
  revert k. induction a as [|x a IH]; intros [|k] E; simplify_eq/=; [lia|].
  specialize (IH _ E). simpl. lia.
Qed.

Lemma set_heap_twice h1 h2 w : set_heap h2 (set_heap h1 w) = set_heap h2 w.
Proof. done. Qed.

Lemma iov_ok_alter a k v r :
  Forall iov_ok a -> a !! k = Some v -> 0 <= r ->
  Forall iov_ok (alter (set_iov_len r) k a).
Proof. intros Ha Hk Hr. apply Forall_alter; [done|]. intros. done. Qed.

(** Messages hold the well-formedness the library builds them with. *)
Lemma tapsMessageNew_ok data len w :
  0 <= len < 2 ^ 64 -> malloc_ok (brk w) = true ->
  exists m, tapsMessageNew data len w
    = (Ok (Some (brk w)), World (<[brk w := OMessage m]> (heap w)) (Pos.succ (brk w)) (errno w) (trace w))
    /\ m = Message (Iovec data len) None 1 /\ m_ok m /\ m_bytes m = seqZ data len.
Proof.
  intros Hlen Hm. eexists. splits.
  - unfold tapsMessageNew. erewrite bind_ok by (by apply malloc_succeeds).
    steps. rewrite !set_heap_twice. simpl. rewrite !insert_insert_eq. done.
  - done.
  - split; [simpl; lia|]. split; [|simpl; lia]. repeat constructor. unfold iov_ok. simpl. lia.
  - unfold m_bytes, vec_bytes, iov_bytes. simpl. apply app_nil_r.
Qed.

(** Truncating to a length the message has. *)
Lemma tapsMessageTruncate_prefix l m n w :
  heap w !! l = Some (OMessage m) -> m_ok m -> 1 <= m_iovcnt m ->
  0 <= n <= vec_len (take (Z.to_nat (m_iovcnt m)) (m_array m)) ->
  exists m', tapsMessageTruncate (Some l) n w
      = (Ok tt, set_heap (<[l := OMessage m']> (heap w)) w)
    /\ m_ok m' /\ 1 <= m_iovcnt m'
    /\ m_bytes m' = take (Z.to_nat n) (m_bytes m).
Proof.
  intros Hl (Hc & Hok & Hsum) H1 Hn.
  destruct (Z_of_nat_complete (m_iovcnt m)) as [cnt Ecnt]; [lia|].
  assert (vec_len (take (Z.to_nat (m_iovcnt m)) (m_array m)) <= vec_len (m_array m)).
  { rewrite <- (take_drop (Z.to_nat (m_iovcnt m)) (m_array m)) at 2. rewrite vec_len_app.
    pose proof (vec_len_nonneg _ (Forall_drop _ (Z.to_nat (m_iovcnt m)) _ Hok)). lia. }
  destruct (truncate_loop_in (m_array m) cnt (m_array m) (truncate_fuel m) [] n w)
    as (k & v & r & Hk & Hkc & Hr & Ht & E); simpl in *; unfold truncate_fuel; try done; try lia.
  { replace (cnt - 0)%nat with (Z.to_nat (m_iovcnt m)) by lia. lia. }
  rewrite <- Ecnt in E.
  eexists. splits.
  - unfold tapsMessageTruncate. steps. erewrite bind_ok by exact E. simpl.
    rewrite (proj2 (Z.eqb_neq _ _)) by lia. steps. rewrite insert_insert_eq. done.
  - rewrite Nat2Z.id. split; [|rewrite m_array_set by (by rewrite length_alter); split].
    + rewrite m_array_set, m_iovcnt_set_array by (by rewrite length_alter). simpl.
      rewrite length_alter, m_array_set_iovcnt. lia.
    + eapply iov_ok_alter; [done|exact Hk|lia].
    + rewrite m_array_set_iovcnt. erewrite vec_len_alter by exact Hk. lia.
  - rewrite m_iovcnt_set_array. simpl. lia.
  - unfold m_bytes. rewrite m_iovcnt_set_array, m_array_set by (by rewrite length_alter).
    simpl. rewrite m_array_set_iovcnt, Nat2Z.id.
    replace (Z.to_nat (Z.of_nat k + 1)) with (S k) by lia.
    erewrite take_S_alter by exact Hk. rewrite <- Ht.
    rewrite vec_truncate_bytes by (done || lia). by apply take_vec_bytes.
Qed.

(** Truncating to a length beyond its bytes. *)
Lemma tapsMessageTruncate_overlong l m n w :
  heap w !! l = Some (OMessage m) -> m_ok m -> 0 <= n < 2 ^ 64 ->
  vec_len (take (Z.to_nat (m_iovcnt m)) (m_array m)) < n ->
  tapsMessageTruncate (Some l) n w
  = match iov_len_at (m_array m) (m_iovcnt m) w with
    | (Ok _, _) => (Ok tt, set_heap (<[l := OMessage (set_m_iovcnt 0 m)]> (heap w)) w)
    | (Fault f, _) => (Fault f, w)
    end.
Proof.
  intros Hl (Hc & Hok & Hsum) Hn Hlen.
  destruct (Z_of_nat_complete (m_iovcnt m)) as [cnt Ecnt]; [lia|].
  destruct (truncate_loop_out (m_array m) cnt (m_array m) (truncate_fuel m) [] n w)
    as (r & E); simpl; unfold truncate_fuel; try done; try lia.
  { replace (cnt - 0)%nat with (Z.to_nat (m_iovcnt m)) by lia. done. }
  rewrite <- Ecnt in E. unfold tapsMessageTruncate. steps.
  assert (snd (iov_len_at (m_array m) (m_iovcnt m) w) = w) as Ew.
  { unfold iov_len_at. by repeat case_match. }
  destruct (iov_len_at _ _ w) as [[z|f] w'] eqn:Ez; simpl in Ew; subst w'.
  - erewrite bind_ok by exact E. simpl. rewrite Z.eqb_refl. by steps.
  - by erewrite bind_fault by exact E.
Qed.

(** C19: truncating a well-formed message to a length it has keeps exactly the
    bytes before that length, and the message stays well-formed.  A length
    beyond its bytes empties it: the loop reads the row behind the last one
    and, whatever it finds there, the count becomes 0. *)
Theorem tapsMessageTruncate_cuts l m n w :
  heap w !! l = Some (OMessage m) -> m_ok m -> 1 <= m_iovcnt m -> 0 <= n < 2 ^ 64 ->
  let len := vec_len (take (Z.to_nat (m_iovcnt m)) (m_array m)) in
  (n <= len -> exists m', tapsMessageTruncate (Some l) n w = (Ok tt, set_heap (<[l := OMessage m']> (heap w)) w)
     /\ m_ok m' /\ 1 <= m_iovcnt m' /\ m_bytes m' = take (Z.to_nat n) (m_bytes m))
  /\ (len < n -> tapsMessageTruncate (Some l) n w
     = match iov_len_at (m_array m) (m_iovcnt m) w with
       | (Ok _, _) => (Ok tt, set_heap (<[l := OMessage (set_m_iovcnt 0 m)]> (heap w)) w)
       | (Fault f, _) => (Fault f, w)
       end).
Proof.
  intros Hl Hok H1 Hn len. split; intros Hlen.
  - apply tapsMessageTruncate_prefix; [done..|lia].
  - by apply tapsMessageTruncate_overlong.
Qed.

End operations.

(** ** The properties at a sample message *)

Module MessageSample.

#[local] Instance reading_machine : Machine := test_machine (fun _ => None) (fun _ => Some 0).

(** Two buffers of 4 and 6 bytes. *)
Definition two_rows : tapsMessage := Message zero_iovec (Some [Iovec 100 4; Iovec 200 6]) 2.
Definition state : world := test_world [(1%positive, OMessage two_rows)] 2.

Lemma two_rows_ok : m_ok two_rows.
Proof. split; [simpl; lia|]. split; [|simpl; lia]. repeat constructor; unfold iov_ok; simpl; lia. Qed.

Lemma tapsMessageTruncate_cuts_witness :
  (exists m', tapsMessageTruncate (Some 1%positive) 7 state
      = (Ok tt, set_heap (<[1%positive := OMessage m']> (heap state)) state)
    /\ m_ok m' /\ 1 <= m_iovcnt m' /\ m_bytes m' = [100; 101; 102; 103; 200; 201; 202])
  /\ tapsMessageTruncate (Some 1%positive) 11 state
     = (Ok tt, set_heap (<[1%positive := OMessage (set_m_iovcnt 0 two_rows)]> (heap state)) state).
Proof.
  split.
  - apply (tapsMessageTruncate_cuts 1 two_rows 7 state); first [apply two_rows_ok|reflexivity|simpl; lia].
  - rewrite (proj2 (tapsMessageTruncate_cuts 1 two_rows 11 state eq_refl two_rows_ok ltac:(simpl; lia) ltac:(lia)));
      [reflexivity|simpl; lia].
Defined.

End MessageSample.
