(* ===== verification/Queue.v ===== *)
(** * Queue: the doubly linked queues of taps_connection.c

    [ADD_ITEM] and [DELETE_ITEM] as the macros expand: an argument of a macro
    is an expression, evaluated again at each of its uses.  A queue is known by
    the pointer to its last item, the [tail], which is a field of a structure. *)

From S2P Require Import Prelude Structs Memory.

(** ** Definitions *)

(** A structure with [next] and [prev] fields. *)
Class Linked (T : Type) `{Object T} := {
  nxt : T -> ptr;
  prv : T -> ptr;
  set_links : ptr -> ptr -> T -> T;
  nxt_links n p x : nxt (set_links n p x) = n;
  prv_links n p x : prv (set_links n p x) = p;
  links_links n p n' p' x : set_links n p (set_links n' p' x) = set_links n p x;
}.

Definition set_nxt {T} `{Linked T} (n : ptr) (x : T) : T := set_links n (prv x) x.
Definition set_prv {T} `{Linked T} (p : ptr) (x : T) : T := set_links (nxt x) p x.

#[export] Instance send_linked : Linked send_item.
Proof.
  refine {| nxt := s_next; prv := s_prev; set_links := set_s_links |}; abstract done.
Defined.

#[export] Instance recv_linked : Linked recv_item.
Proof.
  refine {| nxt := r_next; prv := r_prev; set_links := set_r_links |}; abstract done.
Defined.

(** A pointer field of a structure, and the lvalue [p->field]. *)
Record field (S : Type) := Field {
  f_get : S -> ptr;
  f_set : ptr -> S -> S;
  f_get_set p s : f_get (f_set p s) = p;
}.
Arguments f_get {S}.
Arguments f_set {S}.
Arguments f_get_set {S}.

Definition sndq : field tapsConnection := Field _ c_sndq set_c_sndq (fun _ _ => eq_refl).
Definition rcvq : field tapsConnection := Field _ c_rcvq set_c_rcvq (fun _ _ => eq_refl).

Section macros.
Context `{Machine} {St : Type} `{Object St}.
Context (T : Type) `{Linked T}.

Definition lv_get (f : field St) (p : ptr) : M ptr := s ← load p; mret (f_get f s).
Definition lv_set (f : field St) (p q : ptr) : M unit := modify p (f_set f q).

(** [ADD_ITEM(type, p->f)]; the result is [newItem]. *)
Definition ADD_ITEM (f : field St) (p : ptr) : M ptr :=
  newItem ← malloc T;
  match newItem with
  | None => mret tt
  | Some _ =>
      modify newItem (set_nxt None : T -> T) ;;
      tail ← lv_get f p;
      modify newItem (set_prv tail : T -> T) ;;
      tail ← lv_get f p;
      match tail with
      | None => mret tt
      | Some _ => tail ← lv_get f p; modify tail (set_nxt newItem : T -> T)
      end ;;
      lv_set f p newItem
  end ;;
  mret newItem.

(** [(item)->prev] and [(item)->next]. *)
Definition rd (item : M ptr) (get : T -> ptr) : M ptr :=
  i ← item; x ← load i; mret (get x).

(** [DELETE_ITEM(item, &(p->f))]. *)
Definition DELETE_ITEM (item : M ptr) (f : field St) (p : ptr) : M unit :=
  pv ← rd item prv;
  match pv with
  | None => mret tt
  | Some _ => pv ← rd item prv; nx ← rd item nxt; modify pv (set_nxt nx : T -> T)
  end ;;
  nx ← rd item nxt;
  match nx with
  | Some _ => nx ← rd item nxt; pv ← rd item prv; modify nx (set_prv pv : T -> T)
  | None => pv ← rd item prv; lv_set f p pv
  end ;;
  i ← item; free T i.

End macros.

(** ** Representation *)

Section rep.
Context {T : Type} `{Linked T}.

Definition first_of (nx : ptr) (q : list (loc * T)) : ptr :=
  match q with [] => nx | (l, _) :: _ => Some l end.

Definition last_of (pv : ptr) (q : list (loc * T)) : ptr :=
  match last q with None => pv | Some (l, _) => Some l end.

(** The items of [q] are linked in a row, between [pv] and [nx].  The values in
    [q] stand for the payload: their own links are not looked at. *)
Fixpoint dseg (h : gmap loc obj) (pv nx : ptr) (q : list (loc * T)) : Prop :=
  match q with
  | [] => True
  | (l, x) :: r =>
      h !! l = Some (inj (set_links (first_of nx r) pv x)) /\ dseg h (Some l) nx r
  end.

(** [tail] is a queue holding [q], oldest item first. *)
Definition queue (h : gmap loc obj) (tail : ptr) (q : list (loc * T)) : Prop :=
  dseg h None None q /\ NoDup q.*1 /\ tail = last_of None q.

Lemma last_of_snoc pv q l x : last_of pv (q ++ [(l, x)]) = Some l.
Proof. unfold last_of. by rewrite last_snoc. Qed.

Lemma last_of_nil pv : last_of pv [] = pv.
Proof. done. Qed.

Lemma last_of_cons pv l x q : last_of pv ((l, x) :: q) = last_of (Some l) q.
Proof.
  unfold last_of. destruct q as [|y q]; [done|].
  simpl. destruct (last (y :: q)) eqn:E; [done|]. by apply last_None in E.
Qed.

Lemma last_of_app_cons pv q1 y q2 : last_of pv (q1 ++ y :: q2) = last_of None (y :: q2).
Proof. unfold last_of. rewrite last_app_cons. by destruct (last (y :: q2)) eqn:E; [|apply last_None in E]. Qed.

Lemma first_of_app nx q1 q2 : first_of nx (q1 ++ q2) = first_of (first_of nx q2) q1.
Proof. destruct q1 as [|[]]; done. Qed.

Lemma dseg_app h pv nx q1 q2 :
  dseg h pv nx (q1 ++ q2) <->
  dseg h pv (first_of nx q2) q1 /\ dseg h (last_of pv q1) nx q2.
Proof.
  revert pv. induction q1 as [|[l x] q1 IH]; intros pv; simpl.
  - split; [done|by intros [_ ?]].
  - rewrite IH, first_of_app, last_of_cons. tauto.
Qed.

Lemma dseg_frame h h' pv nx q :
  (forall l, l ∈ q.*1 -> h' !! l = h !! l) -> dseg h pv nx q -> dseg h' pv nx q.
Proof.
  revert pv. induction q as [|[l x] q IH]; intros pv Hf; simpl; [done|].
  intros [Hl Hq]. rewrite Hf by (simpl; set_solver).
  split; [done|]. apply IH; [|done]. intros. apply Hf. simpl. set_solver.
Qed.

Lemma dseg_lookup h pv nx q l :
  dseg h pv nx q -> l ∈ q.*1 -> exists x : T, h !! l = Some (inj x).
Proof.
  revert pv. induction q as [|[l' x] q IH]; intros pv; simpl; [set_solver|].
  intros [Hl Hq] [->|Hin]%elem_of_cons; eauto.
Qed.

(** Relinking the last item. *)
Lemma dseg_set_next h pv nx nx' q l x :
  l ∉ q.*1 -> dseg h pv nx (q ++ [(l, x)]) ->
  dseg (<[l := inj (set_links nx' (last_of pv q) x)]> h) pv nx' (q ++ [(l, x)]).
Proof.
  rewrite !dseg_app. simpl. intros Hn (Hq & Hl & _). splits; [|by rewrite lookup_insert_eq|done].
  eapply dseg_frame; [|done]. intros. apply lookup_insert_ne. set_solver.
Qed.

(** Relinking the first item. *)
Lemma dseg_set_prev h pv pv' nx q l x :
  l ∉ q.*1 -> dseg h pv nx ((l, x) :: q) ->
  dseg (<[l := inj (set_links (first_of nx q) pv' x)]> h) pv' nx ((l, x) :: q).
Proof.
  simpl. intros Hn [Hl Hq]. split; [by rewrite lookup_insert_eq|].
  eapply dseg_frame; [|done]. intros. apply lookup_insert_ne. set_solver.
Qed.

End rep.

(** ** What the macros do to a queue *)

(** Addresses from [brk] on are unused. *)
Definition fresh_from (h : gmap loc obj) (b : loc) : Prop :=
  forall l, (b <= l)%positive -> h !! l = None.

Lemma fresh_from_lt h b l o : fresh_from h b -> h !! l = Some o -> (l < b)%positive.
Proof.
  intros Hf Hl. destruct (decide (l < b)%positive); [done|].
  rewrite Hf in Hl by lia. done.
Qed.

Lemma fresh_from_insert h b l o : (l < b)%positive -> fresh_from h b -> fresh_from (<[l := o]> h) b.
Proof. intros Hl Hf j Hj. rewrite lookup_insert_ne by lia. by apply Hf. Qed.

Lemma fresh_from_delete h b l : fresh_from h b -> fresh_from (delete l h) b.
Proof. intros Hf j Hj. destruct (decide (l = j)) as [->|]; [apply lookup_delete_eq|]. rewrite lookup_delete_ne by done. by apply Hf. Qed.

Lemma fresh_from_list (l : list (loc * obj)) b : Forall (fun p => (p.1 < b)%positive) l -> fresh_from (list_to_map l) b.
Proof.
  intros Hl j Hj. apply not_elem_of_list_to_map_1. intros ([k o] & -> & Hk)%list_elem_of_fmap.
  rewrite Forall_forall in Hl. specialize (Hl _ Hk). simpl in *. lia.
Qed.

Section macro_specs.
Context `{Machine} {St : Type} `{Object St} {T : Type} `{Linked T}.

Lemma lv_get_ok (f : field St) a s w :
  heap w !! a = Some (inj s) -> lv_get f (Some a) w = (Ok (f_get f s), w).
Proof. intros E. unfold lv_get. by erewrite bind_ok by (by apply load_ok). Qed.

Lemma lv_set_ok (f : field St) a s p w :
  heap w !! a = Some (inj s) ->
  lv_set f (Some a) p w = (Ok tt, set_heap (<[a := inj (f_set f p s)]> (heap w)) w).
Proof. intros E. unfold lv_set. by erewrite modify_ok. Qed.

Lemma rd_ok l (x : T) get w :
  heap w !! l = Some (inj x) -> rd T (mret (Some l)) get w = (Ok (get x), w).
Proof.
  intros E. unfold rd. erewrite bind_ok by apply ret_ok.
  by erewrite bind_ok by (by apply load_ok).
Qed.

Lemma set_nxt_links n n' p (x : T) : set_nxt n (set_links n' p x) = set_links n p x.
Proof. unfold set_nxt. by rewrite prv_links, links_links. Qed.

Lemma set_prv_links p n p' (x : T) : set_prv p (set_links n p' x) = set_links n p x.
Proof. unfold set_prv. by rewrite nxt_links, links_links. Qed.

Lemma set_prv_set_nxt p n (x : T) : set_prv p (set_nxt n x) = set_links n p x.
Proof. unfold set_nxt. apply set_prv_links. Qed.

Hint Rewrite set_nxt_links set_prv_links set_prv_set_nxt nxt_links prv_links
  @last_of_nil @last_of_snoc : taps.

(** Appending a node [l] to a queue, on the heap. *)
Lemma queue_snoc h h' tail (q : list (loc * T)) l x :
  queue h tail q -> l ∉ q.*1 ->
  h' !! l = Some (inj (set_links None tail x)) ->
  (forall j, Some j <> tail -> j ∈ q.*1 -> h' !! j = h !! j) ->
  (forall q' t y, q = q' ++ [(t, y)] ->
     h' !! t = Some (inj (set_links (Some l) (last_of None q') y))) ->
  queue h' (Some l) (q ++ [(l, x)]).
Proof.
  intros (Hq & Hnd & ->) Hlq Hl Hf Ht. split; [|split].
  - apply dseg_app. simpl. split; [|done].
    destruct q as [|[t y] q' _] using rev_ind; [done|].
    specialize (Ht q' t y eq_refl).
    rewrite fmap_app, NoDup_app in Hnd. destruct Hnd as (_ & Hnd & _).
    assert (t ∉ q'.*1) by (intros Hin; apply (Hnd t); [done|simpl; set_solver]).
    eapply dseg_frame; [|by apply (dseg_set_next h None None (Some l))].
    intros j Hj. destruct (decide (j = t)) as [->|].
    + by rewrite lookup_insert_eq.
    + rewrite lookup_insert_ne by done. apply Hf; [|done]. rewrite last_of_snoc. congruence.
  - rewrite fmap_app, NoDup_app. simpl. splits; [done|set_solver|apply NoDup_singleton].
  - by rewrite last_of_snoc.
Qed.

Theorem ADD_ITEM_spec (f : field St) a s (q : list (loc * T)) w :
  heap w !! a = Some (inj s) -> a ∉ q.*1 ->
  queue (heap w) (f_get f s) q ->
  fresh_from (heap w) (brk w) -> malloc_ok (brk w) = true ->
  exists h', ADD_ITEM T f (Some a) w
      = (Ok (Some (brk w)), World h' (Pos.succ (brk w)) (errno w) (trace w))
    /\ queue h' (Some (brk w)) (q ++ [(brk w, uninit (brk w))])
    /\ h' !! a = Some (inj (f_set f (Some (brk w)) s))
    /\ (forall j, j <> a -> j <> brk w -> j ∉ q.*1 -> h' !! j = heap w !! j).
Proof.
  intros Ha Hna Hqueue Hf Hm. pose proof Hqueue as (Hq & Hnd & Htl).
  assert (heap w !! brk w = None) as Hl by (apply Hf; lia).
  assert (a <> brk w) by congruence.
  assert (brk w ∉ q.*1) as Hlq.
  { intros Hin. destruct (dseg_lookup _ _ _ _ _ Hq Hin). congruence. }
  assert (exists h', ADD_ITEM T f (Some a) w
      = (Ok (Some (brk w)), World h' (Pos.succ (brk w)) (errno w) (trace w))
    /\ h' !! a = Some (inj (f_set f (Some (brk w)) s))
    /\ h' !! brk w = Some (inj (set_links None (f_get f s) (uninit (brk w) : T)))
    /\ (forall j, j <> a -> j <> brk w -> Some j <> f_get f s -> h' !! j = heap w !! j)
    /\ (forall q' t y, q = q' ++ [(t, y)] ->
          h' !! t = Some (inj (set_links (Some (brk w)) (last_of None q') y)))) as (h' & E & E1 & E2 & E3 & E4).
  { unfold ADD_ITEM, lv_get, lv_set. erewrite bind_ok by (by apply malloc_succeeds).
    destruct q as [|[t y] q' _] using rev_ind.
    - change (f_get f s = None) in Htl. steps. rewrite Htl. steps. eexists.
      splits; [done|..]; intros; heap_look; autorewrite with taps; try done.
      by destruct q'.
    - rewrite last_of_snoc in Htl. rewrite fmap_app in *. simpl in *.
      apply dseg_app in Hq as [_ [Ht _]]. simpl in Ht.
      assert (a <> t) by set_solver. assert (t <> brk w) by set_solver.
      steps. rewrite Htl. steps. rewrite Htl. steps. eexists.
      splits; [done|..].
      1-2: by heap_look; autorewrite with taps.
      + intros. by heap_look.
      + intros q'' t' y' [-> [= -> ->]]%app_inj_2; [|done].
        heap_look. by autorewrite with taps. }
  exists h'. splits; [done| |done|].
  - apply queue_snoc with (h := heap w) (tail := f_get f s); try done.
    intros j Hj Hjq. apply E3; [congruence..|done].
  - intros j Hja Hjl Hjq. apply E3; [done..|]. intros Hj. apply Hjq.
    destruct q as [|[t y] q' _] using rev_ind; [by rewrite Htl in Hj|].
    rewrite Htl, last_of_snoc in Hj. simplify_eq. rewrite fmap_app. simpl. set_solver.
Qed.

(** Taking a node out of the middle, on the heap. *)
Lemma queue_unlink h h' tail (q1 q2 : list (loc * T)) l x :
  queue h tail (q1 ++ (l, x) :: q2) ->
  (forall j, j ∈ (q1 ++ q2).*1 -> Some j <> last_of None q1 -> Some j <> first_of None q2 ->
     h' !! j = h !! j) ->
  (forall q1' p y, q1 = q1' ++ [(p, y)] ->
     h' !! p = Some (inj (set_links (first_of None q2) (last_of None q1') y))) ->
  (forall n z q2', q2 = (n, z) :: q2' ->
     h' !! n = Some (inj (set_links (first_of None q2') (last_of None q1) z))) ->
  queue h' (last_of None (q1 ++ q2)) (q1 ++ q2).
Proof.
  intros (Hq & Hnd & _) Hf H1' H2'.
  apply dseg_app in Hq as [Hq1 [_ Hq2]]. simpl in Hq1, Hq2.
  rewrite fmap_app in Hnd, Hf. simpl in Hnd.
  apply NoDup_app in Hnd as (Hnd1 & Hdis & [Hl Hnd2]%NoDup_cons).
  unfold queue. splits; [|rewrite fmap_app; apply NoDup_app; set_solver|done].
  apply dseg_app. split.
  - clear H2'. destruct q1 as [|[p y] q1 _] using rev_ind; [done|].
    specialize (H1' _ _ _ eq_refl). rewrite fmap_app in *. simpl in *.
    apply NoDup_app in Hnd1 as (_ & Hp & _).
    assert (p ∉ q1.*1) by set_solver.
    eapply dseg_frame; [|by apply (dseg_set_next h None (Some l) (first_of None q2))].
    intros j Hj. destruct (decide (j = p)) as [->|]; heap_look; [done|].
    apply Hf; [set_solver|rewrite last_of_snoc; congruence|].
    destruct q2 as [|[m z] q2]; simpl; [done|]. intros [= ->].
    apply (Hdis m); set_solver.
  - clear H1'. destruct q2 as [|[n z] q2]; [done|].
    specialize (H2' _ _ _ eq_refl). simpl in *.
    apply NoDup_cons in Hnd2 as [Hn _].
    change (dseg h' (last_of None q1) None ((n, z) :: q2)).
    eapply dseg_frame; [|by apply (dseg_set_prev h (Some l) (last_of None q1) None)].
    intros j Hj. destruct (decide (j = n)) as [->|]; heap_look; [done|].
    apply Hf; [set_solver| |congruence].
    intros Hj'. destruct q1 as [|[p y] q1 _] using rev_ind; [done|].
    rewrite last_of_snoc in Hj'. simplify_eq. rewrite fmap_app in *.
    apply (Hdis p); set_solver.
Qed.

Ltac qsteps :=
  autorewrite with taps; simpl;
  repeat (first [erewrite bind_ok by (apply rd_ok; heap_lookup) | step1];
          autorewrite with taps; simpl).

Theorem DELETE_ITEM_spec (f : field St) a s (q1 q2 : list (loc * T)) l x w :
  heap w !! a = Some (inj s) -> a ∉ (q1 ++ (l, x) :: q2).*1 ->
  queue (heap w) (f_get f s) (q1 ++ (l, x) :: q2) ->
  exists h', DELETE_ITEM T (mret (Some l)) f (Some a) w = (Ok tt, set_heap h' w)
    /\ queue h' (last_of None (q1 ++ q2)) (q1 ++ q2)
    /\ h' !! l = None
    /\ h' !! a = Some (inj (match q2 with [] => f_set f (last_of None q1) s | _ => s end))
    /\ (forall j, j <> a -> j ∉ (q1 ++ (l, x) :: q2).*1 -> h' !! j = heap w !! j).
Proof.
  intros Ha Hna Hqueue. pose proof Hqueue as (Hq & Hnd & Htl).
  assert (exists h', DELETE_ITEM T (mret (Some l)) f (Some a) w = (Ok tt, set_heap h' w)
    /\ h' !! l = None
    /\ h' !! a = Some (inj (match q2 with [] => f_set f (last_of None q1) s | _ => s end))
    /\ (forall j, j <> a -> j <> l -> Some j <> last_of None q1 -> Some j <> first_of None q2 ->
         h' !! j = heap w !! j)
    /\ (forall q1' p y, q1 = q1' ++ [(p, y)] ->
         h' !! p = Some (inj (set_links (first_of None q2) (last_of None q1') y)))
    /\ (forall n z q2', q2 = (n, z) :: q2' ->
         h' !! n = Some (inj (set_links (first_of None q2') (last_of None q1) z))))
    as (h' & E & E1 & E2 & E3 & E4 & E5).
  { apply dseg_app in Hq as [Hq1 [Hl Hq2]]. simpl in Hq1, Hl, Hq2.
    rewrite fmap_app in Hnd, Hna. simpl in Hnd, Hna.
    apply NoDup_app in Hnd as (Hnd1 & Hdis & [Hlq2 Hnd2]%NoDup_cons).
    assert (a <> l) by set_solver.
    unfold DELETE_ITEM, lv_set.
    destruct q1 as [|[p y] q1 _] using rev_ind; destruct q2 as [|[n z] q2]; simpl in *;
      rewrite ?fmap_app in *; simpl in *;
      try (apply dseg_app in Hq1 as [_ [Hp _]]; simpl in Hp); try (destruct Hq2 as [Hn _]);
      try assert (a <> p) by set_solver; try assert (a <> n) by set_solver;
      try assert (l <> p) by set_solver; try assert (l <> n) by set_solver;
      try assert (p <> n) by set_solver; qsteps.
    all: eexists; splits; [done|..]; try (intros; by heap_look; autorewrite with taps).
    1,2: by intros [] ??.
    1: intros ??? [= -> -> ->].
    2,3: intros ??? [-> [= -> ->]]%app_inj_2; [|done].
    4: intros ??? [= -> -> ->].
    all: heap_look; by autorewrite with taps. }
  exists h'. splits; [done| |done|done|].
  - eapply queue_unlink; try done. intros j Hj ??.
    rewrite fmap_app in Hna, Hnd, Hj. simpl in *.
    apply NoDup_app in Hnd as (_ & Hdis & [Hl _]%NoDup_cons).
    apply E3; [set_solver| |done..].
    intros ->. apply elem_of_app in Hj as [Hj|Hj]; [|done].
    by apply (Hdis l); [|set_solver].
  - intros j Hja Hj. rewrite fmap_app in Hj. simpl in Hj. apply E3; [done|set_solver|..].
    + destruct q1 as [|[p y] q1 _] using rev_ind; [done|].
      rewrite last_of_snoc. rewrite fmap_app in Hj. simpl in Hj. set_solver.
    + destruct q2 as [|[n z] q2]; simpl in *; [done|set_solver].
Qed.

End macro_specs.

(** ** Looking into a queue, and changing an item in place *)

Section items.
Context {T : Type} `{Linked T}.

Lemma queue_lookup h tail (q1 q2 : list (loc * T)) l x :
  queue h tail (q1 ++ (l, x) :: q2) ->
  h !! l = Some (inj (set_links (first_of None q2) (last_of None q1) x)).
Proof. intros (Hq & _ & _). apply dseg_app in Hq as [_ [Hl _]]. done. Qed.

Lemma queue_typed h tail (q : list (loc * T)) l :
  queue h tail q -> l ∈ q.*1 -> exists x : T, h !! l = Some (inj x).
Proof. intros (Hq & _). by eapply dseg_lookup. Qed.

Lemma queue_frame h h' tail (q : list (loc * T)) :
  (forall l, l ∈ q.*1 -> h' !! l = h !! l) -> queue h tail q -> queue h' tail q.
Proof. intros Hf (Hq & ? & ?). split; [|done]. by eapply dseg_frame. Qed.

(** The payload of an item is replaced; the links stay. *)
Lemma queue_payload h tail (q1 q2 : list (loc * T)) l x y :
  queue h tail (q1 ++ (l, x) :: q2) ->
  queue (<[l := inj (set_links (first_of None q2) (last_of None q1) y)]> h) tail (q1 ++ (l, y) :: q2).
Proof.
  intros (Hq & Hnd & Ht). rewrite fmap_app in Hnd. simpl in Hnd.
  pose proof Hnd as (_ & Hdis & [Hl _]%NoDup_cons)%NoDup_app.
  assert (l ∉ q1.*1) by (intros Hin; apply (Hdis l Hin); set_solver).
  split; [|split].
  - apply dseg_app in Hq as [Hq1 [_ Hq2]]. apply dseg_app. simpl in *.
    splits; [|by rewrite lookup_insert_eq|].
    all: eapply dseg_frame; [|done]; intros j Hj; apply lookup_insert_ne; set_solver.
  - rewrite fmap_app. done.
  - rewrite Ht. rewrite !last_of_app_cons, !last_of_cons. done.
Qed.

(** Payloads that only differ in their links stand for the same queue. *)
Lemma queue_same_payload h tail (q1 q2 : list (loc * T)) l x y :
  (forall n p, set_links n p x = set_links n p y) ->
  queue h tail (q1 ++ (l, x) :: q2) -> queue h tail (q1 ++ (l, y) :: q2).
Proof.
  intros E Hq. pose proof (queue_lookup _ _ _ _ _ _ Hq) as Hl.
  apply (queue_payload _ _ _ _ _ _ y) in Hq. rewrite <- E in Hq.
  by rewrite insert_id in Hq.
Qed.

End items.
