(* ===== verification/Listener.v ===== *)
(** * Listener: taps_listener.c, the life of a listener after its creation

    Reference counting, the stop request of the application, the stopped report
    of the protocol, and the release.  Creation and the acceptance of
    connections are in Accept.v, since they call into the connection. *)

From S2P Require Import Prelude Structs Memory.
Local Open Scope Z_scope.

Section listener.
Context `{Machine} `{App} `{Proto}.

(** The callback the protocol calls once it has stopped listening. *)
Definition _taps_stopped (taps_ctx : ptr) : M unit :=
  l ← load taps_ctx;
  let stopped := l_stopped l in
  modify taps_ctx (set_l_readyToStop TRUE) ;;
  l ← load taps_ctx;
  if l_ref_count l =? 0
  then
    modify taps_ctx (set_l_stopped None) ;;
    l ← load taps_ctx;
    call_app stopped (fun f => EvStopped f (l_app_ctx l))
  else mret tt.

Definition tapsListenerStop (listener : ptr) (callbacks : option tapsCallbacks) : M Z :=
  match listener, callbacks ≫= cb_stopped with
  | Some _, Some f =>
      modify listener (set_l_stopped (Some f)) ;;
      l ← load listener;
      call_stop (ph_stop (l_handles l)) (l_proto_ctx l) ;;
      mret 0
  | _, _ => set_errno EINVAL ;; mret (-1)
  end.

Definition tapsListenerDeref (listener : ptr) : M unit :=
  l ← load listener;
  let stopped := l_stopped l in
  modify listener (fun l => set_l_ref_count (u32 (l_ref_count l - 1)) l) ;;
  l ← load listener;
  if truth (l_readyToStop l) && (l_ref_count l =? 0)
  then
    modify listener (set_l_stopped None) ;;
    l ← load listener;
    call_app stopped (fun f => EvStopped f (l_app_ctx l))
  else mret tt.

Definition tapsListenerFree (listener : ptr) : M Z :=
  l ← load listener;
  if negb (truth (l_readyToStop l)) && (match l_stopped l with None => true | Some _ => false end)
  then
    call_stop (ph_stop (l_handles l)) (l_proto_ctx l) ;;
    modify listener (set_l_readyToStop TRUE) ;;
    mret 0
  else
    l ← load listener;
    match l_stopped l with
    | Some _ => mret (-1)
    | None =>
        emit (EvDlclose (ph_proto (l_handles l))) ;;
        free tapsListener listener ;;
        mret 0
    end.

End listener.
