(* ===== verification/Connection.v ===== *)
(** * Connection: taps_connection.c

    The connection object, its two queues of requests, the callbacks the
    protocol reports with, and the requests of the application. *)

From S2P Require Import Prelude Structs Memory Message Queue Listener.
Local Open Scope Z_scope.

Section connection.
Context `{Machine} `{App} `{Proto}.

(** [c->handles->...]: the handles are read where the pointer leads. *)
Definition load_handles (h : option handles_ptr) : M proto_handles :=
  match h with
  | None => throw NullDeref
  | Some (HListener l) => l ← (load (Some l) : M tapsListener); mret (l_handles l)
  | Some (HBlock b) => load (Some b)
  end.

(** [free(c->handles)]: a pointer into a listener is not a block. *)
Definition free_handles (h : option handles_ptr) : M unit :=
  match h with
  | None => mret tt
  | Some (HListener _) => throw InvalidFree
  | Some (HBlock b) => free proto_handles (Some b)
  end.

(** ** Life of the object *)

(** What [_taps_closed] and [_taps_connection_error] begin with. *)
Definition detach (c : ptr) : M unit :=
  x ← load c;
  match c_listener x with
  | Some _ =>
      tapsListenerDeref (c_listener x) ;;
      modify c (set_c_listener None)
  | None => free_handles (c_handles x)
  end.

Definition _taps_closed (taps_ctx : ptr) : M unit :=
  detach taps_ctx ;;
  modify taps_ctx (set_c_proto_ctx None) ;;
  c ← load taps_ctx;
  match c_closed c with
  | Some _ => call_app (c_closed c) (fun f => EvClosed f (c_app_ctx c))
  | None => mret tt
  end.

Definition _taps_connection_error (taps_ctx : ptr) : M unit :=
  detach taps_ctx ;;
  c ← load taps_ctx;
  call_app (c_connectionError c) (fun f => EvConnectionError f (c_app_ctx c) None).

Definition tapsConnectionNew (proto_ctx : ptr) (handles : option handles_ptr) (listener : ptr) : M ptr :=
  c ← malloc tapsConnection;
  match c with
  | None => mret None
  | Some _ =>
      memset0 tapsConnection c ;;
      modify c (set_c_proto_ctx proto_ctx) ;;
      modify c (set_c_handles handles) ;;
      modify c (set_c_listener listener) ;;
      modify c (set_c_sendReady TRUE) ;;
      modify c (set_c_receiveReady TRUE) ;;
      mret c
  end.

Definition tapsConnectionInitialize (conn app_ctx : ptr) (callbacks : option tapsCallbacks) : M unit :=
  cb ← deref callbacks;
  modify conn (set_c_callbacks (match app_ctx with Some _ => app_ctx | None => conn end)
                 (cb_closed cb) (cb_connectionError cb)).

(** ** Sending *)

Definition _taps_send_common (c item : ptr) : M Z :=
  it ← load item;
  let next := s_next it in
  DELETE_ITEM send_item (mret item) sndq c ;;
  match next with
  | None => modify c (set_c_sendReady TRUE) ;; mret 0
  | Some _ =>
      n ← load next;
      '(data, iovcnt) ← tapsMessageGetIovec (s_message n);
      cc ← load c;
      h ← load_handles (c_handles cc);
      call_send (ph_send h) (c_proto_ctx cc) next data iovcnt
  end.

Definition _taps_sent (item_ctx : ptr) : M unit :=
  item ← load item_ctx;
  _taps_send_common (s_connection item) item_ctx ;;
  c ← load (s_connection item);
  call_app (s_sent item) (fun f => EvSent f (c_app_ctx c) (s_app_ctx item)).

Definition _taps_expired (item_ctx : ptr) : M unit :=
  item ← load item_ctx;
  _taps_send_common (s_connection item) item_ctx ;;
  c ← load (s_connection item);
  call_app (s_expired item) (fun f => EvExpired f (c_app_ctx c) (s_app_ctx item)).

Definition _taps_send_error (item_ctx : ptr) (reason : option string) : M unit :=
  item ← load item_ctx;
  _taps_send_common (s_connection item) item_ctx ;;
  c ← load (s_connection item);
  call_app (s_sendError item) (fun f => EvSendError f (c_app_ctx c) (s_app_ctx item)
    (match reason with Some r => Some r | None => Some "Protocol failure"%string end)).

Definition fill_send (msg conn app : ptr) (cb : tapsCallbacks) (s : send_item) : send_item :=
  SendItem msg conn app (cb_sent cb) (cb_expired cb) (cb_sendError cb) (s_next s) (s_prev s).

Definition tapsConnectionSend (connection msg app_ctx : ptr) (callbacks : option tapsCallbacks) : M Z :=
  newItem ← ADD_ITEM send_item sndq connection;
  match newItem with
  | None => set_errno ENOMEM ;; mret (-1)
  | Some _ =>
      cb ← deref callbacks;
      modify newItem (fill_send msg connection app_ctx cb) ;;
      c ← load connection;
      if truth (c_sendReady c)
      then
        '(data, iovlen) ← tapsMessageGetIovec msg;
        c ← load connection;
        h ← load_handles (c_handles c);
        call_send (ph_send h) (c_proto_ctx c) newItem data iovlen
      else mret 0
  end.

(** ** Receiving *)

(** The array behind a [struct iovec *]. *)
Definition iov_array (v : iovptr) : M (list iovec) :=
  match v with
  | IovMessage m => m ← (load (Some m) : M tapsMessage); mret (m_array m)
  | IovArray a => load (Some a)
  end.

(** The loop of [_taps_trunc_iovec].  Its second condition compares a pointer
    with 0 and always holds, so only the first one ends it.  [fuel] is one more
    than the rows of the array. *)
Fixpoint trunc_loop (fuel : nat) (a : list iovec) (iovcnt remaining row : Z) : M (Z * Z * Z) :=
  match fuel with
  | O => throw OutOfFuel
  | S fuel =>
      n ← iov_len_at a row;
      if n <? remaining
      then trunc_loop fuel a (iovcnt - 1) (size_t (remaining - n)) (row + 1)
      else mret (iovcnt, remaining, row)
  end.

(** Leaving off [n] bytes of the first row. *)
Definition advance (n : Z) (v : iovec) : iovec := Iovec (iov_base v + n) (size_t (iov_len v - n)).

(** Returns the new vector, NULL when there is no memory, and the new count.  A
    negative count is a size no allocation serves, and the copy may not read
    past the old vector. *)
Definition _taps_trunc_iovec (orig : iovptr) (iovcnt len : Z) : M (option loc * Z) :=
  a ← iov_array orig;
  '(iovcnt, remaining, row) ← trunc_loop (S (length a)) a iovcnt len 0;
  newVec ← (if iovcnt <? 0 then set_errno ENOMEM ;; mret None else malloc (list iovec));
  match newVec with
  | None => mret (None, iovcnt)
  | Some v =>
      if Z.of_nat (length a) <? row + iovcnt then throw OutOfBounds
      else match take (Z.to_nat iovcnt) (drop (Z.to_nat row) a) with
           | [] => throw OutOfBounds
           | first :: rest =>
               modify newVec (fun _ : list iovec => advance remaining first :: rest) ;;
               mret (Some v, iovcnt)
           end
  end.

Definition iovptr_eqb (p q : iovptr) : bool :=
  match p, q with
  | IovMessage a, IovMessage b => Pos.eqb a b
  | IovArray a, IovArray b => Pos.eqb a b
  | _, _ => false
  end.

(** [if (iovec != data) free(data)]. *)
Definition free_data (iov data : iovptr) : M unit :=
  if iovptr_eqb iov data then mret tt
  else match data with
       | IovArray a => free (list iovec) (Some a)
       | IovMessage _ => throw InvalidFree
       end.

Definition _taps_receive_error (item_ctx : ptr) (data : iovptr) (reason : option string) : M unit :=
  item ← load item_ctx;
  '(iov, _) ← tapsMessageGetIovec (r_message item);
  c ← load (r_connection item);
  free_data iov data ;;
  DELETE_ITEM recv_item (mret item_ctx) rcvq (r_connection item) ;;
  call_app (r_receiveError item) (fun f => EvReceiveError f (c_app_ctx c) (r_app_ctx item) reason).

Definition _taps_received (item_ctx : ptr) (data : iovptr) (data_len : Z) : M unit :=
  item ← load item_ctx;
  '(iov, _) ← tapsMessageGetIovec (r_message item);
  c ← load (r_connection item);
  free_data iov data ;;
  modify item_ctx (fun r => set_r_currLength (size_t (r_currLength r + data_len)) r) ;;
  it ← load item_ctx;
  if r_currLength it <? r_minLength it
  then _taps_receive_error item_ctx iov (Some "Message below minLength"%string)
  else
    DELETE_ITEM recv_item (mret item_ctx) rcvq (r_connection item) ;;
    it ← load item_ctx;
    call_app (r_received item) (fun f => EvReceived f (c_app_ctx c) (r_app_ctx item) (r_currLength it)).

(** [(c->handles->receive)(c->proto_ctx, item, data, iovcnt, ...)]. *)
Definition issue_receive (c item : ptr) (data : iovptr) (iovcnt : Z) : M unit :=
  cc ← load c;
  h ← load_handles (c_handles cc);
  call_receive (ph_receive h) (c_proto_ctx cc) item data iovcnt.

Definition _taps_received_partial (item_ctx : ptr) (data : iovptr) (data_len : Z) : M unit :=
  item ← load item_ctx;
  let c := r_connection item in
  '(iov, iovcnt) ← tapsMessageGetIovec (r_message item);
  free_data iov data ;;
  modify item_ctx (fun r => set_r_currLength (size_t (r_currLength r + data_len)) r) ;;
  it ← load item_ctx;
  if r_currLength it <? r_minLength it
  then
    '(newIovec, iovcnt) ← _taps_trunc_iovec iov iovcnt (r_currLength it);
    match newIovec with
    | None => _taps_receive_error item_ctx iov (Some "Internal error"%string)
    | Some v => issue_receive c item_ctx (IovArray v) iovcnt
    end
  else
    match r_next it with
    | Some _ =>
        n ← load (r_next it);
        '(iov, iovcnt) ← tapsMessageGetIovec (r_message n);
        issue_receive c (r_next it) iov iovcnt
    | None => modify c (set_c_receiveReady TRUE)
    end ;;
    it ← load item_ctx;
    let rcvPart := r_receivedPartial it in
    let app_ctx := r_app_ctx it in
    DELETE_ITEM recv_item (mret item_ctx) rcvq c ;;
    cc ← load c;
    it ← load item_ctx;
    call_app rcvPart (fun f => EvReceivedPartial f (c_app_ctx cc) app_ctx (r_currLength it) FALSE).

Definition fill_recv (msg conn app : ptr) (minL maxL : Z) (cb : tapsCallbacks) (r : recv_item) : recv_item :=
  RecvItem msg minL maxL 0 conn app (cb_received cb) (cb_receivedPartial cb)
    (cb_receiveError cb) (r_next r) (r_prev r).

(** The three callbacks a receive needs are set. *)
Definition receive_callbacks (callbacks : option tapsCallbacks) : option tapsCallbacks :=
  match callbacks with
  | Some cb =>
      match cb_received cb, cb_receivedPartial cb, cb_receiveError cb with
      | Some _, Some _, Some _ => Some cb
      | _, _, _ => None
      end
  | None => None
  end.

Definition tapsConnectionReceive (connection app_ctx msg : ptr) (minIncompleteLength maxLength : Z)
    (callbacks : option tapsCallbacks) : M Z :=
  match receive_callbacks callbacks with
  | None => set_errno EINVAL ;; mret (-1)
  | Some cb =>
      newItem ← ADD_ITEM recv_item rcvq connection;
      modify newItem (fill_recv msg connection app_ctx minIncompleteLength maxLength cb) ;;
      c ← load connection;
      (if truth (c_receiveReady c)
       then
         modify connection (set_c_receiveReady FALSE) ;;
         '(iov, iovcnt) ← tapsMessageGetIovec msg;
         issue_receive connection newItem iov iovcnt
       else mret tt) ;;
      mret 0
  end.

(** ** Release *)

(** One turn of the loops of [tapsConnectionFree].  The macro's argument is the
    expression [c->sndq], evaluated again each time the macro names it. *)
Definition drop_send (connection : ptr) : M unit :=
  c ← load connection;
  it ← load (c_sndq c);
  call_app (s_sendError it) (fun f => EvSendError f (c_app_ctx c) (s_app_ctx it) (Some "Connection died"%string)) ;;
  DELETE_ITEM send_item (c ← load connection; mret (c_sndq c)) sndq connection.

Definition drop_recv (connection : ptr) : M unit :=
  c ← load connection;
  it ← load (c_rcvq c);
  call_app (r_receiveError it) (fun f => EvReceiveError f (c_app_ctx c) (r_app_ctx it) (Some "Connection died"%string)) ;;
  DELETE_ITEM recv_item (c ← load connection; mret (c_rcvq c)) rcvq connection.

Fixpoint drop_all (fuel : nat) (get : tapsConnection -> ptr) (drop : ptr -> M unit) (connection : ptr) : M unit :=
  match fuel with
  | O => throw OutOfFuel
  | S fuel =>
      c ← load connection;
      match get c with
      | None => mret tt
      | Some _ => drop connection ;; drop_all fuel get drop connection
      end
  end.

(** More turns than there can be items: one per block ever allocated. *)
Definition tapsConnectionFree (connection : ptr) : M unit := fun w =>
  let fuel := S (Pos.to_nat (brk w)) in
  (drop_all fuel c_sndq drop_send connection ;;
   drop_all fuel c_rcvq drop_recv connection ;;
   free tapsConnection connection) w.

End connection.
