(* ===== verification/Accept.v ===== *)
(** * Accept: taps_listener.c, the creation of a listener and of its connections *)

From S2P Require Import Prelude Structs Memory Listener Connection.
Local Open Scope Z_scope.

Section accept.
Context `{Machine} `{App} `{Proto}.

(** The callback the protocol calls for a new connection.  The application's
    answer is its context and what it leaves in [callbacks]. *)
Definition _taps_connection_received (taps_ctx proto_ctx : ptr) : M ptr :=
  c ← tapsConnectionNew proto_ctx (match taps_ctx with Some l => Some (HListener l) | None => None end) taps_ctx;
  match c with
  | None => mret None
  | Some _ =>
      modify taps_ctx (fun l => set_l_ref_count (u32 (l_ref_count l + 1)) l) ;;
      l ← load taps_ctx;
      f ← match l_connectionReceived l with Some f => mret f | None => throw NullCall end;
      emit (EvConnectionReceived f (l_app_ctx l) c) ;;
      '(app_ctx, callbacks) ← app_connectionReceived f (l_app_ctx l) c;
      match callbacks with
      | Some (Callbacks _ _ _ _ _ _ _ _ _ (Some _) (Some _)) =>
          tapsConnectionInitialize c app_ctx callbacks ;;
          mret c
      | _ =>
          _taps_closed c ;;
          mret None
      end
  end.

(** [dlsym] for the four functions a protocol must have. *)
Definition lookup_handle (l : ptr) (name : string) (set : fptr -> proto_handles -> proto_handles) : M fptr :=
  x ← load l;
  let f := dlsym (ph_proto (l_handles x)) name in
  modify l (fun x => set_l_handles (set f (l_handles x)) x) ;;
  mret f.

Definition set_ph_proto (p : ptr) (h : proto_handles) :=
  Handles p (ph_listen h) (ph_stop h) (ph_send h) (ph_receive h).
Definition set_ph_listen (f : fptr) (h : proto_handles) :=
  Handles (ph_proto h) f (ph_stop h) (ph_send h) (ph_receive h).
Definition set_ph_stop (f : fptr) (h : proto_handles) :=
  Handles (ph_proto h) (ph_listen h) f (ph_send h) (ph_receive h).
Definition set_ph_send (f : fptr) (h : proto_handles) :=
  Handles (ph_proto h) (ph_listen h) (ph_stop h) f (ph_receive h).
Definition set_ph_receive (f : fptr) (h : proto_handles) :=
  Handles (ph_proto h) (ph_listen h) (ph_stop h) (ph_send h) f.

(** The label [fail]: the shared object, an event_base made here and the block
    are given back. *)
Definition listener_fail (l : ptr) : M ptr :=
  x ← load l;
  match ph_proto (l_handles x) with
  | Some _ => emit (EvDlclose (ph_proto (l_handles x)))
  | None => mret tt
  end ;;
  (if truth (l_baseCreatedHere x)
   then match l_base x with Some _ => emit (EvBaseFree (l_base x)) | None => mret tt end
   else mret tt) ;;
  free tapsListener l ;;
  mret None.

Definition UINT32_MAX : Z := 4294967295.

Definition tapsListenerNew (app_ctx : ptr) (libpath : string) (addr : sockaddr) (base : ptr)
    (callbacks : option tapsCallbacks) : M ptr :=
  l ← malloc tapsListener;
  match l with
  | None => set_errno ENOMEM ;; mret None
  | Some _ =>
  memset0 tapsListener l ;;
  emit (EvDlopen libpath) ;;
  modify l (fun x => set_l_handles (set_ph_proto (dlopen libpath) (l_handles x)) x) ;;
  match dlopen libpath with None => listener_fail l | Some _ =>
  f ← lookup_handle l "Listen" set_ph_listen;
  match f with None => listener_fail l | Some listen =>
  f ← lookup_handle l "Stop" set_ph_stop;
  match f with None => listener_fail l | Some _ =>
  f ← lookup_handle l "Send" set_ph_send;
  match f with None => listener_fail l | Some _ =>
  f ← lookup_handle l "Receive" set_ph_receive;
  match f with None => listener_fail l | Some _ =>
  match base with
  | None =>
      (* TAPS makes an event_base, and gives up in either case *)
      modify l (set_l_base event_base_new TRUE) ;;
      listener_fail l
  | Some _ =>
  modify l (set_l_base base FALSE) ;;
  emit (PListen listen l base addr) ;;
  p ← proto_listen listen l base addr;
  modify l (set_l_proto_ctx p) ;;
  match p with None => listener_fail l | Some _ =>
  modify l (set_l_conn_limit UINT32_MAX) ;;
  cb ← deref callbacks;
  modify l (set_l_callbacks (cb_connectionReceived cb) (cb_establishmentError cb)
              (match app_ctx with Some _ => app_ctx | None => l end)) ;;
  mret l
  end end end end end end end end.

End accept.
