(* ===== verification/Resources.v ===== *)
(** * Resources: what the TCP library holds

    A connection context holds a socket and three events from its acceptance to
    its end, a listener context a socket and one event.  The trace of calls says
    which sockets are open and which events exist: every call that opens or
    makes one counts +1 for it, every call that closes or frees it counts -1. *)

From S2P Require Import Prelude Structs Memory.
Local Open Scope Z_scope.

(** ** Counting in a history *)

Definition socket_step (fd : Z) (ev : event) : Z :=
  match ev with
  | KSocket fd' => if fd' =? fd then 1 else 0
  | KAccept _ fd' => if fd' =? fd then 1 else 0
  | KClose fd' => if fd' =? fd then -1 else 0
  | _ => 0
  end.

Definition event_step (e : ptr) (ev : event) : Z :=
  match ev with
  | LNew e' _ _ _ => if bool_decide (e' = e) then 1 else 0
  | LFree e' => if bool_decide (e' = e) then -1 else 0
  | _ => 0
  end.

Definition total (step : event -> Z) (tr : list event) : Z := fold_right (fun ev n => step ev + n) 0 tr.

(** How often [fd] has been opened and not closed, in a history of calls; how
    often [e] has been made and not freed. *)
Definition opens (fd : Z) : list event -> Z := total (socket_step fd).
Definition events (e : ptr) : list event -> Z := total (event_step e).

Lemma total_app step tr1 tr2 : total step (tr1 ++ tr2) = total step tr1 + total step tr2.
Proof. unfold total. induction tr1 as [|ev tr1 IH]; simpl; lia. Qed.

Lemma opens_app fd tr1 tr2 : opens fd (tr1 ++ tr2) = opens fd tr1 + opens fd tr2.
Proof. apply total_app. Qed.

Lemma events_app e tr1 tr2 : events e (tr1 ++ tr2) = events e tr1 + events e tr2.
Proof. apply total_app. Qed.

(** The two histories hold the same. *)
Definition balanced (tr tr' : list event) : Prop :=
  (forall fd, opens fd tr' = opens fd tr) /\ forall e, events e tr' = events e tr.

#[export] Instance balanced_equiv : Equivalence balanced.
Proof.
  split.
  - by intros tr.
  - intros tr tr' [H1 H2]. by split.
  - intros tr1 tr2 tr3 [H1 H2] [H3 H4]. split; intros; congruence.
Qed.

Lemma balanced_app tr tr' : (forall fd, opens fd tr' = 0) -> (forall e, events e tr' = 0) -> balanced tr (tr ++ tr').
Proof.
  intros Ho He. split; intros; rewrite ?opens_app, ?events_app; [specialize (Ho fd)|specialize (He e)]; lia.
Qed.

Lemma balanced_tail tr tr' e : balanced tr tr' -> balanced (tr ++ e) (tr' ++ e).
Proof. intros [Ho He]. split; intros; rewrite ?opens_app, ?events_app, ?Ho, ?He; done. Qed.

(** A call that neither reports Stopped nor opens, makes, closes or frees. *)
Definition idle (e : event) : bool :=
  match e with
  | EvStopped _ _ | KSocket _ | KAccept _ _ | KClose _ | LNew _ _ _ _ | LFree _ => false
  | _ => true
  end.

Lemma idle_balanced tr e : idle e = true -> balanced tr (tr ++ [e]).
Proof. intros He. apply balanced_app; intros; by destruct e. Qed.

(** ** Contexts *)

(** What stays the same in a context while the library uses it. *)
Inductive holding :=
| HConnection (fd : Z) (closeEvent sendEvent receiveEvent : ptr) (closed : fptr) (taps_ctx : ptr)
| HAccepting (l : listener_ctx).

Definition held (c : conn_ctx) : holding :=
  HConnection (cc_fd c) (cc_closeEvent c) (cc_sendEvent c) (cc_receiveEvent c) (cc_closed c) (cc_taps_ctx c).

Definition obj_holding (o : obj) : option holding :=
  match o with
  | OConnCtx c => Some (held c)
  | OListenerCtx l => Some (HAccepting l)
  | _ => None
  end.

(** The contexts in memory. *)
Definition holdings (h : gmap loc obj) : gmap loc holding := omap obj_holding h.

(** The socket a context keeps open. *)
Definition holds_socket (fd : Z) (h : holding) : bool :=
  match h with HConnection fd' _ _ _ _ _ => fd' =? fd | HAccepting l => lc_fd l =? fd end.
