(* ===== verification/Frame.v ===== *)
(** * Frame: what a computation leaves alone

    The life of a listener is seen through four things: the connections that are
    attached to it, the listener objects, the contexts of the TCP library, and
    the calls that report Stopped or open and close something.  [pres m] says
    that [m] leaves all of them as they were; it is closed under sequencing, so
    it is proved by walking through the code. *)

From S2P Require Import Prelude Structs Memory Message Queue Listener Connection Accept Resources.

(** ** Relations that every run of a computation keeps *)

Definition preserves (R : relation world) {A} (m : M A) : Prop := forall w r w', m w = (r, w') -> R w w'.

Section preserves.
Context (R : relation world) `{!PreOrder R}.

Lemma preserves_ret {A} (a : A) : preserves R (mret a).
Proof. by intros w r w' [= <- <-]. Qed.

Lemma preserves_throw {A} f : preserves R (throw f : M A).
Proof. by intros w r w' [= <- <-]. Qed.

Lemma preserves_read {A} (f : world -> result A) : preserves R (fun w => (f w, w)).
Proof. by intros w r w' [= <- <-]. Qed.

Lemma preserves_bind {A B} (m : M A) (k : A -> M B) :
  preserves R m -> (forall a, preserves R (k a)) -> preserves R (m ≫= k).
Proof.
  intros Hm Hk w r w'. unfold mbind, M_bind.
  destruct (m w) as [[a|f] w1] eqn:E; [|intros [= <- <-]; by eapply Hm].
  intros E'. transitivity w1; [by eapply Hm|by eapply Hk].
Qed.

Lemma preserves_deref {A} (p : option A) : preserves R (deref p).
Proof. destruct p; [apply preserves_ret|apply preserves_throw]. Qed.

End preserves.

(** ** The view *)

(** The listener a block is attached to. *)
Definition obj_link (o : obj) : ptr :=
  match o with OConnection c => c_listener c | _ => None end.

Definition obj_listener (o : obj) : option tapsListener :=
  match o with OListener l => Some l | _ => None end.

(** Connection to listener, for the connections that have one. *)
Definition links (h : gmap loc obj) : gmap loc loc := omap obj_link h.

(** The listener objects. *)
Definition listeners (h : gmap loc obj) : gmap loc tapsListener := omap obj_listener h.

Definition is_stopped (e : event) : bool :=
  match e with EvStopped _ _ => true | _ => false end.

(** The Stopped events delivered so far. *)
Definition stopped_events (t : list event) : nat := length (filter is_stopped t).

(** [w'] differs from [w] in nothing of the view. *)
Definition keeps (w w' : world) : Prop :=
  fresh_from (heap w) (brk w) ->
  fresh_from (heap w') (brk w') /\
  links (heap w') = links (heap w) /\
  listeners (heap w') = listeners (heap w) /\
  holdings (heap w') = holdings (heap w) /\
  stopped_events (trace w') = stopped_events (trace w) /\
  trace w `prefix_of` trace w' /\
  balanced (trace w) (trace w').

Abbreviation pres := (preserves keeps).

(** The part of the view that belongs to the library: what a protocol may not
    change when it takes and gives back resources of its own. *)
Definition undisturbed (w w' : world) : Prop :=
  fresh_from (heap w') (brk w') /\ links (heap w') = links (heap w) /\
  listeners (heap w') = listeners (heap w) /\ stopped_events (trace w') = stopped_events (trace w).

(** ** Parameters that keep the view

    The application may use its connections from inside its callbacks; it does
    not stop or release listeners there.  The protocol reports its events after
    the call that asked for them has returned. *)
Class TameApp `{App} : Prop := {
  tame_call e w : exists w', app_call e w = (Ok tt, w') /\ keeps w w';
  tame_connectionReceived f a c w : exists r w', app_connectionReceived f a c w = (Ok r, w') /\ keeps w w';
}.

Class TameProto `{Proto} : Prop := {
  tame_send f p t d n : pres (proto_send f p t d n);
  tame_receive f p t d n : pres (proto_receive f p t d n);
}.

(** A protocol that reports its end after the call that asked for it. *)
Class TameStop `{Proto} : Prop :=
  tame_stop f p w : exists w', proto_stop f p w = (Ok tt, w') /\ keeps w w'.

(** What the view shows of a block. *)
Definition sight (o : obj) : ptr * option tapsListener * option holding :=
  (obj_link o, obj_listener o, obj_holding o).

Definition unseen : ptr * option tapsListener * option holding := (None, None, None).

(** Structures that are neither a listener nor a connection nor a context. *)
Class Plain (T : Type) `{Object T} : Prop := plain_inj (x : T) : sight (inj x) = unseen.

#[export] Instance message_plain : Plain tapsMessage. Proof. done. Qed.
#[export] Instance iovec_plain : Plain (list iovec). Proof. done. Qed.
#[export] Instance handles_plain : Plain proto_handles. Proof. done. Qed.
#[export] Instance send_plain : Plain send_item. Proof. done. Qed.
#[export] Instance recv_plain : Plain recv_item. Proof. done. Qed.
#[export] Instance string_plain : Plain string. Proof. done. Qed.
#[export] Instance endpoint_plain : Plain tapsEndpoint. Proof. done. Qed.
#[export] Instance transport_plain : Plain transportProperties. Proof. done. Qed.
#[export] Instance preconnection_plain : Plain tapsPreconnection. Proof. done. Qed.
#[export] Instance app_listener_plain : Plain app_listener. Proof. done. Qed.
#[export] Instance app_conn_plain : Plain app_conn. Proof. done. Qed.
#[export] Instance app_msg_plain : Plain app_msg. Proof. done. Qed.

(** ** Lemmas *)

Section view.

Lemma stopped_events_snoc t e :
  stopped_events (t ++ [e]) = (stopped_events t + (if is_stopped e then 1 else 0))%nat.
Proof.
  unfold stopped_events. rewrite filter_app, length_app. f_equal.
  rewrite filter_cons, filter_nil. by destruct (is_stopped e).
Qed.

Lemma omap_insert_alter {A B} (f : A -> option B) (h : gmap loc A) l o :
  omap f (<[l := o]> h) = partial_alter (fun _ => f o) l (omap f h).
Proof.
  apply map_eq. intros i. rewrite lookup_omap. destruct (decide (i = l)) as [->|].
  - by rewrite lookup_insert_eq, lookup_partial_alter_eq.
  - by rewrite lookup_insert_ne, lookup_partial_alter_ne, lookup_omap.
Qed.

Lemma links_insert h l o :
  links (<[l := o]> h) = partial_alter (fun _ => obj_link o) l (links h).
Proof. apply omap_insert_alter. Qed.

Lemma listeners_insert h l o :
  listeners (<[l := o]> h) = partial_alter (fun _ => obj_listener o) l (listeners h).
Proof. apply omap_insert_alter. Qed.

Lemma holdings_insert h l o :
  holdings (<[l := o]> h) = partial_alter (fun _ => obj_holding o) l (holdings h).
Proof. apply omap_insert_alter. Qed.

Lemma links_delete h l : links (delete l h) = delete l (links h).
Proof. unfold links. by rewrite omap_delete. Qed.

Lemma listeners_delete h l : listeners (delete l h) = delete l (listeners h).
Proof. unfold listeners. by rewrite omap_delete. Qed.

Lemma holdings_delete h l : holdings (delete l h) = delete l (holdings h).
Proof. unfold holdings. by rewrite omap_delete. Qed.

Lemma links_lookup h l : links h !! l = (h !! l) ≫= obj_link.
Proof. apply lookup_omap. Qed.

Lemma listeners_lookup h l : listeners h !! l = (h !! l) ≫= obj_listener.
Proof. apply lookup_omap. Qed.

Lemma holdings_lookup h l : holdings h !! l = (h !! l) ≫= obj_holding.
Proof. apply lookup_omap. Qed.

Lemma partial_alter_same {A} (m : gmap loc A) l v :
  m !! l = v -> partial_alter (fun _ => v) l m = m.
Proof.
  intros E. apply map_eq. intros i. destruct (decide (i = l)) as [->|].
  - by rewrite lookup_partial_alter_eq.
  - by rewrite lookup_partial_alter_ne.
Qed.

Lemma fresh_from_succ h b : fresh_from h b -> fresh_from h (Pos.succ b).
Proof. intros Hf i Hi. apply Hf. lia. Qed.

End view.

Section keeps.

#[export] Instance keeps_preorder : PreOrder keeps.
Proof.
  split; [by intros w Hf|].
  intros w1 w2 w3 H12 H23 Hf. destruct (H12 Hf) as (Hf2 & E1 & E2 & E3 & E4 & E5 & E6).
  destruct (H23 Hf2) as (Hf3 & F1 & F2 & F3 & F4 & F5 & F6).
  splits; [done|congruence..|by etrans|by etrans].
Qed.

(** A state that differs in its blocks only, and in none that the view shows. *)
Lemma keeps_heap h b w :
  (fresh_from (heap w) (brk w) -> fresh_from h b) ->
  (forall l, sight <$> h !! l = sight <$> heap w !! l \/
     (default unseen (sight <$> h !! l) = unseen /\ default unseen (sight <$> heap w !! l) = unseen)) ->
  keeps w (World h b (errno w) (trace w)).
Proof.
  intros Hf Hs Fr. simpl.
  assert (forall {B} (f : obj -> option B) g, (forall o, f o = g (sight o)) -> g unseen = None ->
    omap f h = omap f (heap w)) as Hv.
  { intros B f g Hfg Hn. apply map_eq. intros l. rewrite !lookup_omap.
    destruct (Hs l) as [E|[E1 E2]].
    - destruct (h !! l) as [o|], (heap w !! l) as [o'|]; try done. simpl. rewrite !Hfg.
      by rewrite (f_equal (default unseen) E : sight o = sight o').
    - assert (forall m : gmap loc obj, default unseen (sight <$> m !! l) = unseen -> m !! l ≫= f = None) as Hm.
      { intros m Em. destruct (m !! l); simpl in *; [|done]. by rewrite Hfg, Em. }
      by rewrite !Hm. }
  splits; [by apply Hf| | |apply (Hv _ _ snd); done|done..].
  - by apply (Hv _ _ (fun s => s.1.1)).
  - by apply (Hv _ _ (fun s => s.1.2)).
Qed.

Lemma keeps_undisturbed w w' : fresh_from (heap w) (brk w) -> keeps w w' -> undisturbed w w'.
Proof. intros Hf K. by destruct (K Hf) as (? & ? & ? & _ & ? & _). Qed.

Lemma undisturbed_trans w1 w2 w3 : undisturbed w1 w2 -> undisturbed w2 w3 -> undisturbed w1 w3.
Proof. intros (_ & ? & ? & ?) (? & ? & ? & ?). unfold undisturbed. splits; [done|congruence..]. Qed.

(** A block of the protocol. *)
Lemma undisturbed_insert l o w :
  fresh_from (heap w) (brk w) -> (l < brk w)%positive -> obj_link o = (heap w !! l ≫= obj_link) ->
  obj_listener o = (heap w !! l ≫= obj_listener) -> undisturbed w (set_heap (<[l := o]> (heap w)) w).
Proof.
  intros Hf Hl E1 E2. split; [by apply fresh_from_insert|]. simpl. rewrite links_insert, listeners_insert.
  rewrite !partial_alter_same by (rewrite ?links_lookup, ?listeners_lookup; done). done.
Qed.

Lemma undisturbed_alloc o w :
  fresh_from (heap w) (brk w) -> obj_link o = None -> obj_listener o = None ->
  undisturbed w (World (<[brk w := o]> (heap w)) (Pos.succ (brk w)) (errno w) (trace w)).
Proof.
  intros Hf E1 E2. split; [apply fresh_from_insert; [simpl; lia|by apply fresh_from_succ]|].
  assert (heap w !! brk w = None) as Hn by (apply Hf; lia). simpl. rewrite links_insert, listeners_insert.
  rewrite !partial_alter_same by (rewrite ?links_lookup, ?listeners_lookup, Hn; simpl; congruence). done.
Qed.

Lemma undisturbed_delete l w :
  fresh_from (heap w) (brk w) -> (heap w !! l ≫= obj_link) = None -> (heap w !! l ≫= obj_listener) = None ->
  undisturbed w (set_heap (delete l (heap w)) w).
Proof.
  intros Hf E1 E2. split; [by apply fresh_from_delete|]. simpl. rewrite links_delete, listeners_delete.
  rewrite (delete_id (links _)), (delete_id (listeners _)) by (rewrite ?links_lookup, ?listeners_lookup; done). done.
Qed.

Lemma undisturbed_calls tr w :
  fresh_from (heap w) (brk w) -> stopped_events tr = 0%nat ->
  undisturbed w (World (heap w) (brk w) (errno w) (trace w ++ tr)).
Proof.
  intros Hf Ht. split; [done|]. simpl. unfold stopped_events in *. rewrite filter_app, length_app, Ht. splits; done || lia.
Qed.

Lemma keeps_event e w : idle e = true -> keeps w (add_event e w).
Proof.
  intros He Hf. simpl. rewrite stopped_events_snoc.
  splits; [done..| |by apply prefix_app_r|by apply idle_balanced].
  destruct e; simpl in *; lia.
Qed.

(** Replacing a block by one that looks the same. *)
Lemma keeps_update l o o' w :
  heap w !! l = Some o -> sight o' = sight o -> keeps w (set_heap (<[l := o']> (heap w)) w).
Proof.
  intros Hl E. apply keeps_heap.
  - intros Hf. apply fresh_from_insert; [|done]. by eapply fresh_from_lt.
  - intros i. left. destruct (decide (i = l)) as [->|]; [|by rewrite lookup_insert_ne].
    rewrite lookup_insert_eq, Hl. simpl. congruence.
Qed.

Lemma keeps_delete l o w :
  heap w !! l = Some o -> sight o = unseen -> keeps w (set_heap (delete l (heap w)) w).
Proof.
  intros Hl E. apply keeps_heap; [by apply fresh_from_delete|].
  intros i. destruct (decide (i = l)) as [->|]; [right|left; by rewrite lookup_delete_ne].
  by rewrite lookup_delete_eq, Hl.
Qed.

Lemma keeps_alloc o w :
  sight o = unseen -> keeps w (World (<[brk w := o]> (heap w)) (Pos.succ (brk w)) (errno w) (trace w)).
Proof.
  intros E Hf. assert (heap w !! brk w = None) as Hn by (apply Hf; lia). revert Hf.
  apply keeps_heap.
  - intros Hf. apply fresh_from_insert; [lia|]. by apply fresh_from_succ.
  - intros i. destruct (decide (i = brk w)) as [->|]; [right|left; by rewrite lookup_insert_ne].
    by rewrite lookup_insert_eq, Hn.
Qed.

End keeps.

Section pres.
Context `{Machine}.

Lemma pres_run {A} (m : M A) w r w' : pres m -> m w = (r, w') -> keeps w w'.
Proof. intros Hp. apply Hp. Qed.

Lemma pres_load {T} `{Object T} p : pres (load p : M T).
Proof.
  intros w r w'. unfold load.
  repeat case_match; intros [= <- <-]; try done. by apply keeps_event.
Qed.

(** An assignment that the view does not show. *)
Lemma pres_modify_sight {T} `{Object T} p (f : T -> T) :
  (forall x, sight (inj (f x)) = sight (inj x)) -> pres (modify p f).
Proof.
  intros Hs w r w'. unfold modify.
  destruct p as [l|]; [|by intros [= <- <-]].
  destruct (heap w !! l) as [o|] eqn:El; [|by intros [= <- <-]].
  destruct (proj o) as [x|] eqn:Ep; intros [= <- <-]; [|done].
  apply inj_proj in Ep as ->. by eapply keeps_update.
Qed.

Lemma pres_modify {T} `{Plain T} p (f : T -> T) : pres (modify p f).
Proof. apply pres_modify_sight. intros x. by rewrite !plain_inj. Qed.

Lemma pres_modify_connection p (f : tapsConnection -> tapsConnection) :
  (forall c, c_listener (f c) = c_listener c) -> pres (modify p f).
Proof. intros Hc. apply pres_modify_sight. intros c. unfold sight. simpl. by rewrite Hc. Qed.

Lemma pres_modify_context p (f : conn_ctx -> conn_ctx) :
  (forall c, held (f c) = held c) -> pres (modify p f).
Proof. intros Hc. apply pres_modify_sight. intros c. unfold sight. simpl. by rewrite Hc. Qed.

Lemma pres_malloc T `{Plain T} : pres (malloc T).
Proof.
  intros w r w'. unfold malloc. destruct (malloc_ok (brk w)); intros [= <- <-].
  - apply keeps_alloc, plain_inj.
  - intros Hf. splits; [|done..]. by apply fresh_from_succ.
Qed.

Lemma pres_free T `{Plain T} p : pres (free T p).
Proof.
  intros w r w'. unfold free.
  destruct p as [l|]; [|by intros [= <- <-]].
  destruct (heap w !! l) as [o|] eqn:El; [|by intros [= <- <-]].
  destruct (proj o) as [x|] eqn:Ep; intros [= <- <-]; [|done].
  apply inj_proj in Ep as ->. eapply keeps_delete; [done|apply plain_inj].
Qed.

Lemma pres_emit e : idle e = true -> pres (emit e).
Proof. intros He w r w' [= <- <-]. by apply keeps_event. Qed.

Lemma pres_errno e : pres (set_errno e).
Proof. by intros w r w' [= <- <-] Hf. Qed.

Lemma pres_call_app `{TameApp} f e : (forall g, idle (e g) = true) -> pres (call_app f e).
Proof.
  intros He. unfold call_app. destruct f as [g|]; [|apply (preserves_throw keeps)].
  apply (preserves_bind keeps); [by apply pres_emit|]. intros _ w r w' E.
  destruct (tame_call (e g) w) as (w1 & E1 & K). rewrite E1 in E. by simplify_eq.
Qed.

Lemma pres_call_send `{TameProto} f p t d n : pres (call_send f p t d n).
Proof.
  unfold call_send. destruct f as [g|]; [|apply (preserves_throw keeps)].
  apply (preserves_bind keeps); [by apply pres_emit|]. intros _. apply tame_send.
Qed.

Lemma pres_call_receive `{TameProto} f p t d n : pres (call_receive f p t d n).
Proof.
  unfold call_receive. destruct f as [g|]; [|apply (preserves_throw keeps)].
  apply (preserves_bind keeps); [by apply pres_emit|]. intros _. apply tame_receive.
Qed.

Lemma pres_call_stop `{TameStop} f p : pres (call_stop f p).
Proof.
  unfold call_stop. destruct f as [g|]; [|apply (preserves_throw keeps)].
  apply (preserves_bind keeps); [by apply pres_emit|]. intros _ w r w' E.
  destruct (tame_stop g p w) as (w1 & E1 & K). rewrite E1 in E. by simplify_eq.
Qed.

End pres.

Create HintDb pres.
#[export] Hint Resolve preserves_ret preserves_throw preserves_read preserves_deref : pres.
#[export] Hint Resolve pres_load pres_modify pres_malloc pres_free pres_emit pres_errno pres_call_app pres_call_send pres_call_receive
  pres_call_stop : pres.

#[export] Hint Extern 1 (Plain _) => typeclasses eauto : pres.
#[export] Hint Extern 1 (PreOrder _) => typeclasses eauto : pres.
#[export] Hint Extern 1 (c_listener _ = c_listener _) => reflexivity : pres.

(** Walk through a computation. *)
Ltac pres :=
  repeat first
    [ progress intros
    | match goal with |- preserves _ (_ ≫= _) => apply preserves_bind; [exact _|..] end
    | solve [eauto with pres]
    | solve [apply pres_modify_connection; done]
    | solve [apply pres_modify_context; done]
    | case_match ].

(** The concrete parameters keep the view. *)
#[export] Instance test_app_tame a : @TameApp (test_app a).
Proof. split; intros; [exists w|eexists _, w]; (split; [done|reflexivity]). Defined.

#[export] Instance test_proto_tame n : @TameProto (test_proto n).
Proof. split; intros; apply (preserves_ret keeps). Defined.

#[export] Instance test_proto_tame_stop n : @TameStop (test_proto n).
Proof. intros f p w. exists w. split; [done|reflexivity]. Defined.

(** A finite state is fresh from the bound of its addresses. *)
Lemma test_world_fresh l b :
  Forall (fun p : loc * obj => (p.1 < b)%positive) l -> fresh_from (heap (test_world l b)) (brk (test_world l b)).
Proof.
  intros Hl i Hi. simpl in *. apply not_elem_of_list_to_map_1.
  intros ([j o] & -> & Hin)%list_elem_of_fmap. rewrite Forall_forall in Hl.
  specialize (Hl _ Hin). simpl in *. lia.
Qed.
