(* ===== verification/Lifecycle.v ===== *)
(** * Lifecycle: a listener, its connections and the Stopped event

    taps.h promises that tapsListenerStop reports Stopped only once every
    connection the listener has spawned is closed.  The listener keeps that
    promise with a counter.  This file gives the run of the library around one
    listener as a transition system, and proves the promise. *)

From S2P Require Import Prelude Structs Memory Message Queue Listener Connection Accept Frame.
Local Open Scope Z_scope.

(** ** The requests that leave the listener alone *)

Section frame.
Context `{Machine} `{TameApp} `{TameProto}.

Lemma pres_lv_get (f : field tapsConnection) p : pres (lv_get f p).
Proof. unfold lv_get. pres. Qed.

Lemma pres_lv_set (f : field tapsConnection) p q :
  (forall c q, c_listener (f_set f q c) = c_listener c) -> pres (lv_set f p q).
Proof. intros Hf. unfold lv_set. by apply pres_modify_connection. Qed.

Lemma pres_ADD_ITEM T `{Linked T} `{!Plain T} (f : field tapsConnection) p :
  (forall c q, c_listener (f_set f q c) = c_listener c) -> pres (ADD_ITEM T f p).
Proof.
  intros Hf. unfold ADD_ITEM. pose proof (pres_lv_get f). pose proof (fun p q => pres_lv_set f p q Hf).
  pres.
Qed.

Lemma pres_DELETE_ITEM T `{Linked T} `{!Plain T} item (f : field tapsConnection) p :
  pres item -> (forall c q, c_listener (f_set f q c) = c_listener c) -> pres (DELETE_ITEM T item f p).
Proof.
  intros Hi Hf. unfold DELETE_ITEM, rd. pose proof (fun p q => pres_lv_set f p q Hf).
  pres.
Qed.

Hint Resolve pres_ADD_ITEM pres_DELETE_ITEM : pres.

Lemma pres_GetIovec p : pres (tapsMessageGetIovec p).
Proof. unfold tapsMessageGetIovec. pres. Qed.

Lemma pres_load_handles h : pres (load_handles h).
Proof. unfold load_handles. pres. Qed.

Hint Resolve pres_GetIovec pres_load_handles : pres.

Lemma pres_send_common c i : pres (_taps_send_common c i).
Proof. unfold _taps_send_common. pres. Qed.
Hint Resolve pres_send_common : pres.

Lemma pres_sent i : pres (_taps_sent i).
Proof. unfold _taps_sent. pres. Qed.

Lemma pres_expired i : pres (_taps_expired i).
Proof. unfold _taps_expired. pres. Qed.

Lemma pres_send_error i r : pres (_taps_send_error i r).
Proof. unfold _taps_send_error. pres. Qed.

Lemma pres_Send c m a cb : pres (tapsConnectionSend c m a cb).
Proof. unfold tapsConnectionSend. pres. Qed.

Lemma pres_iov_len_at a i : pres (iov_len_at a i).
Proof. intros w r w'. unfold iov_len_at. by repeat case_match; intros [= <- <-]. Qed.
Hint Resolve pres_iov_len_at : pres.

Lemma pres_trunc_loop fuel : forall a n r i, pres (trunc_loop fuel a n r i).
Proof. induction fuel; intros; cbn [trunc_loop]; pres. Qed.
Hint Resolve pres_trunc_loop : pres.

Lemma pres_trunc_iovec v n len : pres (_taps_trunc_iovec v n len).
Proof. unfold _taps_trunc_iovec, iov_array. pres. Qed.
Hint Resolve pres_trunc_iovec : pres.

Lemma pres_free_data v d : pres (free_data v d).
Proof. unfold free_data. pres. Qed.

Lemma pres_issue_receive c i d n : pres (issue_receive c i d n).
Proof. unfold issue_receive. pres. Qed.
Hint Resolve pres_free_data pres_issue_receive : pres.

Lemma pres_receive_error i d r : pres (_taps_receive_error i d r).
Proof. unfold _taps_receive_error. pres. Qed.
Hint Resolve pres_receive_error : pres.

Lemma pres_received i d n : pres (_taps_received i d n).
Proof. unfold _taps_received. pres. Qed.

Lemma pres_received_partial i d n : pres (_taps_received_partial i d n).
Proof. unfold _taps_received_partial. pres. Qed.

Lemma pres_Receive c a m n x cb : pres (tapsConnectionReceive c a m n x cb).
Proof. unfold tapsConnectionReceive. pres. Qed.

Lemma pres_truncate_loop fuel : forall a n r i, pres (truncate_loop fuel a n r i).
Proof.
  induction fuel; intros; unfold truncate_loop; fold truncate_loop; pres.
Qed.

Lemma pres_Truncate m n : pres (tapsMessageTruncate m n).
Proof. unfold tapsMessageTruncate. pose proof pres_truncate_loop. pres. Qed.

Lemma pres_MessageNew d n : pres (tapsMessageNew d n).
Proof. unfold tapsMessageNew. pres. Qed.

Lemma pres_MessageFree m : pres (tapsMessageFree m).
Proof. unfold tapsMessageFree. pres. Qed.

Lemma pres_drop_all fuel : forall get drop c,
  pres (drop c) -> pres (drop_all fuel get drop c).
Proof. induction fuel; intros; cbn [drop_all]; pres. Qed.

Lemma pres_drop_send c : pres (drop_send c).
Proof. unfold drop_send. pres. apply pres_DELETE_ITEM; pres. Qed.

Lemma pres_drop_recv c : pres (drop_recv c).
Proof. unfold drop_recv. pres. apply pres_DELETE_ITEM; pres. Qed.

(** Freeing a connection that has no listener. *)
Lemma keeps_ConnectionFree c w r w' :
  fresh_from (heap w) (brk w) -> links (heap w) !! c = None ->
  tapsConnectionFree (Some c) w = (r, w') -> keeps w w'.
Proof.
  intros Hf Hc. unfold tapsConnectionFree.
  generalize (S (Pos.to_nat (brk w))). intros fuel.
  pose proof (pres_drop_all fuel c_sndq drop_send (Some c) (pres_drop_send _)) as P1.
  pose proof (pres_drop_all fuel c_rcvq drop_recv (Some c) (pres_drop_recv _)) as P2.
  unfold mbind, M_bind.
  destruct (drop_all fuel c_sndq _ _ w) as [[[]|f] w1] eqn:E1; [|intros [= <- <-]; by eapply P1].
  destruct (drop_all fuel c_rcvq _ _ w1) as [[[]|f] w2] eqn:E2;
    [|intros [= <- <-]; transitivity w1; [by eapply P1|by eapply P2]].
  assert (keeps w w2) as K by (transitivity w1; [by eapply P1|by eapply P2]).
  intros E3. transitivity w2; [done|]. destruct (K Hf) as (Hf2 & El & _).
  unfold free in E3. destruct (heap w2 !! c) as [o|] eqn:Ho; [|by simplify_eq].
  destruct (proj o : option tapsConnection) as [x|] eqn:Hx; [|by simplify_eq].
  simplify_eq. apply inj_proj in Hx as ->. eapply keeps_delete; [done|].
  rewrite <- El, links_lookup, Ho in Hc. simpl in Hc. unfold sight. simpl. by rewrite Hc.
Qed.

End frame.

(** ** The transition system *)

(** Connections attached to the listener [L]. *)
Definition attached (h : gmap loc obj) (L : loc) : Z :=
  count (fun l => bool_decide (l = L)) (links h).

Section system.
Context `{Machine} `{App} `{Proto}.

(** Requests and reports on connections and messages, at any time and with any
    arguments. *)
Inductive request : M unit -> Prop :=
| rq_send c m a cb : request (tapsConnectionSend c m a cb ;; mret tt)
| rq_receive c a m n x cb : request (tapsConnectionReceive c a m n x cb ;; mret tt)
| rq_sent i : request (_taps_sent i)
| rq_expired i : request (_taps_expired i)
| rq_send_error i r : request (_taps_send_error i r)
| rq_received i d n : request (_taps_received i d n)
| rq_received_partial i d n : request (_taps_received_partial i d n)
| rq_receive_error i d r : request (_taps_receive_error i d r)
| rq_message d n : request (tapsMessageNew d n ;; mret tt)
| rq_truncate m n : request (tapsMessageTruncate m n)
| rq_message_free m : request (tapsMessageFree m).

(** One step around the listener [L].  The protocol reports connections until
    it has reported that it stopped, reports the end of a connection once, and
    answers one stop request with one report; the application stops a listener
    once and frees a connection after it has been closed. *)
Inductive step (L : loc) (w : world) : world -> Prop :=
| st_accept p x r w' :
    listeners (heap w) !! L = Some x -> l_readyToStop x = FALSE ->
    attached (heap w) L + 1 < 2 ^ 32 ->
    _taps_connection_received (Some L) p w = (r, w') -> step L w w'
| st_closed c r w' :
    links (heap w) !! c = Some L -> _taps_closed (Some c) w = (r, w') -> step L w w'
| st_error c r w' :
    links (heap w) !! c = Some L -> _taps_connection_error (Some c) w = (r, w') -> step L w w'
| st_stop x cb r w' :
    listeners (heap w) !! L = Some x -> l_readyToStop x = FALSE -> l_stopped x = None ->
    tapsListenerStop (Some L) cb w = (r, w') -> step L w w'
| st_stopped x f r w' :
    listeners (heap w) !! L = Some x -> l_readyToStop x = FALSE -> l_stopped x = Some f ->
    _taps_stopped (Some L) w = (r, w') -> step L w w'
| st_request m r w' :
    request m -> m w = (r, w') -> step L w w'
| st_free c r w' :
    links (heap w) !! c = None -> tapsConnectionFree (Some c) w = (r, w') -> step L w w'.

(** The states of a listener: accepting, asked to stop, stopped with
    connections left, done.  [n] connections are attached, [k] Stopped events
    have been delivered. *)
Inductive phase : Z -> fptr -> Z -> nat -> Prop :=
| Listening n : 0 <= n -> phase FALSE None n 0
| Stopping f n : 0 <= n -> phase FALSE (Some f) n 0
| Draining f n : 0 < n -> phase TRUE (Some f) n 0
| Stopped : phase TRUE None 0 1.

Definition linv (L : loc) (w : world) : Prop :=
  fresh_from (heap w) (brk w) /\
  exists x, listeners (heap w) !! L = Some x /\
    l_ref_count x = attached (heap w) L /\ attached (heap w) L < 2 ^ 32 /\
    phase (l_readyToStop x) (l_stopped x) (attached (heap w) L) (stopped_events (trace w)).

(** A listener as tapsListenerNew leaves it. *)
Definition initial (L : loc) (w : world) : Prop :=
  fresh_from (heap w) (brk w) /\ attached (heap w) L = 0 /\ stopped_events (trace w) = 0%nat /\
  exists x, listeners (heap w) !! L = Some x /\
    l_ref_count x = 0 /\ l_readyToStop x = FALSE /\ l_stopped x = None.

Inductive reachable (L : loc) (w0 : world) : world -> Prop :=
| reach_init : initial L w0 -> reachable L w0 w0
| reach_step w w' : reachable L w0 w -> step L w w' -> reachable L w0 w'.

End system.

(** ** Counting attached connections *)

Section counting.

Lemma attached_nonneg h L : 0 <= attached h L.
Proof. apply count_nonneg. Qed.

Lemma attached_links h h' L : links h' = links h -> attached h' L = attached h L.
Proof. unfold attached. by intros ->. Qed.

Lemma attached_insert h h' c L :
  links h !! c = None -> links h' = <[c := L]> (links h) -> attached h' L = attached h L + 1.
Proof. intros Hc E. unfold attached. by rewrite E, count_insert, bool_decide_true by done. Qed.

Lemma attached_delete h h' c L :
  links h !! c = Some L -> links h' = delete c (links h) -> attached h' L = attached h L - 1.
Proof. intros Hc E. unfold attached. by rewrite E, (count_delete _ _ _ _ Hc), bool_decide_true by done. Qed.

Lemma links_connection h c L :
  links h !! c = Some L -> exists x, h !! c = Some (OConnection x) /\ c_listener x = Some L.
Proof.
  rewrite links_lookup. destruct (h !! c) as [[]|] eqn:E; simpl; try done.
  intros Hl. eauto.
Qed.

Lemma listeners_listener h L x : listeners h !! L = Some x <-> h !! L = Some (OListener x).
Proof.
  rewrite listeners_lookup. split; [|by intros ->].
  destruct (h !! L) as [[]|]; simpl; try done. by intros [= ->].
Qed.

End counting.

(** ** Preservation *)

Section preservation.
Context `{Machine} `{TameApp} `{TameProto}.

(** tapsListenerDeref on every branch. *)
Lemma tapsListenerDeref_run L x w :
  heap w !! L = Some (OListener x) -> 0 < l_ref_count x < 2 ^ 32 ->
  tapsListenerDeref (Some L) w =
  let y := set_l_ref_count (l_ref_count x - 1) x in
  if truth (l_readyToStop x) && (l_ref_count x - 1 =? 0)
  then call_app (l_stopped x) (fun f => EvStopped f (l_app_ctx x))
         (set_heap (<[L := OListener (set_l_stopped None y)]> (heap w)) w)
  else (Ok tt, set_heap (<[L := OListener y]> (heap w)) w).
Proof.
  intros Hx Hr. unfold tapsListenerDeref. steps. rewrite wrap_small by lia.
  case_goal; [|done]. steps. by rewrite insert_insert_eq.
Qed.

Lemma stopped_app f a w :
  exists w1 w', call_app (Some f) (fun g => EvStopped g a) w = (Ok tt, w')
    /\ w1 = add_event (EvStopped f a) w /\ keeps w1 w'.
Proof.
  unfold call_app, mbind, M_bind, emit.
  destruct (tame_call (EvStopped f a) (add_event (EvStopped f a) w)) as (w' & E & K).
  eauto.
Qed.

(** One connection less. *)
Lemma phase_release rd st n k :
  phase rd st n k -> 0 < n ->
  (truth rd && (n - 1 =? 0) = false /\ phase rd st (n - 1) k) \/
  (exists f, truth rd && (n - 1 =? 0) = true /\ st = Some f /\ phase rd None (n - 1) (S k)).
Proof.
  intros Hp Hn. destruct Hp as [n Hn'|f n Hn'|f n Hn'|]; [..|lia].
  - left. split; [done|constructor; lia].
  - left. split; [done|constructor; lia].
  - simpl. destruct (Z.eqb_spec (n - 1) 0) as [->|].
    + right. exists f. splits; [done..|constructor].
    + left. split; [done|constructor; lia].
Qed.

(** A listener object replaced by another one. *)
Lemma update_listener L x y w :
  listeners (heap w) !! L = Some x -> fresh_from (heap w) (brk w) ->
  let h := <[L := OListener y]> (heap w) in
  fresh_from h (brk w) /\ links h = links (heap w) /\ listeners h !! L = Some y.
Proof.
  intros Hx Hf h. apply listeners_listener in Hx. unfold h.
  splits; [|rewrite links_insert, partial_alter_same; [done|by rewrite links_lookup, Hx]|].
  - apply fresh_from_insert; [by eapply fresh_from_lt|done].
  - apply listeners_listener. by rewrite lookup_insert_eq.
Qed.

(** A connection that lets go of its listener. *)
Lemma update_detached c x w :
  heap w !! c = Some (OConnection x) -> fresh_from (heap w) (brk w) ->
  let h := <[c := OConnection (set_c_listener None x)]> (heap w) in
  fresh_from h (brk w) /\ links h = delete c (links (heap w)) /\ listeners h = listeners (heap w).
Proof.
  intros Hx Hf h. unfold h. rewrite links_insert, listeners_insert. splits.
  - apply fresh_from_insert; [by eapply fresh_from_lt|done].
  - apply map_eq. intros i. rewrite lookup_partial_alter, lookup_delete. done.
  - apply partial_alter_same. by rewrite listeners_lookup, Hx.
Qed.

Lemma undisturbed_linv L w w' : linv L w -> undisturbed w w' -> linv L w'.
Proof.
  intros (Hf & x & Hx & Hr & Hb & Hp) (Hf' & E1 & E2 & E3).
  split; [done|]. exists x. rewrite E2, (attached_links _ _ _ E1), E3. done.
Qed.

Lemma keeps_linv L w w' : linv L w -> keeps w w' -> linv L w'.
Proof. intros Hi K. eapply undisturbed_linv, keeps_undisturbed, K; [exact Hi|apply Hi]. Qed.

(** Letting go of the listener: the count goes down with the connections, and
    Stopped is delivered when the last one of a stopped listener goes. *)
Lemma detach_run L c w :
  linv L w -> links (heap w) !! c = Some L ->
  exists w', detach (Some c) w = (Ok tt, w') /\ linv L w'
    /\ links (heap w') = delete c (links (heap w))
    /\ (exists x, heap w' !! c = Some (OConnection x))
    /\ (forall x f, listeners (heap w) !! L = Some x -> l_readyToStop x = TRUE -> l_stopped x = Some f ->
         attached (heap w) L = 1 -> EvStopped f (l_app_ctx x) ∈ trace w').
Proof.
  intros (Hf & x & Hx & Hr & Hb & Hp) Hc.
  destruct (links_connection _ _ _ Hc) as (cx & Hcx & Hl).
  pose proof (proj1 (listeners_listener _ _ _) Hx) as HL.
  pose proof (attached_delete (heap w) (delete c (heap w)) c L Hc (links_delete _ _)) as Ha.
  pose proof (attached_nonneg (delete c (heap w)) L).
  assert (exists w2 y, tapsListenerDeref (Some L) w = (Ok tt, w2)
    /\ fresh_from (heap w2) (brk w2) /\ links (heap w2) = links (heap w)
    /\ listeners (heap w2) !! L = Some y /\ l_ref_count y = l_ref_count x - 1
    /\ phase (l_readyToStop y) (l_stopped y) (l_ref_count y) (stopped_events (trace w2))
    /\ (forall f, l_readyToStop x = TRUE -> l_stopped x = Some f -> l_ref_count x = 1 ->
         EvStopped f (l_app_ctx x) ∈ trace w2))
    as (w2 & y & E & Hf2 & Hl2 & Hy & Hry & Hpy & Hev).
  { rewrite (tapsListenerDeref_run L x) by (done || lia). cbn zeta.
    rewrite Hr in *. destruct (phase_release _ _ _ _ Hp) as [[Et Hp'] | (f & -> & Hst & Hp')]; [lia|..].
    - eexists _, _. destruct (update_listener L x (set_l_ref_count (attached (heap w) L - 1) x) w)
        as (? & ? & ?); [done..|]. rewrite Et. splits; try done. intros f E1 E2 E3.
      by rewrite E1, E3 in Et.
    - set (y := set_l_stopped None (set_l_ref_count (attached (heap w) L - 1) x)).
      destruct (update_listener L x y w) as (F1 & F2 & F3); [done..|].
      rewrite Hst. destruct (stopped_app f (l_app_ctx x)
        (set_heap (<[L := OListener y]> (heap w)) w)) as (w1 & w2 & E & -> & K).
      destruct (K F1) as (K1 & K2 & K3 & _ & K4 & K5 & _). simpl in *.
      exists w2, y. splits; [exact E|done|congruence|congruence|done| |].
      + rewrite K4, stopped_events_snoc. simpl. by rewrite Nat.add_1_r.
      + intros f' _ E' _. assert (f' = f) as -> by congruence.
        eapply elem_of_prefix; [|exact K5]. set_solver. }
  rewrite <- Hl2 in Hc. destruct (links_connection _ _ _ Hc) as (cx' & Hcx' & _).
  destruct (update_detached c cx' w2) as (G1 & G2 & G3); [done..|].
  eexists. splits.
  - unfold detach. steps. rewrite Hl. erewrite bind_ok by exact E. steps. done.
  - split; [done|]. exists y. simpl.
    rewrite (attached_links (delete c (heap w)) _ L), Ha by (rewrite G2, Hl2; symmetry; apply links_delete).
    rewrite G3, <- Hr, <- Hry. splits; [done|done|lia|done].
  - simpl. by rewrite G2, Hl2.
  - eexists. simpl. by rewrite lookup_insert_eq.
  - simpl. intros x' f Hx' E1 E2 E3. assert (x' = x) as -> by congruence. apply Hev; congruence.
Qed.

Lemma pres_linv {A} L (m : M A) w r w' : pres m -> linv L w -> m w = (r, w') -> linv L w'.
Proof. intros Hp Hi E. eapply keeps_linv; [done|by eapply Hp]. Qed.

Lemma closed_linv L c w r w' :
  linv L w -> links (heap w) !! c = Some L -> _taps_closed (Some c) w = (r, w') -> linv L w'.
Proof.
  intros Hi Hc. destruct (detach_run L c w Hi Hc) as (w1 & E & Hi1 & _).
  unfold _taps_closed. erewrite bind_ok by exact E. apply pres_linv; [|done]. pres.
Qed.

Lemma error_linv L c w r w' :
  linv L w -> links (heap w) !! c = Some L -> _taps_connection_error (Some c) w = (r, w') -> linv L w'.
Proof.
  intros Hi Hc. destruct (detach_run L c w Hi Hc) as (w1 & E & Hi1 & _).
  unfold _taps_connection_error. erewrite bind_ok by exact E. apply pres_linv; [|done]. pres.
Qed.

(** The listener between the request to stop and the call of the protocol. *)
Lemma stopping_linv L x f w :
  linv L w -> listeners (heap w) !! L = Some x -> l_readyToStop x = FALSE -> l_stopped x = None ->
  let w1 := set_heap (<[L := OListener (set_l_stopped (Some f) x)]> (heap w)) w in
  linv L w1 /\ links (heap w1) = links (heap w) /\ listeners (heap w1) !! L = Some (set_l_stopped (Some f) x).
Proof.
  intros (Hf & x' & Hx' & Hr & Hb & Hp) Hx Hrd Hst. assert (x' = x) as -> by congruence.
  destruct (update_listener L x (set_l_stopped (Some f) x) w) as (F1 & F2 & F3); [done..|].
  simpl. splits; try done. split; [done|]. eexists. split; [exact F3|]. simpl.
  rewrite (attached_links _ _ _ F2). splits; [done|done|].
  rewrite Hrd, Hst in *. inversion Hp. by constructor.
Qed.

Lemma stop_linv `{!TameStop} L x cb w r w' :
  linv L w -> listeners (heap w) !! L = Some x -> l_readyToStop x = FALSE -> l_stopped x = None ->
  tapsListenerStop (Some L) cb w = (r, w') -> linv L w'.
Proof.
  intros Hi Hx Hrd Hst. unfold tapsListenerStop.
  destruct (cb ≫= cb_stopped) as [f|]; [|apply pres_linv; [|done]; pres].
  pose proof (proj1 (listeners_listener _ _ _) Hx) as HL. steps.
  apply pres_linv; [pose proof (fun f p => pres_call_stop f p); pres|].
  by apply stopping_linv.
Qed.

Lemma stopped_linv L x f w r w' :
  linv L w -> listeners (heap w) !! L = Some x -> l_readyToStop x = FALSE -> l_stopped x = Some f ->
  _taps_stopped (Some L) w = (r, w') -> linv L w'.
Proof.
  intros (Hf & x' & Hx' & Hr & Hb & Hp) Hx Hrd Hst. assert (x' = x) as -> by congruence.
  rewrite Hrd, Hst in Hp.
  assert (stopped_events (trace w) = 0%nat) as Hk by (by inversion Hp).
  pose proof (attached_nonneg (heap w) L).
  pose proof (proj1 (listeners_listener _ _ _) Hx) as HL.
  set (y := set_l_readyToStop TRUE x).
  unfold _taps_stopped. steps. fold y.
  destruct (Z.eqb_spec (l_ref_count x) 0) as [E0|E0].
  - steps. rewrite insert_insert_eq, Hst.
    destruct (update_listener L x (set_l_stopped None y) w) as (F1 & F2 & F3); [done..|].
    destruct (stopped_app f (l_app_ctx x)
      (set_heap (<[L := OListener (set_l_stopped None y)]> (heap w)) w)) as (w1 & w2 & E & -> & K).
    intros E'. assert ((r, w') = (Ok tt, w2)) as [= -> ->] by (rewrite <- E, <- E'; reflexivity).
    eapply keeps_linv; [|exact K]. split; [done|]. eexists. split; [exact F3|]. simpl.
    rewrite (attached_links _ _ _ F2), stopped_events_snoc, Hk, <- Hr, E0. simpl.
    splits; [done..|constructor].
  - intros [= <- <-]. destruct (update_listener L x y w) as (F1 & F2 & F3); [done..|].
    split; [done|]. eexists. split; [exact F3|]. simpl. rewrite (attached_links _ _ _ F2), Hst, Hk.
    splits; [done..|constructor; lia].
Qed.

Definition new_connection (proto_ctx : ptr) (h : option handles_ptr) (l : ptr) : tapsConnection :=
  Connection proto_ctx None h None None None None TRUE TRUE l.

Lemma tapsConnectionNew_run p h l w :
  tapsConnectionNew p h l w =
  if malloc_ok (brk w)
  then (Ok (Some (brk w)), World (<[brk w := OConnection (new_connection p h l)]> (heap w))
          (Pos.succ (brk w)) (errno w) (trace w))
  else (Ok None, set_errno_w ENOMEM (set_brk (Pos.succ (brk w)) w)).
Proof.
  unfold tapsConnectionNew. destruct (malloc_ok (brk w)) eqn:Hm.
  - erewrite bind_ok by (by apply malloc_succeeds). unfold memset0. steps.
    unfold set_heap. simpl. by rewrite !insert_insert_eq.
  - by erewrite bind_ok by (by apply malloc_fails).
Qed.

(** The state in which the application is told about a new connection. *)
Definition accepted (L : loc) (p : ptr) (x : tapsListener) (w : world) : world := World
  (<[L := OListener (set_l_ref_count (l_ref_count x + 1) x)]>
     (<[brk w := OConnection (new_connection p (Some (HListener L)) (Some L))]> (heap w)))
  (Pos.succ (brk w)) (errno w) (trace w).

Lemma accepted_linv L p x w :
  linv L w -> listeners (heap w) !! L = Some x -> l_readyToStop x = FALSE ->
  attached (heap w) L + 1 < 2 ^ 32 ->
  linv L (accepted L p x w) /\ links (heap (accepted L p x w)) !! brk w = Some L /\ brk w <> L.
Proof.
  unfold accepted.
  intros (Hf & x' & Hx' & Hr & Hb & Hp) Hx Hrd Ha. assert (x' = x) as -> by congruence. clear Hx'.
  pose proof (attached_nonneg (heap w) L).
  assert (heap w !! brk w = None) as Hn by (apply Hf; lia).
  pose proof (proj1 (listeners_listener _ _ _) Hx) as HL.
  assert (brk w <> L) as Hne by congruence.
  set (h1 := <[brk w := OConnection (new_connection p (Some (HListener L)) (Some L))]> (heap w)).
  assert (links h1 = <[brk w := L]> (links (heap w))) as El1 by (unfold h1; by rewrite links_insert).
  assert (listeners h1 !! L = Some x) as Ex1.
  { apply listeners_listener. unfold h1. by rewrite lookup_insert_ne. }
  assert (fresh_from h1 (Pos.succ (brk w))) as Hf1.
  { apply fresh_from_insert; [lia|by apply fresh_from_succ]. }
  destruct (update_listener L x (set_l_ref_count (l_ref_count x + 1) x)
    (World h1 (Pos.succ (brk w)) (errno w) (trace w))) as (F1 & F2 & F3); [done..|].
  simpl in *. assert (attached h1 L = attached (heap w) L + 1) as Ea.
  { eapply attached_insert; [|done]. by rewrite links_lookup, Hn. }
  splits; [|by rewrite F2, El1, lookup_insert_eq|done].
  split; [done|]. exists (set_l_ref_count (l_ref_count x + 1) x). simpl.
  rewrite (attached_links _ _ _ F2), Ea. splits; [done|lia|done|].
  rewrite Hrd in *. inversion Hp; constructor; lia.
Qed.

(** What follows the answer of the application. *)
Definition answered (c app_ctx : ptr) (callbacks : option tapsCallbacks) : M ptr :=
  match callbacks with
  | Some (Callbacks _ _ _ _ _ _ _ _ _ (Some _) (Some _)) =>
      tapsConnectionInitialize c app_ctx callbacks ;;
      mret c
  | _ =>
      _taps_closed c ;;
      mret None
  end.

(** The report of a new connection, up to the answer. *)
Lemma accept_run L p x w :
  linv L w -> listeners (heap w) !! L = Some x -> attached (heap w) L + 1 < 2 ^ 32 ->
  _taps_connection_received (Some L) p w = (Ok None, set_errno_w ENOMEM (set_brk (Pos.succ (brk w)) w))
  \/ _taps_connection_received (Some L) p w = (Fault NullCall, accepted L p x w)
  \/ exists a cb w2, keeps (accepted L p x w) w2
       /\ _taps_connection_received (Some L) p w = answered (Some (brk w)) a cb w2.
Proof.
  intros (Hf & x' & Hx' & Hr & _) Hx Ha. assert (x' = x) as -> by congruence.
  pose proof (attached_nonneg (heap w) L). assert (heap w !! brk w = None) as Hn by (apply Hf; lia).
  pose proof (proj1 (listeners_listener _ _ _) Hx) as HL. assert (brk w <> L) as Hne by congruence.
  destruct (malloc_ok (brk w)) eqn:Hm; [right|left].
  2: { unfold _taps_connection_received, mbind, M_bind. by rewrite tapsConnectionNew_run, Hm. }
  destruct (l_connectionReceived x) as [f|] eqn:Hcr; [right|left].
  2: { unfold _taps_connection_received. unfold mbind at 1, M_bind at 1. rewrite tapsConnectionNew_run, Hm.
       steps. by rewrite wrap_small, Hcr by lia. }
  set (ev := EvConnectionReceived f (l_app_ctx x) (Some (brk w))).
  destruct (tame_connectionReceived f (l_app_ctx x) (Some (brk w)) (add_event ev (accepted L p x w)))
    as ([a cb] & w2 & E & K).
  exists a, cb, w2. split; [etransitivity; [by apply (keeps_event ev)|exact K]|].
  unfold _taps_connection_received. unfold mbind at 1, M_bind at 1. rewrite tapsConnectionNew_run, Hm.
  steps. rewrite wrap_small, Hcr by lia. steps. by erewrite bind_ok by exact E.
Qed.

Lemma accept_linv L p x w r w' :
  linv L w -> listeners (heap w) !! L = Some x -> l_readyToStop x = FALSE ->
  attached (heap w) L + 1 < 2 ^ 32 ->
  _taps_connection_received (Some L) p w = (r, w') -> linv L w'.
Proof.
  intros Hi Hx Hrd Ha. pose proof (accepted_linv L p x w Hi Hx Hrd Ha) as (Hi1 & Hc1 & _).
  destruct (accept_run L p x w Hi Hx Ha) as [->|[->|(a & cb & w2 & K & ->)]].
  - intros [= <- <-]. eapply keeps_linv; [exact Hi|]. intros Hf. simpl. splits; [by apply fresh_from_succ|done..].
  - by intros [= <- <-].
  - destruct (K (proj1 Hi1)) as (_ & El & _). pose proof (keeps_linv _ _ _ Hi1 K) as Hi2. rewrite <- El in Hc1.
    unfold answered. repeat case_match;
      first [solve [apply pres_linv; [unfold tapsConnectionInitialize; pres|done]]
            |unfold mbind, M_bind; destruct (_taps_closed (Some (brk w)) w2) as [[[]|g] w3] eqn:E3;
             intros [= <- <-]; by eapply closed_linv].
Qed.

End preservation.

Section invariant.
Context `{Machine} `{TameApp} `{TameProto} `{!TameStop}.

Lemma request_pres m : request m -> pres m.
Proof.
  destruct 1; try (apply (preserves_bind keeps); [|intros; apply (preserves_ret keeps)]).
  - apply pres_Send.
  - apply pres_Receive.
  - apply pres_sent.
  - apply pres_expired.
  - apply pres_send_error.
  - apply pres_received.
  - apply pres_received_partial.
  - apply pres_receive_error.
  - apply pres_MessageNew.
  - apply pres_Truncate.
  - apply pres_MessageFree.
Qed.

Lemma step_linv L w w' : linv L w -> step L w w' -> linv L w'.
Proof.
  intros Hi Hs. destruct Hs.
  - by eapply accept_linv.
  - by eapply closed_linv.
  - by eapply error_linv.
  - by eapply stop_linv.
  - by eapply stopped_linv.
  - eapply pres_linv; [by apply request_pres|done..].
  - eapply keeps_linv; [done|]. eapply keeps_ConnectionFree; [apply Hi|done..].
Qed.

Lemma initial_linv L w : initial L w -> linv L w.
Proof.
  intros (Hf & Ha & Hk & x & Hx & Hr & Hrd & Hst). split; [done|]. exists x.
  rewrite Ha, Hk, Hrd, Hst. splits; [done|done|done|by constructor].
Qed.

Lemma reachable_linv L w0 w : reachable L w0 w -> linv L w.
Proof.
  induction 1; [by apply initial_linv|by eapply step_linv].
Qed.

(** The rest of a close, after the listener has been let go. *)
Lemma closed_rest c x w :
  heap w !! c = Some (OConnection x) ->
  exists w', (modify (Some c) (set_c_proto_ctx None) ;;
    c' ← (load (Some c) : M tapsConnection);
    match c_closed c' with
    | Some _ => call_app (c_closed c') (fun f => EvClosed f (c_app_ctx c'))
    | None => mret tt
    end) w = (Ok tt, w').
Proof.
  intros Hx. steps. destruct (c_closed x) as [f|]; [|eauto].
  unfold call_app, mbind, M_bind, emit.
  match goal with |- context [app_call ?e ?v] => destruct (tame_call e v) as (w' & -> & _) end.
  eauto.
Qed.

Lemma closed_run L c w :
  linv L w -> links (heap w) !! c = Some L ->
  exists w', _taps_closed (Some c) w = (Ok tt, w')
    /\ attached (heap w') L = attached (heap w) L - 1
    /\ (forall x f, listeners (heap w) !! L = Some x -> l_readyToStop x = TRUE -> l_stopped x = Some f ->
         attached (heap w) L = 1 -> EvStopped f (l_app_ctx x) ∈ trace w').
Proof.
  intros Hi Hc. destruct (detach_run L c w Hi Hc) as (w1 & E & Hi1 & El & (x & Hx) & Hev).
  destruct (closed_rest c x w1 Hx) as (w' & E').
  assert (keeps w1 w') as K by (refine (pres_run _ _ _ _ _ E'); pres).
  destruct (K (proj1 Hi1)) as (_ & El' & _ & _ & _ & Hpre & _).
  exists w'. splits.
  - unfold _taps_closed. by erewrite bind_ok by exact E.
  - eapply attached_delete; [done|congruence].
  - intros y f Hy H1' H2' H3'. eapply elem_of_prefix; [|exact Hpre]. by apply Hev.
Qed.

(** What is left of the connection, unless the application is told on the way
    that its listener has stopped. *)
Lemma detach_quiet L c w cx x :
  linv L w -> heap w !! c = Some (OConnection cx) -> c_listener cx = Some L ->
  listeners (heap w) !! L = Some x -> l_readyToStop x = FALSE \/ attached (heap w) L <> 1 ->
  exists w1, detach (Some c) w = (Ok tt, w1) /\ heap w1 !! c = Some (OConnection (set_c_listener None cx)).
Proof.
  intros (Hf & x' & Hx' & Hr & Hb & Hp) Hc Hl Hx Hq. assert (x' = x) as -> by congruence.
  pose proof (proj1 (listeners_listener _ _ _) Hx) as HL. assert (c <> L) as Hne by congruence.
  assert (0 < attached (heap w) L) as Ha.
  { pose proof (attached_delete (heap w) (delete c (heap w)) c L) as Hd. pose proof (attached_nonneg (delete c (heap w)) L).
    rewrite links_lookup, Hc in Hd. specialize (Hd Hl (links_delete _ _)). lia. }
  unfold detach. steps. rewrite Hl. unfold mbind, M_bind. rewrite (tapsListenerDeref_run L x) by (done || lia). cbv zeta.
  replace (truth (l_readyToStop x) && (l_ref_count x - 1 =? 0)) with false.
  - cbv iota beta. eexists. split; [apply (modify_ok (T := tapsConnection)); simpl; rewrite lookup_insert_ne by done; exact Hc|].
    simpl. apply lookup_insert_eq.
  - destruct Hq as [->|Hq]; [done|]. rewrite Hr, (proj2 (Z.eqb_neq _ _)) by lia. by rewrite andb_false_r.
Qed.

(** The report of an error. *)
Lemma error_run L c w cx x :
  linv L w -> heap w !! c = Some (OConnection cx) -> c_listener cx = Some L -> listeners (heap w) !! L = Some x ->
  exists cx' w1, detach (Some c) w = (Ok tt, w1) /\ heap w1 !! c = Some (OConnection cx')
    /\ attached (heap w1) L = attached (heap w) L - 1
    /\ (l_readyToStop x = FALSE \/ attached (heap w) L <> 1 -> cx' = set_c_listener None cx)
    /\ (forall f, attached (heap w) L = 1 -> l_readyToStop x = TRUE -> l_stopped x = Some f ->
         EvStopped f (l_app_ctx x) ∈ trace w1)
    /\ match c_connectionError cx' with
       | None => _taps_connection_error (Some c) w = (Fault NullCall, w1)
       | Some f => exists w', _taps_connection_error (Some c) w = (Ok tt, w')
           /\ EvConnectionError f (c_app_ctx cx') None ∈ trace w' /\ attached (heap w') L = attached (heap w1) L
       end.
Proof.
  intros Hi Hc Hl Hx. assert (links (heap w) !! c = Some L) as Hcl by (by rewrite links_lookup, Hc).
  destruct (detach_run L c w Hi Hcl) as (w1 & E & Hi1 & El & (cx' & Hcx') & Hev).
  exists cx', w1. splits; [done|done|by eapply attached_delete| |by intros; eapply Hev|].
  - intros Hq. destruct (detach_quiet L c w cx x Hi Hc Hl Hx Hq) as (w2 & E2 & Hc2). congruence.
  - unfold _taps_connection_error. rewrite !(bind_ok _ _ _ _ _ E). steps.
    destruct (c_connectionError cx') as [f|]; [|done]. unfold call_app, mbind, M_bind, emit.
    destruct (tame_call (EvConnectionError f (c_app_ctx cx') None)
      (add_event (EvConnectionError f (c_app_ctx cx') None) w1)) as (w' & -> & K).
    exists w'. destruct (K (proj1 Hi1)) as (_ & El' & _ & _ & _ & Hpre & _). splits; [done| |by apply attached_links].
    eapply elem_of_prefix; [|exact Hpre]. simpl. set_solver.
Qed.

End invariant.

(** ** A concrete run, for the witnesses *)

Module Demo.
Local Open Scope positive_scope.

Definition cbs : tapsCallbacks :=
  Callbacks (Some 21) (Some 22) (Some 23) (Some 24) (Some 25) (Some 26) (Some 27)
    (Some 28) (Some 29) (Some 30) (Some 31).

#[local] Existing Instance strict_machine.
#[local] Instance demo_app : App := test_app (None, Some cbs).
#[local] Instance demo_proto : Proto := test_proto 0%Z.

Definition listener0 : tapsListener :=
  Listener (Some 9) (Some 1) (Handles (Some 1) (Some 101) (Some 102) (Some 103) (Some 104))
    (Some 21) (Some 22) None 0 UINT32_MAX (Some 5) FALSE FALSE.

(** A listener alone; then with one connection; asked to stop; reported as
    stopped by the protocol; and with its connection closed. *)
Definition w0 : world := test_world [(1, OListener listener0)] 2.
Definition w1 : world := snd (_taps_connection_received (Some 1) (Some 7) w0).
Definition w2 : world := snd (tapsListenerStop (Some 1) (Some cbs) w1).
Definition w3 : world := snd (_taps_stopped (Some 1) w2).
Definition w4 : world := snd (_taps_closed (Some 2) w3).

Lemma initial_w0 : initial 1 w0.
Proof.
  split; [apply test_world_fresh; repeat constructor|]. splits; [done..|].
  exists listener0. splits; done.
Defined.

Ltac run := vm_compute; reflexivity.

Lemma reach_w3 : reachable 1 w0 w3.
Proof.
  eapply reach_step; [eapply reach_step; [eapply reach_step; [apply reach_init, initial_w0|]|]|].
  - eapply (st_accept _ _ (Some 7)) with (r := fst (_taps_connection_received (Some 1) (Some 7) w0)) (w' := w1); [run..|].
    unfold w1. by destruct (_taps_connection_received _ _ w0).
  - eapply (st_stop _ _ _ (Some cbs)) with (r := fst (tapsListenerStop (Some 1) (Some cbs) w1)) (w' := w2); [run..|].
    unfold w2. by destruct (tapsListenerStop _ _ w1).
  - eapply (st_stopped) with (r := fst (_taps_stopped (Some 1) w2)) (w' := w3); [run..|].
    unfold w3. by destruct (_taps_stopped _ w2).
Defined.

End Demo.

(** ** Properties *)

Section properties.
Context `{Machine} `{TameApp} `{TameProto} `{!TameStop}.

(** C1: Stopped is reported at most once, and it has been reported exactly
    when the protocol has stopped and no connection is attached any more: in
    every state the library can reach around a listener from tapsListenerNew on,
    in any order of accepted connections, closes, errors, requests, the stop and
    its report.  Assumed: the callbacks of the application do not stop or free
    the listener, the application does not call tapsListenerFree before Stopped
    (C34), and the protocol reports its stop after its Stop has returned.  The
    Stop of tcp.c reports from inside and is the subject of C2. *)
Theorem stopped_iff_drained L w0 w :
  reachable L w0 w ->
  exists x, listeners (heap w) !! L = Some x /\
    (stopped_events (trace w) <= 1)%nat /\
    (stopped_events (trace w) = 1%nat <-> l_readyToStop x = TRUE /\ attached (heap w) L = 0).
Proof.
  intros (Hf & x & Hx & Hr & Hb & Hp)%reachable_linv. exists x.
  destruct Hp; splits; try done; try lia; split; try done; try (intros []; (done || lia)).
Qed.

(** The counter is the number of connections attached to the listener, in
    every reachable state: no connection is counted twice, and each one gives
    its reference back once. *)
Theorem ref_count_counts_connections L w0 w :
  reachable L w0 w ->
  exists x, listeners (heap w) !! L = Some x /\ l_ref_count x = attached (heap w) L.
Proof. intros (Hf & x & Hx & Hr & _)%reachable_linv. eauto. Qed.

(** C15: the reports that end something complete, under the assumptions of C1.
    A close of an attached connection returns and detaches it.  A report of an
    error detaches it too, and changes nothing else of it unless the application
    is told on the way that the listener has stopped; it then tells the
    application, or calls through NULL when the application gave no callback for
    errors.  Either calls the application's stopped callback if the connection
    was the last one of a listener that has stopped.  The report that the
    listener stopped returns, and calls the stopped callback if there is no
    connection. *)
Theorem protocol_reports_complete L w0 w :
  reachable L w0 w ->
  (forall c, links (heap w) !! c = Some L ->
     exists w', _taps_closed (Some c) w = (Ok tt, w')
       /\ attached (heap w') L = attached (heap w) L - 1
       /\ (forall x f, attached (heap w) L = 1 -> listeners (heap w) !! L = Some x -> l_readyToStop x = TRUE ->
            l_stopped x = Some f -> EvStopped f (l_app_ctx x) ∈ trace w')) /\
  (forall c cx x, heap w !! c = Some (OConnection cx) -> c_listener cx = Some L ->
     listeners (heap w) !! L = Some x ->
     exists cx' w1, detach (Some c) w = (Ok tt, w1) /\ heap w1 !! c = Some (OConnection cx')
       /\ attached (heap w1) L = attached (heap w) L - 1
       /\ (l_readyToStop x = FALSE \/ attached (heap w) L <> 1 -> cx' = set_c_listener None cx)
       /\ (forall f, attached (heap w) L = 1 -> l_readyToStop x = TRUE -> l_stopped x = Some f ->
            EvStopped f (l_app_ctx x) ∈ trace w1)
       /\ match c_connectionError cx' with
          | None => _taps_connection_error (Some c) w = (Fault NullCall, w1)
          | Some f => exists w', _taps_connection_error (Some c) w = (Ok tt, w')
              /\ EvConnectionError f (c_app_ctx cx') None ∈ trace w' /\ attached (heap w') L = attached (heap w1) L
          end) /\
  (forall x f, listeners (heap w) !! L = Some x -> l_readyToStop x = FALSE -> l_stopped x = Some f ->
     exists w', _taps_stopped (Some L) w = (Ok tt, w')
       /\ attached (heap w') L = attached (heap w) L
       /\ (attached (heap w) L = 0 -> EvStopped f (l_app_ctx x) ∈ trace w')).
Proof.
  intros Hr. pose proof (reachable_linv _ _ _ Hr) as Hi. split; [|split].
  - intros c Hc. destruct (closed_run L c w Hi Hc) as (w' & E & Ha & Hev). exists w'. splits; [done|done|].
    intros x f Ha1 Hx Hrd Hst. by apply Hev.
  - intros c cx x Hc Hl Hx. by apply error_run.
  - intros x f Hx Hrd Hst. destruct Hi as (Hf & x' & Hx' & Hrc & _). assert (x' = x) as -> by congruence.
    pose proof (proj1 (listeners_listener _ _ _) Hx) as HL.
    unfold _taps_stopped. steps. case_goal; steps.
    + rewrite insert_insert_eq, Hst.
      destruct (update_listener L x (set_l_stopped None (set_l_readyToStop TRUE x)) w)
        as (F1 & F2 & F3); [done..|].
      destruct (stopped_app f (l_app_ctx x) (set_heap
        (<[L := OListener (set_l_stopped None (set_l_readyToStop TRUE x))]> (heap w)) w))
        as (w1 & w2 & E & -> & K).
      exists w2. split; [exact E|]. destruct (K F1) as (_ & El & _ & _ & _ & Hpre & _).
      split; [apply attached_links; rewrite El; exact F2|]. intros _. eapply elem_of_prefix; [|exact Hpre]. simpl. set_solver.
    + eexists. split; [done|]. split; [apply attached_links; simpl;
      by destruct (update_listener L x (set_l_readyToStop TRUE x) w) as (_ & ? & _)|]. intros Ha. rewrite Hrc in *. by rewrite Ha in *.
Qed.

(** C28: tapsListenerFree gives the listener back only after Stopped has been
    reported: in a reachable state a stop that is still pending makes it fail
    and change nothing, and after the report it closes the library and frees
    the block. *)
Theorem tapsListenerFree_after_stop L w0 w x :
  reachable L w0 w -> listeners (heap w) !! L = Some x ->
  (forall f, l_stopped x = Some f -> tapsListenerFree (Some L) w = (Ok (-1), w)) /\
  (stopped_events (trace w) = 1%nat ->
     tapsListenerFree (Some L) w
     = (Ok 0, set_heap (delete L (heap w)) (add_event (EvDlclose (ph_proto (l_handles x))) w))).
Proof.
  intros (Hf & x' & Hx' & Hr & Hb & Hp)%reachable_linv Hx. assert (x' = x) as -> by congruence.
  pose proof (proj1 (listeners_listener _ _ _) Hx) as HL. split.
  - intros f Hst. unfold tapsListenerFree. steps. rewrite Hst, andb_false_r. steps. by rewrite Hst.
  - intros Hk. rewrite Hk in Hp. unfold tapsListenerFree. steps.
    assert (l_readyToStop x = TRUE /\ l_stopped x = None) as [-> Est] by (by inversion Hp).
    rewrite truth_TRUE. steps. rewrite Est. by steps.
Qed.

(** A listener freed before it was stopped, over a protocol that reports after
    its Stop has returned: tapsListenerFree asks the protocol to stop, returns 0
    with the block still allocated, and leaves the stopped callback NULL, so the
    report calls through NULL when no connection is left. *)
Theorem early_free_reported_late L w0 w x g :
  reachable L w0 w -> listeners (heap w) !! L = Some x ->
  l_readyToStop x = FALSE -> l_stopped x = None -> ph_stop (l_handles x) = Some g ->
  exists w1, tapsListenerFree (Some L) w = (Ok 0, w1)
    /\ listeners (heap w1) !! L = Some (set_l_readyToStop TRUE x)
    /\ (attached (heap w) L = 0 -> exists w2, _taps_stopped (Some L) w1 = (Fault NullCall, w2)).
Proof.
  intros (Hf & x' & Hx' & Hr & Hb & Hp)%reachable_linv Hx Hrd Hst Hg. assert (x' = x) as -> by congruence.
  pose proof (proj1 (listeners_listener _ _ _) Hx) as HL.
  unfold tapsListenerFree. steps. rewrite Hrd, Hst, truth_FALSE. simpl.
  destruct (call_stop (ph_stop (l_handles x)) (l_proto_ctx x) w) as [r w'] eqn:E.
  assert (keeps w w') as K by (refine (pres_run _ _ _ _ _ E); pres).
  destruct (K Hf) as (Hf' & _ & El & _). rewrite <- El in Hx.
  pose proof (proj1 (listeners_listener _ _ _) Hx) as HL'.
  assert (r = Ok tt) as ->.
  { rewrite Hg in E. unfold call_stop, mbind, M_bind, emit in E.
    destruct (tame_stop g (l_proto_ctx x) (add_event (PStop g (l_proto_ctx x)) w)) as (w3 & E' & _).
    rewrite E' in E. by simplify_eq. }
  erewrite bind_ok by exact E. steps. eexists. splits; [done| |].
  - apply listeners_listener. simpl. by rewrite lookup_insert_eq.
  - intros Ha. unfold _taps_stopped. steps. rewrite Hr, Ha. steps. rewrite Hst. by eexists.
Qed.

End properties.

Section witnesses.
Import Demo.
#[local] Existing Instance strict_machine.
#[local] Existing Instance demo_app.
#[local] Existing Instance demo_proto.
Local Open Scope positive_scope.

Lemma stopped_iff_drained_witness :
  exists x, listeners (heap w3) !! 1 = Some x /\
    (stopped_events (trace w3) <= 1)%nat /\
    (stopped_events (trace w3) = 1%nat <-> l_readyToStop x = TRUE /\ attached (heap w3) 1 = 0%Z).
Proof. exact (stopped_iff_drained 1 w0 w3 reach_w3). Defined.

Lemma ref_count_counts_connections_witness :
  exists x, listeners (heap w3) !! 1 = Some x /\ l_ref_count x = attached (heap w3) 1.
Proof. exact (ref_count_counts_connections 1 w0 w3 reach_w3). Defined.

Lemma protocol_reports_complete_witness :
  exists w', _taps_closed (Some 2) w3 = (Ok tt, w') /\ attached (heap w') 1 = (attached (heap w3) 1 - 1)%Z
    /\ EvStopped 23 (Some 1) ∈ trace w'.
Proof.
  destruct (protocol_reports_complete 1 w0 w3 reach_w3) as (Hc & _ & _). destruct (Hc 2) as (w' & E & Ha & Hev); [run|].
  exists w'. split; [exact E|]. split; [exact Ha|].
  apply (Hev (set_l_readyToStop TRUE (set_l_ref_count 1 (set_l_stopped (Some 23) listener0))) 23); run.
Defined.

Lemma tapsListenerFree_after_stop_witness : tapsListenerFree (Some 1) w3 = (Ok (-1)%Z, w3).
Proof. eapply (tapsListenerFree_after_stop 1 w0 w3 _ reach_w3); run. Defined.

Lemma early_free_reported_late_witness :
  exists w1, tapsListenerFree (Some 1) w0 = (Ok 0%Z, w1)
    /\ exists w2, _taps_stopped (Some 1) w1 = (Fault NullCall, w2).
Proof.
  destruct (early_free_reported_late 1 w0 w0 listener0 102 (reach_init _ _ initial_w0)) as (w & E & _ & F);
    [run..|].
  exists w. split; [exact E|]. apply F. run.
Defined.

End witnesses.
