(* ===== verification/Serving.v ===== *)
(** * Serving: what the library keeps for a protocol

    While connections come and go the library leaves the contexts of the
    protocol alone, opens and closes nothing, and keeps in the listener what the
    protocol depends on.  This frame is wider than the one of Frame.v: it holds
    for the reports that attach and detach connections as well.  With it come
    the exact effects of these reports on the attached connections. *)

From S2P Require Import Prelude Structs Memory Message Queue Listener Connection Accept Resources Frame Lifecycle.
Local Open Scope Z_scope.

(** ** The frame *)

(** The listener after some connections have come and gone. *)
Definition settled (x x' : tapsListener) : Prop :=
  l_proto_ctx x' = l_proto_ctx x /\ l_readyToStop x' = l_readyToStop x /\
  (l_stopped x = None -> l_stopped x' = None).

#[export] Instance settled_preorder : PreOrder settled.
Proof.
  split; [done|]. intros x y z (E1 & E2 & E3) (F1 & F2 & F3).
  unfold settled. splits; [congruence..|]. intros. by apply F3, E3.
Qed.

Definition serves (L : loc) (w w' : world) : Prop :=
  fresh_from (heap w) (brk w) ->
  fresh_from (heap w') (brk w') /\
  holdings (heap w') = holdings (heap w) /\
  balanced (trace w) (trace w') /\
  forall x, listeners (heap w) !! L = Some x -> exists x', listeners (heap w') !! L = Some x' /\ settled x x'.

Section serves.
Context (L : loc).

#[export] Instance serves_preorder : PreOrder (serves L).
Proof.
  split; [intros w Hf; splits; [done..|]; intros x Hx; by exists x|].
  intros w1 w2 w3 H12 H23 Hf. destruct (H12 Hf) as (Hf2 & E1 & E2 & E3).
  destruct (H23 Hf2) as (Hf3 & F1 & F2 & F3). splits; [done|congruence|by etrans|].
  intros x Hx. destruct (E3 x Hx) as (y & Hy & Sy). destruct (F3 y Hy) as (z & Hz & Sz).
  exists z. split; [done|by etrans].
Qed.

Lemma keeps_serves w w' : keeps w w' -> serves L w w'.
Proof.
  intros K Hf. destruct (K Hf) as (? & _ & El & ? & _ & _ & ?). splits; [done..|].
  intros x Hx. exists x. by rewrite El.
Qed.

Lemma pres_serves {A} (m : M A) : pres m -> preserves (serves L) m.
Proof. intros Hp w r w' E. apply keeps_serves. by eapply Hp. Qed.

Context `{Machine}.

Lemma serves_load {T} `{Object T} p : preserves (serves L) (load p : M T).
Proof. apply pres_serves, pres_load. Qed.

(** Assignments to a block that is neither a context nor a listener. *)
Lemma serves_update l o o' w :
  heap w !! l = Some o -> obj_holding o' = obj_holding o ->
  (forall x, obj_listener o = Some x -> exists x', obj_listener o' = Some x' /\ settled x x') ->
  serves L w (set_heap (<[l := o']> (heap w)) w).
Proof.
  intros Hl Eh Ex Hf. simpl. splits; [apply fresh_from_insert; [by eapply fresh_from_lt|done]| |done|].
  - rewrite holdings_insert, partial_alter_same; [done|]. by rewrite holdings_lookup, Hl.
  - intros x. rewrite !listeners_lookup. destruct (decide (L = l)) as [->|].
    + rewrite lookup_insert_eq, Hl. simpl. apply Ex.
    + rewrite lookup_insert_ne by done. intros. by exists x.
Qed.

Lemma serves_modify {T} `{Object T} p (f : T -> T) :
  (forall x, obj_holding (inj (f x)) = obj_holding (inj x)) ->
  (forall x y, obj_listener (inj x) = Some y -> exists y', obj_listener (inj (f x)) = Some y' /\ settled y y') ->
  preserves (serves L) (modify p f).
Proof.
  intros E1 E2 w r w'. unfold modify.
  destruct p as [l|]; [|by intros [= <- <-]].
  destruct (heap w !! l) as [o|] eqn:El; [|by intros [= <- <-]].
  destruct (proj o) as [x|] eqn:Ep; intros [= <- <-]; [|done].
  apply inj_proj in Ep as ->. eapply serves_update; eauto.
Qed.

Lemma serves_modify_connection p (f : tapsConnection -> tapsConnection) : preserves (serves L) (modify p f).
Proof. by apply serves_modify. Qed.

Lemma serves_modify_listener p (f : tapsListener -> tapsListener) :
  (forall x, settled x (f x)) -> preserves (serves L) (modify p f).
Proof. intros Hf. apply serves_modify; [done|]. intros x y [= <-]. by exists (f x). Qed.

Lemma serves_malloc T `{Object T} :
  (forall x : T, obj_holding (inj x) = None) -> preserves (serves L) (malloc T).
Proof.
  intros Ho w r w'. unfold malloc. destruct (malloc_ok (brk w)); intros [= <- <-] Hf; simpl.
  2: { splits; [by apply fresh_from_succ|done..|]. intros x Hx. by exists x. }
  assert (heap w !! brk w = None) as Hn by (apply Hf; lia).
  splits; [apply fresh_from_insert; [lia|by apply fresh_from_succ]| |done|].
  - rewrite holdings_insert, partial_alter_same; [done|]. by rewrite holdings_lookup, Hn, Ho.
  - intros x Hx. exists x. split; [|done]. rewrite listeners_lookup in *.
    destruct (decide (L = brk w)) as [->|]; [by rewrite Hn in Hx|by rewrite lookup_insert_ne].
Qed.

Lemma serves_emit e : balanced [] [e] -> preserves (serves L) (emit e).
Proof.
  intros [Ho He] w r w' [= <- <-] Hf. simpl. splits; [done..| |intros x Hx; by exists x].
  by apply balanced_app.
Qed.

Lemma serves_call_app `{TameApp} f e : (forall g, balanced [] [e g]) -> preserves (serves L) (call_app f e).
Proof.
  intros He. unfold call_app. destruct f as [g|]; [|apply (preserves_throw _)].
  apply (preserves_bind _); [by apply serves_emit|]. intros _ w r w' E.
  destruct (tame_call (e g) w) as (w1 & E1 & K). rewrite E1 in E. simplify_eq. by apply keeps_serves.
Qed.

End serves.

(** Walk through a computation. *)
Ltac serves :=
  repeat first
    [ progress intros
    | match goal with |- preserves _ (_ ≫= _) => apply preserves_bind; [exact _|..] end
    | apply serves_load
    | apply serves_modify_connection
    | solve [apply serves_modify_listener; intros []; done]
    | solve [apply serves_call_app; done]
    | solve [apply serves_emit; done]
    | solve [apply serves_malloc; done]
    | solve [apply pres_serves; pres]
    | case_match ].

(** ** The reports of a protocol *)

Section reports.
Context `{Machine} `{TameApp} `{TameProto}.

Lemma serves_Deref L l : preserves (serves L) (tapsListenerDeref l).
Proof. unfold tapsListenerDeref. serves. Qed.

Lemma serves_free_handles L h : preserves (serves L) (free_handles h).
Proof. unfold free_handles. serves. Qed.

Lemma serves_detach L c : preserves (serves L) (detach c).
Proof. pose proof (serves_Deref L). pose proof (serves_free_handles L). unfold detach. serves; done. Qed.

Lemma serves_closed L c : preserves (serves L) (_taps_closed c).
Proof.
  unfold _taps_closed. apply (preserves_bind _); [apply serves_detach|intros _]. serves.
Qed.

Lemma serves_connection_received L l p : preserves (serves L) (_taps_connection_received l p).
Proof.
  assert (forall q h t, preserves (serves L) (tapsConnectionNew q h t)) as Hnew.
  { intros. unfold tapsConnectionNew, memset0. serves. }
  pose proof (serves_closed L) as Hclosed.
  unfold _taps_connection_received, tapsConnectionInitialize.
  apply (preserves_bind _); [apply Hnew|intros c]. case_match; [|serves].
  apply (preserves_bind _); [apply serves_modify_listener; by intros []|intros _].
  apply (preserves_bind _); [apply serves_load|intros l0].
  apply (preserves_bind _); [serves|intros f]. apply (preserves_bind _); [serves|intros _].
  apply (preserves_bind _); [|intros [a cb]].
  - intros w r w' E. destruct (tame_connectionReceived f (l_app_ctx l0) (Some p0) w) as (r' & w1 & E1 & K).
    rewrite E1 in E. simplify_eq. by apply keeps_serves.
  - repeat case_match; first [solve [serves]|apply (preserves_bind _); [apply Hclosed|serves]].
Qed.

(** A close takes the connection off the listener, and completes. *)
Lemma closed_effect L c w :
  linv L w -> links (heap w) !! c = Some L ->
  exists w', _taps_closed (Some c) w = (Ok tt, w') /\ linv L w' /\ links (heap w') = delete c (links (heap w))
    /\ serves L w w'.
Proof.
  intros Hi Hc. destruct (detach_run L c w Hi Hc) as (w1 & E & Hi1 & El & (x & Hx) & _).
  destruct (closed_rest c x w1 Hx) as (w' & E').
  assert (keeps w1 w') as K by (refine (pres_run _ _ _ _ _ E'); pres).
  assert (_taps_closed (Some c) w = (Ok tt, w')) as Er
    by (unfold _taps_closed; by erewrite bind_ok by exact E).
  exists w'. splits; [done|by eapply keeps_linv| |by eapply serves_closed].
  destruct (K (proj1 Hi1)) as (_ & El' & _). congruence.
Qed.

(** An accepted connection is attached if its context is given to the protocol,
    and only then. *)
Lemma accept_effect L p x w t w' :
  linv L w -> listeners (heap w) !! L = Some x -> l_readyToStop x = FALSE ->
  attached (heap w) L + 1 < 2 ^ 32 ->
  _taps_connection_received (Some L) p w = (Ok t, w') ->
  linv L w' /\ match t with
  | Some c => links (heap w) !! c = None /\ links (heap w') = <[c := L]> (links (heap w))
  | None => links (heap w') = links (heap w)
  end.
Proof.
  intros Hi Hx Hrd Ha E. split; [by eapply accept_linv|]. revert E.
  pose proof (accepted_linv L p x w Hi Hx Hrd Ha) as (Hi1 & Hc1 & Hne). pose proof Hi as (Hf & _).
  assert (heap w !! brk w = None) as Hn by (apply Hf; lia).
  pose proof (proj1 (listeners_listener _ _ _) Hx) as HL.
  assert (links (heap w) !! brk w = None) as Hl0 by (by rewrite links_lookup, Hn).
  assert (links (heap (accepted L p x w)) = <[brk w := L]> (links (heap w))) as El.
  { simpl. rewrite links_insert, partial_alter_same; [by rewrite links_insert|].
    by rewrite links_lookup, lookup_insert_ne, HL by done. }
  destruct (accept_run L p x w Hi Hx Ha) as [->|[->|(a & cb & w2 & K & ->)]]; [by intros [= <- <-]|done|].
  destruct (K (proj1 Hi1)) as (_ & El2 & _). pose proof (keeps_linv _ _ _ Hi1 K) as Hi2.
  intros Er. assert ((t = None /\ links (heap w') = links (heap w))
    \/ (t = Some (brk w) /\ links (heap w') = <[brk w := L]> (links (heap w)))) as [[-> ->]|[-> ->]]; [|done..].
  assert ((_taps_closed (Some (brk w)) ;; mret (None : ptr)) w2 = (Ok t, w') ->
    t = None /\ links (heap w') = links (heap w)) as Hclosed.
  { destruct (closed_effect L (brk w) w2 Hi2) as (w3 & E3 & _ & El3 & _); [by rewrite El2|].
    erewrite bind_ok by exact E3. intros [= <- <-]. split; [done|].
    by rewrite El3, El2, El, delete_insert_id. }
  assert (forall cb', (tapsConnectionInitialize (Some (brk w)) a cb' ;; mret (Some (brk w))) w2 = (Ok t, w') ->
    t = Some (brk w) /\ links (heap w') = <[brk w := L]> (links (heap w))) as Hinit.
  { intros cb' E3. assert (t = Some (brk w)) as ->.
    { apply bind_inv in E3 as ([] & w3 & _ & E4). by injection E4. }
    split; [done|]. assert (keeps w2 w') as K3 by (refine (pres_run _ _ _ _ _ E3); unfold tapsConnectionInitialize; pres).
    destruct (K3 (proj1 Hi2)) as (_ & El3 & _). congruence. }
  revert Er. unfold answered. repeat case_match; intros Er; first [left; by apply Hclosed|right; by eapply Hinit].
Qed.

(** The report that the protocol has stopped. *)
Lemma stopped_effect L x f w w' :
  linv L w -> listeners (heap w) !! L = Some x -> l_readyToStop x = FALSE -> l_stopped x = Some f ->
  _taps_stopped (Some L) w = (Ok tt, w') ->
  linv L w' /\ links (heap w') = links (heap w) /\ holdings (heap w') = holdings (heap w)
  /\ balanced (trace w) (trace w') /\ exists y, listeners (heap w') !! L = Some y /\ l_readyToStop y = TRUE.
Proof.
  intros Hi Hx Hrd Hst E. split; [by eapply stopped_linv|]. revert E.
  pose proof Hi as (Hf & _). pose proof (proj1 (listeners_listener _ _ _) Hx) as HL.
  assert (forall y, l_readyToStop y = TRUE ->
    let w1 := set_heap (<[L := OListener y]> (heap w)) w in
    fresh_from (heap w1) (brk w1) /\ links (heap w1) = links (heap w) /\ holdings (heap w1) = holdings (heap w)
    /\ balanced (trace w) (trace w1) /\ exists y, listeners (heap w1) !! L = Some y /\ l_readyToStop y = TRUE) as Hup.
  { intros y Hy. destruct (update_listener L x y w) as (F1 & F2 & F3); [done..|]. simpl.
    splits; [done..| |done|eauto]. rewrite holdings_insert, partial_alter_same; [done|]. by rewrite holdings_lookup, HL. }
  unfold _taps_stopped. steps. case_goal; steps; [|intros [= <-]; by apply (Hup (set_l_readyToStop TRUE x))].
  rewrite insert_insert_eq, Hst. set (y := set_l_stopped None (set_l_readyToStop TRUE x)).
  destruct (Hup y eq_refl) as (F1 & F2 & F3 & F4 & (z & F5 & F6)).
  destruct (stopped_app f (l_app_ctx x) (set_heap (<[L := OListener y]> (heap w)) w)) as (w1 & w2 & E & -> & K).
  intros E'. assert (w2 = w') as -> by (injection (eq_trans (eq_sym E) E'); done).
  destruct (K F1) as (_ & K2 & K3 & K4 & _ & _ & K5). splits; [by rewrite K2|by rewrite K4| |exists z; by rewrite K3].
  transitivity (trace (add_event (EvStopped f (l_app_ctx x)) (set_heap (<[L := OListener y]> (heap w)) w))); [|done].
  by apply balanced_app.
Qed.

End reports.
