(* ===== verification/Listening.v ===== *)
(** * Listening: tapsListenerNew on every branch

    A listener is created in a state from which Lifecycle.v starts, or not at
    all; in the second case the block and the protocol library are given back,
    and an event_base if one was made. *)

From S2P Require Import Prelude Structs Memory Message Queue Listener Connection Accept Resources Frame Lifecycle.
Local Open Scope Z_scope.

(** The symbols a protocol library must have, in the order they are asked for. *)
Definition symbols : list string := ["Listen"; "Stop"; "Send"; "Receive"]%string.

Section listening.
Context `{Machine} `{App} `{Proto}.

(** A listener in the making, as far as [n] symbols have been found. *)
Definition found (lib : ptr) (n : nat) : proto_handles :=
  let sym i := if (i <? n)%nat then symbols !! i ≫= dlsym lib else None in
  Handles lib (sym 0%nat) (sym 1%nat) (sym 2%nat) (sym 3%nat).

Definition making (lib : ptr) (n : nat) : tapsListener := set_l_handles (found lib n) zero.

(** The state in which the listener [l] is at the next free address. *)
Definition with_listener (l : tapsListener) (tr : list event) (w : world) : world :=
  World (<[brk w := OListener l]> (heap w)) (Pos.succ (brk w)) (errno w) (trace w ++ tr).

(** The state after everything has been given back. *)
Definition without_listener (tr : list event) (w : world) : world :=
  World (heap w) (Pos.succ (brk w)) (errno w) (trace w ++ tr).

(** The state in which the protocol is asked to listen. *)
Definition listener_made (lib base : ptr) : tapsListener := set_l_base base FALSE (making lib 4).

Definition asked (path : string) (f : fn) (addr : sockaddr) (base : ptr) (w : world) : world :=
  with_listener (listener_made (dlopen path) base) [EvDlopen path; PListen f (Some (brk w)) base addr] w.

(** The listener tapsListenerNew returns. *)
Definition listener_done (lib base p app : ptr) (l : loc) (cb : tapsCallbacks) : tapsListener :=
  set_l_callbacks (cb_connectionReceived cb) (cb_establishmentError cb)
    (match app with Some _ => app | None => Some l end)
    (set_l_conn_limit UINT32_MAX (set_l_proto_ctx p (listener_made lib base))).

Lemma modify_with (f : tapsListener -> tapsListener) l tr w :
  modify (Some (brk w)) f (with_listener l tr w) = (Ok tt, with_listener (f l) tr w).
Proof.
  unfold with_listener. erewrite modify_ok by apply lookup_insert_eq. unfold set_heap. simpl.
  by rewrite insert_insert_eq.
Qed.

Lemma load_with l tr w : (load (Some (brk w)) : M tapsListener) (with_listener l tr w) = (Ok l, with_listener l tr w).
Proof. apply load_ok, lookup_insert_eq. Qed.

Lemma emit_with e l tr w : emit e (with_listener l tr w) = (Ok tt, with_listener l (tr ++ [e]) w).
Proof. unfold emit, with_listener, add_event. simpl. by rewrite <- app_assoc. Qed.

Lemma lookup_with name set l tr w :
  lookup_handle (Some (brk w)) name set (with_listener l tr w)
  = (Ok (dlsym (ph_proto (l_handles l)) name),
     with_listener (set_l_handles (set (dlsym (ph_proto (l_handles l)) name) (l_handles l)) l) tr w).
Proof.
  unfold lookup_handle. erewrite bind_ok by apply load_with. erewrite bind_ok by apply modify_with. done.
Qed.

(** What [fail] gives back: the library, and the base if it was made here. *)
Definition given_back (l : tapsListener) : list event :=
  (match ph_proto (l_handles l) with Some _ => [EvDlclose (ph_proto (l_handles l))] | None => [] end) ++
  (if truth (l_baseCreatedHere l) then match l_base l with Some _ => [EvBaseFree (l_base l)] | None => [] end else []).

Lemma fail_with l tr w :
  heap w !! brk w = None ->
  listener_fail (Some (brk w)) (with_listener l tr w) = (Ok None, without_listener (tr ++ given_back l) w).
Proof.
  intros Hn. unfold listener_fail. erewrite bind_ok by apply load_with.
  assert (forall tr', (free tapsListener (Some (brk w)) ;; mret (None : ptr)) (with_listener l tr' w)
                      = (Ok None, without_listener tr' w)) as Hfree.
  { intros tr'. erewrite bind_ok by (apply (free_ok _ _ l), lookup_insert_eq). rewrite ret_ok.
    unfold with_listener, without_listener, set_heap. simpl. by rewrite delete_insert_id. }
  unfold given_back.
  destruct (ph_proto (l_handles l)); [erewrite bind_ok by apply emit_with|erewrite bind_ok by apply ret_ok];
    (destruct (truth (l_baseCreatedHere l)); [destruct (l_base l);
       [erewrite bind_ok by apply emit_with|erewrite bind_ok by apply ret_ok]|erewrite bind_ok by apply ret_ok]);
    rewrite Hfree, <- ?app_assoc, ?app_nil_r; done.
Qed.

(** The listener after the library has been asked for a symbol more. *)
Lemma lookup_next lib n name set tr w :
  set (dlsym lib name) (found lib n) = found lib (S n) ->
  lookup_handle (Some (brk w)) name set (with_listener (making lib n) tr w)
  = (Ok (dlsym lib name), with_listener (making lib (S n)) tr w).
Proof. intros Hs. rewrite lookup_with. simpl. unfold making. by rewrite <- Hs. Qed.

(** The block, and the answer of the loader. *)
Lemma open_library path w k :
  malloc_ok (brk w) = true ->
  (l ← malloc tapsListener;
   match l with
   | None => set_errno ENOMEM ;; mret None
   | Some _ =>
       memset0 tapsListener l ;;
       emit (EvDlopen path) ;;
       modify l (fun x => set_l_handles (set_ph_proto (dlopen path) (l_handles x)) x) ;;
       k l
   end) w = (k (Some (brk w)) : M ptr) (with_listener (making (dlopen path) 0) [EvDlopen path] w).
Proof.
  intros Hm. erewrite bind_ok by (by apply malloc_succeeds). cbv beta iota. unfold memset0.
  erewrite bind_ok by (apply (modify_ok (brk w) _ (uninit (brk w))), lookup_insert_eq).
  erewrite bind_ok by reflexivity.
  erewrite bind_ok by (apply (modify_ok (brk w) _ (zero : tapsListener)), lookup_insert_eq).
  unfold with_listener, set_heap, add_event. simpl. by rewrite !insert_insert_eq.
Qed.

(** Run a lookup whose answer is known. *)
Ltac next_symbol E := erewrite bind_ok by (by apply lookup_next); rewrite E; cbv beta iota.

Section branches.
Context (app : ptr) (path : string) (addr : sockaddr) (w : world).
Hypothesis next_free : heap w !! brk w = None.
Hypothesis has_memory : malloc_ok (brk w) = true.

Lemma without_library base callbacks :
  dlopen path = None ->
  tapsListenerNew app path addr base callbacks w = (Ok None, without_listener [EvDlopen path] w).
Proof.
  intros Hd. unfold tapsListenerNew. rewrite open_library by done. rewrite Hd. by rewrite fail_with by done.
Qed.

Lemma without_symbol base callbacks lib s :
  dlopen path = Some lib -> s ∈ symbols -> dlsym (Some lib) s = None ->
  tapsListenerNew app path addr base callbacks w
  = (Ok None, without_listener [EvDlopen path; EvDlclose (Some lib)] w).
Proof.
  intros Hd Hs Hn. unfold tapsListenerNew. rewrite open_library, Hd by done.
  assert (forall n tr, listener_fail (Some (brk w)) (with_listener (making (Some lib) n) tr w)
    = (Ok None, without_listener (tr ++ [EvDlclose (Some lib)]) w)) as Hfail by (intros; by rewrite fail_with).
  destruct (dlsym (Some lib) "Listen") eqn:E0; next_symbol E0; [|apply Hfail].
  destruct (dlsym (Some lib) "Stop") eqn:E1; next_symbol E1; [|apply Hfail].
  destruct (dlsym (Some lib) "Send") eqn:E2; next_symbol E2; [|apply Hfail].
  destruct (dlsym (Some lib) "Receive") eqn:E3; next_symbol E3; [|apply Hfail].
  unfold symbols in Hs. set_solver by congruence.
Qed.

Context (lib : loc) (listen stop send receive : fn).
Hypothesis opened : dlopen path = Some lib.
Hypothesis sym_listen : dlsym (Some lib) "Listen" = Some listen.
Hypothesis sym_stop : dlsym (Some lib) "Stop" = Some stop.
Hypothesis sym_send : dlsym (Some lib) "Send" = Some send.
Hypothesis sym_receive : dlsym (Some lib) "Receive" = Some receive.

Lemma without_base callbacks :
  tapsListenerNew app path addr None callbacks w
  = (Ok None, without_listener ([EvDlopen path; EvDlclose (Some lib)] ++
                match event_base_new with Some _ => [EvBaseFree event_base_new] | None => [] end) w).
Proof.
  unfold tapsListenerNew. rewrite open_library, opened by done.
  next_symbol sym_listen. next_symbol sym_stop. next_symbol sym_send. next_symbol sym_receive.
  erewrite bind_ok by apply modify_with. by rewrite fail_with.
Qed.

(** What is left to do when the protocol has answered. *)
Definition after_listen (l : ptr) (callbacks : tapsCallbacks) (p : ptr) : M ptr :=
  modify l (set_l_proto_ctx p) ;;
  match p with
  | None => listener_fail l
  | Some _ =>
      modify l (set_l_conn_limit UINT32_MAX) ;;
      modify l (set_l_callbacks (cb_connectionReceived callbacks) (cb_establishmentError callbacks)
                  (match app with Some _ => app | None => l end)) ;;
      mret l
  end.

Lemma up_to_listen b callbacks :
  tapsListenerNew app path addr (Some b) (Some callbacks) w
  = (p ← proto_listen listen (Some (brk w)) (Some b) addr; after_listen (Some (brk w)) callbacks p)
      (asked path listen addr (Some b) w).
Proof.
  unfold tapsListenerNew. rewrite open_library, opened by done.
  next_symbol sym_listen. next_symbol sym_stop. next_symbol sym_send. next_symbol sym_receive.
  erewrite bind_ok by apply modify_with. erewrite bind_ok by apply emit_with.
  unfold asked. by rewrite opened.
Qed.

Lemma after_listen_run b callbacks p w' :
  heap w' !! brk w = Some (OListener (listener_made (Some lib) (Some b))) ->
  after_listen (Some (brk w)) callbacks p w'
  = match p with
    | None => (Ok None, set_heap (delete (brk w) (heap w')) (add_event (EvDlclose (Some lib)) w'))
    | Some _ =>
        (Ok (Some (brk w)),
         set_heap (<[brk w := OListener (listener_done (Some lib) (Some b) p app (brk w) callbacks)]> (heap w')) w')
    end.
Proof.
  intros Hl. unfold after_listen. erewrite bind_ok by (by apply modify_ok). destruct p as [p|].
  - erewrite bind_ok by (apply modify_ok, lookup_insert_eq).
    erewrite bind_ok by (apply modify_ok, lookup_insert_eq). rewrite ret_ok.
    unfold set_heap. simpl. by rewrite !insert_insert_eq.
  - unfold listener_fail. erewrite bind_ok by (apply load_ok, lookup_insert_eq). cbn [l_handles].
    erewrite bind_ok by reflexivity. erewrite bind_ok by reflexivity.
    erewrite bind_ok by (eapply free_ok, lookup_insert_eq). rewrite ret_ok.
    unfold set_heap, add_event. simpl. by rewrite delete_insert_eq.
Qed.

End branches.

Lemma asked_undisturbed path listen addr b lib w w' :
  fresh_from (heap w) (brk w) -> dlopen path = Some lib -> undisturbed (asked path listen addr b w) w' ->
  fresh_from (heap w') (brk w') /\ links (heap w') = links (heap w)
  /\ heap w' !! brk w = Some (OListener (listener_made (Some lib) b))
  /\ stopped_events (trace w') = stopped_events (trace w).
Proof.
  intros Hf Hd (Hf' & El & Es & Et). unfold asked, with_listener in *. simpl in *.
  assert (heap w !! brk w = None) as Hn by (apply Hf; lia).
  splits; [done| | |].
  - rewrite El, links_insert. apply partial_alter_same. by rewrite links_lookup, Hn.
  - apply listeners_listener. rewrite Es. apply listeners_listener. rewrite lookup_insert_eq. by rewrite Hd.
  - rewrite Et. change (trace w ++ [?a; ?b]) with (trace w ++ ([a] ++ [b])). rewrite app_assoc, !stopped_events_snoc.
    simpl. lia.
Qed.

(** The listener is one that Lifecycle.v starts from. *)
Lemma listener_done_initial lib b p app cb l w w' :
  fresh_from (heap w') (brk w') -> links (heap w') = links (heap w) ->
  heap w' !! l = Some (OListener (listener_made lib b)) ->
  attached (heap w) l = 0 -> stopped_events (trace w') = 0%nat ->
  initial l (set_heap (<[l := OListener (listener_done lib b p app l cb)]> (heap w')) w').
Proof.
  intros Hf El Hl Ha Ht.
  destruct (update_listener l _ (listener_done lib b p app l cb) w' (proj2 (listeners_listener _ _ _) Hl) Hf)
    as (F1 & F2 & F3).
  split; [done|]. simpl. rewrite (attached_links (heap w)) by (rewrite F2; done).
  splits; [done|done|]. eexists. split; [exact F3|]. done.
Qed.

(** A listener is returned only if the protocol has listened. *)
Lemma tapsListenerNew_returns app path addr b cb w l w' :
  fresh_from (heap w) (brk w) ->
  tapsListenerNew app path addr (Some b) (Some cb) w = (Ok (Some l), w') ->
  l = brk w /\ exists lib listen p w1, dlopen path = Some lib
    /\ proto_listen listen (Some l) (Some b) addr (asked path listen addr (Some b) w) = (Ok (Some p), w1)
    /\ (undisturbed (asked path listen addr (Some b) w) w1 ->
        w' = set_heap (<[l := OListener (listener_done (Some lib) (Some b) (Some p) app l cb)]> (heap w1)) w1).
Proof.
  intros Hf E. assert (heap w !! brk w = None) as Hn by (apply Hf; lia).
  destruct (malloc_ok (brk w)) eqn:Hm.
  2: { unfold tapsListenerNew in E. by erewrite bind_ok in E by (by apply malloc_fails). }
  destruct (dlopen path) as [lib|] eqn:Hd; [|by rewrite without_library in E].
  destruct (dlsym (Some lib) "Listen") as [listen|] eqn:E0;
    [|by rewrite (without_symbol app path addr w Hn Hm _ _ lib "Listen") in E by (done || set_solver)].
  destruct (dlsym (Some lib) "Stop") as [stop|] eqn:E1;
    [|by rewrite (without_symbol app path addr w Hn Hm _ _ lib "Stop") in E by (done || set_solver)].
  destruct (dlsym (Some lib) "Send") as [send|] eqn:E2;
    [|by rewrite (without_symbol app path addr w Hn Hm _ _ lib "Send") in E by (done || set_solver)].
  destruct (dlsym (Some lib) "Receive") as [receive|] eqn:E3;
    [|by rewrite (without_symbol app path addr w Hn Hm _ _ lib "Receive") in E by (done || set_solver)].
  erewrite up_to_listen in E by done. apply bind_inv in E as (p & w1 & El & E).
  assert (Some l = Some (brk w) /\ p <> None) as [[= ->] Hp].
  { unfold after_listen, listener_fail in E. apply bind_inv in E as ([] & w2 & _ & E). destruct p as [p|].
    - by repeat (apply bind_inv in E as (? & ? & _ & E)); injection E as <- _.
    - by repeat (apply bind_inv in E as (? & ? & _ & E)). }
  split; [done|]. destruct p as [p|]; [|done]. exists lib, listen, p, w1. splits; [done|exact El|].
  intros Hu. destruct (asked_undisturbed _ _ _ _ lib w w1 Hf Hd Hu) as (_ & _ & HL & _).
  erewrite after_listen_run in E by exact HL. by injection E.
Qed.

(** C17: tapsListenerNew makes a listener or nothing.  Without memory it sets
    errno and calls nobody; when the library cannot be opened, lacks a symbol,
    when no event_base is handed over or when the protocol does not listen, NULL
    is returned, the heap is as it was and what was opened or made is closed;
    otherwise the listener is in the state the life of a listener starts from,
    with the handles of the library and the context of the protocol. *)
Theorem tapsListenerNew_outcomes app path addr base cb w :
  fresh_from (heap w) (brk w) ->
  let L := brk w in
  let run := tapsListenerNew app path addr base (Some cb) w in
  (malloc_ok L = false -> run = (Ok None, set_errno_w ENOMEM (set_brk (Pos.succ L) w))) /\
  (malloc_ok L = true ->
    (dlopen path = None -> run = (Ok None, without_listener [EvDlopen path] w)) /\
    forall lib, dlopen path = Some lib ->
      (forall s, s ∈ symbols -> dlsym (Some lib) s = None ->
         run = (Ok None, without_listener [EvDlopen path; EvDlclose (Some lib)] w)) /\
      forall listen, dlsym (Some lib) "Listen" = Some listen ->
        Forall (fun s => dlsym (Some lib) s <> None) symbols ->
        (base = None -> run = (Ok None, without_listener ([EvDlopen path; EvDlclose (Some lib)] ++
           match event_base_new with Some _ => [EvBaseFree event_base_new] | None => [] end) w)) /\
        forall b p w', base = Some b ->
          proto_listen listen (Some L) base addr (asked path listen addr base w) = (Ok p, w') ->
          undisturbed (asked path listen addr base w) w' ->
          match p with
          | None => run = (Ok None, set_heap (delete L (heap w')) (add_event (EvDlclose (Some lib)) w'))
          | Some _ => exists w2, run = (Ok (Some L), w2)
              /\ heap w2 !! L = Some (OListener (listener_done (Some lib) base p app L cb))
              /\ (attached (heap w) L = 0 -> stopped_events (trace w) = 0%nat -> initial L w2)
          end).
Proof.
  intros Hf L run. assert (heap w !! brk w = None) as Hn by (apply Hf; lia). split.
  { intros Hm. unfold run, tapsListenerNew. by erewrite bind_ok by (by apply malloc_fails). }
  intros Hm. split; [by apply without_library|]. intros lib Hd. split.
  { intros s Hs. by apply without_symbol. }
  intros listen E0 Hall. unfold symbols in Hall. rewrite !Forall_cons in Hall.
  destruct Hall as (_ & [stop E1]%not_eq_None_Some & [send E2]%not_eq_None_Some & [receive E3]%not_eq_None_Some & _). split.
  { intros ->. unfold run. by eapply without_base. }
  intros b p w' -> El Hu.
  destruct (asked_undisturbed _ _ _ _ lib w w' Hf Hd Hu) as (Hf' & Hl & HL & Ht).
  assert (run = after_listen app (Some (brk w)) cb p w') as E.
  { unfold run. erewrite up_to_listen by done. by erewrite bind_ok by exact El. }
  erewrite after_listen_run in E by exact HL. destruct p as [p|]; [|exact E]. eexists. split; [exact E|]. split; [apply lookup_insert_eq|].
  intros Ha Hs. eapply listener_done_initial; [done..|congruence].
Qed.

End listening.

(** ** A listener over concrete parameters *)

Module ListeningSample.

#[local] Existing Instance strict_machine.
#[local] Instance sample_app : App := test_app (None, None).
#[local] Instance sample_proto : Proto := test_proto 0.

Definition callbacks : tapsCallbacks := Demo.cbs.
Definition local : sockaddr := Sockaddr 2 5555 0 0.
Definition before : world := test_world [] 1.

Lemma tapsListenerNew_outcomes_witness :
  exists w2, tapsListenerNew None "libtaps_tcp.so" local (Some 5%positive) (Some callbacks) before
      = (Ok (Some 1%positive), w2)
    /\ heap w2 !! 1%positive = Some (OListener (listener_done (Some 1%positive) (Some 5%positive) (Some 1%positive) None 1 callbacks))
    /\ (attached (heap before) 1 = 0 -> stopped_events (trace before) = 0%nat -> initial 1 w2).
Proof.
  assert (fresh_from (heap before) (brk before)) as Hf by (apply test_world_fresh; constructor).
  refine (proj2 (proj2 (proj2 (proj2 (tapsListenerNew_outcomes None "libtaps_tcp.so" local (Some 5%positive) callbacks
    before Hf) eq_refl) 1%positive eq_refl) 101%positive eq_refl _) 5%positive (Some 1%positive) _ eq_refl eq_refl _).
  - repeat constructor; discriminate.
  - split; [|done]. apply (fresh_from_insert _ 2); [done|]. intros l Hl. apply lookup_empty.
Defined.

End ListeningSample.
