(* ===== verification/Requests.v ===== *)
(** * Requests: the requests queued at a connection

    What the send and the receive queue of taps_connection.c have in common:
    adding a filled item and taking an item out, seen from the connection that
    owns the queue, and the blocks neither touches. *)

From S2P Require Import Prelude Structs Memory Message Queue Listener Connection.
Local Open Scope Z_scope.

(** The blocks that requests of one kind leave alone: all but the connection and
    the structures the kind is made of. *)
Class Static (st : obj -> bool) := {
  static_listener l : st (OListener l) = true;
  static_message m : st (OMessage m) = true;
  static_connection c : st (OConnection c) = false;
}.

Definition send_static (o : obj) : bool :=
  match o with OSend _ | OConnection _ => false | _ => true end.
Definition recv_static (o : obj) : bool :=
  match o with ORecv _ | OIovec _ | OConnection _ => false | _ => true end.

#[export] Instance send_static_static : Static send_static. Proof. by split. Qed.
#[export] Instance recv_static_static : Static recv_static. Proof. by split. Qed.

Definition static_kept (st : obj -> bool) (h h' : gmap loc obj) : Prop :=
  forall j o, h !! j = Some o -> st o = true -> h' !! j = Some o.

#[export] Instance static_kept_preorder st : PreOrder (static_kept st).
Proof. split; [by intros h j o|]. intros h1 h2 h3 H12 H23 j o Hj Ho. by apply H23, Ho; apply H12. Qed.

(** What a step leaves alone: all but the blocks [S]. *)
Definition unmoved (S : list loc) (w w' : world) : Prop := forall j, j ∉ S -> heap w' !! j = heap w !! j.

#[export] Instance unmoved_preorder S : PreOrder (unmoved S).
Proof. split; [by intros w j|]. intros w1 w2 w3 H12 H23 j Hj. by rewrite H23, H12. Qed.

Lemma unmoved_weaken S S' w w' : S ⊆ S' -> unmoved S w w' -> unmoved S' w w'.
Proof. intros HS Hu j Hj. apply Hu. set_solver. Qed.

Lemma unmoved_cons l S w w' : (forall j, j <> l -> j ∉ S -> heap w' !! j = heap w !! j) -> unmoved (l :: S) w w'.
Proof. intros Hu j [? ?]%not_elem_of_cons. by apply Hu. Qed.

(** The structures a queue of requests is made of. *)
Class Request (T : Type) `{Linked T} := {
  unchanged : obj -> bool;
  request_static :: Static unchanged;
  request_dynamic (x : T) : unchanged (inj x) = false;
  request_item (x : T) y : inj x <> OConnection y;
}.

#[export] Instance send_request : Request send_item.
Proof. refine {| unchanged := send_static |}; abstract done. Defined.

#[export] Instance recv_request : Request recv_item.
Proof. refine {| unchanged := recv_static |}; abstract done. Defined.

(** The handles of a connection lead to a listener whose protocol has the
    function [get]. *)
Definition has_handle (h : gmap loc obj) (x : tapsConnection) (get : proto_handles -> fptr) (g : fn) : Prop :=
  exists L lx, c_handles x = Some (HListener L) /\ h !! L = Some (OListener lx) /\ get (l_handles lx) = Some g.

Definition has_message (h : gmap loc obj) (m : ptr) : Prop :=
  exists l mm, m = Some l /\ h !! l = Some (OMessage mm).

(** The call that hands an item with message [msg] to the protocol, as [ev]
    records it. *)
Definition hand_over (ev : iovptr -> Z -> event) (h : gmap loc obj) (msg : ptr) : list event :=
  match msg with
  | Some m => match h !! m with
              | Some (OMessage mm) => [ev (IovMessage m) (m_iovcnt mm)]
              | _ => []
              end
  | None => []
  end.

Section static.
Context `{Machine} {st : obj -> bool} `{!Static st}.

Lemma static_has_handle h h' x x' get g :
  static_kept st h h' -> c_handles x' = c_handles x -> has_handle h x get g -> has_handle h' x' get g.
Proof. intros Hs E (L & lx & E1 & E2 & E3). exists L, lx. rewrite E.
  splits; [done|eapply Hs; [done|apply static_listener]|done]. Qed.

Lemma static_has_message h h' m : static_kept st h h' -> has_message h m -> has_message h' m.
Proof. intros Hs (l & mm & E1 & E2). exists l, mm.
  split; [done|eapply Hs; [done|apply static_message]]. Qed.

Lemma static_hand_over ev h h' m :
  static_kept st h h' -> has_message h m -> hand_over ev h' m = hand_over ev h m.
Proof. intros Hs (l & mm & -> & E). simpl. by rewrite E, (Hs _ _ E (static_message _)). Qed.

Lemma load_handles_ok L lx w :
  heap w !! L = Some (OListener lx) -> load_handles (Some (HListener L)) w = (Ok (l_handles lx), w).
Proof. intros E. unfold load_handles. by steps. Qed.

Lemma GetIovec_ok m mm w :
  heap w !! m = Some (OMessage mm) ->
  tapsMessageGetIovec (Some m) w = (Ok (IovMessage m, m_iovcnt mm), w).
Proof. intros E. unfold tapsMessageGetIovec. by steps. Qed.

End static.

(** ** The owner of a queue *)

Section owner.
Context `{Machine} {T : Type} `{Request T} (f : field tapsConnection).

(** Connection [c], with fields [x], has the requests [q] queued, oldest first. *)
Record owner (w : world) (c : loc) (x : tapsConnection) (q : list (loc * T)) : Prop := {
  ow_conn : heap w !! c = Some (OConnection x);
  ow_queue : queue (heap w) (f_get f x) q;
  ow_fresh : fresh_from (heap w) (brk w);
}.

Lemma owner_notin w c x q : owner w c x q -> c ∉ q.*1.
Proof.
  intros [Hc Hq _] Hin. destruct (queue_typed _ _ _ _ Hq Hin) as [s E].
  rewrite Hc in E. simplify_eq. by destruct (request_item s x).
Qed.

Lemma owner_load w c x q : owner w c x q -> load (Some c) w = (Ok x, w).
Proof. intros [Hc _ _]. by apply load_ok. Qed.

(** An owner does not see errno and the trace. *)
Lemma owner_same w w' c x q : heap w' = heap w -> brk w' = brk w -> owner w c x q -> owner w' c x q.
Proof. intros E1 E2 []. split; by rewrite ?E1, ?E2. Qed.

Lemma owner_below w c x q : owner w c x q -> (c < brk w)%positive.
Proof. intros [Hc _ Hf]. by eapply fresh_from_lt. Qed.

Lemma owner_items_below w c x q l : owner w c x q -> l ∈ q.*1 -> (l < brk w)%positive.
Proof.
  intros [_ Hq Hf] Hl. destruct (queue_typed _ _ _ _ Hq Hl) as [s E]. by eapply fresh_from_lt.
Qed.

(** Changing only the connection and its requests keeps what is static. *)
Lemma owner_static w c x q h' :
  owner w c x q ->
  (forall j, j <> c -> (j < brk w)%positive -> j ∉ q.*1 -> h' !! j = heap w !! j) ->
  static_kept (unchanged (T := T)) (heap w) h'.
Proof.
  intros [Hc Hq Hf] Hfr j o Hj Ho. rewrite Hfr; [done|..].
  - intros ->. rewrite Hc in Hj. simplify_eq. by rewrite static_connection in Ho.
  - by eapply fresh_from_lt.
  - intros Hin. destruct (queue_typed _ _ _ _ Hq Hin) as [s E]. rewrite E in Hj. simplify_eq.
    by rewrite request_dynamic in Ho.
Qed.

(** Changing other fields of the connection. *)
Lemma owner_conn w w' c x y q :
  owner w c x q -> f_get f y = f_get f x ->
  heap w' = <[c := OConnection y]> (heap w) -> brk w' = brk w -> owner w' c y q.
Proof.
  intros Ho Ey Eh Eb. pose proof (owner_notin _ _ _ _ Ho). pose proof (owner_below _ _ _ _ Ho).
  destruct Ho as [Hc Hq Hf]. split; rewrite Eh, ?Eb, ?Ey; [apply lookup_insert_eq| |by apply fresh_from_insert].
  eapply queue_frame; [|done]. intros. apply lookup_insert_ne. by intros ->.
Qed.

Lemma owner_modify w c x q g :
  owner w c x q -> f_get f (g x) = f_get f x ->
  exists w', modify (Some c) g w = (Ok tt, w') /\ owner w' c (g x) q
    /\ brk w' = brk w /\ errno w' = errno w /\ trace w' = trace w
    /\ (forall j, j <> c -> heap w' !! j = heap w !! j).
Proof.
  intros Ho Eg. pose proof (ow_conn _ _ _ _ Ho). eexists. splits; [by apply modify_ok|..]; simpl; try done.
  - by eapply owner_conn.
  - intros. by apply lookup_insert_ne.
Qed.

(** Adding an item and filling it in. *)
Lemma enqueue w c x q (fl : T -> T) y :
  owner w c x q -> malloc_ok (brk w) = true ->
  (forall n p, fl (set_links n p (uninit (brk w))) = set_links n p y) ->
  exists w0 w1, ADD_ITEM T f (Some c) w = (Ok (Some (brk w)), w0)
    /\ modify (Some (brk w)) fl w0 = (Ok tt, w1)
    /\ owner w1 c (f_set f (Some (brk w)) x) (q ++ [(brk w, y)])
    /\ errno w1 = errno w /\ trace w1 = trace w /\ brk w1 = Pos.succ (brk w)
    /\ (forall j, j <> c -> (j < brk w)%positive -> j ∉ q.*1 -> heap w1 !! j = heap w !! j).
Proof.
  intros Ho Ha Hfl. pose proof (owner_notin _ _ _ _ Ho) as Hnin.
  pose proof (owner_below _ _ _ _ Ho). pose proof Ho as [Hc Hq Hf].
  destruct (ADD_ITEM_spec (T := T) f c x q w) as (h' & E & Hq' & Hc' & Hfr); [done..|].
  pose proof (queue_lookup _ _ _ _ _ _ Hq') as Hl.
  apply (queue_payload _ _ _ _ _ _ y) in Hq'.
  eexists _, _. splits; [exact E|apply modify_ok; exact Hl|..]; simpl; [|done|done|done|].
  - rewrite Hfl. split; simpl.
    + by rewrite lookup_insert_ne by lia.
    + by rewrite f_get_set.
    + apply fresh_from_insert; [lia|]. intros j Hj. rewrite Hfr; [apply Hf; lia|lia|lia|].
      intros Hin. pose proof (owner_items_below _ _ _ _ _ Ho Hin). lia.
  - intros j ???. rewrite lookup_insert_ne by lia. apply Hfr; [done|lia|done].
Qed.

(** Taking an item out. *)
Lemma dequeue w c x q1 q2 l it :
  owner w c x (q1 ++ (l, it) :: q2) ->
  exists w1, DELETE_ITEM T (mret (Some l)) f (Some c) w = (Ok tt, w1)
    /\ owner w1 c (match q2 with [] => f_set f (last_of None q1) x | _ => x end) (q1 ++ q2)
    /\ heap w1 !! l = None /\ brk w1 = brk w /\ errno w1 = errno w /\ trace w1 = trace w
    /\ (forall j, j <> c -> j ∉ (q1 ++ (l, it) :: q2).*1 -> heap w1 !! j = heap w !! j).
Proof.
  intros Ho. pose proof (owner_notin _ _ _ _ Ho) as Hnin. pose proof (owner_below _ _ _ _ Ho).
  pose proof Ho as [Hc Hq Hf]. pose proof Hq as (_ & _ & Htl).
  destruct (DELETE_ITEM_spec f c x q1 q2 l it w) as (h' & E & Hq' & Hl & Hc' & Hfr); [done..|].
  exists (set_heap h' w). splits; try done. split; simpl; [done|..].
  - destruct q2 as [|[n y] q2]; [rewrite f_get_set; by rewrite app_nil_r in *|].
    rewrite Htl. rewrite last_of_app_cons in *. by rewrite !last_of_cons in *.
  - intros j Hj. rewrite Hfr; [by apply Hf|lia|].
    intros Hin. pose proof (owner_items_below _ _ _ _ _ Ho Hin). lia.
Qed.

End owner.

(** ** An item of a queue, found by its address *)

Fixpoint split_at {A} (l : loc) (q : list (loc * A)) : option (list (loc * A) * A * list (loc * A)) :=
  match q with
  | [] => None
  | (l', x) :: r =>
      if Pos.eqb l l' then Some ([], x, r)
      else match split_at l r with
           | Some (q1, y, q2) => Some ((l', x) :: q1, y, q2)
           | None => None
           end
  end.

Lemma split_at_app {A} l (q : list (loc * A)) q1 x q2 :
  split_at l q = Some (q1, x, q2) -> q = q1 ++ (l, x) :: q2.
Proof.
  revert q1. induction q as [|[l' y] q IH]; intros q1; simpl; [done|].
  destruct (Pos.eqb_spec l l') as [->|]; [by intros [= <- <- <-]|].
  destruct (split_at l q) as [[[q1' y'] q2']|]; [|done].
  intros [= <- <- <-]. simpl. by rewrite <- IH.
Qed.

(** ** A connection to evaluate the model on *)

Module Sample.

Definition handles : proto_handles := Handles (Some 1%positive) (Some 101%positive) (Some 102%positive) (Some 103%positive) (Some 104%positive).
Definition listener : tapsListener :=
  Listener (Some 1%positive) (Some 2%positive) handles (Some 11%positive) None None 1 4294967295 (Some 1%positive) 0 0.
Definition message (len : Z) : tapsMessage := Message (Iovec 4096 len) None 1.
Definition callbacks : tapsCallbacks :=
  Callbacks None None None (Some 21%positive) (Some 22%positive) (Some 23%positive)
    (Some 24%positive) (Some 25%positive) (Some 26%positive) (Some 27%positive) (Some 28%positive).
Definition connection : tapsConnection :=
  Connection (Some 5%positive) (Some 6%positive) (Some (HListener 1%positive)) None None
    (Some 27%positive) (Some 28%positive) TRUE TRUE (Some 1%positive).

(** The listener at 1, messages at 2 and 3, the connection at 4, and items from
    5 on. *)
Definition state (x : tapsConnection) (items : list obj) : world :=
  World (list_to_map (imap (fun i o => (Pos.of_succ_nat i, o))
    ([OListener listener; OMessage (message 10); OMessage (message 20); OConnection x] ++ items)))
    (Pos.of_succ_nat (4 + length items)) 0 [].

Lemma state_fresh x items : fresh_from (heap (state x items)) (brk (state x items)).
Proof.
  intros j Hj. unfold state in *. simpl in *. repeat rewrite lookup_insert_ne by lia.
  apply not_elem_of_list_to_map_1. rewrite list_elem_of_fmap. intros ([k o] & -> & Hk). simpl in *.
  apply list_elem_of_lookup_1 in Hk as [i Hi]. rewrite list_lookup_imap in Hi.
  destruct (items !! i) eqn:E; simplify_eq/=. apply lookup_lt_Some in E. lia.
Qed.

End Sample.
