(* ===== verification/Sending.v ===== *)
(** * Sending: the send queue of a connection

    What the send requests and the protocol's send reports do to the abstract
    queue of a connection, and which sends reach the protocol. *)

From S2P Require Import Prelude Structs Memory Message Queue Listener Connection Requests.
Local Open Scope Z_scope.

#[local] Abbreviation kept_has_handle := (static_has_handle (st := send_static)).
#[local] Abbreviation kept_has_message := (static_has_message (st := send_static)).
#[local] Abbreviation kept_hand_over := (static_hand_over (st := send_static)).

(** ** The view of a connection that sends *)

(** Connection [c], with fields [x], has the sends [q] queued, oldest first;
    its protocol sends with [g]. *)
Record sender (w : world) (c : loc) (x : tapsConnection) (q : list (loc * send_item)) (g : fn) : Prop := {
  sd_owner : owner sndq w c x q;
  sd_handle : has_handle (heap w) x ph_send g;
  sd_items : Forall (fun p => s_connection p.2 = Some c /\ has_message (heap w) (s_message p.2)) q;
}.

(** The item of a new request. *)
Definition new_send (c : loc) (msg app : ptr) (cb : tapsCallbacks) : send_item :=
  fill_send msg (Some c) app cb zero.

(** The call that hands an item to the protocol. *)
Definition send_call (h : gmap loc obj) (g : fn) (x : tapsConnection) (p : loc * send_item) : list event :=
  hand_over (PSend g (c_proto_ctx x) (Some p.1)) h (s_message p.2).

(** The three reports of the protocol on an item it was given. *)
Inductive send_report :=
| Sent
| Expired
| SendError (reason : option string).

Section sending.
Context `{Machine} `{App} `{Proto}.

Definition run_report (r : send_report) (item : ptr) : M unit :=
  match r with
  | Sent => _taps_sent item
  | Expired => _taps_expired item
  | SendError s => _taps_send_error item s
  end.

(** The callback of an item a report leads to, and its call. *)
Definition report_callback (r : send_report) (it : send_item) : fptr :=
  match r with Sent => s_sent it | Expired => s_expired it | SendError _ => s_sendError it end.

Definition report_event (r : send_report) (conn item : ptr) (f : fn) : event :=
  match r with
  | Sent => EvSent f conn item
  | Expired => EvExpired f conn item
  | SendError s => EvSendError f conn item (match s with Some r => Some r | None => Some "Protocol failure"%string end)
  end.

Lemma run_report_unfold r item :
  run_report r item =
  (it ← load item;
   _taps_send_common (s_connection it) item ;;
   c ← load (s_connection it);
   call_app (report_callback r it) (report_event r (c_app_ctx c) (s_app_ctx it))).
Proof. by destruct r. Qed.

End sending.

Section specs.
Context `{Machine} `{QuietProto}.

Lemma sender_frame w w' c x q g :
  sender w c x q g -> owner sndq w' c x q -> static_kept send_static (heap w) (heap w') -> sender w' c x q g.
Proof.
  intros [Ho Hh Hi] Ho' Hs. split; [done|by eapply kept_has_handle|].
  eapply Forall_impl; [exact Hi|]. intros p [? ?]. split; [done|by eapply kept_has_message].
Qed.

(** Handing an item to the protocol. *)
Lemma issue_send_ok w c x g item msg :
  heap w !! c = Some (OConnection x) -> has_handle (heap w) x ph_send g -> has_message (heap w) msg ->
  exists z, ('(data, iovcnt) ← tapsMessageGetIovec msg;
    cc ← load (Some c);
    h ← load_handles (c_handles cc);
    call_send (ph_send h) (c_proto_ctx cc) (Some item) data iovcnt) w
  = (Ok z, World (heap w) (brk w) (errno w)
             (trace w ++ hand_over (PSend g (c_proto_ctx x) (Some item)) (heap w) msg))
  /\ exists d n v, trace v = trace w ++ [PSend g (c_proto_ctx x) (Some item) d n]
       /\ proto_send g (c_proto_ctx x) (Some item) d n v = (Ok z, v).
Proof.
  intros Hc (L & lx & E1 & E2 & E3) (m & mm & -> & Hm).
  erewrite bind_ok by (by apply GetIovec_ok). steps. rewrite E1.
  erewrite bind_ok by (by apply load_handles_ok). rewrite E3.
  destruct (call_send_ok g (c_proto_ctx x) (Some item) (IovMessage m) (m_iovcnt mm) w) as (z & E & Hz).
  exists z. rewrite E, Hm. eauto.
Qed.

(** A request of the application. *)
Lemma Send_spec w c x q g msg app cb :
  sender w c x q g -> has_message (heap w) msg -> malloc_ok (brk w) = true ->
  let p := (brk w, new_send c msg app cb) in
  exists z w', tapsConnectionSend (Some c) msg app (Some cb) w = (Ok z, w')
    /\ sender w' c (set_c_sndq (Some (brk w)) x) (q ++ [p]) g
    /\ trace w' = trace w ++ (if truth (c_sendReady x) then send_call (heap w) g x p else [])
    /\ errno w' = errno w /\ brk w' = Pos.succ (brk w)
    /\ (forall j, j <> c -> (j < brk w)%positive -> j ∉ q.*1 -> heap w' !! j = heap w !! j)
    /\ (truth (c_sendReady x) = true -> exists d n v, trace v = trace w ++ [PSend g (c_proto_ctx x) (Some (brk w)) d n]
          /\ proto_send g (c_proto_ctx x) (Some (brk w)) d n v = (Ok z, v)).
Proof.
  intros [Ho Hh Hi] Hm Ha p.
  destruct (enqueue sndq w c x q (fill_send msg (Some c) app cb) (new_send c msg app cb))
    as (w0 & w1 & E0 & E1 & Ho1 & Ee & Et & Eb & Hfr); [done|done|reflexivity|].
  assert (static_kept send_static (heap w) (heap w1)) as Hs by exact (owner_static sndq w c x q _ Ho Hfr).
  assert (has_handle (heap w1) (set_c_sndq (Some (brk w)) x) ph_send g) as Hh1 by (by eapply kept_has_handle).
  assert (has_message (heap w1) msg) as Hm1 by (by eapply kept_has_message).
  assert (sender w1 c (set_c_sndq (Some (brk w)) x) (q ++ [p]) g) as Hs1.
  { split; [done..|]. apply Forall_app. split; [|by repeat constructor].
    eapply Forall_impl; [exact Hi|]. intros p' [? ?]. split; [done|by eapply kept_has_message]. }
  unfold tapsConnectionSend. erewrite bind_ok by exact E0. steps.
  erewrite bind_ok by exact E1. steps. rewrite (bind_ok _ _ _ _ _ (owner_load _ _ _ _ _ Ho1)). simpl.
  destruct (truth (c_sendReady x)) eqn:Er.
  - destruct (issue_send_ok _ _ _ _ (brk w) _ (ow_conn _ _ _ _ _ Ho1) Hh1 Hm1) as (z & E & Hz).
    rewrite Et in Hz.
    exists z. eexists. splits; [exact E|..]; simpl; [|by rewrite Et; erewrite kept_hand_over|done..].
    eapply sender_frame; [exact Hs1|by apply (owner_same _ w1)|reflexivity].
  - exists 0, w1. splits; try done. by rewrite app_nil_r.
Qed.

(** The item behind an address, with its links. *)
Lemma sender_item w c x q1 q2 l it g :
  sender w c x (q1 ++ (l, it) :: q2) g ->
  heap w !! l = Some (inj (set_links (first_of None q2) (last_of None q1) it))
  /\ s_connection it = Some c /\ has_message (heap w) (s_message it).
Proof.
  intros [Ho _ Hi]. split; [by eapply queue_lookup, ow_queue|].
  by apply Forall_app in Hi as [_ [? _]%Forall_cons].
Qed.

(** The connection once an item before [q2] is done. *)
Definition after_report (q1 q2 : list (loc * send_item)) (x : tapsConnection) : tapsConnection :=
  match q2 with
  | [] => set_c_sendReady TRUE (set_c_sndq (last_of None q1) x)
  | _ => x
  end.

(** What every report begins with. *)
Lemma send_common_spec w c x q1 q2 l it g :
  sender w c x (q1 ++ (l, it) :: q2) g ->
  exists z w', _taps_send_common (Some c) (Some l) w = (Ok z, w')
    /\ sender w' c (after_report q1 q2 x) (q1 ++ q2) g
    /\ heap w' !! l = None /\ brk w' = brk w
    /\ trace w' = trace w ++ match q2 with [] => [] | p :: _ => send_call (heap w) g x p end
    /\ (forall j, j <> c -> j ∉ (q1 ++ (l, it) :: q2).*1 -> heap w' !! j = heap w !! j).
Proof.
  intros Hs. pose proof Hs as [Ho Hh Hi].
  destruct (sender_item _ _ _ _ _ _ _ _ Hs) as (Hl & _).
  destruct (dequeue sndq w c x q1 q2 l it Ho) as (w1 & E & Ho1 & Hl1 & Eb & _ & Et & Hfr).
  assert (static_kept send_static (heap w) (heap w1)) as Hst by exact (owner_static sndq w c x _ _ Ho (fun j a _ b => Hfr j a b)).
  assert (Forall (fun p => s_connection p.2 = Some c /\ has_message (heap w1) (s_message p.2)) (q1 ++ q2)) as Hi1.
  { apply Forall_app in Hi as [Hi1 [_ Hi2]%Forall_cons].
    eapply Forall_impl; [by apply Forall_app|]. intros p [? ?]. split; [done|by eapply kept_has_message]. }
  unfold _taps_send_common. rewrite (bind_ok _ _ _ _ _ (load_ok _ _ _ Hl)).
  erewrite bind_ok by exact E. destruct q2 as [|[n y] q2]; simpl.
  - destruct (owner_modify sndq _ _ _ _ (set_c_sendReady TRUE) Ho1)
      as (w2 & E2 & Ho2 & Eb2 & _ & Et2 & Hfr2); [done|].
    erewrite bind_ok by exact E2. eexists _, w2.
    assert (static_kept send_static (heap w1) (heap w2)) as Hst2
      by exact (owner_static sndq w1 c _ _ _ Ho1 (fun j a _ _ => Hfr2 j a)).
    splits; [done|..]; [|rewrite Hfr2; [done|]|congruence|by rewrite app_nil_r, Et2|].
    + split; [done|eapply (kept_has_handle (heap w)); [by etrans|done..]|].
      eapply Forall_impl; [exact Hi1|]. intros p [? ?]. split; [done|by eapply kept_has_message].
    + intros ->. apply (owner_notin _ _ _ _ _ Ho). rewrite fmap_app. set_solver.
    + intros. rewrite Hfr2; [by apply Hfr|done].
  - apply Forall_app in Hi1 as Hi2. destruct Hi2 as [_ [[Hny Hmy] _]%Forall_cons].
    pose proof (queue_lookup _ _ _ _ _ _ (ow_queue _ _ _ _ _ Ho1)) as Hn1.
    rewrite (bind_ok _ _ _ _ _ (load_ok _ _ _ Hn1)).
    destruct (issue_send_ok w1 c x g n (s_message y)) as (z & Ez & _); [apply Ho1|by eapply kept_has_handle|done|].
    exists z. eexists. splits; [exact Ez|..]; simpl; try done.
    + split; [by apply (owner_same _ w1)|by eapply kept_has_handle|done].
    + rewrite Et. f_equal. unfold send_call; simpl. apply kept_hand_over; [done|].
      apply Forall_app in Hi as [_ [_ [[] _]%Forall_cons]%Forall_cons]. done.
Qed.

End specs.

Section report.
Context `{Machine} `{QuietApp} `{QuietProto}.

(** A report of the protocol. *)
Lemma report_spec r w c x q1 q2 l it g f :
  sender w c x (q1 ++ (l, it) :: q2) g -> report_callback r it = Some f ->
  exists w', run_report r (Some l) w = (Ok tt, w')
    /\ sender w' c (after_report q1 q2 x) (q1 ++ q2) g
    /\ heap w' !! l = None
    /\ trace w' = trace w ++ match q2 with [] => [] | p :: _ => send_call (heap w) g x p end
                  ++ [report_event r (c_app_ctx x) (s_app_ctx it) f]
    /\ brk w' = brk w
    /\ (forall j, j <> c -> j ∉ (q1 ++ (l, it) :: q2).*1 -> heap w' !! j = heap w !! j).
Proof.
  intros Hs Hr. destruct (sender_item _ _ _ _ _ _ _ _ Hs) as (Hl & Hc & _).
  destruct (send_common_spec _ _ _ _ _ _ _ _ Hs) as (z & w1 & E & Hs1 & Hl1 & Eb & Et & Hfr).
  rewrite run_report_unfold, (bind_ok _ _ _ _ _ (load_ok _ _ _ Hl)).
  change (s_connection (set_links _ _ it)) with (s_connection it). rewrite Hc.
  erewrite bind_ok by exact E. pose proof Hs1 as [Ho1 Hh1 Hi1].
  rewrite (bind_ok _ _ _ _ _ (owner_load _ _ _ _ _ Ho1)).
  replace (report_callback r (set_links _ _ it)) with (Some f) by (by destruct r).
  rewrite call_app_ok. eexists. splits; [done|..]; simpl; [|done| |done..].
  - eapply sender_frame; [exact Hs1|by apply (owner_same _ w1)|reflexivity].
  - rewrite Et, <- app_assoc. do 3 f_equal. by destruct q2.
Qed.

End report.

(** ** The contract of the send queue *)

(** What a sequence of sends and reports promises, over the queue alone: a send
    appends the item the allocator gives, a report takes its item out, whichever
    place it has, and hands over the one behind it. *)
Inductive send_op :=
| OpSend (msg app : ptr) (cb : tapsCallbacks)
| OpReport (r : send_report) (item : loc).

Section contract.
Context (h : gmap loc obj) (c : loc) (x : tapsConnection) (g : fn).

(** The queue [q] and the next address [b], and the calls made. *)
Definition spec_op (op : send_op) (b : loc) (q : list (loc * send_item))
    : option (loc * list (loc * send_item) * list event) :=
  match op with
  | OpSend msg app cb =>
      let p := (b, new_send c msg app cb) in
      Some (Pos.succ b, q ++ [p], send_call h g x p)
  | OpReport r l =>
      match split_at l q with
      | Some (q1, it, q2) =>
          match report_callback r it with
          | Some f =>
              Some (b, q1 ++ q2,
                match q2 with [] => [] | p :: _ => send_call h g x p end
                ++ [report_event r (c_app_ctx x) (s_app_ctx it) f])
          | None => None
          end
      | None => None
      end
  end.

Fixpoint spec_ops (ops : list send_op) (b : loc) (q : list (loc * send_item))
    : option (loc * list (loc * send_item) * list event) :=
  match ops with
  | [] => Some (b, q, [])
  | op :: ops =>
      match spec_op op b q with
      | Some (b, q, es) =>
          match spec_ops ops b q with
          | Some (b, q, es') => Some (b, q, es ++ es')
          | None => None
          end
      | None => None
      end
  end.

(** The requests name messages that exist. *)
Definition op_ok (op : send_op) : Prop :=
  match op with OpSend msg _ _ => has_message h msg | OpReport _ _ => True end.

End contract.

Section refinement.
Context `{Machine} `{App} `{Proto}.

Definition run_op (c : loc) (op : send_op) : M unit :=
  match op with
  | OpSend msg app cb => tapsConnectionSend (Some c) msg app (Some cb) ;; mret tt
  | OpReport r l => run_report r (Some l)
  end.

Fixpoint run_ops (c : loc) (ops : list send_op) : M unit :=
  match ops with
  | [] => mret tt
  | op :: ops => run_op c op ;; run_ops c ops
  end.

End refinement.

Section refines.
Context `{Machine} `{QuietApp} `{QuietProto}.
Context (h : gmap loc obj) (c : loc) (x : tapsConnection) (g : fn).
Hypothesis memory : forall l, malloc_ok l = true.

(** The state [w] implements the queue [q] with next address [b]. *)
Record implements (w : world) (b : loc) (q : list (loc * send_item)) : Prop := {
  im_static : static_kept send_static h (heap w);
  im_brk : brk w = b;
  im_messages : Forall (fun p => has_message h (s_message p.2)) q;
  im_sender : exists y, sender w c y q g /\ c_proto_ctx y = c_proto_ctx x
    /\ c_app_ctx y = c_app_ctx x /\ truth (c_sendReady y) = true;
}.

Lemma send_call_static h' y p :
  static_kept send_static h h' -> has_message h (s_message p.2) -> c_proto_ctx y = c_proto_ctx x ->
  send_call h' g y p = send_call h g x p.
Proof. intros Hs Hm E. unfold send_call. rewrite E. by apply kept_hand_over. Qed.

Lemma op_refines w b q op b' q' es :
  implements w b q -> op_ok h op -> spec_op h c x g op b q = Some (b', q', es) ->
  exists w', run_op c op w = (Ok tt, w') /\ implements w' b' q' /\ trace w' = trace w ++ es.
Proof.
  intros [Hst <- Hms (y & Hs & E1 & E2 & E3)] Hok Hop.
  destruct op as [msg app cb|r l]; simpl in *.
  - simplify_eq.
    destruct (Send_spec w c y q g msg app cb) as (z & w' & E & Hs' & Et & _ & Hb & Hfr & _); [done| |done|].
    { by eapply kept_has_message. }
    exists w'. rewrite E3 in Et. erewrite bind_ok by exact E. splits; [done| |].
    + split; [|done| |].
      * etrans; [exact Hst|]. exact (owner_static sndq w c y q _ (sd_owner _ _ _ _ _ Hs) Hfr).
      * apply Forall_app. split; [done|]. by repeat constructor.
      * eexists. by split; [exact Hs'|].
    + rewrite Et. f_equal. by apply send_call_static.
  - destruct (split_at l q) as [[[q1 it] q2]|] eqn:Hq; [|done]. apply split_at_app in Hq as ->.
    destruct (report_callback r it) as [f|] eqn:Hf; [|done]. simplify_eq.
    destruct (report_spec r w c y q1 q2 l it g f) as (w' & E & Hs' & _ & Et & Hb & Hfr); [done..|].
    exists w'. splits; [done| |].
    + split; [|done| |].
      * etrans; [exact Hst|].
        exact (owner_static sndq w c y _ _ (sd_owner _ _ _ _ _ Hs) (fun j a _ d => Hfr j a d)).
      * apply Forall_app in Hms as [? [_ ?]%Forall_cons]. by apply Forall_app.
      * eexists. split; [exact Hs'|]. by destruct q2.
    + rewrite Et, E2. f_equal. f_equal. destruct q2 as [|p q2]; [done|].
      apply Forall_app in Hms as [_ [_ [Hp _]%Forall_cons]%Forall_cons].
      by apply send_call_static.
Qed.

End refines.

(** ** Properties *)

Section properties.
Context `{Machine} `{QuietApp} `{QuietProto}.

Lemma run_refines h c x g (memory : forall l, malloc_ok l = true) ops w b q b' q' es :
  implements h c x g w b q -> Forall (op_ok h) ops ->
  spec_ops h c x g ops b q = Some (b', q', es) ->
  exists w', run_ops c ops w = (Ok tt, w') /\ implements h c x g w' b' q' /\ trace w' = trace w ++ es.
Proof.
  revert w b q es. induction ops as [|op ops IH]; intros w b q es Him Hok Hsp; simpl in *.
  - simplify_eq. exists w. splits; [done..|]. by rewrite app_nil_r.
  - apply Forall_cons in Hok as [Hok Hoks].
    destruct (spec_op h c x g op b q) as [[[b1 q1] es1]|] eqn:E1; [|done].
    destruct (spec_ops h c x g ops b1 q1) as [[[b2 q2] es2]|] eqn:E2; [|done]. simplify_eq.
    destruct (op_refines h c x g memory w b q op b1 q1 es1) as (w1 & R1 & Him1 & T1); [done..|].
    destruct (IH _ _ _ _ Him1 Hoks E2) as (w2 & R2 & Him2 & T2).
    exists w2. erewrite bind_ok by exact R1. splits; [done..|]. by rewrite T2, T1, app_assoc.
Qed.

Lemma sender_implements w c x q g :
  sender w c x q g -> truth (c_sendReady x) = true -> implements (heap w) c x g w (brk w) q.
Proof.
  intros Hs Hr. split; [done..| |eauto].
  destruct Hs as [_ _ Hi]. eapply Forall_impl; [exact Hi|]. by intros p [].
Qed.

(** C7: what the send queue does, as a contract over the queue.  From a
    connection that is ready to send, and with memory, any sequence of sends and
    of reports on queued items, run through the code, leaves exactly the queue the
    contract computes and makes exactly the calls it computes: to the protocol
    with the item and its vector, and to the callback of the item reported.  The
    contract is the behaviour of the code, not that of docs/protocols.md and of
    the comment on the connection, which say that one send at a time is handed to
    the protocol and the others are kept: the code hands every send over at once,
    whether one is pending or not, and the next in the queue once more when one
    is reported. *)
Theorem sending_refines_queue c x g q w ops b' q' es :
  (forall l, malloc_ok l = true) ->
  sender w c x q g -> truth (c_sendReady x) = true -> Forall (op_ok (heap w)) ops ->
  spec_ops (heap w) c x g ops (brk w) q = Some (b', q', es) ->
  exists w' x', run_ops c ops w = (Ok tt, w') /\ sender w' c x' q' g
    /\ brk w' = b' /\ trace w' = trace w ++ es.
Proof.
  intros Hm Hs Hr Hok Hsp.
  destruct (run_refines _ _ _ _ Hm _ _ _ _ _ _ _ (sender_implements _ _ _ _ _ Hs Hr) Hok Hsp)
    as (w' & R & [_ Hb _ (x' & Hs' & _)] & T).
  by exists w', x'.
Qed.

(** A send without memory fails with ENOMEM and changes nothing else: no
    block, no queue, no call. *)
Lemma tapsConnectionSend_no_memory w c msg app cb :
  malloc_ok (brk w) = false ->
  tapsConnectionSend c msg app cb w
  = (Ok (-1), World (heap w) (Pos.succ (brk w)) ENOMEM (trace w)).
Proof.
  intros Ha. unfold tapsConnectionSend, ADD_ITEM.
  erewrite bind_ok by (erewrite bind_ok by (by apply malloc_fails); reflexivity). done.
Qed.

(** A second send is handed to the protocol while the first is pending, and
    once more when the first is reported sent. *)
Lemma second_send_submitted_twice w c x l it g msg app cb f :
  sender w c x [(l, it)] g -> truth (c_sendReady x) = true ->
  has_message (heap w) msg -> malloc_ok (brk w) = true -> s_sent it = Some f ->
  let call := send_call (heap w) g x (brk w, new_send c msg app cb) in
  length call = 1%nat
  /\ exists w', (tapsConnectionSend (Some c) msg app (Some cb) ;; _taps_sent (Some l)) w = (Ok tt, w')
    /\ trace w' = trace w ++ call ++ call ++ [EvSent f (c_app_ctx x) (s_app_ctx it)].
Proof.
  intros Hs Hr Hm Ha Hf call. split.
  { destruct Hm as (m & mm & -> & Hm). unfold call, send_call, hand_over. simpl. by rewrite Hm. }
  destruct (Send_spec w c x _ g msg app cb Hs Hm Ha) as (z & w1 & E1 & Hs1 & T1 & _ & _ & Hfr & _).
  destruct (report_spec Sent w1 c (set_c_sndq (Some (brk w)) x) [] [(brk w, new_send c msg app cb)] l it g f)
    as (w2 & E2 & _ & _ & T2 & _); [done..|].
  exists w2. erewrite bind_ok by exact E1. split; [exact E2|].
  rewrite T2, T1, Hr, <- app_assoc. do 2 f_equal. simpl. f_equal. unfold call, send_call.
  apply kept_hand_over; [|done]. exact (owner_static sndq w c x _ _ (sd_owner _ _ _ _ _ Hs) Hfr).
Qed.

End properties.

(** ** The properties at a sample connection *)

Module SendingSample.
Import Sample.

#[local] Existing Instance strict_machine.
#[local] Instance app : App := test_app (None, None).
#[local] Instance proto : Proto := test_proto 0.

(** One send pending, at 5. *)
Definition pending : send_item := new_send 4%positive (Some 2%positive) (Some 9%positive) callbacks.
Definition busy : tapsConnection := set_c_sndq (Some 5%positive) connection.

Lemma idle_sender : sender (state connection []) 4%positive connection [] 103%positive.
Proof.
  split; [split; [done| |apply state_fresh]|by exists 1%positive, listener|done].
  split; [done|]. split; [apply NoDup_nil_2|done].
Qed.

Lemma busy_sender : sender (state busy [OSend pending]) 4%positive busy [(5%positive, pending)] 103%positive.
Proof.
  split; [split; [done| |apply state_fresh]|by exists 1%positive, listener|].
  - split; [done|]. split; [apply NoDup_singleton|done].
  - repeat constructor. by exists 2%positive, (message 10).
Qed.

Definition ops : list send_op :=
  [OpSend (Some 2%positive) (Some 8%positive) callbacks;
   OpSend (Some 3%positive) (Some 9%positive) callbacks;
   OpReport Sent 5%positive;
   OpReport (SendError None) 6%positive].

Lemma sending_refines_queue_witness :
  exists w' x', run_ops 4%positive ops (state connection []) = (Ok tt, w')
    /\ sender w' 4%positive x' [] 103%positive /\ brk w' = 7%positive
    /\ trace w' = [PSend 103 (Some 5%positive) (Some 5%positive) (IovMessage 2) 1;
                   PSend 103 (Some 5%positive) (Some 6%positive) (IovMessage 3) 1;
                   PSend 103 (Some 5%positive) (Some 6%positive) (IovMessage 3) 1;
                   EvSent 21 (Some 6%positive) (Some 8%positive);
                   EvSendError 23 (Some 6%positive) (Some 9%positive) (Some "Protocol failure"%string)].
Proof.
  apply (sending_refines_queue 4%positive connection 103%positive [] (state connection []) ops);
    [done|apply idle_sender|done| |done].
  repeat constructor; simpl; [by exists 2%positive, (message 10)|by exists 3%positive, (message 20)].
Defined.

End SendingSample.
