(* ===== verification/Release.v ===== *)
(** * Release: tapsConnectionFree

    The loops of [tapsConnectionFree] pass the expression [c->sndq] (or
    [c->rcvq]) to DELETE_ITEM, which evaluates it again after it has moved the
    tail.  What that does to a queue, and to the connection. *)

From S2P Require Import Prelude Structs Memory Message Queue Listener Connection Requests.
Local Open Scope Z_scope.

(** ** One queue *)

Section drop.
Context `{Machine} {T : Type} `{Request T} (f : field tapsConnection).

Definition tail_arg (c : ptr) : M ptr := x ← load c; mret (f_get f x).

Lemma tail_arg_ok w c x : heap w !! c = Some (OConnection x) -> tail_arg (Some c) w = (Ok (f_get f x), w).
Proof. intros E. unfold tail_arg. by erewrite bind_ok by (by apply load_ok). Qed.

Lemma set_tail_ok w c x p :
  heap w !! c = Some (OConnection x) ->
  lv_set f (Some c) p w = (Ok tt, set_heap (<[c := OConnection (f_set f p x)]> (heap w)) w).
Proof. exact (lv_set_ok (St := tapsConnection) f c x p w). Qed.

Lemma rd_tail w c x l (it : T) get :
  heap w !! c = Some (OConnection x) -> f_get f x = Some l -> heap w !! l = Some (inj it) ->
  rd T (tail_arg (Some c)) get w = (Ok (get it), w).
Proof.
  intros Hc Hl Hi. unfold rd. rewrite (bind_ok _ _ _ _ _ (tail_arg_ok _ _ _ Hc)), Hl.
  by rewrite (bind_ok _ _ _ _ _ (load_ok _ _ _ Hi)).
Qed.

(** With one item queued the tail becomes NULL and nothing is freed. *)
Lemma delete_tail_last w c x l (it : T) :
  owner f w c x [(l, it)] ->
  exists w', DELETE_ITEM T (tail_arg (Some c)) f (Some c) w = (Ok tt, w')
    /\ w' = set_heap (<[c := OConnection (f_set f None x)]> (heap w)) w.
Proof.
  intros Ho. pose proof Ho as [Hc Hq Hf]. pose proof Hq as (_ & _ & Ht). unfold last_of in Ht. simpl in Ht.
  pose proof (queue_lookup _ _ [] [] _ _ Hq) as Hl. simpl in Hl.
  unfold DELETE_ITEM.
  do 2 (rewrite (bind_ok _ _ _ _ _ (rd_tail _ _ _ _ _ _ Hc Ht Hl)), ?prv_links, ?nxt_links;
        first [erewrite bind_ok by apply ret_ok|idtac]).
  rewrite bind_assoc, (bind_ok _ _ _ _ _ (rd_tail _ _ _ _ _ _ Hc Ht Hl)), prv_links.
  rewrite (bind_ok _ _ _ _ _ (set_tail_ok w c x None Hc)).
  erewrite bind_ok; [|apply tail_arg_ok; simpl; apply lookup_insert_eq].
  rewrite f_get_set. eexists. split; [|done]. done.
Qed.

(** With two or more, the item before the tail is freed, and stays the tail. *)
Lemma delete_tail_pair w c x q p y l (it : T) :
  owner f w c x (q ++ [(p, y); (l, it)]) ->
  exists w' x', DELETE_ITEM T (tail_arg (Some c)) f (Some c) w = (Ok tt, w')
    /\ heap w' !! c = Some (OConnection x') /\ f_get f x' = Some p /\ heap w' !! p = None
    /\ trace w' = trace w.
Proof.
  intros Ho. pose proof Ho as [Hc Hq Hf]. pose proof Hq as (_ & Hnd & Ht).
  pose proof (owner_notin _ _ _ _ _ Ho) as Hn. rewrite fmap_app in Hn, Hnd. simpl in Hn, Hnd.
  apply NoDup_app in Hnd as (_ & _ & [Hpl _]%NoDup_cons).
  replace (q ++ [(p, y); (l, it)]) with ((q ++ [(p, y)]) ++ [(l, it)]) in Ht, Hq by (by rewrite <- app_assoc).
  rewrite last_of_snoc in Ht. pose proof (queue_lookup _ _ _ _ _ _ Hq) as Hl.
  rewrite last_of_snoc in Hl. simpl in Hl.
  rewrite <- app_assoc in Hq. pose proof (queue_lookup _ _ _ _ _ _ Hq) as Hp. simpl in Hp.
  assert (p <> l) by set_solver. assert (c <> p) by set_solver. assert (c <> l) by set_solver.
  unfold DELETE_ITEM.
  rewrite (bind_ok _ _ _ _ _ (rd_tail _ _ _ _ _ _ Hc Ht Hl)), prv_links.
  rewrite !bind_assoc, (bind_ok _ _ _ _ _ (rd_tail _ _ _ _ _ _ Hc Ht Hl)), prv_links.
  rewrite !bind_assoc, (bind_ok _ _ _ _ _ (rd_tail _ _ _ _ _ _ Hc Ht Hl)), nxt_links.
  rewrite (bind_ok _ _ _ _ _ (modify_ok _ _ _ _ Hp)).
  set (w1 := set_heap _ w).
  assert (heap w1 !! c = Some (OConnection x)) as Hc1 by (unfold w1; simpl; by rewrite lookup_insert_ne).
  assert (heap w1 !! l = Some (inj (set_links None (Some p) it))) as Hl1
    by (unfold w1; simpl; by rewrite lookup_insert_ne).
  rewrite (bind_ok _ _ _ _ _ (rd_tail _ _ _ _ _ _ Hc1 Ht Hl1)), nxt_links.
  rewrite bind_assoc, (bind_ok _ _ _ _ _ (rd_tail _ _ _ _ _ _ Hc1 Ht Hl1)), prv_links.
  rewrite (bind_ok _ _ _ _ _ (set_tail_ok w1 c x (Some p) Hc1)).
  erewrite bind_ok; [|apply tail_arg_ok; simpl; apply lookup_insert_eq].
  rewrite f_get_set. erewrite free_ok.
  2: { simpl. rewrite lookup_insert_ne by done. apply lookup_insert_eq. }
  eexists _, (f_set f (Some p) x). splits; [done|..]; simpl; [|by rewrite f_get_set| |done].
  - rewrite lookup_delete_ne by done. apply lookup_insert_eq.
  - apply lookup_delete_eq.
Qed.

End drop.

(** ** One loop *)

Section loop.
Context `{Machine} `{App} {T : Type} `{Request T} (f : field tapsConnection).
Context (cb : T -> fptr) (ev : tapsConnection -> T -> fn -> event).
Hypothesis cb_links : forall n p it, cb (set_links n p it) = cb it.
Hypothesis ev_links : forall c n p it, ev c (set_links n p it) = ev c it.

(** A turn, for a callback [cb] recorded by [ev]. *)
Definition drop (connection : ptr) : M unit :=
  c ← load connection;
  it ← load (f_get f c);
  call_app (cb it) (ev c it) ;;
  DELETE_ITEM T (tail_arg f connection) f connection.

Lemma drop_start w c x q l it g w1 :
  owner f w c x (q ++ [(l, it)]) -> cb it = Some g -> call_app (Some g) (ev x it) w = (Ok tt, w1) ->
  drop (Some c) w = DELETE_ITEM T (tail_arg f (Some c)) f (Some c) w1.
Proof.
  intros Ho Hg Ew. pose proof (ow_queue _ _ _ _ _ Ho) as Hq. pose proof Hq as (_ & _ & Ht).
  rewrite last_of_snoc in Ht. pose proof (queue_lookup _ _ _ _ _ _ Hq) as Hl.
  unfold drop. rewrite (bind_ok _ _ _ _ _ (owner_load _ _ _ _ _ Ho)), Ht.
  rewrite (bind_ok _ _ _ _ _ (load_ok _ _ _ Hl)), cb_links, Hg.
  replace (ev x (set_links _ _ it)) with (ev x it) by (by rewrite ev_links).
  by erewrite bind_ok by exact Ew.
Qed.

Lemma drop_all_none fuel w c x :
  owner f w c x [] -> drop_all (S fuel) (f_get f) drop (Some c) w = (Ok tt, w).
Proof.
  intros Ho. pose proof (ow_queue _ _ _ _ _ Ho) as (_ & _ & Ht). cbn [drop_all].
  rewrite (bind_ok _ _ _ _ _ (owner_load _ _ _ _ _ Ho)), Ht. done.
Qed.

Lemma drop_all_more fuel w c x q l it w' :
  owner f w c x (q ++ [(l, it)]) -> drop (Some c) w = (Ok tt, w') ->
  drop_all (S fuel) (f_get f) drop (Some c) w = drop_all fuel (f_get f) drop (Some c) w'.
Proof.
  intros Ho Ew. pose proof (ow_queue _ _ _ _ _ Ho) as (_ & _ & Ht). cbn [drop_all].
  rewrite (bind_ok _ _ _ _ _ (owner_load _ _ _ _ _ Ho)), Ht, last_of_snoc.
  by erewrite bind_ok by exact Ew.
Qed.

(** One item pending: its error is reported, the queue is empty. *)
Lemma drop_all_one fuel w c x l it g w1 :
  owner f w c x [(l, it)] -> cb it = Some g -> call_app (Some g) (ev x it) w = (Ok tt, w1) ->
  owner f w1 c x [(l, it)] ->
  drop_all (S (S fuel)) (f_get f) drop (Some c) w
  = (Ok tt, set_heap (<[c := OConnection (f_set f None x)]> (heap w1)) w1).
Proof.
  intros Ho Hg Ew Ho1. destruct (delete_tail_last f w1 c x l it Ho1) as (w2 & E & ->).
  erewrite (drop_all_more _ w c x [] l it) by (rewrite ?(drop_start _ _ _ [] _ _ _ _ Ho Hg Ew); done).
  cbn [drop_all]. erewrite bind_ok; [|apply load_ok; apply lookup_insert_eq].
  by rewrite f_get_set.
Qed.

(** More pending: the tail is left on a freed item, which the next turn reads. *)
Lemma drop_all_many `{!QuietApp} fuel w c x q p y l it g :
  StrictMachine -> owner f w c x (q ++ [(p, y); (l, it)]) -> cb it = Some g ->
  exists w', drop_all (S (S fuel)) (f_get f) drop (Some c) w = (Fault (UseAfterFree p), w')
    /\ trace w' = trace w ++ [ev x it g].
Proof.
  intros Hst Ho Hg. set (w1 := add_event (ev x it g) w).
  assert (owner f w1 c x (q ++ [(p, y); (l, it)])) as Ho1 by (by apply (owner_same f w)).
  destruct (delete_tail_pair f w1 c x q p y l it Ho1) as (w2 & x2 & E & Hc2 & Hx2 & Hp2 & T2).
  assert (owner f w c x ((q ++ [(p, y)]) ++ [(l, it)])) as Ho' by (by rewrite <- app_assoc).
  erewrite (drop_all_more _ w c x _ l it) by (rewrite ?(drop_start _ _ _ _ _ _ _ _ Ho' Hg (call_app_ok _ _ _)); done).
  cbn [drop_all]. erewrite bind_ok; [|by apply (load_ok (T := tapsConnection))]. rewrite Hx2.
  exists w2. split; [|by rewrite T2]. apply bind_fault. unfold drop.
  erewrite bind_ok; [|by apply (load_ok (T := tapsConnection))]. rewrite Hx2.
  by apply bind_fault, load_strict.
Qed.

End loop.

(** ** tapsConnectionFree *)

Definition send_died (c : tapsConnection) (it : send_item) (f : fn) : event :=
  EvSendError f (c_app_ctx c) (s_app_ctx it) (Some "Connection died"%string).

Definition recv_died (c : tapsConnection) (it : recv_item) (f : fn) : event :=
  EvReceiveError f (c_app_ctx c) (r_app_ctx it) (Some "Connection died"%string).

(** The error reports of the items of a queue. *)
Definition died {T} (cb : T -> fptr) (ev : T -> fn -> event) (q : list (loc * T)) : list event :=
  omap (fun p => ev p.2 <$> cb p.2) q.

Section release.
Context `{Machine} `{QuietApp} `{Proto}.

(** A loop over at most one item. *)
Lemma drop_all_short {T} `{Request T} (f : field tapsConnection) (cb : T -> fptr) ev fuel w c x (q : list (loc * T)) :
  (forall n p it, cb (set_links n p it) = cb it) -> (forall c n p it, ev c (set_links n p it) = ev c it) ->
  owner f w c x q -> (length q <= 1)%nat -> Forall (fun p => is_Some (cb p.2)) q ->
  exists y, drop_all (S (S fuel)) (f_get f) (drop f cb ev) (Some c) w
    = (Ok tt, World (<[c := OConnection y]> (heap w)) (brk w) (errno w) (trace w ++ died cb (ev x) q))
    /\ (y = x \/ y = f_set f None x).
Proof.
  intros Hcb Hev Ho Hle Hs. pose proof (ow_conn _ _ _ _ _ Ho) as Hc. destruct q as [|[l it] [|p q]].
  - exists x. split; [|by left]. rewrite (drop_all_none f cb ev _ w c x) by done.
    unfold died. simpl. rewrite app_nil_r, insert_id by done. by destruct w.
  - apply Forall_cons in Hs as [[g Hg] _]. simpl in Hg. exists (f_set f None x). split; [|by right].
    rewrite (drop_all_one f cb ev Hcb Hev _ w c x l it g _ Ho Hg (call_app_ok _ _ _)) by (by apply (owner_same f w)).
    unfold died. simpl. by rewrite Hg.
  - simpl in Hle. lia.
Qed.

(** At most one send and one receive pending. *)
Lemma tapsConnectionFree_short w c x qs qr :
  owner sndq w c x qs -> owner rcvq w c x qr -> (length qs <= 1)%nat -> (length qr <= 1)%nat ->
  Forall (fun p => is_Some (s_sendError p.2)) qs -> Forall (fun p => is_Some (r_receiveError p.2)) qr ->
  exists w', tapsConnectionFree (Some c) w = (Ok tt, w')
    /\ heap w' = delete c (heap w)
    /\ trace w' = trace w ++ died s_sendError (send_died x) qs ++ died r_receiveError (recv_died x) qr.
Proof.
  intros Hs Hr Ls Lr Fs Fr. unfold tapsConnectionFree.
  destruct (Pos2Nat.is_succ (brk w)) as [n ->].
  destruct (drop_all_short sndq s_sendError send_died n w c x qs) as (y & Ey & Hy); [done..|].
  erewrite bind_ok by exact Ey. set (w1 := World _ _ _ _).
  assert (owner rcvq w1 c y qr) as Hr1 by (apply (owner_conn rcvq w w1 c x y); [done|by destruct Hy as [->| ->]|done..]).
  destruct (drop_all_short rcvq r_receiveError recv_died n w1 c y qr) as (z & Ez & _); [done..|].
  erewrite bind_ok by exact Ez. erewrite (free_ok (T := tapsConnection)) by apply lookup_insert_eq.
  eexists. splits; [done|..]; simpl.
  - by rewrite insert_insert_eq, delete_insert_eq.
  - rewrite <- app_assoc. by destruct Hy as [->| ->].
Qed.

(** Two sends pending. *)
Lemma tapsConnectionFree_two_sends w c x q p y l it g :
  StrictMachine -> owner sndq w c x (q ++ [(p, y); (l, it)]) -> s_sendError it = Some g ->
  exists w', tapsConnectionFree (Some c) w = (Fault (UseAfterFree p), w')
    /\ trace w' = trace w ++ [send_died x it g].
Proof.
  intros Hst Ho Hg. unfold tapsConnectionFree. destruct (Pos2Nat.is_succ (brk w)) as [n ->].
  destruct (drop_all_many sndq s_sendError send_died ltac:(done) ltac:(done) n w c x q p y l it g)
    as (w' & E & T); [done..|].
  exists w'. split; [|done]. by erewrite bind_fault by exact E.
Qed.

(** C32: what tapsConnectionFree releases.  With at most one send and one receive
    pending it reports "Connection died" to each and releases the connection
    alone: the pending items stay allocated.  With more sends pending it reports
    the last one, frees the one before it, and then reads it. *)
Theorem tapsConnectionFree_outcomes w c x qs qr :
  StrictMachine -> owner sndq w c x qs -> owner rcvq w c x qr ->
  Forall (fun p => is_Some (s_sendError p.2)) qs -> Forall (fun p => is_Some (r_receiveError p.2)) qr ->
  ((length qs <= 1)%nat -> (length qr <= 1)%nat ->
    exists w', tapsConnectionFree (Some c) w = (Ok tt, w') /\ heap w' = delete c (heap w)
      /\ trace w' = trace w ++ died s_sendError (send_died x) qs ++ died r_receiveError (recv_died x) qr)
  /\ (forall q p y l it, qs = q ++ [(p, y); (l, it)] ->
    exists w' g, tapsConnectionFree (Some c) w = (Fault (UseAfterFree p), w') /\ s_sendError it = Some g
      /\ trace w' = trace w ++ [send_died x it g]).
Proof.
  intros Hst Hs Hr Fs Fr. split; [intros; by apply tapsConnectionFree_short|].
  intros q p y l it ->. apply Forall_app in Fs as [_ [_ [[g Hg] _]%Forall_cons]%Forall_cons].
  destruct (tapsConnectionFree_two_sends w c x q p y l it g Hst Hs Hg) as (w' & E & T). by exists w', g.
Qed.

End release.

(** ** The properties at a sample connection *)

Module ReleaseSample.
Import Sample.

#[local] Existing Instance strict_machine.
#[local] Instance app : App := test_app (None, None).
#[local] Instance proto : Proto := test_proto 0.

Definition send_to (l : loc) (n p : ptr) : send_item :=
  fill_send (Some 2%positive) (Some 4%positive) (Some l) callbacks (set_s_links n p zero).
Definition receive (l : loc) : recv_item :=
  fill_recv (Some 3%positive) (Some 4%positive) (Some l) 0 20 callbacks zero.

(** A send and a receive pending. *)
Definition one_each : tapsConnection := set_c_rcvq (Some 6%positive) (set_c_sndq (Some 5%positive) connection).
Definition one_each_state : world := state one_each [OSend (send_to 31 None None); ORecv (receive 32)].

(** Two sends pending. *)
Definition two_sends : tapsConnection := set_c_sndq (Some 6%positive) connection.
Definition two_sends_state : world :=
  state two_sends [OSend (send_to 31 (Some 6%positive) None); OSend (send_to 32 None (Some 5%positive))].

Lemma tapsConnectionFree_outcomes_witness :
  (exists w', tapsConnectionFree (Some 4%positive) one_each_state = (Ok tt, w')
    /\ heap w' = delete 4%positive (heap one_each_state)
    /\ trace w' = [EvSendError 23 (Some 6%positive) (Some 31%positive) (Some "Connection died"%string);
                   EvReceiveError 26 (Some 6%positive) (Some 32%positive) (Some "Connection died"%string)])
  /\ (exists w' g, tapsConnectionFree (Some 4%positive) two_sends_state = (Fault (UseAfterFree 5), w')
    /\ Some 23%positive = Some g
    /\ trace w' = [EvSendError g (Some 6%positive) (Some 32%positive) (Some "Connection died"%string)]).
Proof.
  split.
  - apply (tapsConnectionFree_outcomes one_each_state 4%positive one_each
             [(5%positive, send_to 31 None None)] [(6%positive, receive 32)]); simpl; try lia; try apply _.
    1,2: split; [done| |apply state_fresh]; split; [done|]; split; [apply NoDup_singleton|done].
    all: by repeat constructor.
  - apply (tapsConnectionFree_outcomes two_sends_state 4%positive two_sends
             [(5%positive, send_to 31 None None); (6%positive, send_to 32 None None)] [])
      with (q := []) (y := send_to 31 None None) (l := 6%positive) (it := send_to 32 None None); try done.
    + split; [done| |apply state_fresh]. split; [done|]. split; [|done]. apply (bool_decide_unpack _). by vm_compute.
    + split; [done| |apply state_fresh]. split; [done|]. split; [apply NoDup_nil_2|done].
    + by repeat constructor.
Defined.

End ReleaseSample.
