(* ===== verification/Receiving.v ===== *)
(** * Receiving: the receive queue of a connection

    Which receives reach the protocol, what the protocol's reports do to the
    queue, and the vectors a receive below its minimum is issued again with. *)

From S2P Require Import Prelude Structs Memory Message Queue Listener Connection Requests.
Local Open Scope Z_scope.

#[local] Abbreviation kept_has_handle := (static_has_handle (st := recv_static)).
#[local] Abbreviation kept_has_message := (static_has_message (st := recv_static)).
#[local] Abbreviation kept_hand_over := (static_hand_over (st := recv_static)).

(** ** Leaving off the first bytes of a vector *)

Section trunc.
Context `{Machine}.

Lemma trunc_loop_in a cnt suf : forall fuel pre n w,
  a = pre ++ suf -> (length suf < fuel)%nat -> (0 < cnt <= length suf)%nat ->
  Forall iov_ok suf -> 0 <= n < 2 ^ 64 -> n <= vec_len (take cnt suf) ->
  exists k v r, suf !! k = Some v /\ (k < cnt)%nat /\ 0 <= r <= iov_len v /\
    n = vec_len (take k suf) + r /\
    trunc_loop fuel a (Z.of_nat cnt) n (Z.of_nat (length pre)) w
      = (Ok (Z.of_nat (cnt - k), r, Z.of_nat (length pre + k)), w).
Proof.
  revert cnt. induction suf as [|v suf IH]; intros cnt fuel pre n w Ea Hf Hc Hok Hn Hlen; [simpl in Hc; lia|].
  destruct fuel as [|fuel]; [simpl in Hf; lia|]. destruct cnt as [|cnt]; [lia|].
  apply Forall_cons in Hok as [Hv Hok]. unfold iov_ok in Hv. simpl in Hf, Hc, Hlen.
  cbn [trunc_loop]. erewrite bind_ok by (by eapply iov_len_at_in).
  destruct (Z.ltb_spec (iov_len v) n) as [Hlt|Hge].
  - destruct (decide (cnt = 0%nat)) as [->|]; [simpl in Hlen; lia|].
    destruct (IH cnt fuel (pre ++ [v]) (n - iov_len v) w) as (k & v' & r & Hk & Hkc & Hr & Hn' & E);
      [by rewrite <- app_assoc|lia|lia|done|lia|lia|].
    exists (S k), v', r. simpl. splits; [done|lia|lia|lia|lia|].
    rewrite wrap_small by lia. rewrite length_app in E. simpl in E.
    replace (Z.of_nat (S cnt) - 1) with (Z.of_nat cnt) by lia.
    replace (Z.of_nat (length pre) + 1) with (Z.of_nat (length pre + 1)) by lia.
    rewrite E. do 3 f_equal. lia.
  - exists 0%nat, v, n. splits; [done|lia|lia|lia|simpl; lia|].
    by rewrite Nat.add_0_r.
Qed.

Arguments trunc_loop : simpl never.

(** What is left of the bytes once the loop has cut row [k] at [r]. *)
Lemma vec_bytes_drop a k v r :
  Forall iov_ok a -> vec_len a < 2 ^ 64 -> a !! k = Some v -> 0 <= r <= iov_len v ->
  vec_bytes (advance r v :: drop (S k) a) = drop (Z.to_nat (vec_len (take k a) + r)) (vec_bytes a).
Proof.
  intros Hok Hs Hk Hr.
  assert (0 <= vec_len (take k a)) by (by apply vec_len_nonneg, Forall_take).
  rewrite <- (take_drop_middle a k v Hk) in Hs, Hok. apply Forall_app in Hok as [Hok1 [Hv Hok2]%Forall_cons].
  rewrite vec_len_app in Hs. simpl in Hs. unfold iov_ok in Hv.
  pose proof (vec_len_nonneg _ Hok2).
  rewrite <- (take_drop_middle a k v Hk) at 3. rewrite vec_bytes_app.
  pose proof (length_vec_bytes _ Hok1).
  rewrite drop_app_ge by lia. unfold vec_bytes at 1 3. simpl.
  rewrite drop_app_le by (unfold iov_bytes; rewrite length_seqZ; lia). f_equal.
  unfold iov_bytes, advance. simpl. rewrite wrap_small by lia.
  rewrite <- drop_seqZ by lia. f_equal. lia.
Qed.

Lemma drop_take_alt {A} k n (l : list A) : drop k (take n l) = take (n - k) (drop k l).
Proof. apply skipn_firstn_comm. Qed.

(** The vector [_taps_trunc_iovec] makes, when there is memory. *)
Lemma _taps_trunc_iovec_ok m mm n w :
  heap w !! m = Some (OMessage mm) -> m_ok mm -> 1 <= m_iovcnt mm -> malloc_ok (brk w) = true ->
  0 <= n <= vec_len (take (Z.to_nat (m_iovcnt mm)) (m_array mm)) ->
  exists vec, _taps_trunc_iovec (IovMessage m) (m_iovcnt mm) n w
    = (Ok (Some (brk w), Z.of_nat (length vec)),
       World (<[brk w := OIovec vec]> (heap w)) (Pos.succ (brk w)) (errno w) (trace w))
    /\ vec_bytes vec = drop (Z.to_nat n) (m_bytes mm) /\ (0 < length vec <= Z.to_nat (m_iovcnt mm))%nat.
Proof.
  intros Hm (Hc & Hok & Hsum) H1 Ha Hn.
  destruct (Z_of_nat_complete (m_iovcnt mm)) as [cnt Ecnt]; [lia|]. rewrite Ecnt, Nat2Z.id in *.
  assert (vec_len (take cnt (m_array mm)) <= vec_len (m_array mm)).
  { rewrite <- (take_drop cnt (m_array mm)) at 2. rewrite vec_len_app.
    pose proof (vec_len_nonneg _ (Forall_drop _ cnt _ Hok)). lia. }
  destruct (trunc_loop_in (m_array mm) cnt (m_array mm) (S (length (m_array mm))) [] n w)
    as (k & v & r & Hk & Hkc & Hr & -> & E); [done|lia|lia|done|lia|lia|].
  assert (take (cnt - k) (drop k (m_array mm)) = v :: take (cnt - S k) (drop (S k) (m_array mm))) as Et.
  { rewrite (drop_S _ v k Hk). replace (cnt - k)%nat with (S (cnt - S k)) by lia. done. }
  exists (advance r v :: take (cnt - S k) (drop (S k) (m_array mm))). splits.
  - unfold _taps_trunc_iovec, iov_array. steps. simpl in E. erewrite bind_ok by exact E. cbv beta iota.
    rewrite (proj2 (Z.ltb_ge (Z.of_nat (cnt - k)) 0)) by lia. erewrite bind_ok by (by apply malloc_succeeds).
    rewrite (proj2 (Z.ltb_ge (Z.of_nat (length _)) _)) by lia.
    rewrite !Nat2Z.id. simpl. rewrite Et.
    erewrite bind_ok; [|apply modify_ok; apply lookup_insert_eq].
    rewrite ret_ok. unfold set_heap. cbn [heap brk errno trace]. rewrite insert_insert_eq.
    apply lookup_lt_Some in Hk.
    replace (Z.of_nat (cnt - k)) with (Z.of_nat (S (length (take (cnt - S k) (drop (S k) (m_array mm))))))
      by (rewrite length_take, length_drop; lia).
    done.
  - rewrite <- drop_take_alt. unfold m_bytes. rewrite Ecnt, Nat2Z.id.
    rewrite (vec_bytes_drop (take cnt (m_array mm)) k v r);
      [|by apply Forall_take|lia|by rewrite lookup_take_lt|lia].
    rewrite take_take. by replace (k `min` cnt)%nat with k by lia.
  - simpl. lia.
  - simpl. rewrite length_take, length_drop. lia.
Qed.

End trunc.

(** ** The view of a connection that receives *)

(** Connection [c], with fields [x], has the receives [q] queued, oldest first;
    its protocol receives with [g]. *)
Record receiver (w : world) (c : loc) (x : tapsConnection) (q : list (loc * recv_item)) (g : fn) : Prop := {
  rv_owner : owner rcvq w c x q;
  rv_handle : has_handle (heap w) x ph_receive g;
  rv_items : Forall (fun p => r_connection p.2 = Some c /\ has_message (heap w) (r_message p.2)) q;
}.

(** The item of a new request. *)
Definition new_recv (c : loc) (msg app : ptr) (minL maxL : Z) (cb : tapsCallbacks) : recv_item :=
  fill_recv msg (Some c) app minL maxL cb zero.

(** The call that hands an item with its whole message to the protocol. *)
Definition recv_call (h : gmap loc obj) (g : fn) (x : tapsConnection) (p : loc * recv_item) : list event :=
  hand_over (PReceive g (c_proto_ctx x) (Some p.1)) h (r_message p.2).

(** The vector a report gives back: the message's own, or one made for the item. *)
Definition data_ok (h : gmap loc obj) (it : recv_item) (data : iovptr) : Prop :=
  match data with
  | IovMessage m => r_message it = Some m
  | IovArray a => exists v, h !! a = Some (OIovec v)
  end.

Definition add_length (n : Z) (r : recv_item) : recv_item := set_r_currLength (size_t (r_currLength r + n)) r.

Section steps.
Context `{Machine} `{QuietProto}.

Lemma receiver_frame w w' c x q g :
  receiver w c x q g -> owner rcvq w' c x q -> static_kept recv_static (heap w) (heap w') -> receiver w' c x q g.
Proof.
  intros [Ho Hh Hi] Ho' Hs. split; [done|by eapply kept_has_handle|].
  eapply Forall_impl; [exact Hi|]. intros p [? ?]. split; [done|by eapply kept_has_message].
Qed.

Lemma receiver_event w c x q g e : receiver w c x q g -> receiver (add_event e w) c x q g.
Proof. intros Hr. apply (receiver_frame w); [done|by apply (owner_same _ w); [..|apply Hr]|reflexivity]. Qed.

Lemma receiver_item w c x q1 q2 l it g :
  receiver w c x (q1 ++ (l, it) :: q2) g ->
  heap w !! l = Some (inj (set_links (first_of None q2) (last_of None q1) it))
  /\ r_connection it = Some c /\ has_message (heap w) (r_message it) /\ c <> l.
Proof.
  intros [Ho _ Hi]. split; [by eapply queue_lookup, ow_queue|].
  apply Forall_app in Hi as [_ [[? ?] _]%Forall_cons]. splits; [done..|].
  intros ->. apply (owner_notin _ _ _ _ _ Ho). rewrite fmap_app. set_solver.
Qed.

Lemma issue_receive_ok w c x g item data cnt :
  heap w !! c = Some (OConnection x) -> has_handle (heap w) x ph_receive g ->
  issue_receive (Some c) item data cnt w = (Ok tt, add_event (PReceive g (c_proto_ctx x) item data cnt) w).
Proof.
  intros Hc (L & lx & E1 & E2 & E3). unfold issue_receive. steps. rewrite E1.
  erewrite bind_ok by (by apply load_handles_ok). by rewrite E3, call_receive_ok.
Qed.

(** The block of a vector that was made for a request. *)
Definition data_block (data : iovptr) : list loc := match data with IovMessage _ => [] | IovArray a => [a] end.

(** Taking an item out. *)
Lemma receiver_dequeue w c x q1 q2 l it g :
  receiver w c x (q1 ++ (l, it) :: q2) g ->
  exists w1, DELETE_ITEM recv_item (mret (Some l)) rcvq (Some c) w = (Ok tt, w1)
    /\ receiver w1 c (match q2 with [] => set_c_rcvq (last_of None q1) x | _ => x end) (q1 ++ q2) g
    /\ heap w1 !! l = None /\ brk w1 = brk w /\ trace w1 = trace w /\ static_kept recv_static (heap w) (heap w1)
    /\ unmoved (c :: (q1 ++ (l, it) :: q2).*1) w w1.
Proof.
  intros [Ho Hh Hi].
  destruct (dequeue rcvq w c x q1 q2 l it Ho) as (w1 & E & Ho1 & Hl & Hb & _ & Ht & Hfr).
  assert (static_kept recv_static (heap w) (heap w1)) as Hst by exact (owner_static rcvq w c x _ _ Ho (fun j a _ b => Hfr j a b)).
  exists w1. splits; try done; [|by apply unmoved_cons]. split; [done|eapply kept_has_handle; [done| |done]; by destruct q2|].
  apply Forall_app in Hi as [Hi1 [_ Hi2]%Forall_cons].
  eapply Forall_impl; [by apply Forall_app|]. intros p [? ?]. split; [done|by eapply kept_has_message].
Qed.

(** Giving back the vector of a report. *)
Lemma receiver_free_data w c x q1 q2 l it g m data :
  receiver w c x (q1 ++ (l, it) :: q2) g -> r_message it = Some m -> data_ok (heap w) it data ->
  exists w1, free_data (IovMessage m) data w = (Ok tt, w1)
    /\ receiver w1 c x (q1 ++ (l, it) :: q2) g
    /\ brk w1 = brk w /\ trace w1 = trace w /\ static_kept recv_static (heap w) (heap w1)
    /\ unmoved (data_block data) w w1.
Proof.
  intros Hr Hm Hd. unfold free_data. destruct data as [m'|a]; simpl in *.
  - assert (m = m') as -> by congruence. rewrite Pos.eqb_refl. by exists w.
  - destruct Hd as [v Ha]. eexists. split; [by apply (free_ok (T := list iovec) _ _ v)|].
    pose proof (rv_owner _ _ _ _ _ Hr) as Ho. pose proof Ho as [Hc Hq Hf].
    assert (a <> c) by (intros ->; simplify_eq).
    assert (static_kept recv_static (heap w) (delete a (heap w))) as Hst.
    { intros j o Hj Hs. rewrite lookup_delete_ne; [done|]. intros ->. by simplify_eq. }
    splits; [|done..|by apply unmoved_cons; intros; simpl; rewrite lookup_delete_ne].
    apply (receiver_frame w); [done| |done]. split; simpl.
    + by rewrite lookup_delete_ne.
    + eapply queue_frame; [|exact Hq]. intros j Hj. apply lookup_delete_ne. intros ->.
      destruct (queue_typed _ _ _ _ Hq Hj) as [s E]. rewrite Ha in E. by simplify_eq.
    + by apply fresh_from_delete.
Qed.

(** Changing an item in place. *)
Lemma receiver_modify w c x q1 q2 l it g f :
  receiver w c x (q1 ++ (l, it) :: q2) g ->
  (forall n p r, f (set_links n p r) = set_links n p (f r)) ->
  r_connection (f it) = r_connection it -> r_message (f it) = r_message it ->
  exists w1, modify (Some l) f w = (Ok tt, w1)
    /\ receiver w1 c x (q1 ++ (l, f it) :: q2) g
    /\ brk w1 = brk w /\ trace w1 = trace w /\ static_kept recv_static (heap w) (heap w1) /\ unmoved [l] w w1.
Proof.
  intros Hr Hf Ec Em. destruct (receiver_item _ _ _ _ _ _ _ _ Hr) as (Hl & _ & _ & Hcl).
  destruct Hr as [[Hc Hq Hfr] Hh Hi].
  eexists. split; [by apply modify_ok|]. rewrite Hf.
  set (h1 := <[l := _]> (heap w)).
  assert (static_kept recv_static (heap w) h1) as Hst.
  { intros j o Hj Hs. unfold h1. rewrite lookup_insert_ne; [done|]. intros ->. rewrite Hl in Hj. by simplify_eq. }
  splits; [|done..|by apply unmoved_cons; intros; simpl; unfold h1; rewrite lookup_insert_ne].
  split; [split; simpl|by eapply kept_has_handle|].
  - unfold h1. by rewrite lookup_insert_ne.
  - by apply (queue_payload _ _ _ _ _ it (f it)).
  - apply fresh_from_insert; [by eapply fresh_from_lt|done].
  - apply Forall_app in Hi as [Hi1 [Hi Hi2]%Forall_cons].
    eapply (Forall_impl (fun p => r_connection p.2 = Some c /\ has_message (heap w) (r_message p.2)));
      [|intros p [? ?]; split; [done|by eapply kept_has_message]].
    apply Forall_app. split; [done|]. constructor; [|done]. simpl. by rewrite Ec, Em.
Qed.

End steps.

(** ** The operations *)

Section operations.
Context `{Machine} `{QuietProto}.

(** The connection once a receive is requested. *)
Definition after_receive (b : loc) (x : tapsConnection) : tapsConnection :=
  let y := set_c_rcvq (Some b) x in
  if truth (c_receiveReady x) then set_c_receiveReady FALSE y else y.

Lemma Receive_spec w c x q g msg app minL maxL cbs cb :
  receiver w c x q g -> has_message (heap w) msg -> malloc_ok (brk w) = true ->
  receive_callbacks cbs = Some cb ->
  let p := (brk w, new_recv c msg app minL maxL cb) in
  exists w', tapsConnectionReceive (Some c) app msg minL maxL cbs w = (Ok 0, w')
    /\ receiver w' c (after_receive (brk w) x) (q ++ [p]) g
    /\ trace w' = trace w ++ (if truth (c_receiveReady x) then recv_call (heap w) g x p else [])
    /\ brk w' = Pos.succ (brk w) /\ static_kept recv_static (heap w) (heap w')
    /\ (forall j, j <> c -> (j < brk w)%positive -> j ∉ q.*1 -> heap w' !! j = heap w !! j).
Proof.
  intros [Ho Hh Hi] Hm Ha Hcb p.
  destruct (enqueue rcvq w c x q (fill_recv msg (Some c) app minL maxL cb) (new_recv c msg app minL maxL cb))
    as (w0 & w1 & E0 & E1 & Ho1 & Ee & Et & Eb & Hfr); [done|done|reflexivity|].
  assert (static_kept recv_static (heap w) (heap w1)) as Hs by exact (owner_static rcvq w c x q _ Ho Hfr).
  assert (has_message (heap w1) msg) as Hm1 by (by eapply kept_has_message).
  assert (receiver w1 c (set_c_rcvq (Some (brk w)) x) (q ++ [p]) g) as Hr1.
  { split; [done|by eapply kept_has_handle|]. apply Forall_app. split; [|by repeat constructor].
    eapply Forall_impl; [exact Hi|]. intros p' [? ?]. split; [done|by eapply kept_has_message]. }
  unfold tapsConnectionReceive, after_receive. rewrite Hcb. erewrite bind_ok by exact E0.
  erewrite bind_ok by exact E1. rewrite (bind_ok _ _ _ _ _ (owner_load _ _ _ _ _ Ho1)). simpl.
  destruct (truth (c_receiveReady x)) eqn:Er.
  - destruct (owner_modify rcvq _ _ _ _ (set_c_receiveReady FALSE) Ho1)
      as (w2 & E2 & Ho2 & Eb2 & _ & Et2 & Hfr2); [done|].
    assert (static_kept recv_static (heap w1) (heap w2)) as Hs2 by exact (owner_static rcvq w1 c _ _ _ Ho1 (fun j a _ _ => Hfr2 j a)).
    assert (static_kept recv_static (heap w) (heap w2)) as Hs02 by (by etrans).
    destruct Hm as (m & mm & -> & Em).
    rewrite bind_assoc. erewrite bind_ok by exact E2. erewrite bind_assoc, bind_ok by (apply GetIovec_ok; by apply Hs02).
    erewrite bind_ok.
    2: { apply (issue_receive_ok w2 c (set_c_receiveReady FALSE (set_c_rcvq (Some (brk w)) x)) g); [apply Ho2|by eapply kept_has_handle]. }
    rewrite ret_ok. eexists. splits; [done|..]; simpl; [| |congruence|done|].
    + apply receiver_event. split; [done|by eapply kept_has_handle|].
      destruct Hr1 as [_ _ Hi1]. eapply Forall_impl; [exact Hi1|].
      intros p' [? ?]. split; [done|by eapply (kept_has_message (heap w1))].
    + unfold recv_call, hand_over. simpl. by rewrite Em, Et2, Et.
    + intros j ???. rewrite Hfr2 by done. by apply Hfr.
  - exists w1. splits; [done|done| |done|done|done]. by rewrite Et, app_nil_r.
Qed.

End operations.

Section errors.
Context `{Machine} `{QuietApp} `{QuietProto}.

(** What ends a receive in an error. *)
Lemma receive_error_spec w c x q1 q2 l it g data reason f :
  receiver w c x (q1 ++ (l, it) :: q2) g -> data_ok (heap w) it data -> r_receiveError it = Some f ->
  exists w', _taps_receive_error (Some l) data reason w = (Ok tt, w')
    /\ receiver w' c (match q2 with [] => set_c_rcvq (last_of None q1) x | _ => x end) (q1 ++ q2) g
    /\ heap w' !! l = None /\ brk w' = brk w
    /\ trace w' = trace w ++ [EvReceiveError f (c_app_ctx x) (r_app_ctx it) reason]
    /\ static_kept recv_static (heap w) (heap w').
Proof.
  intros Hr Hd Hf. destruct (receiver_item _ _ _ _ _ _ _ _ Hr) as (Hl & Hc & (m & mm & Hm & Em) & _).
  destruct (receiver_free_data _ _ _ _ _ _ _ _ _ _ Hr Hm Hd) as (w1 & E1 & Hr1 & Eb1 & Et1 & Hs1 & Hu1).
  destruct (receiver_dequeue _ _ _ _ _ _ _ _ Hr1) as (w2 & E2 & Hr2 & Hl2 & Eb2 & Et2 & Hs2 & _).
  unfold _taps_receive_error. rewrite (bind_ok _ _ _ _ _ (load_ok _ _ _ Hl)).
  change (r_message (set_links _ _ it)) with (r_message it).
  change (r_connection (set_links _ _ it)) with (r_connection it). rewrite Hm, Hc.
  erewrite bind_ok by (by apply GetIovec_ok). cbv beta iota.
  rewrite (bind_ok _ _ _ _ _ (owner_load _ _ _ _ _ (rv_owner _ _ _ _ _ Hr))).
  erewrite bind_ok by exact E1. erewrite bind_ok by exact E2.
  change (r_receiveError (set_links _ _ it)) with (r_receiveError it). rewrite Hf, call_app_ok.
  eexists. splits; [done|by apply receiver_event|done|simpl; congruence|simpl; congruence|by etrans].
Qed.

End errors.

(** ** Complete reports *)

Section complete.
Context `{Machine} `{App} `{QuietProto}.

(** A receive the minimum of which is reached takes its item out before it
    reads the length for the callback. *)
Lemma received_spec w c x q1 q2 l it g data len f :
  receiver w c x (q1 ++ (l, it) :: q2) g -> data_ok (heap w) it data ->
  r_minLength it <= size_t (r_currLength it + len) -> r_received it = Some f ->
  exists w', receiver w' c (match q2 with [] => set_c_rcvq (last_of None q1) x | _ => x end) (q1 ++ q2) g
    /\ trace w' = trace w /\ brk w' = brk w /\ static_kept recv_static (heap w) (heap w') /\ heap w' !! l = None
    /\ _taps_received (Some l) data len w
       = (r ← load (Some l);
          call_app (Some f) (fun f => EvReceived f (c_app_ctx x) (r_app_ctx it) (r_currLength r))) w'.
Proof.
  intros Hr Hd Hmin Hf. destruct (receiver_item _ _ _ _ _ _ _ _ Hr) as (Hl & Hc & (m & mm & Hm & Em) & _).
  destruct (receiver_free_data _ _ _ _ _ _ _ _ _ _ Hr Hm Hd) as (w1 & E1 & Hr1 & Eb1 & Et1 & Hs1 & Hu1).
  destruct (receiver_modify w1 c x q1 q2 l it g (add_length len) Hr1) as (w2 & E2 & Hr2 & Eb2 & Et2 & Hs2 & Hu2); [done..|].
  destruct (receiver_dequeue _ _ _ _ _ _ _ _ Hr2) as (w3 & E3 & Hr3 & Hl3 & Eb3 & Et3 & Hs3 & Hu3).
  destruct (receiver_item _ _ _ _ _ _ _ _ Hr2) as (Hl2 & _).
  exists w3. splits; [done|congruence|congruence|by etrans; [|etrans]|done|].
  unfold _taps_received. rewrite (bind_ok _ _ _ _ _ (load_ok _ _ _ Hl)).
  change (r_message (set_links _ _ it)) with (r_message it).
  change (r_connection (set_links _ _ it)) with (r_connection it). rewrite Hm, Hc.
  erewrite bind_ok by (by apply GetIovec_ok). cbv beta iota.
  rewrite (bind_ok _ _ _ _ _ (owner_load _ _ _ _ _ (rv_owner _ _ _ _ _ Hr))).
  erewrite bind_ok by exact E1. erewrite bind_ok by exact E2.
  rewrite (bind_ok _ _ _ _ _ (load_ok _ _ _ Hl2)). cbn [set_links recv_linked set_r_links].
  simpl. rewrite (proj2 (Z.ltb_ge _ _)) by done.
  erewrite bind_ok by exact E3. by rewrite Hf.
Qed.

End complete.

(** ** Partial reports *)

Section partial.
Context `{Machine} `{App} `{QuietProto}.

(** What a partial report comes to once the length is added. *)
Definition partial_rest (item_ctx c : ptr) (iov : iovptr) (iovcnt : Z) : M unit :=
  it ← load item_ctx;
  if r_currLength it <? r_minLength it
  then
    '(newIovec, iovcnt) ← _taps_trunc_iovec iov iovcnt (r_currLength it);
    match newIovec with
    | None => _taps_receive_error item_ctx iov (Some "Internal error"%string)
    | Some v => issue_receive c item_ctx (IovArray v) iovcnt
    end
  else
    match r_next it with
    | Some _ =>
        n ← load (r_next it);
        '(iov, iovcnt) ← tapsMessageGetIovec (r_message n);
        issue_receive c (r_next it) iov iovcnt
    | None => modify c (set_c_receiveReady TRUE)
    end ;;
    it ← load item_ctx;
    let rcvPart := r_receivedPartial it in
    let app_ctx := r_app_ctx it in
    DELETE_ITEM recv_item (mret item_ctx) rcvq c ;;
    cc ← load c;
    it ← load item_ctx;
    call_app rcvPart (fun f => EvReceivedPartial f (c_app_ctx cc) app_ctx (r_currLength it) FALSE).

Lemma partial_start w c x q1 q2 l it g data len :
  receiver w c x (q1 ++ (l, it) :: q2) g -> data_ok (heap w) it data ->
  exists m mm w1, r_message it = Some m /\ heap w !! m = Some (OMessage mm)
    /\ receiver w1 c x (q1 ++ (l, add_length len it) :: q2) g
    /\ brk w1 = brk w /\ trace w1 = trace w /\ static_kept recv_static (heap w) (heap w1)
    /\ unmoved (l :: data_block data) w w1
    /\ _taps_received_partial (Some l) data len w
       = partial_rest (Some l) (Some c) (IovMessage m) (m_iovcnt mm) w1.
Proof.
  intros Hr Hd. destruct (receiver_item _ _ _ _ _ _ _ _ Hr) as (Hl & Hc & (m & mm & Hm & Em) & _).
  destruct (receiver_free_data _ _ _ _ _ _ _ _ _ _ Hr Hm Hd) as (w1 & E1 & Hr1 & Eb1 & Et1 & Hs1 & Hu1).
  destruct (receiver_modify w1 c x q1 q2 l it g (add_length len) Hr1) as (w2 & E2 & Hr2 & Eb2 & Et2 & Hs2 & Hu2); [done..|].
  exists m, mm, w2. splits; [done|done|done|congruence|congruence|by etrans| |].
  { transitivity w1; [by eapply unmoved_weaken, Hu1; set_solver|by eapply unmoved_weaken, Hu2; set_solver]. }
  unfold _taps_received_partial. rewrite (bind_ok _ _ _ _ _ (load_ok _ _ _ Hl)).
  change (r_message (set_links _ _ it)) with (r_message it).
  change (r_connection (set_links _ _ it)) with (r_connection it). rewrite Hm, Hc.
  erewrite bind_ok by (by apply GetIovec_ok). cbv beta iota.
  erewrite bind_ok by exact E1. by erewrite bind_ok by exact E2.
Qed.

(** C21: a partial report below the minimum, of bytes that fit the message,
    issues the item again with a new vector that covers exactly the bytes of
    the message not received yet; the queue is the same, with the length
    added. *)
Theorem partial_below_minimum_reissues w c x q1 q2 l it g data len m mm :
  receiver w c x (q1 ++ (l, it) :: q2) g -> data_ok (heap w) it data -> malloc_ok (brk w) = true ->
  r_message it = Some m -> heap w !! m = Some (OMessage mm) -> m_ok mm -> 1 <= m_iovcnt mm ->
  let n := size_t (r_currLength it + len) in
  n < r_minLength it -> n <= vec_len (take (Z.to_nat (m_iovcnt mm)) (m_array mm)) ->
  exists w' vec, _taps_received_partial (Some l) data len w = (Ok tt, w')
    /\ receiver w' c x (q1 ++ (l, add_length len it) :: q2) g
    /\ heap w' !! brk w = Some (OIovec vec) /\ vec_bytes vec = drop (Z.to_nat n) (m_bytes mm)
    /\ trace w' = trace w ++ [PReceive g (c_proto_ctx x) (Some l) (IovArray (brk w)) (Z.of_nat (length vec))].
Proof.
  intros Hr Hd Ha Hm Em Hok Hcnt n Hlt Hle.
  destruct (partial_start w c x q1 q2 l it g data len Hr Hd)
    as (m' & mm' & w1 & Hm' & Em' & Hr1 & Eb & Et & Hst & _ & ->).
  assert (m' = m) as -> by congruence. assert (mm' = mm) as -> by congruence.
  destruct (receiver_item _ _ _ _ _ _ _ _ Hr1) as (Hl & _).
  assert (0 <= n) by (apply wrap_bound; lia).
  destruct (_taps_trunc_iovec_ok m mm n w1) as (vec & E & Hvec & _);
    [by apply Hst|done|done|by rewrite Eb|lia|].
  unfold partial_rest. rewrite (bind_ok _ _ _ _ _ (load_ok _ _ _ Hl)).
  cbn [set_links recv_linked set_r_links add_length set_r_currLength r_currLength r_minLength].
  rewrite (proj2 (Z.ltb_lt _ _)) by exact Hlt. erewrite bind_ok by exact E. cbv beta iota.
  set (w2 := World _ _ _ _). pose proof (rv_owner _ _ _ _ _ Hr1) as Ho1. pose proof Ho1 as [Hc Hq Hf].
  assert (receiver w2 c x (q1 ++ (l, add_length len it) :: q2) g) as Hr2.
  { assert (static_kept recv_static (heap w1) (heap w2)) as Hs2.
    { intros j o Hj _. simpl. rewrite lookup_insert_ne; [done|]. pose proof (fresh_from_lt _ _ _ _ Hf Hj). lia. }
    apply (receiver_frame w1); [done| |done]. split; simpl.
    - rewrite lookup_insert_ne; [done|]. pose proof (owner_below _ _ _ _ _ Ho1). lia.
    - eapply queue_frame; [|exact Hq]. intros j Hj. apply lookup_insert_ne.
      pose proof (owner_items_below _ _ _ _ _ _ Ho1 Hj). lia.
    - apply fresh_from_insert; [lia|]. intros j Hj. apply Hf. lia. }
  rewrite (issue_receive_ok w2 c x g) by apply Hr2.
  eexists _, vec. splits; [done|by apply receiver_event|rewrite <- Eb; apply lookup_insert_eq|done|].
  simpl. by rewrite Et, Eb.
Qed.

(** The end of a partial report whose minimum is reached. *)
Lemma partial_end w c y q1 q2 l it g f :
  receiver w c y (q1 ++ (l, it) :: q2) g -> r_receivedPartial it = Some f ->
  exists w', receiver w' c (match q2 with [] => set_c_rcvq (last_of None q1) y | _ => y end) (q1 ++ q2) g
    /\ trace w' = trace w /\ heap w' !! l = None /\ brk w' = brk w /\ static_kept recv_static (heap w) (heap w')
    /\ unmoved (c :: (q1 ++ (l, it) :: q2).*1) w w'
    /\ (it ← load (Some l);
        let rcvPart := r_receivedPartial it in
        let app_ctx := r_app_ctx it in
        DELETE_ITEM recv_item (mret (Some l)) rcvq (Some c) ;;
        cc ← load (Some c);
        it ← load (Some l);
        call_app rcvPart (fun f => EvReceivedPartial f (c_app_ctx cc) app_ctx (r_currLength it) FALSE)) w
      = (r ← load (Some l);
         call_app (Some f) (fun f => EvReceivedPartial f (c_app_ctx y) (r_app_ctx it) (r_currLength r) FALSE)) w'.
Proof.
  intros Hr Hf. destruct (receiver_item _ _ _ _ _ _ _ _ Hr) as (Hl & _).
  destruct (receiver_dequeue _ _ _ _ _ _ _ _ Hr) as (w3 & E3 & Hr3 & Hl3 & Eb3 & Et3 & Hs3 & Hu3).
  exists w3. splits; [done..|]. rewrite (bind_ok _ _ _ _ _ (load_ok _ _ _ Hl)). cbv zeta.
  erewrite bind_ok by exact E3.
  rewrite (bind_ok _ _ _ _ _ (owner_load _ _ _ _ _ (rv_owner _ _ _ _ _ Hr3))).
  replace (c_app_ctx (match q2 with [] => _ | _ => _ end)) with (c_app_ctx y) by (by destruct q2).
  change (r_receivedPartial (set_links _ _ _)) with (r_receivedPartial it).
  change (r_app_ctx (set_links _ _ _)) with (r_app_ctx it). by rewrite Hf.
Qed.

(** The connection once the minimum of an item before [q2] is reached. *)
Definition after_partial (q1 q2 : list (loc * recv_item)) (x : tapsConnection) : tapsConnection :=
  match q2 with
  | [] => set_c_rcvq (last_of None q1) (set_c_receiveReady TRUE x)
  | _ => x
  end.

(** At the minimum the next receive is issued and the item is released, before
    its length is read for the callback. *)
Lemma partial_reached_spec w c x q1 q2 l it g data len f :
  receiver w c x (q1 ++ (l, it) :: q2) g -> data_ok (heap w) it data ->
  r_minLength it <= size_t (r_currLength it + len) -> r_receivedPartial it = Some f ->
  exists w', receiver w' c (after_partial q1 q2 x) (q1 ++ q2) g
    /\ trace w' = trace w ++ match q2 with [] => [] | p :: _ => recv_call (heap w) g x p end
    /\ heap w' !! l = None /\ brk w' = brk w /\ static_kept recv_static (heap w) (heap w')
    /\ unmoved (c :: (q1 ++ (l, it) :: q2).*1 ++ data_block data) w w'
    /\ _taps_received_partial (Some l) data len w
       = (r ← load (Some l);
          call_app (Some f) (fun f => EvReceivedPartial f (c_app_ctx x) (r_app_ctx it) (r_currLength r) FALSE)) w'.
Proof.
  intros Hr Hd Hmin Hf.
  destruct (partial_start w c x q1 q2 l it g data len Hr Hd)
    as (m & mm & w1 & Hm & Em & Hr1 & Eb & Et & Hst & Hu & ->).
  apply (unmoved_weaken _ (c :: (q1 ++ (l, it) :: q2).*1 ++ data_block data)) in Hu; [|rewrite fmap_app; set_solver].
  destruct (receiver_item _ _ _ _ _ _ _ _ Hr1) as (Hl & _).
  unfold partial_rest. rewrite (bind_ok _ _ _ _ _ (load_ok _ _ _ Hl)).
  cbn [set_links recv_linked set_r_links add_length set_r_currLength r_currLength r_minLength r_next].
  rewrite (proj2 (Z.ltb_ge _ _)) by exact Hmin. destruct q2 as [|[n y] q2]; cbn [first_of].
  - pose proof Hr1 as [Ho1 Hh1 Hi1].
    destruct (owner_modify rcvq _ _ _ _ (set_c_receiveReady TRUE) Ho1)
      as (w2 & E2 & Ho2 & Eb2 & _ & Et2 & Hfr2); [done|].
    assert (static_kept recv_static (heap w1) (heap w2)) as Hs2 by exact (owner_static rcvq w1 c _ _ _ Ho1 (fun j a _ _ => Hfr2 j a)).
    assert (receiver w2 c (set_c_receiveReady TRUE x) (q1 ++ [(l, add_length len it)]) g) as Hr2.
    { split; [done|by eapply kept_has_handle|]. eapply Forall_impl; [exact Hi1|].
      intros p [? ?]. split; [done|by eapply (kept_has_message (heap w1))]. }
    erewrite bind_ok by exact E2.
    destruct (partial_end w2 c _ q1 [] l (add_length len it) g f Hr2 Hf) as (w' & Hr' & Et' & Hl' & Eb' & Hs' & Hu' & E).
    exists w'. splits; [done| |done|congruence|by do 2 (etrans; [|done])| |exact E]; [rewrite app_nil_r; congruence|].
    transitivity w1; [done|]. rewrite !fmap_app in *. transitivity w2; [|by eapply unmoved_weaken, Hu'; set_solver].
    intros j [? _]%not_elem_of_cons. by apply Hfr2.
  - assert (receiver w1 c x ((q1 ++ [(l, add_length len it)]) ++ (n, y) :: q2) g) as Hrn by (by rewrite <- app_assoc).
    destruct (receiver_item _ _ _ _ _ _ _ _ Hrn) as (Hn & _ & (mn & mmn & Hmn & Emn) & _).
    assert (has_message (heap w) (r_message y)) as Hmy.
    { destruct Hr as [_ _ Hi]. by apply Forall_app in Hi as [_ [_ [[] _]%Forall_cons]%Forall_cons]. }
    rewrite bind_assoc, (bind_ok _ _ _ _ _ (load_ok _ _ _ Hn)).
    change (r_message (set_links _ _ y)) with (r_message y). rewrite Hmn.
    rewrite bind_assoc. erewrite bind_ok by (by apply GetIovec_ok). cbv beta iota.
    erewrite bind_ok by (by apply (issue_receive_ok w1 c x g); apply Hr1).
    destruct (partial_end (add_event (PReceive g (c_proto_ctx x) (Some n) (IovMessage mn) (m_iovcnt mmn)) w1)
      c x q1 ((n, y) :: q2) l (add_length len it) g f) as (w' & Hr' & Et' & Hl' & Eb' & Hs' & Hu' & E); [by apply receiver_event|done|].
    exists w'. splits; [done| |done|simpl in Eb'; congruence|by etrans| |exact E].
    2: { transitivity w1; [done|]. rewrite !fmap_app in *. eapply unmoved_weaken, Hu'. set_solver. }
    rewrite Et'. simpl. rewrite Et. f_equal.
    unfold recv_call. simpl. erewrite <- (kept_hand_over _ (heap w) (heap w1)) by done.
    unfold hand_over. by rewrite Hmn, Emn.
Qed.

End partial.

(** ** Properties *)

(** A request for data. *)
Record request := Request_of { q_app : ptr; q_message : ptr; q_min : Z; q_max : Z }.

Section properties.
Context `{Machine} `{QuietApp} `{QuietProto}.

Fixpoint run_receives (c : loc) (cbs : option tapsCallbacks) (rs : list request) : M unit :=
  match rs with
  | [] => mret tt
  | r :: rs =>
      tapsConnectionReceive (Some c) (q_app r) (q_message r) (q_min r) (q_max r) cbs ;;
      run_receives c cbs rs
  end.

(** The items of a run of requests, from address [b] on. *)
Fixpoint receive_items (c : loc) (cb : tapsCallbacks) (b : loc) (rs : list request) : list (loc * recv_item) :=
  match rs with
  | [] => []
  | r :: rs => (b, new_recv c (q_message r) (q_app r) (q_min r) (q_max r) cb) :: receive_items c cb (Pos.succ b) rs
  end.

Lemma run_receives_busy c cbs cb g (memory : forall l, malloc_ok l = true) rs w x q :
  receiver w c x q g -> truth (c_receiveReady x) = false -> receive_callbacks cbs = Some cb ->
  Forall (fun r => has_message (heap w) (q_message r)) rs ->
  exists w' y, run_receives c cbs rs w = (Ok tt, w') /\ trace w' = trace w
    /\ receiver w' c y (q ++ receive_items c cb (brk w) rs) g /\ c_receiveReady y = c_receiveReady x.
Proof.
  revert w x q. induction rs as [|r rs IH]; intros w x q Hr Hb Hcb Hms.
  - exists w, x. simpl. by rewrite app_nil_r.
  - apply Forall_cons in Hms as [Hm Hms].
    destruct (Receive_spec w c x q g (q_message r) (q_app r) (q_min r) (q_max r) cbs cb Hr Hm (memory _) Hcb)
      as (w1 & E & Hr1 & Et & Eb & Hst & _).
    unfold after_receive in Hr1. rewrite Hb in Hr1, Et. rewrite app_nil_r in Et.
    destruct (IH w1 (set_c_rcvq (Some (brk w)) x) (q ++ [(brk w, new_recv c (q_message r) (q_app r) (q_min r) (q_max r) cb)]))
      as (w2 & y & E2 & Et2 & Hr2 & Ey); [done..| |].
    { eapply Forall_impl; [exact Hms|]. intros. by eapply kept_has_message. }
    exists w2, y. simpl. erewrite bind_ok by exact E. rewrite Eb in Hr2.
    splits; [done|congruence|by rewrite <- app_assoc in Hr2|done].
Qed.

(** One receive at a time.  Of any number of receives requested on a
    connection that is ready to receive, the first alone is handed to the
    protocol; all are queued in the order of the requests and the connection is
    no longer ready. *)
Lemma receives_one_at_a_time c cbs cb g r rs w x q :
  (forall l, malloc_ok l = true) ->
  receiver w c x q g -> truth (c_receiveReady x) = true -> receive_callbacks cbs = Some cb ->
  Forall (fun r => has_message (heap w) (q_message r)) (r :: rs) ->
  exists w' y, run_receives c cbs (r :: rs) w = (Ok tt, w')
    /\ receiver w' c y (q ++ receive_items c cb (brk w) (r :: rs)) g /\ c_receiveReady y = FALSE
    /\ trace w' = trace w
         ++ recv_call (heap w) g x (brk w, new_recv c (q_message r) (q_app r) (q_min r) (q_max r) cb).
Proof.
  intros Ha Hr Hb Hcb [Hm Hms]%Forall_cons.
  destruct (Receive_spec w c x q g (q_message r) (q_app r) (q_min r) (q_max r) cbs cb Hr Hm (Ha _) Hcb)
    as (w1 & E & Hr1 & Et & Eb & Hst & _).
  unfold after_receive in Hr1. rewrite Hb in Hr1, Et.
  destruct (run_receives_busy c cbs cb g Ha rs w1 _ _ Hr1) as (w2 & y & E2 & Et2 & Hr2 & Ey); [done..| |].
  { eapply Forall_impl; [exact Hms|]. intros. by eapply kept_has_message. }
  exists w2, y. cbn [run_receives receive_items]. erewrite bind_ok by exact E.
  rewrite Eb, <- app_assoc in Hr2. splits; [done|done|done|congruence].
Qed.

(** A receive that cannot be queued: without its three callbacks it fails
    with EINVAL and changes nothing else; without memory the code writes through
    NULL, where a send fails with ENOMEM. *)
Lemma tapsConnectionReceive_refused c app msg minL maxL cbs w :
  receive_callbacks cbs = None \/ malloc_ok (brk w) = false ->
  tapsConnectionReceive c app msg minL maxL cbs w
  = match receive_callbacks cbs with
    | None => (Ok (-1), World (heap w) (brk w) EINVAL (trace w))
    | Some _ => (Fault NullDeref, set_errno_w ENOMEM (set_brk (Pos.succ (brk w)) w))
    end.
Proof.
  intros Hr. unfold tapsConnectionReceive. destruct (receive_callbacks cbs) as [cb|]; [|done].
  destruct Hr as [|Ha]; [done|]. unfold ADD_ITEM.
  erewrite bind_ok by (erewrite bind_ok by (by apply malloc_fails); reflexivity). done.
Qed.

(** A partial report that reaches the minimum hands the next receive to the
    protocol, or makes the connection ready when there is none, takes the item
    out, and tells the application the length a freed block holds, [r], which
    is the item's length when free leaves the block as it was. *)
Lemma partial_at_minimum_reports w c x q1 q2 l it g data len f r :
  receiver w c x (q1 ++ (l, it) :: q2) g -> data_ok (heap w) it data ->
  r_minLength it <= size_t (r_currLength it + len) -> r_receivedPartial it = Some f ->
  stale l = Some (ORecv r) ->
  exists w' y, _taps_received_partial (Some l) data len w = (Ok tt, w')
    /\ receiver w' c y (q1 ++ q2) g
    /\ c_receiveReady y = match q2 with [] => TRUE | _ => c_receiveReady x end
    /\ trace w' = trace w ++ match q2 with [] => [] | p :: _ => recv_call (heap w) g x p end
         ++ [DeadRead l; EvReceivedPartial f (c_app_ctx x) (r_app_ctx it) (r_currLength r) FALSE].
Proof.
  intros Hr Hd Hmin Hf Hs.
  destruct (partial_reached_spec w c x q1 q2 l it g data len f Hr Hd Hmin Hf) as (w1 & Hr1 & Et & Hl & _ & _ & _ & ->).
  erewrite bind_ok by (apply load_stale; [exact Hl|exact Hs]). rewrite call_app_ok.
  eexists _, (after_partial q1 q2 x).
  splits; [done|by do 2 apply receiver_event|by destruct q2|]. simpl. by rewrite Et, <- !app_assoc.
Qed.

(** C35: on a machine that traps reads of freed memory, every report that
    reaches the minimum traps, partial or complete, and the application is not
    told. *)
Theorem reports_at_minimum_read_freed_item w c x q1 q2 l it g data len f1 f2 :
  StrictMachine ->
  receiver w c x (q1 ++ (l, it) :: q2) g -> data_ok (heap w) it data ->
  r_minLength it <= size_t (r_currLength it + len) ->
  r_received it = Some f1 -> r_receivedPartial it = Some f2 ->
  (exists w', _taps_received (Some l) data len w = (Fault (UseAfterFree l), w') /\ trace w' = trace w)
  /\ (exists w', _taps_received_partial (Some l) data len w = (Fault (UseAfterFree l), w')
        /\ trace w' = trace w ++ match q2 with [] => [] | p :: _ => recv_call (heap w) g x p end).
Proof.
  intros Hst Hr Hd Hmin Hf1 Hf2. split.
  - destruct (received_spec w c x q1 q2 l it g data len f1 Hr Hd Hmin Hf1) as (w1 & _ & Et & _ & _ & Hl & ->).
    exists w1. split; [|done]. by apply bind_fault, load_strict.
  - destruct (partial_reached_spec w c x q1 q2 l it g data len f2 Hr Hd Hmin Hf2) as (w1 & _ & Et & Hl & _ & _ & _ & ->).
    exists w1. split; [|done]. by apply bind_fault, load_strict.
Qed.

(** A receive that ends in an error while it is the only one leaves the
    connection not ready: the next receive is queued and never handed to the
    protocol. *)
Lemma receive_after_error_stalls w c x l it g data reason f app msg minL maxL cbs cb :
  receiver w c x [(l, it)] g -> data_ok (heap w) it data -> r_receiveError it = Some f ->
  c_receiveReady x = FALSE -> has_message (heap w) msg -> malloc_ok (brk w) = true ->
  receive_callbacks cbs = Some cb ->
  exists w' y, (_taps_receive_error (Some l) data reason ;;
                tapsConnectionReceive (Some c) app msg minL maxL cbs) w = (Ok 0, w')
    /\ receiver w' c y [(brk w, new_recv c msg app minL maxL cb)] g /\ c_receiveReady y = FALSE
    /\ trace w' = trace w ++ [EvReceiveError f (c_app_ctx x) (r_app_ctx it) reason].
Proof.
  intros Hr Hd Hf Hx Hm Ha Hcb.
  destruct (receive_error_spec w c x [] [] l it g data reason f Hr Hd Hf) as (w1 & E1 & Hr1 & _ & Eb & Et & Hst).
  destruct (Receive_spec w1 c _ _ g msg app minL maxL cbs cb Hr1) as (w2 & E2 & Hr2 & Et2 & _); [|by rewrite Eb|done|].
  { by eapply kept_has_message. }
  unfold after_receive in Hr2. simpl in Hr2, Et2. rewrite Hx, truth_FALSE in Hr2, Et2. rewrite app_nil_r in Et2.
  erewrite bind_ok by exact E1. eexists w2, _. rewrite Eb in Hr2. splits; [done|exact Hr2|done|congruence].
Qed.

End properties.

(** ** The properties at a sample connection *)

Module ReceivingSample.
Import Sample.

#[local] Existing Instance strict_machine.
#[local] Instance app : App := test_app (None, None).
#[local] Instance proto : Proto := test_proto 0.

Definition item (minL : Z) (n p : ptr) : recv_item :=
  fill_recv (Some 3%positive) (Some 4%positive) (Some 31%positive) minL 20 callbacks (set_r_links n p zero).

(** One receive at the protocol, of at least 8 bytes, into the 20 bytes of
    message 3. *)
Definition busy : tapsConnection := set_c_receiveReady FALSE (set_c_rcvq (Some 5%positive) connection).
Definition busy_state : world := state busy [ORecv (item 8 None None)].

Lemma busy_receiver : receiver busy_state 4%positive busy [(5%positive, item 8 None None)] 104%positive.
Proof.
  split; [split; [done| |apply state_fresh]|by exists 1%positive, listener|].
  - split; [done|]. split; [apply NoDup_singleton|done].
  - repeat constructor. by exists 3%positive, (message 20).
Qed.

Lemma partial_below_minimum_reissues_witness :
  exists w' vec, _taps_received_partial (Some 5%positive) (IovMessage 3) 6 busy_state = (Ok tt, w')
    /\ receiver w' 4%positive busy [(5%positive, set_r_currLength 6 (item 8 None None))] 104%positive
    /\ heap w' !! 6%positive = Some (OIovec vec) /\ vec_bytes vec = drop 6 (seqZ 4096 20)
    /\ trace w' = [PReceive 104 (Some 5%positive) (Some 5%positive) (IovArray 6) (Z.of_nat (length vec))].
Proof.
  apply (partial_below_minimum_reissues busy_state 4%positive busy [] [] 5%positive (item 8 None None) 104%positive
           (IovMessage 3) 6 3%positive (message 20)); try done; [apply busy_receiver|].
  split; [simpl; lia|]. split; [|simpl; lia]. repeat constructor. unfold iov_ok. simpl. lia.
Defined.

Lemma reports_at_minimum_read_freed_item_witness :
  (exists w', _taps_received (Some 5%positive) (IovMessage 3) 9 busy_state = (Fault (UseAfterFree 5), w') /\ trace w' = [])
  /\ (exists w', _taps_received_partial (Some 5%positive) (IovMessage 3) 9 busy_state = (Fault (UseAfterFree 5), w')
        /\ trace w' = []).
Proof.
  apply (reports_at_minimum_read_freed_item busy_state 4%positive busy [] [] 5%positive (item 8 None None) 104%positive
           (IovMessage 3) 9 24%positive 25%positive); try done. apply busy_receiver.
Defined.

End ReceivingSample.
