(* ===== verification/ReceiveQueue.v ===== *)
(** * ReceiveQueue: the contract of the receive queue

    What a sequence of receive requests and of reports of the protocol promises,
    over the queue and the readiness of the connection alone, and that the code
    keeps to it.  A report below the minimum, which leaves its item where it is,
    is in Receiving. *)

From S2P Require Import Prelude Structs Memory Message Queue Listener Connection Requests Sending Receiving.
Local Open Scope Z_scope.

#[local] Abbreviation kept_has_message := (static_has_message (st := recv_static)).
#[local] Abbreviation kept_hand_over := (static_hand_over (st := recv_static)).

(** A request of the application, and the three reports on a queued item [l]
    whose message is [m]. *)
Inductive recv_op :=
| OpReceive (msg app : ptr) (minL maxL : Z) (cb : tapsCallbacks)
| OpPartial (l m : loc) (n : Z)
| OpReceived (l m : loc) (n : Z)
| OpReceiveError (l m : loc) (reason : option string).

(** The next address, the queue, and whether the next request goes straight to
    the protocol. *)
Record recv_state := RecvState { rs_next : loc; rs_queue : list (loc * recv_item); rs_ready : bool }.

Section contract.
Context `{Machine} (h : gmap loc obj) (x : tapsConnection) (c : loc) (g : fn).

(** What the code reads in the freed item [l]. *)
Definition stale_length (l : loc) : option Z :=
  match stale l with Some (ORecv r) => Some (r_currLength r) | _ => None end.

(** The item [l] with message [m], between those before and behind it. *)
Definition queued (l m : loc) (q : list (loc * recv_item)) : option (list (loc * recv_item) * recv_item * list (loc * recv_item)) :=
  match split_at l q with
  | Some (q1, it, q2) => if bool_decide (r_message it = Some m) then Some (q1, it, q2) else None
  | None => None
  end.

Definition reached (it : recv_item) (n : Z) : bool := r_minLength it <=? size_t (r_currLength it + n).

(** A request is queued, and handed over if the connection is ready.  A partial
    report takes its item out and hands over the next, or makes the connection
    ready; a complete report and an error take it out and do neither. *)
Definition spec_recv (op : recv_op) (s : recv_state) : option (recv_state * list event) :=
  let '(RecvState b q ready) := s in
  match op with
  | OpReceive msg app minL maxL cb =>
      match receive_callbacks (Some cb) with
      | None => Some (s, [])
      | Some _ =>
          let p := (b, new_recv c msg app minL maxL cb) in
          Some (RecvState (Pos.succ b) (q ++ [p]) false, if ready then recv_call h g x p else [])
      end
  | OpPartial l m n =>
      '(q1, it, q2) ← queued l m q;
      f ← r_receivedPartial it;
      len ← stale_length l;
      if reached it n
      then Some (RecvState b (q1 ++ q2) (match q2 with [] => true | _ => ready end),
             match q2 with [] => [] | p :: _ => recv_call h g x p end
             ++ [DeadRead l; EvReceivedPartial f (c_app_ctx x) (r_app_ctx it) len FALSE])
      else None
  | OpReceived l m n =>
      '(q1, it, q2) ← queued l m q;
      f ← r_received it;
      len ← stale_length l;
      if reached it n
      then Some (RecvState b (q1 ++ q2) ready, [DeadRead l; EvReceived f (c_app_ctx x) (r_app_ctx it) len])
      else None
  | OpReceiveError l m reason =>
      '(q1, it, q2) ← queued l m q;
      f ← r_receiveError it;
      Some (RecvState b (q1 ++ q2) ready, [EvReceiveError f (c_app_ctx x) (r_app_ctx it) reason])
  end.

Fixpoint spec_recvs (ops : list recv_op) (s : recv_state) : option (recv_state * list event) :=
  match ops with
  | [] => Some (s, [])
  | op :: ops =>
      '(s, evs) ← spec_recv op s;
      '(s, evs') ← spec_recvs ops s;
      Some (s, evs ++ evs')
  end.

Definition recv_op_ok (op : recv_op) : Prop :=
  match op with OpReceive msg _ _ _ _ => has_message h msg | _ => True end.

End contract.

Section runs.
Context `{Machine} `{App} `{Proto}.

Definition run_recv (c : loc) (op : recv_op) : M unit :=
  match op with
  | OpReceive msg app minL maxL cb => tapsConnectionReceive (Some c) app msg minL maxL (Some cb) ;; mret tt
  | OpPartial l m n => _taps_received_partial (Some l) (IovMessage m) n
  | OpReceived l m n => _taps_received (Some l) (IovMessage m) n
  | OpReceiveError l m reason => _taps_receive_error (Some l) (IovMessage m) reason
  end.

Fixpoint run_recvs (c : loc) (ops : list recv_op) : M unit :=
  match ops with
  | [] => mret tt
  | op :: ops => run_recv c op ;; run_recvs c ops
  end.

End runs.

(** ** Refinement *)

Section refines.
Context `{Machine} `{QuietApp} `{QuietProto}.
Context (h : gmap loc obj) (c : loc) (x : tapsConnection) (g : fn).
Hypothesis memory : forall l, malloc_ok l = true.

(** The state [w] implements the abstract state [s]. *)
Record implements (w : world) (s : recv_state) : Prop := {
  im_static : static_kept recv_static h (heap w);
  im_brk : brk w = rs_next s;
  im_messages : Forall (fun p => has_message h (r_message p.2)) (rs_queue s);
  im_receiver : exists y, receiver w c y (rs_queue s) g /\ c_proto_ctx y = c_proto_ctx x
    /\ c_app_ctx y = c_app_ctx x /\ truth (c_receiveReady y) = rs_ready s;
}.

Lemma recv_call_static h' y p :
  static_kept recv_static h h' -> has_message h (r_message p.2) -> c_proto_ctx y = c_proto_ctx x ->
  recv_call h' g y p = recv_call h g x p.
Proof. intros Hs Hm E. unfold recv_call. rewrite E. by apply kept_hand_over. Qed.

Lemma queued_app l m q q1 it q2 :
  queued l m q = Some (q1, it, q2) -> q = q1 ++ (l, it) :: q2 /\ r_message it = Some m.
Proof.
  unfold queued. destruct (split_at l q) as [[[q1' it'] q2']|] eqn:E; [|done]. apply split_at_app in E.
  case_bool_decide; [|done]. by intros [= <- <- <-].
Qed.

Lemma stale_length_load l n w :
  heap w !! l = None -> stale_length l = Some n ->
  exists r, load (Some l) w = (Ok r, add_event (DeadRead l) w) /\ r_currLength r = n.
Proof.
  unfold stale_length. intros Hl Hs. destruct (stale l) as [[]|] eqn:E; simplify_eq. eexists.
  split; [|done]. by apply (load_stale (T := recv_item)).
Qed.

Lemma implements_without w b q1 l it q2 ready :
  implements w (RecvState b (q1 ++ (l, it) :: q2) ready) -> Forall (fun p => has_message h (r_message p.2)) (q1 ++ q2).
Proof. intros [_ _ [? [_ ?]%Forall_cons]%Forall_app _]. by apply Forall_app. Qed.

Lemma receive_refines w s msg app minL maxL cb s' es :
  implements w s -> has_message h msg -> spec_recv h x c g (OpReceive msg app minL maxL cb) s = Some (s', es) ->
  exists w', run_recv c (OpReceive msg app minL maxL cb) w = (Ok tt, w') /\ implements w' s' /\ trace w' = trace w ++ es.
Proof.
  destruct s as [b q ready]. intros Him Hm Hop. pose proof Him as [Hst Eb Hms (y & Hr & E1 & E2 & E3)].
  cbn [spec_recv rs_next rs_queue rs_ready] in *.
  destruct (receive_callbacks (Some cb)) as [cb'|] eqn:Hcb; simplify_eq.
  - assert (cb' = cb) as -> by (unfold receive_callbacks in Hcb; repeat case_match; by simplify_eq).
    destruct (Receive_spec w c y q g msg app minL maxL (Some cb) cb) as (w' & E & Hr' & Et & Eb & Hk & _);
      [done|by eapply kept_has_message|done|done|].
    exists w'. cbn [run_recv]. erewrite bind_ok by exact E. splits; [done| |].
    + split; simpl; [by etrans|done|by apply Forall_app; split; [|repeat constructor]|].
      eexists. split; [exact Hr'|]. unfold after_receive. by destruct (truth (c_receiveReady y)) eqn:Ey.
    + rewrite Et. f_equal. destruct (truth (c_receiveReady y)); [|done]. by apply recv_call_static.
  - exists (set_errno_w EINVAL w). splits; [|split; try done|by rewrite app_nil_r].
    + cbn [run_recv]. unfold tapsConnectionReceive. by rewrite Hcb.
    + exists y. splits; [|done..]. apply (receiver_frame w); [done|by apply (owner_same _ w); [..|apply Hr]|reflexivity].
Qed.

Lemma partial_refines w s l m n s' es :
  implements w s -> spec_recv h x c g (OpPartial l m n) s = Some (s', es) ->
  exists w', run_recv c (OpPartial l m n) w = (Ok tt, w') /\ implements w' s' /\ trace w' = trace w ++ es.
Proof.
  destruct s as [b q ready]. intros Him Hop. simpl in Hop.
  destruct (queued l m q) as [[[q1 it] q2]|] eqn:Hq; [|done]. apply queued_app in Hq as [-> Hm]. simpl in Hop.
  destruct (r_receivedPartial it) as [f|] eqn:Hf; [|done]. simpl in Hop.
  destruct (stale_length l) as [len|] eqn:Hlen; [|done]. simpl in Hop.
  destruct (reached it n) eqn:Hre; [|done]. apply Z.leb_le in Hre. simplify_eq/=.
  pose proof (implements_without _ _ _ _ _ _ _ Him) as Hms'. destruct Him as [Hst Eb Hms (y & Hr & E1 & E2 & E3)].
  destruct (partial_reached_spec w c y q1 q2 l it g (IovMessage m) n f) as (w1 & Hr1 & Et & Hl & Eb1 & Hk & _ & E); [done..|].
  destruct (stale_length_load l len w1 Hl Hlen) as (r & Er & <-). simpl.
  rewrite E. erewrite bind_ok by exact Er. rewrite call_app_ok. eexists. splits; [done| |].
  - split; simpl; [by etrans|by rewrite Eb1|done|].
    exists (after_partial q1 q2 y). splits; [by do 2 apply receiver_event|by destruct q2..].
  - simpl. rewrite Et, E2, <- !app_assoc. f_equal. simpl. f_equal. destruct q2 as [|p q2]; [done|].
    apply recv_call_static; [done| |done]. apply Forall_app in Hms as [_ [_ [? _]%Forall_cons]%Forall_cons]. done.
Qed.

Lemma received_refines w s l m n s' es :
  implements w s -> spec_recv h x c g (OpReceived l m n) s = Some (s', es) ->
  exists w', run_recv c (OpReceived l m n) w = (Ok tt, w') /\ implements w' s' /\ trace w' = trace w ++ es.
Proof.
  destruct s as [b q ready]. intros Him Hop. simpl in Hop.
  destruct (queued l m q) as [[[q1 it] q2]|] eqn:Hq; [|done]. apply queued_app in Hq as [-> Hm]. simpl in Hop.
  destruct (r_received it) as [f|] eqn:Hf; [|done]. simpl in Hop.
  destruct (stale_length l) as [len|] eqn:Hlen; [|done]. simpl in Hop.
  destruct (reached it n) eqn:Hre; [|done]. apply Z.leb_le in Hre. simplify_eq/=.
  pose proof (implements_without _ _ _ _ _ _ _ Him) as Hms'. destruct Him as [Hst Eb Hms (y & Hr & E1 & E2 & E3)].
  destruct (received_spec w c y q1 q2 l it g (IovMessage m) n f) as (w1 & Hr1 & Et & Eb1 & Hk & Hl & E); [done..|].
  destruct (stale_length_load l len w1 Hl Hlen) as (r & Er & <-). simpl.
  rewrite E. erewrite bind_ok by exact Er. rewrite call_app_ok. eexists. splits; [done| |].
  - split; simpl; [by etrans|by rewrite Eb1|done|].
    eexists. splits; [do 2 apply receiver_event; exact Hr1|by destruct q2..].
  - simpl. by rewrite Et, E2, <- !app_assoc.
Qed.

Lemma error_refines w s l m reason s' es :
  implements w s -> spec_recv h x c g (OpReceiveError l m reason) s = Some (s', es) ->
  exists w', run_recv c (OpReceiveError l m reason) w = (Ok tt, w') /\ implements w' s' /\ trace w' = trace w ++ es.
Proof.
  destruct s as [b q ready]. intros Him Hop. simpl in Hop.
  destruct (queued l m q) as [[[q1 it] q2]|] eqn:Hq; [|done]. apply queued_app in Hq as [-> Hm]. simpl in Hop.
  destruct (r_receiveError it) as [f|] eqn:Hf; [|done]. simplify_eq/=.
  pose proof (implements_without _ _ _ _ _ _ _ Him) as Hms'. destruct Him as [Hst Eb Hms (y & Hr & E1 & E2 & E3)].
  destruct (receive_error_spec w c y q1 q2 l it g (IovMessage m) reason f) as (w1 & E & Hr1 & Hl & Eb1 & Et & Hk); [done..|].
  exists w1. splits; [done| |by rewrite Et, E2].
  split; simpl; [by etrans|by rewrite Eb1|done|]. eexists. splits; [exact Hr1|by destruct q2..].
Qed.

Lemma recv_op_refines w s op s' es :
  implements w s -> recv_op_ok h op -> spec_recv h x c g op s = Some (s', es) ->
  exists w', run_recv c op w = (Ok tt, w') /\ implements w' s' /\ trace w' = trace w ++ es.
Proof.
  intros Him Hok. destruct op; [by apply receive_refines|by apply partial_refines|by apply received_refines|by apply error_refines].
Qed.

Lemma run_recvs_refine ops w s s' es :
  implements w s -> Forall (recv_op_ok h) ops -> spec_recvs h x c g ops s = Some (s', es) ->
  exists w', run_recvs c ops w = (Ok tt, w') /\ implements w' s' /\ trace w' = trace w ++ es.
Proof.
  intros Him Hok. revert w s es Him. induction Hok as [|op ops Hop _ IH]; intros w s es Him Hsp; simpl in *.
  - simplify_eq. exists w. splits; [done..|]. by rewrite app_nil_r.
  - destruct (spec_recv h x c g op s) as [[s1 es1]|] eqn:E1; [|done]. simpl in Hsp.
    destruct (spec_recvs h x c g ops s1) as [[s2 es2]|] eqn:E2; [|done]. simplify_eq/=.
    destruct (recv_op_refines _ _ _ _ _ Him Hop E1) as (w1 & R1 & Him1 & T1).
    destruct (IH _ _ _ Him1 E2) as (w2 & R2 & Him2 & T2).
    exists w2. erewrite bind_ok by exact R1. splits; [done..|]. by rewrite T2, T1, app_assoc.
Qed.

End refines.

Section properties.
Context `{Machine} `{QuietApp} `{QuietProto}.

(** C8: the receive queue implements its contract.  Any sequence of receive
    requests and of reports that reach the minimum or fail, on queued items,
    run through the code, leaves exactly the queue and the readiness the
    contract computes, and makes exactly the calls it computes: one receive at
    a time is handed to the protocol, the next when a partial report takes the
    one before it out, and the application is told the length a freed block
    holds. *)
Theorem receiving_refines_queue w c x q g ops s' es :
  (forall l, malloc_ok l = true) -> receiver w c x q g -> Forall (recv_op_ok (heap w)) ops ->
  spec_recvs (heap w) x c g ops (RecvState (brk w) q (truth (c_receiveReady x))) = Some (s', es) ->
  exists w' x', run_recvs c ops w = (Ok tt, w') /\ receiver w' c x' (rs_queue s') g
    /\ truth (c_receiveReady x') = rs_ready s' /\ brk w' = rs_next s' /\ trace w' = trace w ++ es.
Proof.
  intros Hm Hr Hok Hsp.
  assert (implements (heap w) c x g w (RecvState (brk w) q (truth (c_receiveReady x)))) as Him.
  { split; [done|done| |by exists x]. eapply Forall_impl; [apply (rv_items _ _ _ _ _ Hr)|]. by intros p []. }
  destruct (run_recvs_refine _ c x g Hm ops w _ s' es Him Hok Hsp) as (w' & R & [_ Hb _ (x' & Hr' & _ & _ & Hrd)] & T).
  by exists w', x'.
Qed.

(** C36: requests that cannot be queued.  A receive without its three
    callbacks fails with EINVAL and changes nothing else, with memory or
    without.  Without memory a send fails with ENOMEM and changes nothing else:
    no block, no queue, no call; a receive that has its callbacks then writes
    through NULL. *)
Theorem requests_refused c app msg minL maxL cb cbs w :
  (receive_callbacks cbs = None ->
    tapsConnectionReceive c app msg minL maxL cbs w = (Ok (-1), World (heap w) (brk w) EINVAL (trace w)))
  /\ (malloc_ok (brk w) = false ->
    tapsConnectionSend c msg app cb w = (Ok (-1), World (heap w) (Pos.succ (brk w)) ENOMEM (trace w))
    /\ (receive_callbacks cbs <> None -> tapsConnectionReceive c app msg minL maxL cbs w
         = (Fault NullDeref, World (heap w) (Pos.succ (brk w)) ENOMEM (trace w)))).
Proof.
  split; [|intros Ha; split; [by apply tapsConnectionSend_no_memory|]];
    intros Hr; rewrite (tapsConnectionReceive_refused c app msg minL maxL cbs w) by auto; by destruct (receive_callbacks cbs).
Qed.

End properties.

(** ** The contract at a sample connection *)

Module ReceiveQueueSample.
Import Sample.

#[local] Instance app : App := test_app (None, None).
#[local] Instance proto : Proto := test_proto 0.

(** A machine whose freed items still hold a length. *)
#[local] Instance keeping_machine : Machine :=
  test_machine (fun l => if Pos.leb 5 l then Some (ORecv (set_r_currLength 10 zero)) else None) (fun _ => None).

Lemma idle_receiver : receiver (state connection []) 4%positive connection [] 104%positive.
Proof.
  split; [split; [done| |apply state_fresh]|by exists 1%positive, listener|done].
  split; [done|]. split; [apply NoDup_nil_2|done].
Qed.

(** Two requests; the first is reported in part, the second fails; a third is
    queued and not handed over. *)
Definition ops : list recv_op :=
  [OpReceive (Some 2%positive) (Some 31%positive) 1 10 callbacks;
   OpReceive (Some 3%positive) (Some 32%positive) 1 20 callbacks;
   OpPartial 5 2 10;
   OpReceiveError 6 3 None;
   OpReceive (Some 2%positive) (Some 33%positive) 1 10 callbacks].

Lemma receiving_refines_queue_witness :
  exists w' x', run_recvs 4%positive ops (state connection []) = (Ok tt, w')
    /\ receiver w' 4%positive x' [(7%positive, new_recv 4 (Some 2%positive) (Some 33%positive) 1 10 callbacks)] 104%positive
    /\ truth (c_receiveReady x') = false /\ brk w' = 8%positive
    /\ trace w' = [PReceive 104 (Some 5%positive) (Some 5%positive) (IovMessage 2) 1;
                   PReceive 104 (Some 5%positive) (Some 6%positive) (IovMessage 3) 1;
                   DeadRead 5; EvReceivedPartial 25 (Some 6%positive) (Some 31%positive) 10 FALSE;
                   EvReceiveError 26 (Some 6%positive) (Some 32%positive) None].
Proof.
  apply (receiving_refines_queue (state connection []) 4%positive connection [] 104%positive ops
           (RecvState 8 [(7%positive, new_recv 4 (Some 2%positive) (Some 33%positive) 1 10 callbacks)] false));
    [done|apply idle_receiver| |vm_compute; reflexivity].
  repeat constructor; simpl; [by exists 2%positive, (message 10)|by exists 3%positive, (message 20)|by exists 2%positive, (message 10)].
Defined.

(** A machine without memory. *)
Definition poor_machine : Machine := {|
  malloc_ok _ := false; uninit T _ _ := zero; stale _ := None; wild _ := None;
  dlopen _ := None; dlsym _ _ := None; event_base_new := None |}.

(** Callbacks that cannot take a receive. *)
Definition no_receivers : tapsCallbacks := Callbacks None None None None None None None None None None None.

(** With memory, and without. *)
Lemma requests_refused_witness :
  tapsConnectionReceive (Some 4%positive) None (Some 2%positive) 1 10 (Some no_receivers) (state connection [])
    = (Ok (-1), World (heap (state connection [])) 5%positive EINVAL [])
  /\ @tapsConnectionSend poor_machine proto (Some 4%positive) (Some 2%positive) None (Some callbacks) (state connection [])
    = (Ok (-1), World (heap (state connection [])) 6%positive ENOMEM [])
  /\ @tapsConnectionReceive poor_machine proto (Some 4%positive) None (Some 2%positive) 1 10 (Some callbacks)
       (state connection [])
    = (Fault NullDeref, World (heap (state connection [])) 6%positive ENOMEM []).
Proof.
  split; [by apply (requests_refused (Some 4%positive) None (Some 2%positive) 1 10 None (Some no_receivers))|].
  destruct (requests_refused (H := poor_machine) (Some 4%positive) None (Some 2%positive) 1 10 (Some callbacks)
              (Some callbacks) (state connection [])) as [_ [Hs Hr]]; [done|].
  split; [exact Hs|by apply Hr].
Defined.

End ReceiveQueueSample.
