(* ===== verification/TransportProperties.v ===== *)
(** * TransportProperties: taps_transport_properties.c

    The selection properties of a preconnection: five 16-bit masks with one bit
    per ability, three enumerations, and the preferences for interfaces. *)

From S2P Require Import Prelude Structs Memory.
Local Open Scope Z_scope.

(** ** taps.h, taps_internals.h *)

Definition TAPS_NUM_ABILITIES : Z := 16.

Definition tapsPropertyNames : list string :=
  ["reliability"; "preserveMsgBoundaries"; "perMsgReliability";
   "preserveOrder"; "zeroRttMsg"; "multistreaming";
   "FullChecksumSend"; "FullChecksumRecv"; "congestionControl";
   "keepAlive"; "useTemporaryLocalAddress"; "multipath";
   "advertises_altaddr"; "direction"; "softErrorNotify";
   "activeReadBeforeSend"]%string.

(** The bits of [tapsAbilitiesByName], least significant first. *)
Definition reliability : Z := 0.
Definition preserveOrder : Z := 3.
Definition multistreaming : Z := 5.
Definition FullChecksumSend : Z := 6.
Definition FullChecksumRecv : Z := 7.
Definition congestionControl : Z := 8.
Definition useTemporaryLocalAddress : Z := 10.
Definition multipath : Z := 11.
Definition advertises_altaddr : Z := 12.
Definition direction : Z := 13.

(** [x.byName.field = v]. *)
Definition assign (i : Z) (v : bool) (x : Z) : Z := if v then Z.setbit x i else Z.clearbit x i.

Definition AF_INET : Z := 2.
Definition AF_INET6 : Z := 10.

(** The [int] behind an enumerator. *)
Definition preference_value (p : tapsPreference) : Z :=
  match p with
  | TAPS_REQUIRE => 2 | TAPS_PREFER => 1 | TAPS_IGNORE => 0 | TAPS_AVOID => -1 | TAPS_PROHIBIT => -2
  end.

(** ** Field updates *)

Definition set_masks (f : Z -> Z) (t : transportProperties) : transportProperties :=
  Transport (f (t_require t)) (f (t_prefer t)) (f (t_avoid t)) (f (t_prohibit t)) (t_explicitlySet t)
    (t_multipath t) (t_direction t) (t_advertises_altaddr t) (t_interfaces t).
Definition on_require (f : Z -> Z) (t : transportProperties) : transportProperties :=
  Transport (f (t_require t)) (t_prefer t) (t_avoid t) (t_prohibit t) (t_explicitlySet t)
    (t_multipath t) (t_direction t) (t_advertises_altaddr t) (t_interfaces t).
Definition on_prefer (f : Z -> Z) (t : transportProperties) : transportProperties :=
  Transport (t_require t) (f (t_prefer t)) (t_avoid t) (t_prohibit t) (t_explicitlySet t)
    (t_multipath t) (t_direction t) (t_advertises_altaddr t) (t_interfaces t).
Definition on_avoid (f : Z -> Z) (t : transportProperties) : transportProperties :=
  Transport (t_require t) (t_prefer t) (f (t_avoid t)) (t_prohibit t) (t_explicitlySet t)
    (t_multipath t) (t_direction t) (t_advertises_altaddr t) (t_interfaces t).
Definition on_prohibit (f : Z -> Z) (t : transportProperties) : transportProperties :=
  Transport (t_require t) (t_prefer t) (t_avoid t) (f (t_prohibit t)) (t_explicitlySet t)
    (t_multipath t) (t_direction t) (t_advertises_altaddr t) (t_interfaces t).
Definition on_explicitlySet (f : Z -> Z) (t : transportProperties) : transportProperties :=
  Transport (t_require t) (t_prefer t) (t_avoid t) (t_prohibit t) (f (t_explicitlySet t))
    (t_multipath t) (t_direction t) (t_advertises_altaddr t) (t_interfaces t).
Definition set_t_multipath (m : tapsMultipath) (t : transportProperties) : transportProperties :=
  Transport (t_require t) (t_prefer t) (t_avoid t) (t_prohibit t) (t_explicitlySet t)
    m (t_direction t) (t_advertises_altaddr t) (t_interfaces t).
Definition set_t_direction (d : tapsDirection) (t : transportProperties) : transportProperties :=
  Transport (t_require t) (t_prefer t) (t_avoid t) (t_prohibit t) (t_explicitlySet t)
    (t_multipath t) d (t_advertises_altaddr t) (t_interfaces t).
Definition set_t_advertises_altaddr (b : bool) (t : transportProperties) : transportProperties :=
  Transport (t_require t) (t_prefer t) (t_avoid t) (t_prohibit t) (t_explicitlySet t)
    (t_multipath t) (t_direction t) b (t_interfaces t).
Definition set_t_interfaces (l : list ifaddrs) (t : transportProperties) : transportProperties :=
  Transport (t_require t) (t_prefer t) (t_avoid t) (t_prohibit t) (t_explicitlySet t)
    (t_multipath t) (t_direction t) (t_advertises_altaddr t) l.

(** ** The operations on the fields *)

(** What [tapsTransportPropertiesNew] makes of the zeroed block. *)
Definition defaults (type : tapsConnectionType) (t : transportProperties) : transportProperties :=
  let t := on_require (assign reliability true) t in
  let t := on_require (assign preserveOrder true) t in
  let t := on_prefer (assign multistreaming true) t in
  let t := on_require (assign FullChecksumSend true) t in
  let t := on_require (assign FullChecksumRecv true) t in
  let t := on_require (assign congestionControl true) t in
  let t :=
    match type with
    | TAPS_LISTENER =>
        let t := on_avoid (assign useTemporaryLocalAddress true) t in
        let t := set_t_multipath TAPS_MP_PASSIVE t in
        on_prefer (assign multipath true) t
    | TAPS_INITIATE =>
        let t := on_prefer (assign useTemporaryLocalAddress true) t in
        set_t_multipath TAPS_MP_DISABLED t
    | TAPS_RENDEZVOUS =>
        let t := on_avoid (assign useTemporaryLocalAddress true) t in
        set_t_multipath TAPS_MP_DISABLED t
    end in
  set_t_direction TAPS_BIDIR t.

Definition set_multipath (preference : tapsMultipath) (t : transportProperties) : transportProperties :=
  let t := set_t_multipath preference t in
  let t := on_prefer (assign multipath (negb (bool_decide (preference = TAPS_MP_DISABLED)))) t in
  on_explicitlySet (assign multipath true) t.

Definition set_direction (preference : tapsDirection) (t : transportProperties) : transportProperties :=
  let t := set_t_direction preference t in
  let t := on_prefer (assign direction (negb (bool_decide (preference = TAPS_BIDIR)))) t in
  on_explicitlySet (assign direction true) t.

Definition set_advertises_altaddr (preference : bool) (t : transportProperties) : transportProperties :=
  let t := set_t_advertises_altaddr preference t in
  let t := on_prefer (assign advertises_altaddr preference) t in
  on_explicitlySet (assign advertises_altaddr true) t.

(** [mask] of row [i] of the name table; [&= (~mask)] and [|= mask] on 16 bits. *)
Definition mask_of (i : nat) : Z := u16 (Z.shiftl 1 (Z.of_nat i)).
Definition and_not (m b : Z) : Z := u16 (Z.land b (Z.lnot m)).
Definition or_mask (m b : Z) : Z := u16 (Z.lor b m).

Definition set_preference (mask : Z) (preference : tapsPreference) (t : transportProperties) : transportProperties :=
  let t := set_masks (and_not mask) t in
  let t := on_explicitlySet (or_mask mask) t in
  match preference with
  | TAPS_REQUIRE => on_require (or_mask mask) t
  | TAPS_PREFER => on_prefer (or_mask mask) t
  | TAPS_AVOID => on_avoid (or_mask mask) t
  | TAPS_PROHIBIT => on_prohibit (or_mask mask) t
  | TAPS_IGNORE => t
  end.

(** [memcpy(&ifa->ifa_data, &preference, sizeof(preference))]: the low four of
    the eight bytes, the [int] that is read back from them. *)
Definition store_preference (p : tapsPreference) (data : Z) : Z :=
  Z.lor (Z.ldiff data (Z.ones 32)) (u32 (preference_value p)).
Definition read_preference (data : Z) : Z :=
  let v := Z.land data (Z.ones 32) in if v <? 2 ^ 31 then v else v - 2 ^ 32.

Definition set_ifa_data (d : Z) (i : ifaddrs) : ifaddrs := Ifaddrs (ifa_name i) (ifa_addr i) d.

(** The loop over the interfaces reads the address of every one. *)
Fixpoint mark_interfaces (name : string) (p : tapsPreference) (l : list ifaddrs) : result (list ifaddrs) :=
  match l with
  | [] => Ok []
  | ifa :: l =>
      match ifa_addr ifa with
      | None => Fault NullDeref
      | Some family =>
          let ifa' :=
            if (negb (family =? AF_INET) && negb (family =? AF_INET6)) || negb (String.eqb (ifa_name ifa) name)
            then ifa
            else set_ifa_data (store_preference p (ifa_data ifa)) ifa in
          match mark_interfaces name p l with
          | Ok l' => Ok (ifa' :: l')
          | Fault f => Fault f
          end
      end
  end.

(** ** The operations *)

Section operations.
Context `{Machine}.

Definition tapsTransportPropertiesNew (type : tapsConnectionType) : M ptr :=
  tp ← malloc transportProperties;
  match tp with
  | None => mret None
  | Some _ => memset0 transportProperties tp ;; modify tp (defaults type) ;; mret tp
  end.

Definition tapsTransportPropertiesSetMultipath (tp : ptr) (preference : tapsMultipath) : M unit :=
  modify tp (set_multipath preference).

Definition tapsTransportPropertiesSetDirection (tp : ptr) (preference : tapsDirection) : M unit :=
  modify tp (set_direction preference).

Definition tapsTransportPropertiesSetAdvertises_altaddr (tp : ptr) (preference : bool) : M unit :=
  modify tp (set_advertises_altaddr preference).

Definition tapsTransportPropertiesSet (tp : ptr) (propertyName : string) (preference : tapsPreference) : M Z :=
  let i := index_of propertyName tapsPropertyNames in
  if Z.of_nat i =? TAPS_NUM_ABILITIES
  then set_errno EINVAL ;; mret 0
  else modify tp (set_preference (mask_of i) preference) ;; mret 1.

(** [getifaddrs] answers with the list of the host's interfaces, or fails. *)
Definition tapsTransportPropertiesSetInterface (getifaddrs : option (list ifaddrs)) (tp : ptr) (name : string)
    (preference : tapsPreference) : M Z :=
  let mark :=
    p ← load tp;
    match mark_interfaces name preference (t_interfaces p) with
    | Fault f => throw f
    | Ok l => modify tp (set_t_interfaces l) ;; mret 1
    end in
  p ← load tp;
  match t_interfaces p with
  | _ :: _ => mark
  | [] =>
      if decide (preference = TAPS_IGNORE) then mret 1
      else match getifaddrs with
           | None => mret 0
           | Some l => modify tp (set_t_interfaces l) ;; mark
           end
  end.

Definition tapsTransportPropertiesFree (tp : ptr) : M unit :=
  p ← (load tp : M transportProperties);
  free transportProperties tp.

End operations.

(** ** Bits *)

Section bits.

Lemma assign_spec i v x j :
  0 <= i -> 0 <= j -> Z.testbit (assign i v x) j = if j =? i then v else Z.testbit x j.
Proof.
  intros. unfold assign. destruct v.
  - rewrite Z.setbit_eqb by done. rewrite (Z.eqb_sym i j). by destruct (j =? i).
  - rewrite Z.clearbit_eqb by done. rewrite (Z.eqb_sym i j). destruct (j =? i); [by rewrite andb_false_r|by rewrite andb_true_r].
Qed.

Lemma mask_of_spec i j : 0 <= j -> Z.testbit (mask_of i) j = (j <? 16) && (j =? Z.of_nat i).
Proof.
  intros. unfold mask_of. rewrite wrap_testbit by lia. f_equal.
  rewrite Z.shiftl_spec by lia. destruct (Z.eqb_spec j (Z.of_nat i)) as [->|].
  - by rewrite Z.sub_diag.
  - destruct (decide (j - Z.of_nat i < 0)); [by apply Z.testbit_neg_r|].
    change 1 with (2 ^ 0). apply Z.pow2_bits_false. lia.
Qed.

Lemma and_not_spec m b j : 0 <= j -> Z.testbit (and_not m b) j = (j <? 16) && Z.testbit b j && negb (Z.testbit m j).
Proof.
  intros. unfold and_not. rewrite wrap_testbit by lia.
  by rewrite Z.land_spec, Z.lnot_spec, andb_assoc by done.
Qed.

Lemma or_mask_spec m b j : 0 <= j -> Z.testbit (or_mask m b) j = (j <? 16) && (Z.testbit b j || Z.testbit m j).
Proof. intros. unfold or_mask. rewrite wrap_testbit by lia. by rewrite Z.lor_spec. Qed.

End bits.

(** ** The preference behind the masks *)

(** A 16-bit mask, seen as the set of its bits. *)
Definition u16_mask (x : Z) : Prop := 0 <= x < 2 ^ 16.

(** What the four masks say of bit [j]. *)
Definition preference_at (t : transportProperties) (j : Z) : tapsPreference :=
  if Z.testbit (t_require t) j then TAPS_REQUIRE
  else if Z.testbit (t_prohibit t) j then TAPS_PROHIBIT
  else if Z.testbit (t_prefer t) j then TAPS_PREFER
  else if Z.testbit (t_avoid t) j then TAPS_AVOID
  else TAPS_IGNORE.

(** The bits of the four masks at [j] that [p] stands for. *)
Definition masks_at (t : transportProperties) (j : Z) (p : tapsPreference) : Prop :=
  Z.testbit (t_require t) j = bool_decide (p = TAPS_REQUIRE)
  /\ Z.testbit (t_prefer t) j = bool_decide (p = TAPS_PREFER)
  /\ Z.testbit (t_avoid t) j = bool_decide (p = TAPS_AVOID)
  /\ Z.testbit (t_prohibit t) j = bool_decide (p = TAPS_PROHIBIT).

(** No ability has two preferences. *)
Definition exclusive (t : transportProperties) : Prop :=
  forall j, 0 <= j < 16 -> masks_at t j (preference_at t j).

Definition in_range (t : transportProperties) : Prop :=
  u16_mask (t_require t) /\ u16_mask (t_prefer t) /\ u16_mask (t_avoid t)
  /\ u16_mask (t_prohibit t) /\ u16_mask (t_explicitlySet t).

Section masks.

Lemma masks_preference t j p : masks_at t j p -> preference_at t j = p.
Proof. intros (E1 & E2 & E3 & E4). unfold preference_at. rewrite E1, E2, E3, E4. by destruct p. Qed.

Lemma masks_exclusive t j p : masks_at t j p -> masks_at t j (preference_at t j).
Proof. intros Hm. by rewrite (masks_preference _ _ _ Hm). Qed.

(** The bit of the ability is set in one mask and cleared in the others; other
    bits stay. *)
Lemma set_preference_bit i p t :
  (i < 16)%nat -> masks_at (set_preference (mask_of i) p t) (Z.of_nat i) p.
Proof.
  intros. unfold masks_at.
  destruct p; simpl; rewrite ?or_mask_spec, ?and_not_spec, ?mask_of_spec by lia;
    rewrite (proj2 (Z.ltb_lt _ 16)), Z.eqb_refl by lia; simpl;
    rewrite ?andb_false_r, ?orb_true_r; done.
Qed.

Lemma set_preference_other i p t j q :
  0 <= j < 16 -> j <> Z.of_nat i ->
  masks_at (set_preference (mask_of i) p t) j q <-> masks_at t j q.
Proof.
  intros. unfold masks_at.
  destruct p; simpl; rewrite ?or_mask_spec, ?and_not_spec, ?mask_of_spec by lia;
    rewrite (proj2 (Z.ltb_lt _ 16)), (proj2 (Z.eqb_neq _ _)) by lia; simpl;
    rewrite ?andb_true_r, ?orb_false_r, ?andb_true_r; done.
Qed.

Lemma preference_at_bits t t' j :
  Z.testbit (t_require t') j = Z.testbit (t_require t) j ->
  Z.testbit (t_prefer t') j = Z.testbit (t_prefer t) j ->
  Z.testbit (t_avoid t') j = Z.testbit (t_avoid t) j ->
  Z.testbit (t_prohibit t') j = Z.testbit (t_prohibit t) j ->
  preference_at t' j = preference_at t j.
Proof. unfold preference_at. by intros -> -> -> ->. Qed.

Lemma set_preference_at i p t j :
  (i < 16)%nat -> 0 <= j < 16 ->
  preference_at (set_preference (mask_of i) p t) j = if j =? Z.of_nat i then p else preference_at t j.
Proof.
  intros Hi Hj. destruct (Z.eqb_spec j (Z.of_nat i)) as [->|].
  - by apply masks_preference, set_preference_bit.
  - apply preference_at_bits; destruct p; simpl;
      rewrite ?or_mask_spec, ?and_not_spec, ?mask_of_spec by lia;
      rewrite (proj2 (Z.ltb_lt _ 16)), (proj2 (Z.eqb_neq _ _)) by lia; simpl;
      by rewrite ?andb_true_r, ?orb_false_r, ?andb_true_r.
Qed.

Lemma set_preference_explicit i p t j :
  (i < 16)%nat -> 0 <= j < 16 ->
  Z.testbit (t_explicitlySet (set_preference (mask_of i) p t)) j
  = (j =? Z.of_nat i) || Z.testbit (t_explicitlySet t) j.
Proof.
  intros Hi Hj.
  assert (t_explicitlySet (set_preference (mask_of i) p t) = or_mask (mask_of i) (t_explicitlySet t)) as ->
    by (by destruct p).
  rewrite or_mask_spec, mask_of_spec, (proj2 (Z.ltb_lt j 16)) by lia. apply orb_comm.
Qed.

Lemma u16_wrap x : u16_mask (wrap 16 x).
Proof. apply wrap_bound. lia. Qed.

Lemma set_preference_range m p t : in_range t -> in_range (set_preference m p t).
Proof. intros. unfold in_range. destruct p; simpl; splits; apply u16_wrap. Qed.

Lemma set_preference_exclusive i p t :
  (i < 16)%nat -> exclusive t -> exclusive (set_preference (mask_of i) p t).
Proof.
  intros Hi Ht j Hj. rewrite set_preference_at by done.
  destruct (Z.eqb_spec j (Z.of_nat i)) as [->|]; [by apply set_preference_bit|].
  apply set_preference_other; [done..|]. by apply Ht.
Qed.

End masks.

(** ** Runs of the setters *)

Inductive tp_op :=
| OpSet (name : string) (p : tapsPreference)
| OpMultipath (m : tapsMultipath)
| OpDirection (d : tapsDirection)
| OpAltaddr (b : bool).

(** The names taps.h lists for [tapsTransportPropertiesSet]. *)
Definition documented_names : list string :=
  ["reliability"; "preserveMsgBoundaries"; "perMsgReliability";
   "preserveOrder"; "zeroRttMsg"; "multistreaming";
   "FullChecksumSend"; "FullChecksumRecv"; "congestionControl";
   "keepAlive"; "useTemporaryLocalAddress"; "softErrorNotify";
   "activeReadBeforeSend"]%string.

Definition op_documented (op : tp_op) : Prop :=
  match op with OpSet name _ => name ∈ documented_names | _ => True end.

Section runs.
Context `{Machine}.

Definition run_tp_op (tp : ptr) (op : tp_op) : M unit :=
  match op with
  | OpSet name p => tapsTransportPropertiesSet tp name p ;; mret tt
  | OpMultipath m => tapsTransportPropertiesSetMultipath tp m
  | OpDirection d => tapsTransportPropertiesSetDirection tp d
  | OpAltaddr b => tapsTransportPropertiesSetAdvertises_altaddr tp b
  end.

Fixpoint run_tp_ops (tp : ptr) (ops : list tp_op) : M unit :=
  match ops with
  | [] => mret tt
  | op :: ops => run_tp_op tp op ;; run_tp_ops tp ops
  end.

Lemma u16_assign i v x : 0 <= i < 16 -> u16_mask x -> u16_mask (assign i v x).
Proof.
  intros Hi Hx. replace (assign i v x) with (wrap 16 (assign i v x)); [apply u16_wrap|].
  apply Z.bits_inj'. intros j Hj. rewrite wrap_testbit, assign_spec by lia.
  destruct (Z.ltb_spec j 16); [done|]. rewrite (proj2 (Z.eqb_neq j i)) by lia.
  rewrite <- (wrap_small 16 x Hx), wrap_testbit by lia.
  by rewrite (proj2 (Z.ltb_ge j 16)).
Qed.

(** Only the prefer bits of the three abilities with setters of their own are
    ever set, and no other mask has them. *)
Definition own_setter (j : Z) : Prop := j = multipath \/ j = advertises_altaddr \/ j = direction.

Definition own_bits (t : transportProperties) : Prop :=
  forall j, own_setter j -> Z.testbit (t_require t) j = false /\ Z.testbit (t_avoid t) j = false
    /\ Z.testbit (t_prohibit t) j = false.

Definition tp_ok (t : transportProperties) : Prop := in_range t /\ exclusive t /\ own_bits t.

Lemma documented_index name :
  name ∈ documented_names ->
  (index_of name tapsPropertyNames < 16)%nat /\ ~ own_setter (Z.of_nat (index_of name tapsPropertyNames)).
Proof.
  intros Hn. unfold documented_names in Hn. unfold own_setter, multipath, advertises_altaddr, direction.
  repeat (apply elem_of_cons in Hn as [->|Hn]; [cbn; lia|]). by apply elem_of_nil in Hn.
Qed.

(** Setting the prefer bit of such an ability, either way. *)
Lemma own_prefer_ok i v t t' :
  own_setter i -> tp_ok t ->
  t_require t' = t_require t -> t_prefer t' = assign i v (t_prefer t) -> t_avoid t' = t_avoid t ->
  t_prohibit t' = t_prohibit t -> t_explicitlySet t' = assign i true (t_explicitlySet t) -> tp_ok t'.
Proof.
  intros Hi ((R1 & R2 & R3 & R4 & R5) & He & Ho) E1 E2 E3 E4 E5.
  assert (0 <= i < 16) by (unfold own_setter, multipath, advertises_altaddr, direction in Hi; lia).
  split; [|split].
  - unfold in_range. rewrite E1, E2, E3, E4, E5. splits; try done; by apply u16_assign.
  - intros j Hj. destruct (decide (j = i)) as [->|].
    + destruct (Ho i Hi) as (O1 & O2 & O3). apply (masks_exclusive _ _ (if v then TAPS_PREFER else TAPS_IGNORE)).
      unfold masks_at. rewrite E1, E2, E3, E4, O1, O2, O3, assign_spec, Z.eqb_refl by lia. by destruct v.
    + specialize (He j Hj). destruct He as (M1 & M2 & M3 & M4). eapply masks_exclusive. unfold masks_at.
      rewrite E1, E2, E3, E4, assign_spec, (proj2 (Z.eqb_neq j i)) by lia. splits; [exact M1|exact M2|exact M3|exact M4].
  - intros j Hj. rewrite E1, E3, E4. by apply Ho.
Qed.

Lemma set_preference_ok i p t :
  (i < 16)%nat -> ~ own_setter (Z.of_nat i) -> tp_ok t -> tp_ok (set_preference (mask_of i) p t).
Proof.
  intros Hi Hn (Hr & He & Ho). split; [by apply set_preference_range|].
  split; [by apply set_preference_exclusive|]. intros j Hj.
  assert (0 <= j < 16) by (unfold own_setter, multipath, advertises_altaddr, direction in Hj; lia).
  assert (j <> Z.of_nat i) by congruence. destruct (Ho j Hj) as (O1 & O2 & O3).
  destruct p; simpl; rewrite ?or_mask_spec, ?and_not_spec, ?mask_of_spec by lia;
    rewrite (proj2 (Z.eqb_neq j (Z.of_nat i))), O1, O2, O3 by lia; by rewrite ?andb_false_r, ?andb_false_l.
Qed.

Lemma tp_op_ok op tp t w :
  op_documented op -> heap w !! tp = Some (OTransport t) -> tp_ok t ->
  exists t', run_tp_op (Some tp) op w = (Ok tt, set_heap (<[tp := OTransport t']> (heap w)) w) /\ tp_ok t'.
Proof.
  intros Hop Ht Hok. destruct op as [name p|m|d|b]; simpl in *.
  - destruct (documented_index _ Hop) as [Hi Hn].
    unfold tapsTransportPropertiesSet, TAPS_NUM_ABILITIES. rewrite (proj2 (Z.eqb_neq _ _)) by lia. steps.
    eexists. split; [done|]. by apply set_preference_ok.
  - unfold tapsTransportPropertiesSetMultipath. steps. eexists. split; [done|].
    eapply (own_prefer_ok multipath); [by left|done|done..].
  - unfold tapsTransportPropertiesSetDirection. steps. eexists. split; [done|].
    eapply (own_prefer_ok direction); [by right; right|done|done..].
  - unfold tapsTransportPropertiesSetAdvertises_altaddr. steps. eexists. split; [done|].
    eapply (own_prefer_ok advertises_altaddr); [by right; left|done|done..].
Qed.

Lemma defaults_ok type : tp_ok (defaults type zero).
Proof.
  split; [|split].
  - by destruct type.
  - assert (forall j, 0 <= j < 16 -> exists k, (k < 16)%nat /\ j = Z.of_nat k) as Hk.
    { intros j Hj. exists (Z.to_nat j). lia. }
    intros j Hj. destruct (Hk j Hj) as (k & Hlt & ->). clear Hj Hk.
    destruct type; do 16 (destruct k as [|k]; [by vm_compute|]); lia.
  - intros j [->|[->| ->]]; by destruct type.
Qed.

Lemma tp_ops_ok ops tp t w :
  Forall op_documented ops -> heap w !! tp = Some (OTransport t) -> tp_ok t ->
  exists t', run_tp_ops (Some tp) ops w = (Ok tt, set_heap (<[tp := OTransport t']> (heap w)) w) /\ tp_ok t'.
Proof.
  revert t w. induction ops as [|op ops IH]; intros t w Hops Ht Hok.
  - exists t. split; [|done]. simpl. rewrite insert_id by done. by destruct w.
  - apply Forall_cons in Hops as [Hop Hops].
    destruct (tp_op_ok op tp t w Hop Ht Hok) as (t1 & E1 & Hok1).
    destruct (IH t1 (set_heap (<[tp := OTransport t1]> (heap w)) w)) as (t2 & E2 & Hok2);
      [done|apply lookup_insert_eq|done|].
    exists t2. split; [|done]. simpl. erewrite bind_ok by exact E1. rewrite E2.
    unfold set_heap. simpl. by rewrite insert_insert_eq.
Qed.

End runs.

(** ** Interfaces *)

Section interfaces.

Lemma store_read p d : 0 <= d -> read_preference (store_preference p d) = preference_value p.
Proof.
  intros Hd. unfold read_preference, store_preference.
  replace (Z.land (Z.lor (Z.ldiff d (Z.ones 32)) (wrap 32 (preference_value p))) (Z.ones 32))
    with (wrap 32 (preference_value p)); [by destruct p|].
  apply Z.bits_inj'. intros j Hj.
  rewrite Z.land_spec, Z.lor_spec, Z.ldiff_spec, Z.testbit_ones_nonneg, wrap_testbit by lia.
  destruct (j <? 32); [|by rewrite andb_false_r].
  by rewrite andb_false_r, andb_true_r.
Qed.

(** The preference an interface of [l] has once [name] is marked with [p]. *)
Definition marked (name : string) (p : tapsPreference) (ifa : ifaddrs) : ifaddrs :=
  match ifa_addr ifa with
  | Some family =>
      if (negb (family =? AF_INET) && negb (family =? AF_INET6)) || negb (String.eqb (ifa_name ifa) name)
      then ifa else set_ifa_data (store_preference p (ifa_data ifa)) ifa
  | None => ifa
  end.

Lemma family_eqb f a : bool_decide (Some f = Some a) = (f =? a).
Proof.
  destruct (Z.eqb_spec f a) as [->|]; [by apply bool_decide_eq_true_2|].
  apply bool_decide_eq_false_2. congruence.
Qed.

Lemma mark_interfaces_ok name p l :
  Forall (fun ifa => is_Some (ifa_addr ifa)) l -> mark_interfaces name p l = Ok (map (marked name p) l).
Proof.
  induction 1 as [|ifa l [f Hf] _ IH]; [done|]. simpl. unfold marked at 1. by rewrite Hf, IH.
Qed.

Lemma mark_interfaces_null name p l :
  Exists (fun ifa => ifa_addr ifa = None) l -> mark_interfaces name p l = Fault NullDeref.
Proof.
  induction 1 as [ifa l Hf|ifa l _ IH]; simpl; [by rewrite Hf|].
  destruct (ifa_addr ifa); [by rewrite IH|done].
Qed.

(** What marking stores at an address. *)
Lemma marked_data name p ifa :
  is_Some (ifa_addr ifa) -> 0 <= ifa_data ifa ->
  exists d, Some (marked name p ifa) = Some (set_ifa_data d ifa)
    /\ if (bool_decide (ifa_addr ifa = Some AF_INET) || bool_decide (ifa_addr ifa = Some AF_INET6))
          && String.eqb (ifa_name ifa) name
       then read_preference d = preference_value p else d = ifa_data ifa.
Proof.
  intros [f Hf] Hd. unfold marked. rewrite Hf, !family_eqb.
  assert (ifa = set_ifa_data (ifa_data ifa) ifa) as Hi by (by destruct ifa).
  destruct (f =? AF_INET), (f =? AF_INET6), (String.eqb (ifa_name ifa) name); simpl;
    eexists; (split; [done || by rewrite Hi at 1|]); by apply store_read || done.
Qed.

End interfaces.

Section marking.
Context `{Machine}.

(** The list that is marked: the one kept, or the host's. *)
Lemma set_interface_run tp t w getifaddrs name p :
  heap w !! tp = Some (OTransport t) -> t_interfaces t <> [] \/ p <> TAPS_IGNORE ->
  match (match t_interfaces t with [] => getifaddrs | kept => Some kept end) with
  | None => tapsTransportPropertiesSetInterface getifaddrs (Some tp) name p w = (Ok 0, w)
  | Some l =>
      match mark_interfaces name p l with
      | Ok l' => tapsTransportPropertiesSetInterface getifaddrs (Some tp) name p w
          = (Ok 1, set_heap (<[tp := OTransport (set_t_interfaces l' t)]> (heap w)) w)
      | Fault f => exists w', tapsTransportPropertiesSetInterface getifaddrs (Some tp) name p w = (Fault f, w')
      end
  end.
Proof.
  intros Ht Hp. unfold tapsTransportPropertiesSetInterface. steps. destruct (t_interfaces t) as [|i kept] eqn:Hn.
  - destruct Hp as [|Hp]; [done|]. rewrite decide_False by done. destruct getifaddrs as [l|]; [|done]. steps.
    destruct (mark_interfaces name p l); [|by eexists]. steps. unfold set_heap. simpl. by rewrite insert_insert_eq.
  - destruct (mark_interfaces name p (i :: kept)) eqn:Em; steps; rewrite Hn, Em; [by steps|by eexists].
Qed.

End marking.

(** ** Properties *)

Section properties.
Context `{Machine}.

(** C23: setting a property by name gives the ability of that name the
    preference asked for and leaves the preference of every other ability;
    it marks the ability as set and no other.  A name that is not in the table
    fails with EINVAL and changes nothing. *)
Theorem tapsTransportPropertiesSet_sets tp t w name p :
  heap w !! tp = Some (OTransport t) ->
  (forall i, tapsPropertyNames !! i = Some name ->
    exists t', tapsTransportPropertiesSet (Some tp) name p w
        = (Ok 1, set_heap (<[tp := OTransport t']> (heap w)) w)
      /\ masks_at t' (Z.of_nat i) p
      /\ forall j, 0 <= j < 16 ->
           preference_at t' j = (if j =? Z.of_nat i then p else preference_at t j)
           /\ Z.testbit (t_explicitlySet t') j = (j =? Z.of_nat i) || Z.testbit (t_explicitlySet t) j)
  /\ (name ∉ tapsPropertyNames ->
      tapsTransportPropertiesSet (Some tp) name p w = (Ok 0, World (heap w) (brk w) EINVAL (trace w))).
Proof.
  intros Ht. split.
  - intros i Hi. pose proof (lookup_lt_Some _ _ _ Hi) as Hlt. simpl in Hlt.
    assert (index_of name tapsPropertyNames = i) as Ei.
    { apply index_of_nodup; [|done]. apply (bool_decide_unpack _). by vm_compute. }
    exists (set_preference (mask_of i) p t). splits.
    + unfold tapsTransportPropertiesSet, TAPS_NUM_ABILITIES. rewrite Ei, (proj2 (Z.eqb_neq _ _)) by lia. by steps.
    + by apply set_preference_bit.
    + intros j Hj. split; [by apply set_preference_at|by apply set_preference_explicit].
  - intros Hn%index_of_notin. unfold tapsTransportPropertiesSet. by rewrite Hn.
Qed.

(** C22: new properties, after any run of the setters with the names taps.h
    lists, give no ability two preferences, and every mask is a 16-bit value. *)
Theorem setters_keep_preferences_exclusive type w ops :
  malloc_ok (brk w) = true -> Forall op_documented ops ->
  exists w' t, (tp ← tapsTransportPropertiesNew type; run_tp_ops tp ops) w = (Ok tt, w')
    /\ heap w' !! brk w = Some (OTransport t) /\ exclusive t /\ in_range t.
Proof.
  intros Ha Hops. unfold tapsTransportPropertiesNew. rewrite bind_assoc.
  erewrite bind_ok by (by apply malloc_succeeds).
  assert (forall w0 x, heap w0 !! brk w = Some (OTransport x) ->
    (memset0 transportProperties (Some (brk w)) ;; modify (Some (brk w)) (defaults type) ;;
     mret (Some (brk w))) w0 = (Ok (Some (brk w)), set_heap (<[brk w := OTransport (defaults type zero)]> (heap w0)) w0)) as E.
  { intros w0 x Hx. unfold memset0. steps. unfold set_heap. simpl. by rewrite insert_insert_eq. }
  erewrite bind_ok by (eapply E; apply lookup_insert_eq).
  match goal with |- context [run_tp_ops _ ops ?v] => set (w1 := v) end.
  destruct (tp_ops_ok ops (brk w) (defaults type zero) w1 Hops) as (t & E' & Hr & He & _);
    [apply lookup_insert_eq|apply defaults_ok|].
  rewrite E'. eexists _, t. splits; [done|apply lookup_insert_eq|done|done].
Qed.

(** With a name that has a setter of its own, which the code accepts,
    the same ability ends up both required and preferred. *)
Lemma multipath_by_name_breaks_exclusion tp t w :
  heap w !! tp = Some (OTransport t) ->
  exists w' t', run_tp_ops (Some tp) [OpSet "multipath" TAPS_REQUIRE; OpMultipath TAPS_MP_ACTIVE] w = (Ok tt, w')
    /\ heap w' !! tp = Some (OTransport t')
    /\ Z.testbit (t_require t') multipath = true /\ Z.testbit (t_prefer t') multipath = true.
Proof.
  intros Ht. simpl. unfold tapsTransportPropertiesSet, tapsTransportPropertiesSetMultipath. steps.
  eexists _, _. splits; [done|apply lookup_insert_eq|..].
  - refine (proj1 (set_preference_bit 11 TAPS_REQUIRE t _)). lia.
  - exact (assign_spec multipath true (t_prefer (set_preference (mask_of 11) TAPS_REQUIRE t)) multipath
             ltac:(done) ltac:(done)).
Qed.

(** C30: a preference for an interface, whichever it is, is stored at every IPv4
    and IPv6 address of that interface, read back from there as it was given,
    and nothing else of the properties changes.  The list that is marked is the
    one kept from an earlier request, or the host's when there is none yet; with
    no list TAPS_IGNORE succeeds and does nothing, any other preference fails
    when getifaddrs does.  If an interface of the list has no address, which
    getifaddrs allows, the code reads through NULL. *)
Theorem tapsTransportPropertiesSetInterface_marks tp t w getifaddrs name p :
  heap w !! tp = Some (OTransport t) ->
  let run := tapsTransportPropertiesSetInterface getifaddrs (Some tp) name p w in
  (t_interfaces t = [] -> p = TAPS_IGNORE -> run = (Ok 1, w)) /\
  (t_interfaces t <> [] \/ p <> TAPS_IGNORE ->
   match (match t_interfaces t with [] => getifaddrs | kept => Some kept end) with
   | None => run = (Ok 0, w)
   | Some l => Forall (fun ifa => 0 <= ifa_data ifa) l ->
      (Forall (fun ifa => is_Some (ifa_addr ifa)) l ->
        exists l', run = (Ok 1, set_heap (<[tp := OTransport (set_t_interfaces l' t)]> (heap w)) w)
          /\ length l' = length l
          /\ forall k ifa, l !! k = Some ifa -> exists d, l' !! k = Some (set_ifa_data d ifa)
               /\ if (bool_decide (ifa_addr ifa = Some AF_INET) || bool_decide (ifa_addr ifa = Some AF_INET6))
                     && String.eqb (ifa_name ifa) name
                  then read_preference d = preference_value p else d = ifa_data ifa)
      /\ (Exists (fun ifa => ifa_addr ifa = None) l -> exists w', run = (Fault NullDeref, w'))
   end).
Proof.
  intros Ht run. split; [intros Hn ->; subst run; unfold tapsTransportPropertiesSetInterface;
    erewrite bind_ok by (apply load_ok; exact Ht); by rewrite Hn|].
  intros Hp. pose proof (set_interface_run tp t w getifaddrs name p Ht Hp) as Hrun. fold run in Hrun.
  destruct (match t_interfaces t with [] => getifaddrs | kept => Some kept end) as [l|]; [|exact Hrun].
  intros Hd. split; [|intros Hl; rewrite mark_interfaces_null in Hrun by exact Hl; exact Hrun].
  intros Hl. rewrite mark_interfaces_ok in Hrun by done. eexists. split; [exact Hrun|]. split; [apply length_map|].
  intros k ifa Hk. rewrite list_lookup_fmap, Hk. apply marked_data;
    [exact (Forall_lookup_1 _ _ _ _ Hl Hk)|exact (Forall_lookup_1 _ _ _ _ Hd Hk)].
Qed.

End properties.

(** ** The properties at the values of the unit test *)

Module TransportSample.

#[local] Existing Instance strict_machine.

(** The calls of src/test/taps_transportProperties_test.c. *)
Definition ops : list tp_op :=
  [OpMultipath TAPS_MP_ACTIVE; OpDirection TAPS_UNIDIR_SEND; OpAltaddr true;
   OpSet "reliability" TAPS_PREFER; OpSet "preserveMsgBoundaries" TAPS_REQUIRE;
   OpSet "perMsgReliability" TAPS_AVOID; OpSet "preserveOrder" TAPS_PREFER;
   OpSet "zeroRttMsg" TAPS_REQUIRE; OpSet "multistreaming" TAPS_PROHIBIT;
   OpSet "FullChecksumSend" TAPS_IGNORE; OpSet "FullChecksumRecv" TAPS_IGNORE;
   OpSet "congestionControl" TAPS_PROHIBIT; OpSet "keepAlive" TAPS_PREFER;
   OpSet "useTemporaryLocalAddress" TAPS_REQUIRE; OpSet "softErrorNotify" TAPS_AVOID;
   OpSet "activeReadBeforeSend" TAPS_AVOID].

Definition empty : world := test_world [] 1.
Definition fresh : transportProperties := defaults TAPS_LISTENER zero.
Definition state : world := test_world [(1%positive, OTransport fresh)] 2.

Definition masks (t : transportProperties) : list Z :=
  [t_require t; t_prefer t; t_avoid t; t_prohibit t; t_explicitlySet t].

Example listener_defaults : masks fresh = [0x01c9; 0x0820; 0x0400; 0; 0].
Proof. reflexivity. Qed.

Example unit_test :
  match heap (snd (run_tp_ops (Some 1%positive) ops state)) !! 1%positive with
  | Some (OTransport t) => masks t = [0x0412; 0x3a09; 0xc004; 0x0120; 0xffff]
  | _ => False
  end.
Proof. vm_compute. reflexivity. Qed.

Lemma tapsTransportPropertiesSet_sets_witness :
  exists t', tapsTransportPropertiesSet (Some 1%positive) "keepAlive" TAPS_AVOID state
      = (Ok 1, set_heap (<[1%positive := OTransport t']> (heap state)) state)
    /\ masks_at t' 9 TAPS_AVOID
    /\ forall j, 0 <= j < 16 ->
         preference_at t' j = (if j =? 9 then TAPS_AVOID else preference_at fresh j)
         /\ Z.testbit (t_explicitlySet t') j = (j =? 9) || Z.testbit (t_explicitlySet fresh) j.
Proof. apply (proj1 (tapsTransportPropertiesSet_sets 1 fresh state "keepAlive" TAPS_AVOID eq_refl) 9%nat eq_refl). Defined.


Lemma setters_keep_preferences_exclusive_witness :
  exists w' t, (tp ← tapsTransportPropertiesNew TAPS_INITIATE; run_tp_ops tp ops) empty = (Ok tt, w')
    /\ heap w' !! 1%positive = Some (OTransport t) /\ exclusive t /\ in_range t.
Proof.
  apply (setters_keep_preferences_exclusive TAPS_INITIATE empty ops); [done|].
  repeat constructor; apply (bool_decide_unpack _); by vm_compute.
Defined.

Definition host : list ifaddrs :=
  [Ifaddrs "lo" (Some AF_INET) 0; Ifaddrs "eth0" (Some 17) 4096; Ifaddrs "eth0" (Some AF_INET6) 0].

(** The preference of eth0 is set to TAPS_PROHIBIT on the host's list, and the
    list that keeps is then set to TAPS_IGNORE. *)
Definition kept : transportProperties :=
  set_t_interfaces [Ifaddrs "lo" (Some AF_INET) 0; Ifaddrs "eth0" (Some AF_INET6) 0xfffffffe] fresh.
Definition kept_state : world := test_world [(1%positive, OTransport kept)] 2.

Lemma tapsTransportPropertiesSetInterface_marks_witness :
  (exists l', tapsTransportPropertiesSetInterface (Some host) (Some 1%positive) "eth0" TAPS_PROHIBIT state
      = (Ok 1, set_heap (<[1%positive := OTransport (set_t_interfaces l' fresh)]> (heap state)) state)
    /\ length l' = 3%nat
    /\ forall k ifa, host !! k = Some ifa -> exists d, l' !! k = Some (set_ifa_data d ifa)
         /\ if (bool_decide (ifa_addr ifa = Some AF_INET) || bool_decide (ifa_addr ifa = Some AF_INET6))
               && String.eqb (ifa_name ifa) "eth0"
            then read_preference d = -2 else d = ifa_data ifa)
  /\ (exists l', tapsTransportPropertiesSetInterface None (Some 1%positive) "eth0" TAPS_IGNORE kept_state
      = (Ok 1, set_heap (<[1%positive := OTransport (set_t_interfaces l' kept)]> (heap kept_state)) kept_state)
    /\ length l' = 2%nat
    /\ forall k ifa, t_interfaces kept !! k = Some ifa -> exists d, l' !! k = Some (set_ifa_data d ifa)
         /\ if (bool_decide (ifa_addr ifa = Some AF_INET) || bool_decide (ifa_addr ifa = Some AF_INET6))
               && String.eqb (ifa_name ifa) "eth0"
            then read_preference d = 0 else d = ifa_data ifa).
Proof.
  split.
  - destruct (tapsTransportPropertiesSetInterface_marks 1 fresh state (Some host) "eth0" TAPS_PROHIBIT) as [_ Hm]; [done|].
    apply Hm; [by right|..]; repeat constructor; simpl; eauto; lia.
  - destruct (tapsTransportPropertiesSetInterface_marks 1 kept kept_state None "eth0" TAPS_IGNORE) as [_ Hm]; [done|].
    apply Hm; [by left|..]; repeat constructor; simpl; eauto; lia.
Defined.

End TransportSample.
