(* ===== verification/Endpoint.v ===== *)
(** * Endpoint: taps_endpoint.c

    An endpoint holds optional attributes, each set at most once, and is linked
    with its aliases.  Strings are copied: the endpoint owns the copies. *)

From S2P Require Import Prelude Structs Memory Queue TransportProperties.
Local Open Scope Z_scope.

(** ** Definitions *)

(** inet_pton() and inet_ntop(): text to the bytes of an address and back. *)
Class Net := {
  inet_pton4 : string -> option Z;
  inet_pton6 : string -> option Z;
  inet_ntop4 : Z -> string;
  inet_ntop6 : Z -> string;
}.

Definition EBUSY : Z := 16.

Definition set_e_hostname (p : ptr) (e : tapsEndpoint) : tapsEndpoint :=
  Endpoint (e_has_port e) (e_has_ipv4 e) (e_has_ipv6 e) (e_has_hostname e) (e_has_service e) (e_has_protocol e)
    (e_has_interface e) (e_has_stun e) (e_ipv4 e) (e_ipv6 e) (e_port e) (e_stun e) (e_stun_credentials e)
    p (e_service e) (e_protocol e) (e_interface e) (e_prevAlias e) (e_nextAlias e).
Definition set_e_has_hostname (e : tapsEndpoint) : tapsEndpoint :=
  Endpoint (e_has_port e) (e_has_ipv4 e) (e_has_ipv6 e) true (e_has_service e) (e_has_protocol e)
    (e_has_interface e) (e_has_stun e) (e_ipv4 e) (e_ipv6 e) (e_port e) (e_stun e) (e_stun_credentials e)
    (e_hostname e) (e_service e) (e_protocol e) (e_interface e) (e_prevAlias e) (e_nextAlias e).
Definition set_e_port (n : Z) (e : tapsEndpoint) : tapsEndpoint :=
  Endpoint true (e_has_ipv4 e) (e_has_ipv6 e) (e_has_hostname e) (e_has_service e) (e_has_protocol e)
    (e_has_interface e) (e_has_stun e) (e_ipv4 e) (e_ipv6 e) n (e_stun e) (e_stun_credentials e)
    (e_hostname e) (e_service e) (e_protocol e) (e_interface e) (e_prevAlias e) (e_nextAlias e).
Definition set_e_service (p : ptr) (e : tapsEndpoint) : tapsEndpoint :=
  Endpoint (e_has_port e) (e_has_ipv4 e) (e_has_ipv6 e) (e_has_hostname e) (e_has_service e) (e_has_protocol e)
    (e_has_interface e) (e_has_stun e) (e_ipv4 e) (e_ipv6 e) (e_port e) (e_stun e) (e_stun_credentials e)
    (e_hostname e) p (e_protocol e) (e_interface e) (e_prevAlias e) (e_nextAlias e).
Definition set_e_has_service (e : tapsEndpoint) : tapsEndpoint :=
  Endpoint (e_has_port e) (e_has_ipv4 e) (e_has_ipv6 e) (e_has_hostname e) true (e_has_protocol e)
    (e_has_interface e) (e_has_stun e) (e_ipv4 e) (e_ipv6 e) (e_port e) (e_stun e) (e_stun_credentials e)
    (e_hostname e) (e_service e) (e_protocol e) (e_interface e) (e_prevAlias e) (e_nextAlias e).
Definition set_e_ipv4 (a : Z) (e : tapsEndpoint) : tapsEndpoint :=
  Endpoint (e_has_port e) true (e_has_ipv6 e) (e_has_hostname e) (e_has_service e) (e_has_protocol e)
    (e_has_interface e) (e_has_stun e) a (e_ipv6 e) (e_port e) (e_stun e) (e_stun_credentials e)
    (e_hostname e) (e_service e) (e_protocol e) (e_interface e) (e_prevAlias e) (e_nextAlias e).
Definition set_e_ipv6 (a : Z) (e : tapsEndpoint) : tapsEndpoint :=
  Endpoint (e_has_port e) (e_has_ipv4 e) true (e_has_hostname e) (e_has_service e) (e_has_protocol e)
    (e_has_interface e) (e_has_stun e) (e_ipv4 e) a (e_port e) (e_stun e) (e_stun_credentials e)
    (e_hostname e) (e_service e) (e_protocol e) (e_interface e) (e_prevAlias e) (e_nextAlias e).
Definition set_e_interface (p : ptr) (e : tapsEndpoint) : tapsEndpoint :=
  Endpoint (e_has_port e) (e_has_ipv4 e) (e_has_ipv6 e) (e_has_hostname e) (e_has_service e) (e_has_protocol e)
    (e_has_interface e) (e_has_stun e) (e_ipv4 e) (e_ipv6 e) (e_port e) (e_stun e) (e_stun_credentials e)
    (e_hostname e) (e_service e) (e_protocol e) p (e_prevAlias e) (e_nextAlias e).
Definition set_e_has_interface (e : tapsEndpoint) : tapsEndpoint :=
  Endpoint (e_has_port e) (e_has_ipv4 e) (e_has_ipv6 e) (e_has_hostname e) (e_has_service e) (e_has_protocol e)
    true (e_has_stun e) (e_ipv4 e) (e_ipv6 e) (e_port e) (e_stun e) (e_stun_credentials e)
    (e_hostname e) (e_service e) (e_protocol e) (e_interface e) (e_prevAlias e) (e_nextAlias e).
Definition set_e_protocol (p : ptr) (e : tapsEndpoint) : tapsEndpoint :=
  Endpoint (e_has_port e) (e_has_ipv4 e) (e_has_ipv6 e) (e_has_hostname e) (e_has_service e) (e_has_protocol e)
    (e_has_interface e) (e_has_stun e) (e_ipv4 e) (e_ipv6 e) (e_port e) (e_stun e) (e_stun_credentials e)
    (e_hostname e) (e_service e) p (e_interface e) (e_prevAlias e) (e_nextAlias e).
Definition set_e_has_protocol (e : tapsEndpoint) : tapsEndpoint :=
  Endpoint (e_has_port e) (e_has_ipv4 e) (e_has_ipv6 e) (e_has_hostname e) (e_has_service e) true
    (e_has_interface e) (e_has_stun e) (e_ipv4 e) (e_ipv6 e) (e_port e) (e_stun e) (e_stun_credentials e)
    (e_hostname e) (e_service e) (e_protocol e) (e_interface e) (e_prevAlias e) (e_nextAlias e).
Definition set_e_stun (s : sockaddr) (e : tapsEndpoint) : tapsEndpoint :=
  Endpoint (e_has_port e) (e_has_ipv4 e) (e_has_ipv6 e) (e_has_hostname e) (e_has_service e) (e_has_protocol e)
    (e_has_interface e) (e_has_stun e) (e_ipv4 e) (e_ipv6 e) (e_port e) s (e_stun_credentials e)
    (e_hostname e) (e_service e) (e_protocol e) (e_interface e) (e_prevAlias e) (e_nextAlias e).
Definition set_e_stun_credentials (p : ptr) (e : tapsEndpoint) : tapsEndpoint :=
  Endpoint (e_has_port e) (e_has_ipv4 e) (e_has_ipv6 e) (e_has_hostname e) (e_has_service e) (e_has_protocol e)
    (e_has_interface e) (e_has_stun e) (e_ipv4 e) (e_ipv6 e) (e_port e) (e_stun e) p
    (e_hostname e) (e_service e) (e_protocol e) (e_interface e) (e_prevAlias e) (e_nextAlias e).
Definition set_e_aliases (n p : ptr) (e : tapsEndpoint) : tapsEndpoint :=
  Endpoint (e_has_port e) (e_has_ipv4 e) (e_has_ipv6 e) (e_has_hostname e) (e_has_service e) (e_has_protocol e)
    (e_has_interface e) (e_has_stun e) (e_ipv4 e) (e_ipv6 e) (e_port e) (e_stun e) (e_stun_credentials e)
    (e_hostname e) (e_service e) (e_protocol e) (e_interface e) p n.

#[export] Instance endpoint_linked : Linked tapsEndpoint.
Proof.
  refine {| nxt := e_nextAlias; prv := e_prevAlias; set_links := set_e_aliases |}; abstract done.
Defined.

Section endpoint.
Context `{Machine} `{Net}.

Definition tapsEndpointNew : M ptr :=
  endp ← malloc tapsEndpoint;
  match endp with
  | None => mret None
  | Some _ => memset0 tapsEndpoint endp ;; mret endp
  end.

(** The shape four of the setters share: refuse a second value, copy the
    string, and only then say that the attribute is there. *)
Definition with_string (has : tapsEndpoint -> bool) (set : ptr -> tapsEndpoint -> tapsEndpoint)
    (mark : tapsEndpoint -> tapsEndpoint) (fail : M unit) (endp : ptr) (s : string) : M Z :=
  ep ← load endp;
  if has ep then set_errno EBUSY ;; mret 0
  else
    p ← strdup s;
    modify endp (set p) ;;
    match p with
    | None => fail ;; mret 0
    | Some _ => modify endp mark ;; mret 1
    end.

Definition tapsEndpointWithHostname : ptr -> string -> M Z :=
  with_string e_has_hostname set_e_hostname set_e_has_hostname (set_errno ENOMEM).
Definition tapsEndpointWithService : ptr -> string -> M Z :=
  with_string e_has_service set_e_service set_e_has_service (mret tt).
Definition tapsEndpointWithInterface : ptr -> string -> M Z :=
  with_string e_has_interface set_e_interface set_e_has_interface (set_errno ENOMEM).
Definition tapsEndpointWithProtocol : ptr -> string -> M Z :=
  with_string e_has_protocol set_e_protocol set_e_has_protocol (set_errno ENOMEM).

Definition tapsEndpointWithPort (endp : ptr) (port : Z) : M Z :=
  ep ← load endp;
  if e_has_port ep then set_errno EBUSY ;; mret 0
  else modify endp (set_e_port (u16 port)) ;; mret 1.

(** The shape of the address setters. *)
Definition with_address (has : tapsEndpoint -> bool) (pton : string -> option Z)
    (set : Z -> tapsEndpoint -> tapsEndpoint) (endp : ptr) (s : string) : M Z :=
  ep ← load endp;
  if has ep then set_errno EBUSY ;; mret 0
  else match pton s with
       | None => set_errno EINVAL ;; mret 0
       | Some a => modify endp (set a) ;; mret 1
       end.

Definition tapsEndpointWithIPv4Address : ptr -> string -> M Z := with_address e_has_ipv4 inet_pton4 set_e_ipv4.
Definition tapsEndpointWithIPv6Address : ptr -> string -> M Z := with_address e_has_ipv6 inet_pton6 set_e_ipv6.

(** The loop of [tapsAddAlias]: to the end of one list and the start of the
    other. *)
Fixpoint alias_loop (fuel : nat) (ep1 ep2 : ptr) : M (ptr * ptr) :=
  match fuel with
  | O => throw OutOfFuel
  | S fuel =>
      x1 ← (load ep1 : M tapsEndpoint);
      x2 ← (load ep2 : M tapsEndpoint);
      match e_nextAlias x1, e_prevAlias x2 with
      | None, None => mret (ep1, ep2)
      | n, p => alias_loop fuel (match n with Some _ => n | None => ep1 end)
                                (match p with Some _ => p | None => ep2 end)
      end
  end.

Definition tapsAddAlias (fuel : nat) (endp1 endp2 : ptr) : M Z :=
  '(ep1, ep2) ← alias_loop fuel endp1 endp2;
  modify ep1 (set_nxt ep2 : tapsEndpoint -> tapsEndpoint) ;;
  modify ep2 (set_prv ep1 : tapsEndpoint -> tapsEndpoint) ;;
  mret 1.

(** [credentials] is the bytes the caller passes, of that length. *)
Definition tapsWithStunServer (endp : ptr) (addr : string) (port : Z) (credentials : string) : M Z :=
  let store (f : sockaddr -> sockaddr) : M Z :=
    modify endp (fun e => set_e_stun (f (e_stun e)) e) ;;
    match credentials with
    | EmptyString => mret 1
    | _ =>
        p ← malloc string;
        modify endp (set_e_stun_credentials p) ;;
        match p with
        | None => set_errno ENOMEM ;; mret 0
        | Some _ => modify p (fun _ : string => credentials) ;; mret 1
        end
    end in
  ep ← load endp;
  if e_has_stun ep then set_errno EBUSY ;; mret 0
  else match inet_pton6 addr with
       | Some a => store (fun s => Sockaddr AF_INET6 (u16 port) (sa_in s) a)
       | None => match inet_pton4 addr with
                 | Some a => store (fun s => Sockaddr AF_INET (u16 port) a (sa_in6 s))
                 | None => set_errno EINVAL ;; mret 0
                 end
       end.

(** What is copied to [buf], or NULL. *)
Definition tapsEndpointGetProperty (endp : ptr) (name : string) : M (option string) :=
  ep ← load endp;
  let copy (has : bool) (p : ptr) : M (option string) :=
    if has then s ← load p; mret (Some s) else mret None in
  if String.eqb name "ipv4" then mret (if e_has_ipv4 ep then Some (inet_ntop4 (e_ipv4 ep)) else None)
  else if String.eqb name "ipv6" then mret (if e_has_ipv6 ep then Some (inet_ntop6 (e_ipv6 ep)) else None)
  else if String.eqb name "hostname" then copy (e_has_hostname ep) (e_hostname ep)
  else if String.eqb name "service" then copy (e_has_service ep) (e_service ep)
  else if String.eqb name "protocol" then copy (e_has_protocol ep) (e_protocol ep)
  else if String.eqb name "interface" then copy (e_has_service ep) (e_interface ep)
  else mret None.

(** The answer, and what [saddr] holds afterwards. *)
Definition tapsEndpointGetAddress (endp : ptr) (saddr : sockaddr) : M (Z * sockaddr) :=
  ep ← load endp;
  let sin := Sockaddr (sa_family saddr) (if e_has_port ep then e_port ep else 0) (sa_in saddr) (sa_in6 saddr) in
  if sa_family saddr =? AF_INET then
    if e_has_ipv4 ep then mret (0, Sockaddr (sa_family sin) (sa_port sin) (e_ipv4 ep) (sa_in6 sin))
    else mret (-1, sin)
  else if sa_family saddr =? AF_INET6 then
    if e_has_ipv6 ep then mret (0, Sockaddr (sa_family sin) (sa_port sin) (sa_in sin) (e_ipv6 ep))
    else mret (-1, sin)
  else set_errno EINVAL ;; mret (-1, sin).

Definition tapsEndpointFree (endp : ptr) : M unit :=
  ep ← load endp;
  (if e_has_hostname ep then free string (e_hostname ep) else mret tt) ;;
  (if e_has_service ep then free string (e_service ep) else mret tt) ;;
  (if e_has_protocol ep then free string (e_protocol ep) else mret tt) ;;
  (if e_has_interface ep then free string (e_interface ep) else mret tt) ;;
  (match e_stun_credentials ep with Some _ => free string (e_stun_credentials ep) | None => mret tt end) ;;
  free tapsEndpoint endp.

End endpoint.

(** ** What an endpoint holds *)

(** The attributes kept as strings. *)
Inductive str_attr := Hostname | Service | Proto_name | Interface.

#[export] Instance str_attr_eq_dec : EqDecision str_attr.
Proof. solve_decision. Defined.

Definition has (k : str_attr) (e : tapsEndpoint) : bool :=
  match k with
  | Hostname => e_has_hostname e | Service => e_has_service e
  | Proto_name => e_has_protocol e | Interface => e_has_interface e
  end.
Definition get (k : str_attr) (e : tapsEndpoint) : ptr :=
  match k with
  | Hostname => e_hostname e | Service => e_service e
  | Proto_name => e_protocol e | Interface => e_interface e
  end.
Definition set (k : str_attr) : ptr -> tapsEndpoint -> tapsEndpoint :=
  match k with
  | Hostname => set_e_hostname | Service => set_e_service
  | Proto_name => set_e_protocol | Interface => set_e_interface
  end.
Definition mark (k : str_attr) : tapsEndpoint -> tapsEndpoint :=
  match k with
  | Hostname => set_e_has_hostname | Service => set_e_has_service
  | Proto_name => set_e_has_protocol | Interface => set_e_has_interface
  end.

(** The attributes of an endpoint, as an application sees them. *)
Record attrs := Attrs {
  at_str : str_attr -> option string;
  at_port : option Z;
  at_ipv4 : option Z;
  at_ipv6 : option Z;
}.

(** The requests that attach an attribute. *)
Inductive ep_op :=
| OpStr (k : str_attr) (s : string)
| OpPort (n : Z)
| OpIPv4 (s : string)
| OpIPv6 (s : string).

Section spec.
Context `{Net}.

Definition with_str_attr (k : str_attr) (s : string) (a : attrs) : attrs :=
  Attrs (fun k' => if decide (k' = k) then Some s else at_str a k') (at_port a) (at_ipv4 a) (at_ipv6 a).

(** What a request answers and leaves: the return value, the errno it sets, and
    the attributes.  [mem] says whether there is memory for a copy. *)
Definition spec_op (mem : bool) (op : ep_op) (a : attrs) : Z * option Z * attrs :=
  match op with
  | OpStr k s =>
      match at_str a k with
      | Some _ => (0, Some EBUSY, a)
      | None => if mem then (1, None, with_str_attr k s a)
                else (0, Some ENOMEM, a)
      end
  | OpPort n =>
      match at_port a with
      | Some _ => (0, Some EBUSY, a)
      | None => (1, None, Attrs (at_str a) (Some (u16 n)) (at_ipv4 a) (at_ipv6 a))
      end
  | OpIPv4 s =>
      match at_ipv4 a, inet_pton4 s with
      | Some _, _ => (0, Some EBUSY, a)
      | None, None => (0, Some EINVAL, a)
      | None, Some n => (1, None, Attrs (at_str a) (at_port a) (Some n) (at_ipv6 a))
      end
  | OpIPv6 s =>
      match at_ipv6 a, inet_pton6 s with
      | Some _, _ => (0, Some EBUSY, a)
      | None, None => (0, Some EINVAL, a)
      | None, Some n => (1, None, Attrs (at_str a) (at_port a) (at_ipv4 a) (Some n))
      end
  end.

(** The property a name asks for. *)
Definition spec_property (name : string) (a : attrs) : option string :=
  if String.eqb name "ipv4" then inet_ntop4 <$> at_ipv4 a
  else if String.eqb name "ipv6" then inet_ntop6 <$> at_ipv6 a
  else if String.eqb name "hostname" then at_str a Hostname
  else if String.eqb name "service" then at_str a Service
  else if String.eqb name "protocol" then at_str a Proto_name
  else if String.eqb name "interface" then at_str a Interface
  else None.

End spec.

(** Block [l] is the copy of an attribute of [x]. *)
Definition owns (x : tapsEndpoint) (l : loc) : Prop := exists k, has k x = true /\ get k x = Some l.

(** A flag and its value stand for an optional value. *)
Definition flagged {A} (b : bool) (v : A) (o : option A) : Prop :=
  match o with Some v' => b = true /\ v = v' | None => b = false end.

(** In [w] the endpoint at [e] has the fields [x] and the attributes [a];
    [h0] is the heap without the endpoint and its copies. *)
Record endpoint_ok (h0 : gmap loc obj) (w : world) (e : loc) (x : tapsEndpoint) (a : attrs) : Prop := {
  eo_end : heap w !! e = Some (OEndpoint x);
  eo_str k : match at_str a k with
             | Some s => has k x = true /\ exists l, get k x = Some l /\ heap w !! l = Some (OString s)
             | None => has k x = false /\ get k x = None
             end;
  eo_inj k k' l : get k x = Some l -> get k' x = Some l -> k = k';
  eo_port : flagged (e_has_port x) (e_port x) (at_port a);
  eo_ipv4 : flagged (e_has_ipv4 x) (e_ipv4 x) (at_ipv4 a);
  eo_ipv6 : flagged (e_has_ipv6 x) (e_ipv6 x) (at_ipv6 a);
  eo_stun : e_stun_credentials x = None;
  eo_frame i : i <> e -> ~ owns x i -> heap w !! i = h0 !! i;
  eo_new i : i = e \/ owns x i -> h0 !! i = None;
  eo_fresh : fresh_from (heap w) (brk w);
}.

(** From [x] to [x'] the request [op] answers [rc]: a refused one leaves every
    field as it was, an accepted one every field but those of its attribute, so
    also the STUN server and the aliases. *)
Record only_sets (op : ep_op) (rc : Z) (x x' : tapsEndpoint) : Prop := {
  os_refused : rc = 0 -> x' = x;
  os_str k : (forall s, op <> OpStr k s) -> has k x' = has k x /\ get k x' = get k x;
  os_port : (forall n, op <> OpPort n) -> e_has_port x' = e_has_port x /\ e_port x' = e_port x;
  os_ipv4 : (forall s, op <> OpIPv4 s) -> e_has_ipv4 x' = e_has_ipv4 x /\ e_ipv4 x' = e_ipv4 x;
  os_ipv6 : (forall s, op <> OpIPv6 s) -> e_has_ipv6 x' = e_has_ipv6 x /\ e_ipv6 x' = e_ipv6 x;
  os_stun : e_has_stun x' = e_has_stun x /\ e_stun x' = e_stun x /\ e_stun_credentials x' = e_stun_credentials x;
  os_aliases : e_prevAlias x' = e_prevAlias x /\ e_nextAlias x' = e_nextAlias x;
}.

Definition no_attrs : attrs := Attrs (fun _ => None) None None None.

Section fields.

Lemma has_set k k' p x : has k (set k' p x) = has k x.
Proof. by destruct k, k'. Qed.
Lemma has_mark k k' x : has k (mark k' x) = bool_decide (k = k') || has k x.
Proof. by destruct k, k'. Qed.
Lemma get_set k k' p x : get k (set k' p x) = if decide (k = k') then p else get k x.
Proof. by destruct k, k'. Qed.
Lemma get_mark k k' x : get k (mark k' x) = get k x.
Proof. by destruct k, k'. Qed.

Lemma other_fields k p x :
  let y := mark k (set k p x) in
  e_has_port y = e_has_port x /\ e_port y = e_port x /\ e_has_ipv4 y = e_has_ipv4 x /\ e_ipv4 y = e_ipv4 x
  /\ e_has_ipv6 y = e_has_ipv6 x /\ e_ipv6 y = e_ipv6 x /\ e_stun_credentials y = e_stun_credentials x.
Proof. by destruct k. Qed.

(** A NULL written over a NULL. *)
Lemma set_none k x : get k x = None -> set k None x = x.
Proof. by destruct k, x; simpl; intros ->. Qed.

Lemma only_sets_refl op rc x : only_sets op rc x x.
Proof. by split. Qed.

Lemma only_sets_str k s p x : only_sets (OpStr k s) 1 x (mark k (set k p x)).
Proof.
  split; try by destruct k.
  intros k' Hk. assert (k' <> k) as Hne by (intros ->; by apply (Hk s)).
  by rewrite has_mark, has_set, get_mark, get_set, bool_decide_eq_false_2, decide_False by done.
Qed.

Lemma only_sets_port n m x : only_sets (OpPort n) 1 x (set_e_port m x).
Proof. split; try done. intros E. by destruct (E n). Qed.

Lemma only_sets_ipv4 s m x : only_sets (OpIPv4 s) 1 x (set_e_ipv4 m x).
Proof. split; try done. intros E. by destruct (E s). Qed.

Lemma only_sets_ipv6 s m x : only_sets (OpIPv6 s) 1 x (set_e_ipv6 m x).
Proof. split; try done. intros E. by destruct (E s). Qed.

Lemma owns_attach x k l i :
  get k x = None -> owns (mark k (set k (Some l) x)) i <-> i = l \/ owns x i.
Proof.
  intros Hk. unfold owns. split.
  - intros (k' & E1 & E2). rewrite get_mark, get_set in E2. case_decide; [left; congruence|right].
    rewrite has_mark, has_set, bool_decide_eq_false_2 in E1 by done. eauto.
  - intros [->|(k' & E1 & E2)].
    + exists k. rewrite has_mark, get_mark, get_set, bool_decide_eq_true_2, decide_True by done. done.
    + exists k'. rewrite has_mark, has_set, get_mark, get_set, E1, orb_true_r. split; [done|].
      rewrite decide_False; [done|]. intros ->. congruence.
Qed.

End fields.

(** ** The setters keep to the attributes *)

Section setters.
Context `{Machine} `{Net}.

Definition run_ep_op (endp : ptr) (op : ep_op) : M Z :=
  match op with
  | OpStr Hostname s => tapsEndpointWithHostname endp s
  | OpStr Service s => tapsEndpointWithService endp s
  | OpStr Proto_name s => tapsEndpointWithProtocol endp s
  | OpStr Interface s => tapsEndpointWithInterface endp s
  | OpPort n => tapsEndpointWithPort endp n
  | OpIPv4 s => tapsEndpointWithIPv4Address endp s
  | OpIPv6 s => tapsEndpointWithIPv6Address endp s
  end.

Definition fail_errno (k : str_attr) : M unit :=
  if decide (k = Service) then mret tt else set_errno ENOMEM.

Lemma run_ep_op_str k s endp :
  run_ep_op endp (OpStr k s) = with_string (has k) (set k) (mark k) (fail_errno k) endp s.
Proof. by destruct k. Qed.

Lemma endpoint_below h0 w e x a i :
  endpoint_ok h0 w e x a -> i = e \/ owns x i -> (i < brk w)%positive.
Proof.
  intros [] [->|(k & Hk & Hi)]; [by eapply fresh_from_lt|].
  specialize (eo_str0 k). destruct (at_str a k) as [s|]; [|destruct eo_str0; congruence].
  destruct eo_str0 as (_ & l & El & Hl). assert (l = i) as -> by congruence. by eapply fresh_from_lt.
Qed.

Lemma endpoint_update h0 w w' e x x' a a' :
  endpoint_ok h0 w e x a -> (forall k, has k x' = has k x) -> (forall k, get k x' = get k x) ->
  at_str a' = at_str a -> flagged (e_has_port x') (e_port x') (at_port a') ->
  flagged (e_has_ipv4 x') (e_ipv4 x') (at_ipv4 a') -> flagged (e_has_ipv6 x') (e_ipv6 x') (at_ipv6 a') ->
  e_stun_credentials x' = None -> heap w' = <[e := OEndpoint x']> (heap w) -> brk w' = brk w ->
  endpoint_ok h0 w' e x' a'.
Proof.
  intros [] Hh Hg Ea Hp H4 H6 Hs Eh Eb.
  assert (forall i, owns x' i <-> owns x i) as Ho.
  { intros i. unfold owns. split; intros (k & E1 & E2); exists k; [by rewrite <- Hh, <- Hg|by rewrite Hh, Hg]. }
  split; try done.
  - rewrite Eh. apply lookup_insert_eq.
  - intros k. rewrite Ea, Hh, Hg, Eh. specialize (eo_str0 k). destruct (at_str a k) as [s|]; [|done].
    destruct eo_str0 as (? & l & ? & Hl). split; [done|]. exists l. split; [done|].
    rewrite lookup_insert_ne; [done|]. intros ->. congruence.
  - intros k k' l. rewrite !Hg. apply eo_inj0.
  - intros i Hi Hn. rewrite Eh, lookup_insert_ne by done. apply eo_frame0; [done|]. by rewrite <- Ho.
  - intros i Hi. apply eo_new0. by rewrite <- Ho.
  - rewrite Eh, Eb. apply fresh_from_insert; [|done]. by eapply fresh_from_lt.
Qed.

Lemma endpoint_same h0 w w' e x a :
  endpoint_ok h0 w e x a -> heap w' = heap w -> (brk w <= brk w')%positive -> endpoint_ok h0 w' e x a.
Proof.
  intros [] Eh Eb. split; rewrite ?Eh; try done.
  intros i Hi. apply eo_fresh0. lia.
Qed.

(** A copy attached: a new block, owned. *)
Lemma endpoint_attach h0 w e x a k s :
  endpoint_ok h0 w e x a -> at_str a k = None ->
  endpoint_ok h0 (World (<[e := OEndpoint (mark k (set k (Some (brk w)) x))]> (<[brk w := OString s]> (heap w)))
                   (Pos.succ (brk w)) (errno w) (trace w))
    e (mark k (set k (Some (brk w)) x)) (with_str_attr k s a).
Proof.
  intros Ho Hk. pose proof (fun i => endpoint_below h0 w e x a i Ho) as Hb. pose proof Ho as [].
  assert (e < brk w)%positive by (apply Hb; by left).
  destruct (other_fields k (Some (brk w)) x) as (F1 & F2 & F3 & F4 & F5 & F6 & F7).
  assert (forall k' i, get k' x = Some i -> has k' x = true) as Hgh.
  { intros k' i Hi. specialize (eo_str0 k'). destruct (at_str a k'); [by destruct eo_str0|].
    destruct eo_str0; congruence. }
  assert (forall k' l, get k' x = Some l -> (l < brk w)%positive) as Hgb.
  { intros k' l Hl. apply Hb. right. exists k'. split; [by eapply Hgh|done]. }
  assert (get k x = None) as Hkx by (specialize (eo_str0 k); rewrite Hk in eo_str0; apply eo_str0).
  pose proof (fun i => owns_attach x k (brk w) i Hkx) as Hown.
  split; cbn [heap brk at_str at_port at_ipv4 at_ipv6 with_str_attr]; rewrite ?F1, ?F2, ?F3, ?F4, ?F5, ?F6, ?F7; try done.
  - apply lookup_insert_eq.
  - intros k'. rewrite has_mark, has_set, get_mark, get_set. case_decide as Hd.
    + subst k'. rewrite bool_decide_eq_true_2 by done. split; [done|]. exists (brk w). split; [done|].
      rewrite lookup_insert_ne by lia. apply lookup_insert_eq.
    + rewrite bool_decide_eq_false_2 by done. specialize (eo_str0 k'). destruct (at_str a k') as [s'|]; [|done].
      destruct eo_str0 as (? & l & ? & Hl). split; [done|]. exists l. split; [done|].
      assert (l < brk w)%positive by (by eapply Hgb).
      rewrite lookup_insert_ne by (intros ->; congruence). by rewrite lookup_insert_ne by lia.
  - intros k1 k2 l. rewrite !get_mark, !get_set. repeat case_decide; intros E1 E2; try congruence.
    + assert (l < brk w)%positive by (by eapply Hgb). simplify_eq. lia.
    + assert (l < brk w)%positive by (by eapply Hgb). simplify_eq. lia.
    + by eapply eo_inj0.
  - intros i Hi Hn. rewrite Hown in Hn. assert (i <> brk w) by (intros E; apply Hn; by left). rewrite !lookup_insert_ne by done.
    apply eo_frame0; [done|tauto].
  - intros i Hi. rewrite Hown in Hi. destruct Hi as [->|[->|Hi]]; [apply eo_new0; by left| |apply eo_new0; by right].
    rewrite <- eo_frame0; [by apply eo_fresh0|lia|]. intros Ho'. specialize (Hb _ (or_intror Ho')). lia.
  - apply fresh_from_insert; [lia|]. apply fresh_from_insert; [lia|]. intros i Hi. apply eo_fresh0. lia.
Qed.

(** A string attribute. *)
Lemma with_string_ok h0 w e x a k s rc eno a' :
  endpoint_ok h0 w e x a -> spec_op (malloc_ok (brk w)) (OpStr k s) a = (rc, eno, a') ->
  exists x' w', with_string (has k) (set k) (mark k) (fail_errno k) (Some e) s w = (Ok rc, w')
    /\ endpoint_ok h0 w' e x' a' /\ only_sets (OpStr k s) rc x x' /\ errno w' = default (errno w) eno /\ trace w' = trace w.
Proof.
  intros Ho Hs. pose proof (eo_end _ _ _ _ _ Ho) as He. pose proof (eo_str _ _ _ _ _ Ho k) as Hk.
  assert (e < brk w)%positive as Hb by (eapply endpoint_below; [exact Ho|by left]).
  unfold with_string. erewrite bind_ok by (apply (load_ok (T := tapsEndpoint)); exact He).
  simpl in Hs. destruct (at_str a k) as [s'|] eqn:Ek.
  - destruct Hk as [-> _]. simplify_eq. eexists x, _. splits; [done|by eapply endpoint_same|apply only_sets_refl|done..].
  - destruct Hk as [-> Hg]. destruct (malloc_ok (brk w)) eqn:Ha; simplify_eq.
    + erewrite bind_ok by (by apply strdup_ok).
      erewrite bind_ok by (apply (modify_ok (T := tapsEndpoint)); simpl; rewrite lookup_insert_ne by lia; exact He).
      erewrite bind_ok by (apply (modify_ok (T := tapsEndpoint)); apply lookup_insert_eq).
      rewrite ret_ok. eexists _, _. splits; [done| |apply only_sets_str|done..].
      unfold set_heap. simpl. rewrite insert_insert_eq. by apply endpoint_attach.
    + erewrite bind_ok by (by apply strdup_fails).
      erewrite bind_ok by (apply (modify_ok (T := tapsEndpoint)); exact He).
      rewrite (set_none _ _ Hg), insert_id by exact He.
      unfold fail_errno. case_decide; (eexists x, _; splits; [done|eapply (endpoint_same h0 w); [exact Ho|done|simpl; lia]
        |apply only_sets_refl|done..]).
Qed.

Lemma ep_op_ok h0 w e x a op rc eno a' :
  endpoint_ok h0 w e x a -> spec_op (malloc_ok (brk w)) op a = (rc, eno, a') ->
  exists x' w', run_ep_op (Some e) op w = (Ok rc, w')
    /\ endpoint_ok h0 w' e x' a' /\ only_sets op rc x x' /\ errno w' = default (errno w) eno /\ trace w' = trace w.
Proof.
  intros Ho Hs. destruct op as [k s|n|s|s].
  - rewrite run_ep_op_str. by eapply with_string_ok.
  - pose proof Ho as []. simpl in *. unfold tapsEndpointWithPort.
    erewrite bind_ok by (apply (load_ok (T := tapsEndpoint)); exact eo_end0).
    destruct (at_port a) as [p|]; simpl in eo_port0; [destruct eo_port0 as [-> _]|rewrite eo_port0]; simplify_eq.
    + eexists x, _. splits; [done|by eapply endpoint_same|apply only_sets_refl|done..].
    + erewrite bind_ok by (apply (modify_ok (T := tapsEndpoint)); exact eo_end0).
      exists (set_e_port (wrap 16 n) x). eexists. splits; [done| |apply only_sets_port|done..].
        eapply (endpoint_update h0 w); [exact Ho|by intros []|by intros []|done..].
  - pose proof Ho as []. simpl in *. unfold tapsEndpointWithIPv4Address, with_address.
    erewrite bind_ok by (apply (load_ok (T := tapsEndpoint)); exact eo_end0).
    destruct (at_ipv4 a) as [p|]; simpl in eo_ipv5; [destruct eo_ipv5 as [-> _]|rewrite eo_ipv5]; simplify_eq.
    + eexists x, _. splits; [done|by eapply endpoint_same|apply only_sets_refl|done..].
    + destruct (inet_pton4 s) as [n|]; simplify_eq.
      * erewrite bind_ok by (apply (modify_ok (T := tapsEndpoint)); exact eo_end0).
        exists (set_e_ipv4 n x). eexists. splits; [done| |apply only_sets_ipv4|done..].
        eapply (endpoint_update h0 w); [exact Ho|by intros []|by intros []|done..].
      * eexists x, _. splits; [done|by eapply endpoint_same|apply only_sets_refl|done..].
  - pose proof Ho as []. simpl in *. unfold tapsEndpointWithIPv6Address, with_address.
    erewrite bind_ok by (apply (load_ok (T := tapsEndpoint)); exact eo_end0).
    destruct (at_ipv6 a) as [p|]; simpl in eo_ipv7; [destruct eo_ipv7 as [-> _]|rewrite eo_ipv7]; simplify_eq.
    + eexists x, _. splits; [done|by eapply endpoint_same|apply only_sets_refl|done..].
    + destruct (inet_pton6 s) as [n|]; simplify_eq.
      * erewrite bind_ok by (apply (modify_ok (T := tapsEndpoint)); exact eo_end0).
        exists (set_e_ipv6 n x). eexists. splits; [done| |apply only_sets_ipv6|done..].
        eapply (endpoint_update h0 w); [exact Ho|by intros []|by intros []|done..].
      * eexists x, _. splits; [done|by eapply endpoint_same|apply only_sets_refl|done..].
Qed.

Fixpoint run_ep_ops (endp : ptr) (ops : list ep_op) : M unit :=
  match ops with
  | [] => mret tt
  | op :: ops => run_ep_op endp op ;; run_ep_ops endp ops
  end.

Lemma ep_ops_ok h0 e ops w x a :
  endpoint_ok h0 w e x a ->
  exists x' w' a', run_ep_ops (Some e) ops w = (Ok tt, w') /\ endpoint_ok h0 w' e x' a' /\ trace w' = trace w.
Proof.
  revert w x a. induction ops as [|op ops IH]; intros w x a Ho; [by exists x, w, a|].
  destruct (spec_op (malloc_ok (brk w)) op a) as [[rc eno] a1] eqn:Es.
  destruct (ep_op_ok _ _ _ _ _ _ _ _ _ Ho Es) as (x1 & w1 & E1 & Ho1 & _ & _ & T1).
  destruct (IH _ _ _ Ho1) as (x2 & w2 & a2 & E2 & Ho2 & T2).
  exists x2, w2, a2. simpl. erewrite bind_ok by exact E1. splits; [done..|congruence].
Qed.

Lemma tapsEndpointNew_ok w :
  fresh_from (heap w) (brk w) -> malloc_ok (brk w) = true ->
  exists w', tapsEndpointNew w = (Ok (Some (brk w)), w')
    /\ endpoint_ok (heap w) w' (brk w) zero no_attrs /\ trace w' = trace w.
Proof.
  intros Hf Ha. unfold tapsEndpointNew, memset0. erewrite bind_ok by (by apply malloc_succeeds). cbv beta iota.
  erewrite bind_ok by (apply modify_ok, lookup_insert_eq). rewrite ret_ok. eexists. splits; [done| |done].
  unfold set_heap. simpl. rewrite insert_insert_eq. split; simpl; try done.
  - apply lookup_insert_eq.
  - by intros [].
  - by intros [].
  - intros i Hi _. by apply lookup_insert_ne.
  - intros i [->|([] & ? & ?)]; [apply Hf; lia|done..].
  - apply fresh_from_insert; [lia|]. intros i Hi. apply Hf. lia.
Qed.

End setters.

(** ** Aliases *)

(** The endpoints of [q] are each other's aliases, in this order: [next] and
    [prev] agree, and the list ends on both sides. *)
Definition aliases (h : gmap loc obj) (q : list (loc * tapsEndpoint)) : Prop :=
  dseg h None None q /\ NoDup q.*1.

Section alias.
Context `{Machine}.

Lemma dseg_at h q1 l (x : tapsEndpoint) q2 :
  dseg h None None (q1 ++ (l, x) :: q2) ->
  h !! l = Some (OEndpoint (set_e_aliases (first_of None q2) (last_of None q1) x)).
Proof. intros Hq. apply dseg_app in Hq as [_ [Hl _]]. exact Hl. Qed.

Lemma load_alias w q1 l (x : tapsEndpoint) q2 :
  dseg (heap w) None None (q1 ++ (l, x) :: q2) ->
  load (Some l) w = (Ok (set_e_aliases (first_of None q2) (last_of None q1) x), w).
Proof. intros Hq. apply (load_ok (T := tapsEndpoint)). by apply dseg_at. Qed.

(** The loop stops at the end of the first list and the start of the second. *)
Lemma alias_loop_ok fuel : forall w p1 e1 x1 s1 p2 e2 x2 s2,
  dseg (heap w) None None (p1 ++ (e1, x1) :: s1) -> dseg (heap w) None None (p2 ++ (e2, x2) :: s2) ->
  (length s1 < fuel)%nat -> (length p2 < fuel)%nat ->
  alias_loop fuel (Some e1) (Some e2) w
  = (Ok (last_of None (p1 ++ (e1, x1) :: s1), first_of None (p2 ++ (e2, x2) :: s2)), w).
Proof.
  induction fuel as [|fuel IH]; intros w p1 e1 x1 s1 p2 e2 x2 s2 H1 H2 F1 F2; [lia|].
  cbn [alias_loop]. rewrite (bind_ok _ _ _ _ _ (load_alias _ _ _ _ _ H1)).
  rewrite (bind_ok _ _ _ _ _ (load_alias _ _ _ _ _ H2)).
  cbn [set_e_aliases e_nextAlias e_prevAlias].
  destruct s1 as [|[e1' x1'] s1]; destruct p2 as [|[e2' x2'] p2 _] using rev_ind; simpl in *.
  - by rewrite last_of_app_cons.
  - rewrite last_of_snoc. rewrite <- app_assoc in H2. simpl in H2. rewrite length_app in F2. simpl in F2.
    erewrite (IH w p1 e1 x1 [] p2 e2' x2' ((e2, x2) :: s2)); [|done|done|simpl; lia|lia].
    by rewrite <- app_assoc.
  - replace (p1 ++ (e1, x1) :: (e1', x1') :: s1) with ((p1 ++ [(e1, x1)]) ++ (e1', x1') :: s1) in *
      by (by rewrite <- app_assoc).
    rewrite (IH w (p1 ++ [(e1, x1)]) e1' x1' s1 [] e2 x2 s2); [done|done|done|lia|simpl; lia].
  - rewrite last_of_snoc. rewrite <- app_assoc in H2. simpl in H2. rewrite length_app in F2. simpl in F2.
    replace (p1 ++ (e1, x1) :: (e1', x1') :: s1) with ((p1 ++ [(e1, x1)]) ++ (e1', x1') :: s1) in *
      by (by rewrite <- app_assoc).
    erewrite (IH w (p1 ++ [(e1, x1)]) e1' x1' s1 p2 e2' x2' ((e2, x2) :: s2)); [|done|done|lia|lia].
    by rewrite <- (app_assoc p2).
Qed.

(** Joining two lists at the end of one and the start of the other. *)
Lemma alias_join w p1 t1 y1 t2 y2 s2 :
  dseg (heap w) None None (p1 ++ [(t1, y1)]) -> dseg (heap w) None None ((t2, y2) :: s2) ->
  NoDup ((p1 ++ [(t1, y1)]) ++ (t2, y2) :: s2).*1 ->
  exists w', (modify (Some t1) (set_nxt (Some t2) : tapsEndpoint -> tapsEndpoint) ;;
              modify (Some t2) (set_prv (Some t1) : tapsEndpoint -> tapsEndpoint) ;; mret 1) w = (Ok 1, w')
    /\ dseg (heap w') None None ((p1 ++ [(t1, y1)]) ++ (t2, y2) :: s2)
    /\ forall j, j <> t1 -> j <> t2 -> heap w' !! j = heap w !! j.
Proof.
  intros H1 H2 Hnd. rewrite fmap_app, fmap_app in Hnd. simpl in Hnd.
  apply NoDup_app in Hnd as (Hnd1 & Hdis & Hn2).
  pose proof Hn2 as [Ht2 _]%NoDup_cons. apply NoDup_app in Hnd1 as (_ & Hd1 & _).
  assert (t1 ∉ p1.*1) as Ht1 by (intros Hin; apply (Hd1 t1 Hin); set_solver).
  assert (t1 <> t2) as Hne by (intros ->; apply (Hdis t2); set_solver).
  pose proof (dseg_at _ _ _ _ _ H1) as L1. pose proof (dseg_at _ [] _ _ _ H2) as L2.
  erewrite bind_ok by (apply (modify_ok (T := tapsEndpoint)); exact L1).
  erewrite bind_ok by (apply (modify_ok (T := tapsEndpoint)); simpl; rewrite lookup_insert_ne by done; exact L2).
  rewrite ret_ok. eexists. splits; [done| |intros; simpl; by rewrite !lookup_insert_ne].
  simpl. apply dseg_app. split.
  - eapply dseg_frame; [|exact (dseg_set_next (heap w) None None (Some t2) p1 t1 y1 Ht1 H1)].
    intros j Hj. apply lookup_insert_ne. intros ->. apply (Hdis j); [by rewrite fmap_app in Hj|set_solver].
  - rewrite last_of_snoc.
    pose proof (dseg_set_prev (heap w) None (Some t1) None s2 t2 y2 Ht2 H2) as H2'.
    eapply dseg_frame; [|exact H2']. intros j Hj.
    destruct (decide (j = t2)) as [->|]; [by rewrite !lookup_insert_eq|]. rewrite !lookup_insert_ne; try done.
    intros ->. apply (Hdis j); set_solver.
Qed.

End alias.

(** ** Release *)

Section release.
Context `{Machine}.

(** The heap once the copy of attribute [k] is given back. *)
Definition drop_attr (k : str_attr) (x : tapsEndpoint) (h : gmap loc obj) : gmap loc obj :=
  if has k x then match get k x with Some l => delete l h | None => h end else h.

Lemma drop_attr_lookup k x h i :
  drop_attr k x h !! i = if decide (has k x = true /\ get k x = Some i) then None else h !! i.
Proof.
  unfold drop_attr. destruct (has k x), (get k x) as [l|]; case_decide as Hd; try (by destruct Hd); try done.
  - destruct Hd as [_ [= ->]]. apply lookup_delete_eq.
  - apply lookup_delete_ne. intros ->. by apply Hd.
Qed.

(** The blocks of the other attributes are still there. *)
Lemma free_attr h0 w e x a k h :
  endpoint_ok h0 w e x a -> (forall l, get k x = Some l -> h !! l = heap w !! l) ->
  (if has k x then free string (get k x) else mret tt) (set_heap h w) = (Ok tt, set_heap (drop_attr k x h) w).
Proof.
  intros [] Hh. specialize (eo_str0 k). unfold drop_attr. destruct (at_str a k) as [s|].
  - destruct eo_str0 as (-> & l & El & Hl). rewrite El. rewrite <- (Hh l El) in Hl.
    by rewrite (free_ok (T := string) l (set_heap h w) s).
  - by destruct eo_str0 as [-> _].
Qed.

Lemma drop_attr_other h0 w e x a k k' h l :
  endpoint_ok h0 w e x a -> k <> k' -> get k' x = Some l -> drop_attr k x h !! l = h !! l.
Proof.
  intros Ho Hk Hl. rewrite drop_attr_lookup. case_decide as Hd; [|done].
  destruct Hd as [_ Hd]. destruct Hk. by eapply eo_inj.
Qed.

Lemma drop_dec x i : owns x i \/ ~ owns x i.
Proof.
  assert (forall k, has k x = true /\ get k x = Some i \/ ~ (has k x = true /\ get k x = Some i)) as Hk.
  { intros k. destruct (decide (has k x = true /\ get k x = Some i)); tauto. }
  destruct (Hk Hostname) as [?|N1]; [left; by exists Hostname|]. destruct (Hk Service) as [?|N2]; [left; by exists Service|].
  destruct (Hk Proto_name) as [?|N3]; [left; by exists Proto_name|].
  destruct (Hk Interface) as [?|N4]; [left; by exists Interface|]. right. intros ([] & ?); tauto.
Qed.

(** tapsEndpointFree gives back the endpoint and its copies, and nothing else. *)
Lemma tapsEndpointFree_ok h0 w e x a :
  endpoint_ok h0 w e x a -> tapsEndpointFree (Some e) w = (Ok tt, set_heap h0 w).
Proof.
  intros Ho. pose proof Ho as []. unfold tapsEndpointFree.
  erewrite bind_ok by (apply (load_ok (T := tapsEndpoint)); exact eo_end0).
  replace w with (set_heap (heap w) w) at 1 by (by destruct w).
  pose proof (fun k k' h l => drop_attr_other h0 w e x a k k' h l Ho) as Hd.
  set (h1 := drop_attr Hostname x (heap w)). set (h2 := drop_attr Service x h1).
  set (h3 := drop_attr Proto_name x h2). set (h4 := drop_attr Interface x h3).
  erewrite bind_ok by (apply (free_attr h0 w e x a Hostname (heap w) Ho); done).
  erewrite bind_ok by (apply (free_attr h0 w e x a Service h1 Ho); intros l Hl; unfold h1; by rewrite (Hd Hostname Service)).
  erewrite bind_ok by (apply (free_attr h0 w e x a Proto_name h2 Ho); intros l Hl; unfold h2, h1;
    rewrite (Hd Service Proto_name), (Hd Hostname Proto_name) by done; done).
  erewrite bind_ok by (apply (free_attr h0 w e x a Interface h3 Ho); intros l Hl; unfold h3, h2, h1;
    rewrite (Hd Proto_name Interface), (Hd Service Interface), (Hd Hostname Interface) by done; done).
  rewrite eo_stun0, (bind_ok _ _ _ _ _ (ret_ok tt _)).
  assert (forall k, has k x = true -> get k x <> Some e) as Hne.
  { intros k Hk Hg. specialize (eo_str0 k). destruct (at_str a k); [|destruct eo_str0; congruence].
    destruct eo_str0 as (_ & l & El & Hl). simplify_eq. }
  assert (forall i, owns x i -> h4 !! i = None) as H4.
  { intros i (k & Hk & Hg). unfold h4, h3, h2, h1. rewrite !drop_attr_lookup.
    destruct k; repeat case_decide; done || tauto. }
  assert (forall i, ~ owns x i -> h4 !! i = heap w !! i) as H4'.
  { intros i Hi. unfold h4, h3, h2, h1. rewrite !drop_attr_lookup.
    repeat case_decide; try done; destruct Hi; eexists; eassumption. }
  rewrite (free_ok (T := tapsEndpoint) e (set_heap h4 w) x).
  2: { change (h4 !! e = Some (OEndpoint x)). rewrite H4'; [done|]. intros (k & ? & ?). by eapply Hne. }
  unfold set_heap. simpl. do 2 f_equal. apply map_eq. intros i.
  destruct (decide (i = e)) as [->|Hi]; [rewrite lookup_delete_eq; symmetry; apply eo_new0; by left|].
  rewrite lookup_delete_ne by done. destruct (drop_dec x i) as [Ho'|Ho'].
  - rewrite H4 by done. symmetry. apply eo_new0. by right.
  - rewrite H4' by done. by apply eo_frame0.
Qed.

End release.

(** ** What the getters read *)

Section address.
Context `{Machine} `{Net}.

Lemma port_field h0 w e x a : endpoint_ok h0 w e x a -> (if e_has_port x then e_port x else 0) = default 0 (at_port a).
Proof. intros [? ? ? Hp]. destruct (at_port a); simpl in *; [by destruct Hp as [-> ->]|by rewrite Hp]. Qed.

Lemma get_ipv4 h0 w e x a s :
  endpoint_ok h0 w e x a -> sa_family s = AF_INET ->
  tapsEndpointGetAddress (Some e) s w
  = (Ok (match at_ipv4 a with
         | Some n => (0, Sockaddr AF_INET (default 0 (at_port a)) n (sa_in6 s))
         | None => (-1, Sockaddr (sa_family s) (default 0 (at_port a)) (sa_in s) (sa_in6 s)) end), w).
Proof.
  intros He Hs. unfold tapsEndpointGetAddress.
  erewrite bind_ok by (apply (load_ok (T := tapsEndpoint)); exact (eo_end _ _ _ _ _ He)).
  rewrite (port_field h0 w e x a), Hs by done. pose proof (eo_ipv4 _ _ _ _ _ He) as E4.
  simpl. destruct (at_ipv4 a); simpl in E4; [by destruct E4 as [-> ->]|by rewrite E4].
Qed.

Lemma get_ipv6 h0 w e x a s :
  endpoint_ok h0 w e x a -> sa_family s = AF_INET6 ->
  tapsEndpointGetAddress (Some e) s w
  = (Ok (match at_ipv6 a with
         | Some n => (0, Sockaddr AF_INET6 (default 0 (at_port a)) (sa_in s) n)
         | None => (-1, Sockaddr (sa_family s) (default 0 (at_port a)) (sa_in s) (sa_in6 s)) end), w).
Proof.
  intros He Hs. unfold tapsEndpointGetAddress.
  erewrite bind_ok by (apply (load_ok (T := tapsEndpoint)); exact (eo_end _ _ _ _ _ He)).
  rewrite (port_field h0 w e x a), Hs by done. pose proof (eo_ipv6 _ _ _ _ _ He) as E6.
  simpl. destruct (at_ipv6 a); simpl in E6; [by destruct E6 as [-> ->]|by rewrite E6].
Qed.

Lemma get_property h0 w e x a name :
  endpoint_ok h0 w e x a -> name <> "interface"%string ->
  tapsEndpointGetProperty (Some e) name w = (Ok (spec_property name a), w).
Proof.
  intros [] Hn. unfold tapsEndpointGetProperty, spec_property.
  erewrite bind_ok by (apply (load_ok (T := tapsEndpoint)); exact eo_end0). cbv zeta.
  pose proof (eo_str0 Hostname) as S1. pose proof (eo_str0 Service) as S2. pose proof (eo_str0 Proto_name) as S3.
  simpl in S1, S2, S3.
  destruct (String.eqb name "ipv4"); [destruct (at_ipv4 a); simpl in eo_ipv5; [by destruct eo_ipv5 as [-> ->]|by rewrite eo_ipv5]|].
  destruct (String.eqb name "ipv6"); [destruct (at_ipv6 a); simpl in eo_ipv7; [by destruct eo_ipv7 as [-> ->]|by rewrite eo_ipv7]|].
  destruct (String.eqb name "hostname"); [|destruct (String.eqb name "service"); [|destruct (String.eqb name "protocol")]].
  - destruct (at_str a Hostname); [|by destruct S1 as [-> _]]. destruct S1 as (-> & l & -> & Hl).
    by erewrite bind_ok by (by apply (load_ok (T := string))).
  - destruct (at_str a Service); [|by destruct S2 as [-> _]]. destruct S2 as (-> & l & -> & Hl).
    by erewrite bind_ok by (by apply (load_ok (T := string))).
  - destruct (at_str a Proto_name); [|by destruct S3 as [-> _]]. destruct S3 as (-> & l & -> & Hl).
    by erewrite bind_ok by (by apply (load_ok (T := string))).
  - by destruct (String.eqb_spec name "interface").
Qed.

Lemma get_interface h0 w e x a :
  endpoint_ok h0 w e x a ->
  (at_str a Service = None -> tapsEndpointGetProperty (Some e) "interface" w = (Ok None, w))
  /\ (is_Some (at_str a Service) -> at_str a Interface = None ->
      tapsEndpointGetProperty (Some e) "interface" w = (Fault NullDeref, w)).
Proof.
  intros []. pose proof (eo_str0 Service) as S1. pose proof (eo_str0 Interface) as S2. simpl in S1, S2.
  split; [intros Hs|intros [s Hs] Hi]; rewrite Hs in S1; unfold tapsEndpointGetProperty;
    erewrite bind_ok by (apply (load_ok (T := tapsEndpoint)); exact eo_end0); simpl.
  - by destruct S1 as [-> _].
  - destruct S1 as [-> _]. rewrite Hi in S2. by destruct S2 as [_ ->].
Qed.

End address.

(** ** Properties *)

Section properties.
Context `{Machine} `{Net}.

(** C16: the requests that attach an attribute do what their specification
    says: the first value of each attribute is kept, a second one is refused
    with EBUSY, an address that does not parse with EINVAL, and a copy there is
    no memory for fails with ENOMEM, also for a service, where only strdup sets
    errno.  A refused request leaves every field of the endpoint as it was, an
    accepted one every field but those of its attribute, the STUN server and the
    aliases included, and no other block of memory changes.  (The endpoint has
    no STUN credentials of its own.) *)
Theorem endpoint_setters_refine h0 w e x a op rc eno a' :
  endpoint_ok h0 w e x a -> spec_op (malloc_ok (brk w)) op a = (rc, eno, a') ->
  exists x' w', run_ep_op (Some e) op w = (Ok rc, w')
    /\ endpoint_ok h0 w' e x' a' /\ only_sets op rc x x'
    /\ errno w' = default (errno w) eno /\ trace w' = trace w.
Proof. by apply ep_op_ok. Qed.

(** tapsEndpointGetProperty answers with the attribute that was attached,
    and with NULL for one that was not, for every name but "interface".  For
    "interface" the code looks at the flag of the service: an interface is not
    reported while there is no service, and with a service and no interface the
    code reads through NULL. *)
Lemma tapsEndpointGetProperty_reads h0 w e x a :
  endpoint_ok h0 w e x a ->
  (forall name, name <> "interface"%string ->
      tapsEndpointGetProperty (Some e) name w = (Ok (spec_property name a), w))
  /\ (at_str a Service = None -> tapsEndpointGetProperty (Some e) "interface" w = (Ok None, w))
  /\ (is_Some (at_str a Service) -> at_str a Interface = None ->
      tapsEndpointGetProperty (Some e) "interface" w = (Fault NullDeref, w)).
Proof.
  intros He. split; [intros name Hn; by apply (get_property h0 w e x)|by apply (get_interface h0 w e x)].
Qed.

(** tapsEndpointGetAddress fills the address of the family asked for and
    the port, which is 0 when none was attached; it fails when the endpoint has
    no address of that family or the family is unknown. *)
Lemma tapsEndpointGetAddress_reads h0 w e x a s :
  endpoint_ok h0 w e x a ->
  let port := default 0 (at_port a) in
  let fails := Sockaddr (sa_family s) port (sa_in s) (sa_in6 s) in
  (sa_family s = AF_INET -> tapsEndpointGetAddress (Some e) s w
     = (Ok (match at_ipv4 a with
            | Some n => (0, Sockaddr AF_INET port n (sa_in6 s))
            | None => (-1, fails) end), w))
  /\ (sa_family s = AF_INET6 -> tapsEndpointGetAddress (Some e) s w
     = (Ok (match at_ipv6 a with
            | Some n => (0, Sockaddr AF_INET6 port (sa_in s) n)
            | None => (-1, fails) end), w))
  /\ (sa_family s <> AF_INET -> sa_family s <> AF_INET6 -> tapsEndpointGetAddress (Some e) s w
     = (Ok (-1, fails), World (heap w) (brk w) EINVAL (trace w))).
Proof.
  intros He. cbv zeta. split; [intros; by apply (get_ipv4 h0 w e x a)|].
  split; [intros; by apply (get_ipv6 h0 w e x a)|]. intros N4 N6. unfold tapsEndpointGetAddress.
  erewrite bind_ok by (apply (load_ok (T := tapsEndpoint)); exact (eo_end _ _ _ _ _ He)).
  rewrite (port_field h0 w e x a) by done. by rewrite !(proj2 (Z.eqb_neq _ _)) by done.
Qed.

(** Aliasing two endpoints of different lists joins the lists, whichever
    members are named, and touches no other block. *)
Lemma tapsAddAlias_joins fuel w q1 q2 e1 e2 :
  aliases (heap w) q1 -> aliases (heap w) q2 -> NoDup (q1 ++ q2).*1 ->
  e1 ∈ q1.*1 -> e2 ∈ q2.*1 -> (length q1 <= fuel)%nat -> (length q2 <= fuel)%nat ->
  exists w', tapsAddAlias fuel (Some e1) (Some e2) w = (Ok 1, w')
    /\ aliases (heap w') (q1 ++ q2)
    /\ forall j, j ∉ (q1 ++ q2).*1 -> heap w' !! j = heap w !! j.
Proof.
  intros [D1 _] [D2 _] Hnd ([e1' x1] & -> & (p1 & s1 & ->)%list_elem_of_split)%list_elem_of_fmap
    ([e2' x2] & -> & (p2 & s2 & ->)%list_elem_of_split)%list_elem_of_fmap F1 F2.
  rewrite length_app in F1, F2. simpl in *.
  unfold tapsAddAlias. erewrite bind_ok by (apply alias_loop_ok; [exact D1|exact D2|lia|lia]). cbv beta iota.
  set (q1 := p1 ++ (e1', x1) :: s1) in *. set (q2 := p2 ++ (e2', x2) :: s2) in *.
  destruct q1 as [|[t1 y1] r1 _] eqn:Eq1 using rev_ind; [by destruct p1|].
  destruct q2 as [|[t2 y2] r2] eqn:Eq2; [by destruct p2|].
  rewrite last_of_snoc. cbn [first_of].
  destruct (alias_join w r1 t1 y1 t2 y2 r2 D1 D2 Hnd) as (w' & E & D & Hfr).
  exists w'. splits; [exact E|done|]. intros j Hj. apply Hfr; intros ->; apply Hj; rewrite !fmap_app; set_solver.
Qed.

(** Aliasing the same two endpoints twice closes the list into a ring, and
    the next request on them never returns, however long it runs. *)
Lemma tapsAddAlias_again_diverges w a b x y :
  a <> b -> aliases (heap w) [(a, x)] -> aliases (heap w) [(b, y)] ->
  exists w', (tapsAddAlias 2 (Some a) (Some b) ;; tapsAddAlias 2 (Some a) (Some b)) w = (Ok 1, w')
    /\ forall fuel, tapsAddAlias fuel (Some a) (Some b) w' = (Fault OutOfFuel, w').
Proof.
  intros Hab [[La _] _] [[Lb _] _]. simpl in La, Lb.
  eexists. split.
  - unfold tapsAddAlias. cbn [alias_loop]. steps. reflexivity.
  - set (w' := set_heap _ _).
    assert (exists x', heap w' !! a = Some (OEndpoint x') /\ e_nextAlias x' = Some b /\ e_prevAlias x' = Some b) as (x' & Ha & N1 & P1).
    { unfold w'. simpl. heap_look. eexists. by splits. }
    assert (exists y', heap w' !! b = Some (OEndpoint y') /\ e_nextAlias y' = Some a /\ e_prevAlias y' = Some a) as (y' & Hb & N2 & P2).
    { unfold w'. simpl. heap_look. eexists. by splits. }
    clearbody w'.
    assert (forall fuel, alias_loop fuel (Some a) (Some b) w' = (Fault OutOfFuel, w')
      /\ alias_loop fuel (Some b) (Some a) w' = (Fault OutOfFuel, w')) as Hloop.
    { induction fuel as [|fuel [IH1 IH2]]; [done|]. split; cbn [alias_loop]; steps.
      - by rewrite N1, P2.
      - by rewrite N2, P1. }
    intros fuel. unfold tapsAddAlias. apply bind_fault, Hloop.
Qed.

(** C26: the queries of an endpoint read the attributes attached.
    tapsEndpointGetProperty answers with the attribute, and with NULL for one
    that was not attached, for every name but "interface": there the code looks
    at the flag of the service, so with a service and no interface it reads
    through NULL.  tapsEndpointGetAddress fills the address of the family asked
    for and the port, which is 0 when none was attached, and fails when the
    endpoint has no address of that family or the family is unknown. *)
Theorem endpoint_queries_read h0 w e x a s :
  endpoint_ok h0 w e x a ->
  let port := default 0 (at_port a) in
  let fails := Sockaddr (sa_family s) port (sa_in s) (sa_in6 s) in
  (forall name, name <> "interface"%string ->
      tapsEndpointGetProperty (Some e) name w = (Ok (spec_property name a), w))
  /\ (is_Some (at_str a Service) -> at_str a Interface = None ->
      tapsEndpointGetProperty (Some e) "interface" w = (Fault NullDeref, w))
  /\ (sa_family s = AF_INET -> tapsEndpointGetAddress (Some e) s w
     = (Ok (match at_ipv4 a with Some n => (0, Sockaddr AF_INET port n (sa_in6 s)) | None => (-1, fails) end), w))
  /\ (sa_family s = AF_INET6 -> tapsEndpointGetAddress (Some e) s w
     = (Ok (match at_ipv6 a with Some n => (0, Sockaddr AF_INET6 port (sa_in s) n) | None => (-1, fails) end), w))
  /\ (sa_family s <> AF_INET -> sa_family s <> AF_INET6 -> tapsEndpointGetAddress (Some e) s w
     = (Ok (-1, fails), World (heap w) (brk w) EINVAL (trace w))).
Proof.
  intros He port fails. destruct (tapsEndpointGetProperty_reads h0 w e x a He) as (Hn & _ & Hi).
  destruct (tapsEndpointGetAddress_reads h0 w e x a s He) as (H4 & H6 & Ho). by splits.
Qed.

(** C25: aliasing two endpoints of different lists joins the lists, whichever
    members are named, and touches no other block.  Aliasing two single
    endpoints twice closes the list into a ring, and the next request on them
    never returns, however long it runs. *)
Theorem tapsAddAlias_outcomes fuel w q1 q2 e1 e2 :
  aliases (heap w) q1 -> aliases (heap w) q2 -> NoDup (q1 ++ q2).*1 ->
  e1 ∈ q1.*1 -> e2 ∈ q2.*1 -> (length q1 <= fuel)%nat -> (length q2 <= fuel)%nat ->
  (exists w', tapsAddAlias fuel (Some e1) (Some e2) w = (Ok 1, w')
    /\ aliases (heap w') (q1 ++ q2) /\ forall j, j ∉ (q1 ++ q2).*1 -> heap w' !! j = heap w !! j)
  /\ (length q1 = 1%nat -> length q2 = 1%nat ->
    exists w', (tapsAddAlias 2 (Some e1) (Some e2) ;; tapsAddAlias 2 (Some e1) (Some e2)) w = (Ok 1, w')
      /\ forall fuel, tapsAddAlias fuel (Some e1) (Some e2) w' = (Fault OutOfFuel, w')).
Proof.
  intros A1 A2 Hnd H1 H2 F1 F2. split; [by apply tapsAddAlias_joins|].
  destruct q1 as [|[a x] []], q2 as [|[b y] []]; try done. intros _ _. simpl in *.
  assert (e1 = a) as -> by set_solver. assert (e2 = b) as -> by set_solver.
  apply tapsAddAlias_again_diverges with x y; [|done..].
  apply NoDup_cons in Hnd as [Hnd _]. set_solver.
Qed.

(** C27: an endpoint gives back what it took: after any requests to attach
    attributes, refused and failed ones included, tapsEndpointFree leaves the
    heap as it was before tapsEndpointNew. *)
Theorem endpoint_lifetime_leaves_heap w ops :
  fresh_from (heap w) (brk w) -> malloc_ok (brk w) = true ->
  exists w', (endp ← tapsEndpointNew; run_ep_ops endp ops ;; tapsEndpointFree endp) w = (Ok tt, w')
    /\ heap w' = heap w /\ trace w' = trace w.
Proof.
  intros Hf Ha. destruct (tapsEndpointNew_ok w Hf Ha) as (w1 & E1 & Ho1 & T1).
  destruct (ep_ops_ok (heap w) (brk w) ops w1 zero no_attrs Ho1) as (x2 & w2 & a2 & E2 & Ho2 & T2).
  exists (set_heap (heap w) w2). erewrite bind_ok by exact E1. erewrite bind_ok by exact E2.
  splits; [by eapply tapsEndpointFree_ok|done|]. simpl. congruence.
Qed.

End properties.

(** ** The properties at sample endpoints *)

Module EndpointSample.

#[local] Existing Instance strict_machine.
#[local] Instance net : Net := {|
  inet_pton4 s := if String.eqb s "127.0.0.1" then Some 16777343 else None;
  inet_pton6 s := if String.eqb s "::1" then Some 1 else None;
  inet_ntop4 n := if n =? 16777343 then "127.0.0.1"%string else "0.0.0.0"%string;
  inet_ntop6 n := "::1"%string |}.

Definition empty : world := test_world [] 1.
Definition ops : list ep_op :=
  [OpStr Hostname "example.com"; OpPort 65616; OpIPv4 "127.0.0.1"; OpIPv4 "10.0.0.1"; OpIPv6 "x"; OpStr Interface "eth0"].

(** An endpoint with a host name, a service and the address 127.0.0.1, port 80. *)
Definition sample : tapsEndpoint :=
  Endpoint true true false true true false false false 16777343 0 80 (Sockaddr 0 0 0 0) None
    (Some 2%positive) (Some 3%positive) None None None None.
Definition sample_attrs : attrs :=
  Attrs (fun k => match k with Hostname => Some "example.com" | Service => Some "http" | _ => None end%string)
    (Some 80) (Some 16777343) None.
Definition state : world :=
  test_world [(1%positive, OEndpoint sample); (2%positive, OString "example.com"); (3%positive, OString "http")] 4.

Lemma sample_ok : endpoint_ok ∅ state 1 sample sample_attrs.
Proof.
  split; try done.
  - intros []; simpl; [split; [done|by exists 2%positive]|split; [done|by exists 3%positive]|done|done].
  - intros [] [] l; simpl; congruence.
  - intros i Hi Hn. unfold state. simpl. rewrite !lookup_insert_ne; [done|..]; intros <-; try done; apply Hn.
    + by exists Service.
    + by exists Hostname.
  - intros i Hi. unfold state in *. simpl in *. by rewrite !lookup_insert_ne by lia.
Qed.

Lemma endpoint_setters_refine_witness :
  exists x' w', run_ep_op (Some 1%positive) (OpStr Hostname "example.org") state = (Ok 0, w')
    /\ endpoint_ok ∅ w' 1 x' sample_attrs /\ only_sets (OpStr Hostname "example.org") 0 sample x'
    /\ errno w' = EBUSY /\ trace w' = [].
Proof.
  apply (endpoint_setters_refine ∅ state 1 sample sample_attrs (OpStr Hostname "example.org") 0 (Some EBUSY)
           sample_attrs sample_ok). reflexivity.
Defined.

Lemma endpoint_queries_read_witness :
  tapsEndpointGetProperty (Some 1%positive) "hostname" state = (Ok (Some "example.com"%string), state)
  /\ tapsEndpointGetProperty (Some 1%positive) "interface" state = (Fault NullDeref, state)
  /\ tapsEndpointGetAddress (Some 1%positive) (Sockaddr AF_INET 0 0 0) state
     = (Ok (0, Sockaddr AF_INET 80 16777343 0), state).
Proof.
  destruct (endpoint_queries_read ∅ state 1 sample sample_attrs (Sockaddr AF_INET 0 0 0) sample_ok) as (Hn & Hi & H4 & _).
  split; [exact (Hn "hostname"%string ltac:(done))|]. split; [exact (Hi (ex_intro _ _ eq_refl) eq_refl)|exact (H4 eq_refl)].
Defined.

(** Three endpoints, the first two aliases of each other. *)
Definition linked (n p : ptr) : tapsEndpoint := set_e_aliases n p zero.
Definition three : world :=
  test_world [(1%positive, OEndpoint (linked (Some 2%positive) None)); (2%positive, OEndpoint (linked None (Some 1%positive)));
              (3%positive, OEndpoint (linked None None))] 4.

Definition two : world :=
  test_world [(1%positive, OEndpoint (linked None None)); (2%positive, OEndpoint (linked None None))] 3.

Ltac solve_alias :=
  first [solve [simpl; lia]|solve [simpl; set_solver]|solve [apply (bool_decide_unpack _); by vm_compute]
        |split; [done|apply (bool_decide_unpack _); by vm_compute]].

Lemma tapsAddAlias_outcomes_witness :
  (exists w', tapsAddAlias 2 (Some 1%positive) (Some 3%positive) three = (Ok 1, w')
    /\ aliases (heap w') [(1%positive, linked (Some 2%positive) None); (2%positive, linked None (Some 1%positive)); (3%positive, linked None None)]
    /\ forall j, j ∉ [1%positive; 2%positive; 3%positive] -> heap w' !! j = heap three !! j)
  /\ (exists w', (tapsAddAlias 2 (Some 1%positive) (Some 2%positive) ;; tapsAddAlias 2 (Some 1%positive) (Some 2%positive)) two = (Ok 1, w')
    /\ forall fuel, tapsAddAlias fuel (Some 1%positive) (Some 2%positive) w' = (Fault OutOfFuel, w')).
Proof.
  split.
  - apply (tapsAddAlias_outcomes 2 three
      [(1%positive, linked (Some 2%positive) None); (2%positive, linked None (Some 1%positive))]
      [(3%positive, linked None None)]); solve_alias.
  - apply (tapsAddAlias_outcomes 1 two [(1%positive, linked None None)] [(2%positive, linked None None)]); solve_alias.
Defined.

Lemma endpoint_lifetime_leaves_heap_witness :
  exists w', (endp ← tapsEndpointNew; run_ep_ops endp ops ;; tapsEndpointFree endp) empty = (Ok tt, w')
    /\ heap w' = ∅ /\ trace w' = [].
Proof. apply (endpoint_lifetime_leaves_heap empty ops); [by intros j _; apply lookup_empty|done]. Defined.

End EndpointSample.
