(* ===== verification/Cfg.v ===== *)
(** * Cfg: taps_cfg.c

    The protocols of a host are YAML documents in the files of a directory.
    libyaml turns a file into events; the code runs an automaton over them that
    fills an array of the caller.  What libyaml makes of a file is a parameter:
    it may fail to set up its parser, and fail at any event.  The memory libyaml
    allocates for an event is libyaml's own and not in the heap of the model;
    the code never calls yaml_event_delete, so all of it leaks. *)

From S2P Require Import Prelude Structs Memory Queue TransportProperties.
Local Open Scope Z_scope.

(** ** Data *)

(** The event types the automaton tells apart; [YAML_OTHER] stands for those it
    passes over. *)
Inductive yaml_event :=
| YAML_STREAM_START
| YAML_STREAM_END
| YAML_DOCUMENT_START
| YAML_DOCUMENT_END
| YAML_MAPPING_START
| YAML_MAPPING_END
| YAML_SEQUENCE_START
| YAML_SEQUENCE_END
| YAML_SCALAR (value : string)
| YAML_OTHER.

(** What libyaml makes of a file: [None] when yaml_parser_initialize fails,
    otherwise the answers of yaml_parser_parse, [None] for a failure. *)
Definition yaml_input : Type := option (list (option yaml_event)).

Inductive yaml_level := NONE | STREAM | DOCUMENT | MAPPING | SEQUENCE.

#[export] Instance yaml_level_eq_dec : EqDecision yaml_level.
Proof. solve_decision. Defined.

(** The local variables of [tapsParseYaml]; [ps_list] is the whole array the
    caller owns and [ps_proto] the index of the row [proto] points to. *)
Record parser := Parser {
  ps_level : yaml_level;
  ps_key : ptr;
  ps_field : ptr;
  ps_got_name : bool;
  ps_got_path : bool;
  ps_got_proto : bool;
  ps_list : list tapsProtocol;
  ps_proto : nat;
  ps_numProtos : nat;
}.

Definition zero_protocol : tapsProtocol := Protocol None None None 0.

Definition set_level (l : yaml_level) (s : parser) : parser :=
  Parser l (ps_key s) (ps_field s) (ps_got_name s) (ps_got_path s) (ps_got_proto s) (ps_list s) (ps_proto s) (ps_numProtos s).
Definition set_key (p : ptr) (s : parser) : parser :=
  Parser (ps_level s) p (ps_field s) (ps_got_name s) (ps_got_path s) (ps_got_proto s) (ps_list s) (ps_proto s) (ps_numProtos s).
Definition set_field (p : ptr) (s : parser) : parser :=
  Parser (ps_level s) (ps_key s) p (ps_got_name s) (ps_got_path s) (ps_got_proto s) (ps_list s) (ps_proto s) (ps_numProtos s).
Definition set_got (n path pr : bool) (s : parser) : parser :=
  Parser (ps_level s) (ps_key s) (ps_field s) n path pr (ps_list s) (ps_proto s) (ps_numProtos s).
Definition set_list (l : list tapsProtocol) (s : parser) : parser :=
  Parser (ps_level s) (ps_key s) (ps_field s) (ps_got_name s) (ps_got_path s) (ps_got_proto s) l (ps_proto s) (ps_numProtos s).
Definition next_proto (s : parser) : parser :=
  Parser (ps_level s) (ps_key s) (ps_field s) (ps_got_name s) (ps_got_path s) (ps_got_proto s) (ps_list s)
    (S (ps_proto s)) (S (ps_numProtos s)).

Definition set_p_name (p : ptr) (x : tapsProtocol) : tapsProtocol := Protocol p (p_protocol x) (p_libpath x) (p_properties x).
Definition set_p_protocol (p : ptr) (x : tapsProtocol) : tapsProtocol := Protocol (p_name x) p (p_libpath x) (p_properties x).
Definition set_p_libpath (p : ptr) (x : tapsProtocol) : tapsProtocol := Protocol (p_name x) (p_protocol x) p (p_properties x).
Definition or_p_properties (m : Z) (x : tapsProtocol) : tapsProtocol :=
  Protocol (p_name x) (p_protocol x) (p_libpath x) (u16 (Z.lor (p_properties x) m)).

(** What an event leads to: the next turn, [out], or [fail]. *)
Inductive outcome := Continue (s : parser) | Out (s : parser) | Failed (s : parser).

(** ** The automaton *)

Section parse.
Context `{Machine}.

(** [proto->...], through the pointer into the caller's array. *)
Definition at_proto (f : tapsProtocol -> tapsProtocol) (s : parser) : M parser :=
  match ps_list s !! ps_proto s with
  | Some _ => mret (set_list (alter f (ps_proto s) (ps_list s)) s)
  | None => throw OutOfBounds
  end.

(** [STATE_MUST_BE(state)]. *)
Definition state_must_be (l : yaml_level) (s : parser) (k : M outcome) : M outcome :=
  if decide (ps_level s = l) then k else mret (Failed s).

(** The label [reset]. *)
Definition reset (s : parser) : M outcome :=
  free string (ps_key s) ;; mret (Continue (set_key None s)).

(** A scalar is a key, a member of the property list, or the value of a key. *)
Definition scalar (value : string) (s : parser) : M outcome :=
  field ← strdup value;
  let s := set_field field s in
  match ps_key s with
  | None => mret (Continue (set_field None (set_key field s)))
  | Some _ =>
      key ← load (ps_key s);
      if String.eqb key "properties" then
        f ← load field;
        let i := index_of f tapsPropertyNames in
        s ← (if Z.of_nat i <? TAPS_NUM_ABILITIES then at_proto (or_p_properties (Z.shiftl 1 (Z.of_nat i))) s else mret s);
        free string field ;;
        mret (Continue (set_field None s))
      else if String.eqb key "name" then
        s ← at_proto (set_p_name field) s;
        reset (set_field None (set_got true (ps_got_path s) (ps_got_proto s) s))
      else if String.eqb key "protocol" then
        s ← at_proto (set_p_protocol field) s;
        reset (set_field None (set_got (ps_got_name s) (ps_got_path s) true s))
      else if String.eqb key "libpath" then
        s ← at_proto (set_p_libpath field) s;
        reset (set_field None (set_got (ps_got_name s) true (ps_got_proto s) s))
      else reset s
  end.

Definition yaml_step (space : Z) (event : yaml_event) (s : parser) : M outcome :=
  match event with
  | YAML_STREAM_START => state_must_be NONE s (mret (Continue (set_level STREAM s)))
  | YAML_STREAM_END => state_must_be STREAM s (mret (Out (set_level NONE s)))
  | YAML_DOCUMENT_START =>
      state_must_be STREAM s
        (s ← at_proto (fun _ => zero_protocol) (set_level DOCUMENT s);
         mret (Continue (set_got false false false s)))
  | YAML_DOCUMENT_END =>
      state_must_be DOCUMENT s
        (if negb (ps_got_name s) || negb (ps_got_path s) || negb (ps_got_proto s) then mret (Failed s)
         else
           let s := next_proto (set_level STREAM s) in
           mret (if Z.of_nat (ps_numProtos s) =? space then Out s else Continue s))
  | YAML_MAPPING_START => state_must_be DOCUMENT s (mret (Continue (set_level MAPPING s)))
  | YAML_MAPPING_END => state_must_be MAPPING s (mret (Continue (set_level DOCUMENT s)))
  | YAML_SEQUENCE_START => state_must_be MAPPING s (mret (Continue (set_level SEQUENCE s)))
  | YAML_SEQUENCE_END =>
      state_must_be SEQUENCE s
        (let s := set_level MAPPING s in
         match ps_key s with
         | Some _ => free string (ps_key s) ;; mret (Continue (set_key None s))
         | None => mret (Continue s)
         end)
  | YAML_SCALAR value => scalar value s
  | YAML_OTHER => mret (Continue s)
  end.

(** The loop over the events; libyaml may fail at any of them. *)
Fixpoint yaml_loop (space : Z) (events : list (option yaml_event)) (s : parser) : M outcome :=
  match events with
  | [] => throw OutOfFuel
  | None :: _ => mret (Failed s)
  | Some e :: events =>
      o ← yaml_step space e s;
      match o with
      | Continue s => yaml_loop space events s
      | o => mret o
      end
  end.

(** [for (toDelete = protocol; toDelete <= proto; proto++)]: the counter of the
    loop is [proto]; [toDelete] stays at the first row. *)
Fixpoint delete_loop (fuel : nat) (protocol : nat) (l : list tapsProtocol) (proto : nat) : M unit :=
  match fuel with
  | O => throw OutOfFuel
  | S fuel =>
      if (protocol <=? proto)%nat then
        match l !! protocol with
        | None => throw OutOfBounds
        | Some x =>
            match p_protocol x with Some _ => free string (p_protocol x) | None => mret tt end ;;
            match p_libpath x with Some _ => free string (p_libpath x) | None => mret tt end ;;
            delete_loop fuel protocol l (S proto)
        end
      else mret tt
  end.

(** [protocol] is the first row of [l] to fill.  Returns the count and the rows. *)
Definition tapsParseYaml (fuel : nat) (yaml : yaml_input) (l : list tapsProtocol)
    (protocol : nat) (space : Z) : M (Z * list tapsProtocol) :=
  match yaml with
  | None => mret (0, l)
  | Some events =>
      o ← yaml_loop space events (Parser NONE None None false false false l protocol 0);
      match o with
      | Out s | Continue s => mret (Z.of_nat (ps_numProtos s), ps_list s)
      | Failed s =>
          match ps_key s with Some _ => free string (ps_key s) | None => mret tt end ;;
          match ps_field s with Some _ => free string (ps_field s) | None => mret tt end ;;
          delete_loop fuel protocol (ps_list s) (ps_proto s) ;;
          mret (0, ps_list s)
      end
  end.

(** ** The files *)

Definition TAPS_CONF_PATH : string := "/etc/taps".

(** [strlen] and the last characters of a name. *)
Definition strlen (s : string) : Z := Z.of_nat (String.length s).
Definition last_chars (n : nat) (s : string) : string := String.substring (String.length s - n) n s.

(** An entry of the directory: its name and, when it can be opened, what libyaml
    makes of it. *)
Record dirent := Dirent { d_name : string; d_events : option yaml_input }.

(** The loop over the directory.  [fullPath] has 255 bytes, of which the path
    and a slash take ten. *)
Fixpoint update_loop (fuel : nat) (entries : list dirent) (l : list tapsProtocol) (slotsRemaining numProtos : Z)
    (proto : nat) : M (Z * list tapsProtocol) :=
  match entries with
  | [] => mret (numProtos, l)
  | entry :: entries =>
      if strlen (d_name entry) <? 6 then update_loop fuel entries l slotsRemaining numProtos proto
      else if negb (String.eqb (last_chars 4 (d_name entry)) "yaml") then update_loop fuel entries l slotsRemaining numProtos proto
      else if 255 <? strlen TAPS_CONF_PATH + 1 + strlen (d_name entry) + 1 then throw OutOfBounds
      else match d_events entry with
           | None => update_loop fuel entries l slotsRemaining numProtos proto
           | Some yaml =>
               '(numProtos, l) ← tapsParseYaml fuel yaml l proto (slotsRemaining - numProtos);
               if numProtos =? slotsRemaining then mret (numProtos, l)
               else update_loop fuel entries l slotsRemaining numProtos (Z.to_nat numProtos)
           end
  end.

(** [directory]: the entries, [None] when there is no such directory. *)
Definition tapsUpdateProtocols (fuel : nat) (directory : option (list dirent)) (l : list tapsProtocol)
    (slotsRemaining : Z) : M (Z * list tapsProtocol) :=
  match directory with
  | None => mret (-1, l)
  | Some entries => update_loop fuel entries l slotsRemaining 0 0
  end.

End parse.

(** ** What a file describes *)

(** A protocol as it is written in a document: its name, the name of the
    protocol, the path of its library, and its abilities. *)
Record description := Description {
  ds_name : string;
  ds_protocol : string;
  ds_libpath : string;
  ds_properties : list string;
}.

(** The events of a document, and of a file of documents. *)
Definition document (d : description) : list yaml_event :=
  [YAML_DOCUMENT_START; YAML_MAPPING_START;
   YAML_SCALAR "name"; YAML_SCALAR (ds_name d);
   YAML_SCALAR "protocol"; YAML_SCALAR (ds_protocol d);
   YAML_SCALAR "libpath"; YAML_SCALAR (ds_libpath d);
   YAML_SCALAR "properties"; YAML_SEQUENCE_START]
  ++ map YAML_SCALAR (ds_properties d)
  ++ [YAML_SEQUENCE_END; YAML_MAPPING_END; YAML_DOCUMENT_END].

Definition file (ds : list description) : yaml_input :=
  Some (map Some (YAML_STREAM_START :: concat (map document ds) ++ [YAML_STREAM_END])).

(** The mask of a list of abilities; names the table does not have add nothing. *)
Definition ability (name : string) : Z :=
  let i := index_of name tapsPropertyNames in
  if Z.of_nat i <? TAPS_NUM_ABILITIES then Z.shiftl 1 (Z.of_nat i) else 0.

Definition abilities (names : list string) (m : Z) : Z :=
  fold_left (fun m name => u16 (Z.lor m (ability name))) names m.

(** Row [x] holds the description [d], its strings in [h]. *)
Definition describes (h : gmap loc obj) (x : tapsProtocol) (d : description) : Prop :=
  (exists l, p_name x = Some l /\ h !! l = Some (OString (ds_name d)))
  /\ (exists l, p_protocol x = Some l /\ h !! l = Some (OString (ds_protocol d)))
  /\ (exists l, p_libpath x = Some l /\ h !! l = Some (OString (ds_libpath d)))
  /\ p_properties x = abilities (ds_properties d) 0.

(** ** Reading what was written *)

(** Memory has only grown: what was below the next address is as it was. *)
Definition grows (w w' : world) : Prop :=
  (brk w <= brk w')%positive /\ trace w' = trace w
  /\ (forall j, (j < brk w)%positive -> heap w' !! j = heap w !! j)
  /\ (fresh_from (heap w) (brk w) -> fresh_from (heap w') (brk w')).

#[export] Instance grows_preorder : PreOrder grows.
Proof.
  split; [by intros w|]. intros w1 w2 w3 (B1 & T1 & H1 & F1) (B2 & T2 & H2 & F2). unfold grows. splits.
  - lia.
  - congruence.
  - intros j Hj. rewrite H2 by lia. by apply H1.
  - auto.
Qed.

(** The two heaps differ in the blocks [cs] only. *)
Definition only (cs : list loc) (h h' : gmap loc obj) : Prop := forall j, j ∉ cs -> h' !! j = h !! j.

Lemma only_refl cs h : only cs h h.
Proof. by intros j _. Qed.

Lemma only_trans cs1 cs2 h h1 h2 : only cs1 h h1 -> only cs2 h1 h2 -> only (cs1 ++ cs2) h h2.
Proof. intros O1 O2 j Hj. rewrite O2, O1; [done|set_solver..]. Qed.

(** When they do not differ there either, they are the same. *)
Lemma only_same cs h h' : only cs h h' -> (forall j, j ∈ cs -> h' !! j = h !! j) -> h' = h.
Proof. intros Ho Hs. apply map_eq. intros j. destruct (decide (j ∈ cs)); auto. Qed.

(** The three keys whose value is kept. *)
Inductive attribute := Name | Protocol_name | Libpath.

Definition key_of (a : attribute) : string :=
  match a with Name => "name" | Protocol_name => "protocol" | Libpath => "libpath" end.
Definition set_attribute (a : attribute) : ptr -> tapsProtocol -> tapsProtocol :=
  match a with Name => set_p_name | Protocol_name => set_p_protocol | Libpath => set_p_libpath end.
Definition is_name (a : attribute) : bool := match a with Name => true | _ => false end.
Definition is_path (a : attribute) : bool := match a with Libpath => true | _ => false end.
Definition is_proto (a : attribute) : bool := match a with Protocol_name => true | _ => false end.

Ltac parser_simpl :=
  unfold set_got, set_list, set_level, set_key, set_field, next_proto;
  cbn [ps_level ps_key ps_field ps_got_name ps_got_path ps_got_proto ps_list ps_proto ps_numProtos].

(** The strings of row [x] are three blocks, one after the other, from [b] on
    and below [b'].  Rows one after the other have them in this order. *)
Definition row_in (b b' : loc) (x : tapsProtocol) : Prop :=
  exists c1 c2 c3, p_name x = Some c1 /\ p_protocol x = Some c2 /\ p_libpath x = Some c3
    /\ (b <= c1)%positive /\ (c1 < c2)%positive /\ (c2 < c3)%positive /\ (c3 < b')%positive.

Fixpoint rows_in (b b' : loc) (rows : list tapsProtocol) : Prop :=
  match rows with
  | [] => (b <= b')%positive
  | x :: rows => exists m, row_in b m x /\ rows_in m b' rows
  end.

(** The blocks of the strings of a row, and of all rows. *)
Definition strings_of (x : tapsProtocol) : list loc := omap id [p_name x; p_protocol x; p_libpath x].
Definition strings (rows : list tapsProtocol) : list loc := rows ≫= strings_of.

(** Between [w] and [w'] the rows of [l] from [p] on have been replaced by rows
    that hold the descriptions [ds], with strings of their own, and nothing else
    has been allocated for good. *)
Definition filled (w w' : world) (l l' : list tapsProtocol) (p : nat) (ds : list description) : Prop :=
  exists rows, l' = take p l ++ rows ++ drop (p + length ds) l
    /\ Forall2 (describes (heap w')) rows ds /\ rows_in (brk w) (brk w') rows
    /\ only (strings rows) (heap w) (heap w').

Section reading.
Context `{Machine}.
Hypothesis memory : forall l, malloc_ok l = true.

Lemma yaml_loop_cons space e es s s' w w' :
  yaml_step space e s w = (Ok (Continue s'), w') ->
  yaml_loop space (Some e :: es) s w = yaml_loop space es s' w'.
Proof. intros E. cbn [yaml_loop]. by erewrite bind_ok by exact E. Qed.

Lemma grows_alloc w o :
  grows w (World (<[brk w := o]> (heap w)) (Pos.succ (brk w)) (errno w) (trace w)).
Proof.
  unfold grows. splits; simpl; [lia|done|intros; by rewrite lookup_insert_ne by lia|].
  intros Hf. apply fresh_from_insert; [lia|]. intros j Hj. apply Hf. lia.
Qed.

Lemma at_proto_ok f s x w :
  ps_list s !! ps_proto s = Some x -> at_proto f s w = (Ok (set_list (alter f (ps_proto s) (ps_list s)) s), w).
Proof. intros E. unfold at_proto. by rewrite E. Qed.

(** A key: a new string. *)
Lemma key_ok v s w :
  ps_key s = None ->
  scalar v s w = (Ok (Continue (set_field None (set_key (Some (brk w)) s))),
                  World (<[brk w := OString v]> (heap w)) (Pos.succ (brk w)) (errno w) (trace w)).
Proof.
  intros Hk. unfold scalar. erewrite bind_ok by (by apply strdup_ok).
  change (ps_key (set_field (Some (brk w)) s)) with (ps_key s). by rewrite Hk.
Qed.

(** The value of a kept key: the string goes to the row, the key is released. *)
Lemma value_ok a v s k x w :
  ps_key s = Some k -> heap w !! k = Some (OString (key_of a)) -> (k < brk w)%positive ->
  ps_list s !! ps_proto s = Some x ->
  scalar v s w
  = (Ok (Continue (Parser (ps_level s) None None (is_name a || ps_got_name s) (is_path a || ps_got_path s)
           (is_proto a || ps_got_proto s) (alter (set_attribute a (Some (brk w))) (ps_proto s) (ps_list s))
           (ps_proto s) (ps_numProtos s))),
     World (delete k (<[brk w := OString v]> (heap w))) (Pos.succ (brk w)) (errno w) (trace w)).
Proof.
  intros Hk Hs Hlt Hx. unfold scalar. erewrite bind_ok by (by apply strdup_ok). cbv zeta.
  change (ps_key (set_field (Some (brk w)) s)) with (ps_key s). rewrite Hk.
  erewrite bind_ok by (apply (load_ok (T := string)); simpl; rewrite lookup_insert_ne by lia; exact Hs).
  destruct a; simpl; erewrite bind_ok by (by apply (at_proto_ok _ _ x)); unfold reset;
    (erewrite bind_ok by (simpl; rewrite Hk; eapply (free_ok (T := string)); simpl;
                          rewrite lookup_insert_ne by lia; exact Hs)); done.
Qed.

(** A key and its value. *)
Lemma pair_ok a v space es gn gp gr l p n x w :
  l !! p = Some x -> fresh_from (heap w) (brk w) ->
  exists w' c, yaml_loop space (Some (YAML_SCALAR (key_of a)) :: Some (YAML_SCALAR v) :: es)
      (Parser MAPPING None None gn gp gr l p n) w
    = yaml_loop space es (Parser MAPPING None None (is_name a || gn) (is_path a || gp) (is_proto a || gr)
        (alter (set_attribute a (Some c)) p l) p n) w'
    /\ grows w w' /\ heap w' !! c = Some (OString v) /\ (brk w <= c < brk w')%positive
    /\ only [c] (heap w) (heap w').
Proof.
  intros Hx Hfr. set (w1 := World (<[brk w := OString (key_of a)]> (heap w)) (Pos.succ (brk w)) (errno w) (trace w)).
  erewrite yaml_loop_cons by (by apply key_ok). fold w1.
  erewrite yaml_loop_cons by (apply (value_ok a v _ (brk w) x w1); [done|apply lookup_insert_eq|simpl; lia|exact Hx]).
  eexists _, (brk w1). splits; simpl.
  - reflexivity.
  - destruct (grows_alloc w (OString (key_of a))) as (_ & _ & H1 & F1).
    destruct (grows_alloc w1 (OString v)) as (_ & _ & H2 & F2). unfold grows. splits; simpl; [lia|done|..].
    + intros j Hj. rewrite lookup_delete_ne by lia. rewrite !lookup_insert_ne by lia. done.
    + intros Hf. apply fresh_from_delete, F2, F1, Hf.
  - cbn [heap]. rewrite lookup_delete_ne by lia. apply lookup_insert_eq.
  - cbn [brk]; lia.
  - cbn [brk]; lia.
  - intros j Hj. simpl in Hj. assert (j <> brk w1) by set_solver. cbn [heap w1] in *.
    destruct (decide (j = brk w)) as [->|]; [rewrite lookup_delete_eq; symmetry; apply Hfr; lia|].
    by rewrite lookup_delete_ne, !lookup_insert_ne by (done || simpl; lia).
Qed.

(** A member of the property list: its bit is set, the string is released. *)
Lemma property_ok v s k x w :
  ps_key s = Some k -> heap w !! k = Some (OString "properties") -> fresh_from (heap w) (brk w) ->
  ps_list s !! ps_proto s = Some x -> 0 <= p_properties x < 2 ^ 16 ->
  exists s', scalar v s w = (Ok (Continue s'), set_brk (Pos.succ (brk w)) w)
    /\ s' = set_field None (set_list (alter (or_p_properties (ability v)) (ps_proto s) (ps_list s)) s).
Proof.
  intros Hk Hs Hf Hx Hp. pose proof (fresh_from_lt _ _ _ _ Hf Hs).
  assert (heap w !! brk w = None) as Hb by (apply Hf; lia).
  unfold scalar. erewrite bind_ok by (by apply strdup_ok). cbv zeta.
  change (ps_key (set_field (Some (brk w)) s)) with (ps_key s). rewrite Hk.
  erewrite bind_ok by (apply (load_ok (T := string)); simpl; rewrite lookup_insert_ne by lia; exact Hs).
  rewrite String.eqb_refl. erewrite bind_ok by (apply (load_ok (T := string)); apply lookup_insert_eq).
  unfold ability. cbv zeta. destruct (Z.of_nat (index_of v tapsPropertyNames) <? TAPS_NUM_ABILITIES) eqn:Ei.
  - erewrite bind_ok by (by apply (at_proto_ok _ _ x)).
    erewrite bind_ok by (eapply (free_ok (T := string)); apply lookup_insert_eq).
    rewrite ret_ok. eexists. split; [|done].
    unfold set_heap, set_brk. simpl. by rewrite delete_insert_id.
  - erewrite bind_ok by apply ret_ok. erewrite bind_ok by (eapply (free_ok (T := string)); apply lookup_insert_eq).
    rewrite ret_ok. eexists. split; [unfold set_heap, set_brk; simpl; by rewrite delete_insert_id|].
    destruct s as [lv ky fd gn gp gr l p n]. simpl in *. unfold set_field, set_list. simpl. f_equal.
    symmetry. apply list_eq. intros i. destruct (decide (i = p)) as [->|].
    + rewrite list_lookup_alter_eq, Hx. simpl. f_equal. destruct x as [a b c m]. unfold or_p_properties. simpl.
      rewrite Z.lor_0_r. by rewrite wrap_small.
    + by rewrite list_lookup_alter_ne.
Qed.

Lemma alter_at {A} (f : A -> A) (l : list A) p y : l !! p = Some y -> alter f p l = <[p := f y]> l.
Proof.
  intros Hp. apply list_eq. intros i. destruct (decide (i = p)) as [->|].
  - rewrite list_lookup_alter_eq, Hp, list_lookup_insert_eq; [done|]. by eapply lookup_lt_Some.
  - by rewrite list_lookup_alter_ne, list_lookup_insert_ne.
Qed.

(** The members of the property list. *)
Lemma properties_ok space names : forall rest k gn gp gr l p n x w,
  heap w !! k = Some (OString "properties") -> fresh_from (heap w) (brk w) ->
  l !! p = Some x -> 0 <= p_properties x < 2 ^ 16 ->
  exists w', yaml_loop space (map Some (map YAML_SCALAR names) ++ rest) (Parser SEQUENCE (Some k) None gn gp gr l p n) w
    = yaml_loop space rest (Parser SEQUENCE (Some k) None gn gp gr
        (<[p := Protocol (p_name x) (p_protocol x) (p_libpath x) (abilities names (p_properties x))]> l) p n) w'
    /\ grows w w' /\ heap w' = heap w.
Proof.
  induction names as [|v names IH]; intros rest k gn gp gr l p n x w Hk Hf Hx Hp.
  - exists w. splits; [|done|done]. simpl. rewrite list_insert_id; [done|]. by destruct x.
  - destruct (property_ok v (Parser SEQUENCE (Some k) None gn gp gr l p n) k x w) as (s' & E & ->); [done..|].
    simpl map. simpl app. erewrite yaml_loop_cons by exact E.
    set (w1 := set_brk (Pos.succ (brk w)) w). unfold set_field, set_list. cbn [ps_level ps_key ps_got_name ps_got_path ps_got_proto ps_list ps_proto ps_numProtos].
    rewrite (alter_at _ _ _ _ Hx).
    assert (grows w w1) as Hg.
    { unfold grows, w1. simpl. splits; [lia|done|done|]. intros _ j Hj. apply Hf. lia. }
    pose proof (lookup_lt_Some _ _ _ Hx).
    destruct (IH rest k gn gp gr (<[p := or_p_properties (ability v) x]> l) p n (or_p_properties (ability v) x) w1) as (w2 & E2 & Hg2 & Eh2);
      [exact Hk|by apply Hg|by apply list_lookup_insert_eq|apply wrap_bound; lia|].
    exists w2. rewrite E2. splits; [|by etrans|done].
    rewrite list_insert_insert_eq. done.
Qed.

Definition described (c1 c2 c3 : loc) (d : description) : tapsProtocol :=
  Protocol (Some c1) (Some c2) (Some c3) (abilities (ds_properties d) 0).

(** The next key and value, of attribute [a]; the row is the one inserted. *)
Ltac next_pair a w' c G Hc B O :=
  match goal with
  | |- context [yaml_loop ?sp (Some (YAML_SCALAR _) :: Some (YAML_SCALAR ?v) :: ?es)
                  (Parser MAPPING None None ?gn ?gp ?gr (<[?p := ?x]> ?l) ?p ?n) ?w] =>
      let E := fresh in
      destruct (pair_ok a v sp es gn gp gr (<[p := x]> l) p n x w) as (w' & c & E & G & Hc & B & O);
        [by apply list_lookup_insert_eq|by repeat match goal with H : grows _ _ |- _ => apply H; clear H end|];
      simpl key_of in E; rewrite E; clear E;
      rewrite (alter_at _ (<[p := x]> l) p x), list_insert_insert_eq by (by apply list_lookup_insert_eq);
      cbn [set_attribute set_p_name set_p_protocol set_p_libpath p_name p_protocol p_libpath p_properties
           is_name is_path is_proto orb zero_protocol]
  end.

(** The list of properties, with its key, leaves the heap as it was. *)
Lemma property_list_ok space names rest gn gp gr l p n x w :
  fresh_from (heap w) (brk w) -> l !! p = Some x -> 0 <= p_properties x < 2 ^ 16 ->
  exists w', yaml_loop space (Some (YAML_SCALAR "properties") :: Some YAML_SEQUENCE_START
        :: map Some (map YAML_SCALAR names) ++ Some YAML_SEQUENCE_END :: rest) (Parser MAPPING None None gn gp gr l p n) w
    = yaml_loop space rest (Parser MAPPING None None gn gp gr
        (<[p := Protocol (p_name x) (p_protocol x) (p_libpath x) (abilities names (p_properties x))]> l) p n) w'
    /\ grows w w' /\ heap w' = heap w.
Proof.
  intros Hf Hx Hp. set (w1 := World (<[brk w := OString "properties"]> (heap w)) (Pos.succ (brk w)) (errno w) (trace w)).
  pose proof (grows_alloc w (OString "properties")) as G1. fold w1 in G1.
  erewrite yaml_loop_cons by (by apply key_ok). fold w1. parser_simpl. erewrite yaml_loop_cons by done. parser_simpl.
  destruct (properties_ok space names (Some YAML_SEQUENCE_END :: rest) (brk w) gn gp gr l p n x w1) as (w2 & E2 & G2 & Eh2);
    [apply lookup_insert_eq|by apply G1|done|done|].
  rewrite E2. clear E2. erewrite yaml_loop_cons.
  2: { simpl. unfold state_must_be. simpl.
       erewrite bind_ok by (apply (free_ok (T := string) _ _ "properties"%string); rewrite Eh2; apply lookup_insert_eq). done. }
  parser_simpl. eexists. split; [reflexivity|].
  assert (delete (brk w) (heap w2) = heap w) as Eh by (rewrite Eh2; simpl; by rewrite delete_insert_id by (apply Hf; lia)).
  split; [|exact Eh]. destruct G1 as (?&?&_&_), G2 as (?&?&_&F2). unfold grows. simpl. rewrite Eh. splits; [simpl in *; lia|simpl in *; congruence|done|].
  intros _. rewrite <- Eh. apply fresh_from_delete. apply F2. intros k Hk. simpl. rewrite lookup_insert_ne by (simpl in Hk; lia).
  apply Hf. simpl in Hk. lia.
Qed.

(** A whole document fills the next row. *)
Lemma document_ok space d rest gn gp gr l p n x0 w :
  fresh_from (heap w) (brk w) -> l !! p = Some x0 ->
  exists w' x, yaml_loop space (map Some (document d) ++ rest) (Parser STREAM None None gn gp gr l p n) w
    = (let s := Parser STREAM None None true true true (<[p := x]> l) (S p) (S n) in
       if Z.of_nat (S n) =? space then mret (Out s) else yaml_loop space rest s) w'
    /\ grows w w' /\ describes (heap w') x d
    /\ row_in (brk w) (brk w') x /\ only (strings_of x) (heap w) (heap w').
Proof.
  intros Hf Hx. pose proof (lookup_lt_Some _ _ _ Hx) as Hlt.
  unfold document. rewrite !map_app, <- !app_assoc. simpl map. simpl app.
  erewrite yaml_loop_cons.
  2: { simpl. unfold state_must_be. simpl. erewrite bind_ok by (by apply (at_proto_ok _ _ x0)). done. }
  parser_simpl. erewrite yaml_loop_cons by done. parser_simpl. rewrite (alter_at _ _ _ _ Hx).
  next_pair Name w1 c1 G1 H1 B1 O1. next_pair Protocol_name w2 c2 G2 H2 B2 O2. next_pair Libpath w3 c3 G3 H3 B3 O3.
  assert (grows w w3) as G03 by (etrans; [exact G1|etrans; [exact G2|exact G3]]).
  change (set_p_libpath (Some c3) _) with (Protocol (Some c1) (Some c2) (Some c3) 0).
  edestruct (property_list_ok space (ds_properties d) (Some YAML_MAPPING_END :: Some YAML_DOCUMENT_END :: rest) true true true
      (<[p := Protocol (Some c1) (Some c2) (Some c3) 0]> l) p n (Protocol (Some c1) (Some c2) (Some c3) 0) w3) as (w4 & E4 & G4 & Eh4);
    [apply G03, Hf|by apply list_lookup_insert_eq|simpl; lia|].
  rewrite E4. clear E4. cbn [p_name p_protocol p_libpath p_properties]. rewrite list_insert_insert_eq.
  erewrite yaml_loop_cons by done. parser_simpl. exists w4, (described c1 c2 c3 d).
  destruct G1 as (?&?&K1&_), G2 as (?&?&K2&_), G3 as (?&?&K3&_). splits.
  - cbn [yaml_loop yaml_step]. unfold state_must_be. parser_simpl. rewrite decide_True by done.
    cbn [negb orb]. erewrite bind_ok by apply ret_ok. by destruct (Z.of_nat (S n) =? space).
  - by etrans.
  - unfold describes, described; simpl. rewrite Eh4. splits; [exists c1|exists c2|exists c3|done]; (split; [done|]).
    + by rewrite K3, K2 by lia.
    + by rewrite K3 by lia.
    + done.
  - destruct G4 as (?&_). exists c1, c2, c3. simpl in *. splits; done || lia.
  - rewrite Eh4. apply (only_trans [c1] ([c2] ++ [c3]) _ (heap w1)); [done|]. by apply (only_trans _ _ _ (heap w2)).
Qed.

Lemma describes_grows w w' b x d :
  describes (heap w) x d -> row_in b (brk w) x -> grows w w' -> describes (heap w') x d.
Proof.
  intros (D1 & D2 & D3 & D4) (c1 & c2 & c3 & E1 & E2 & E3 & H1 & H2 & H3 & H4) (_ & _ & Hg & _).
  unfold describes. rewrite E1, E2, E3 in *. splits; [exists c1|exists c2|exists c3|done]; (split; [done|]);
    rewrite Hg by lia; [destruct D1 as (? & [= <-] & ?)|destruct D2 as (? & [= <-] & ?)|destruct D3 as (? & [= <-] & ?)]; done.
Qed.

Lemma row_in_le b b' c x : row_in b b' x -> (b' <= c)%positive -> row_in b c x.
Proof. intros (c1 & c2 & c3 & E1 & E2 & E3 & H1 & H2 & H3 & H4) Hc. exists c1, c2, c3. splits; done || lia. Qed.

(** One row more. *)
Lemma filled_cons w w1 w2 l l' p d ds x :
  (p + S (length ds) <= length l)%nat -> describes (heap w1) x d -> row_in (brk w) (brk w1) x -> grows w1 w2 ->
  only (strings_of x) (heap w) (heap w1) ->
  filled w1 w2 (<[p := x]> l) l' (S p) ds -> filled w w2 l l' p (d :: ds).
Proof.
  intros Hl Hd Hb Hg Ho (rows & -> & Hrows & Hin & Ho'). exists (x :: rows). splits.
  - rewrite (take_S_r _ p x) by (apply list_lookup_insert_eq; lia).
    rewrite take_insert_ge, drop_insert_lt, <- app_assoc by lia. simpl. by rewrite Nat.add_succ_r.
  - constructor; [by eapply describes_grows|done].
  - simpl. by exists (brk w1).
  - by apply (only_trans (strings_of x) (strings rows) _ (heap w1)).
Qed.

Lemma documents_ok space ds : forall gn gp gr l p n w,
  fresh_from (heap w) (brk w) -> (p + length ds <= length l)%nat -> Z.of_nat (n + length ds) <= space ->
  exists w' s', yaml_loop space (map Some (concat (map document ds) ++ [YAML_STREAM_END]))
      (Parser STREAM None None gn gp gr l p n) w = (Ok (Out s'), w')
    /\ ps_numProtos s' = (n + length ds)%nat /\ grows w w' /\ filled w w' l (ps_list s') p ds.
Proof.
  induction ds as [|d ds IH]; intros gn gp gr l p n w Hf Hl Hs; simpl length in *.
  - exists w. eexists. split; [done|]. split; [simpl; lia|]. split; [done|].
    exists []. splits; [simpl; by rewrite Nat.add_0_r, take_drop|done|simpl; lia|done].
  - destruct (lookup_lt_is_Some_2 l p) as [x0 Hx]; [lia|].
    change (concat (map document (d :: ds))) with (document d ++ concat (map document ds)).
    rewrite <- app_assoc, map_app.
    destruct (document_ok space d (map Some (concat (map document ds) ++ [YAML_STREAM_END])) gn gp gr l p n x0 w Hf Hx)
      as (w1 & x & -> & G1 & D1 & Hb & Ho). cbv zeta.
    destruct (Z.eqb_spec (Z.of_nat (S n)) space) as [Heq|Hne].
    + assert (ds = []) as -> by (destruct ds; [done|simpl in *; lia]).
      exists w1. eexists. split; [done|]. split; [simpl; lia|]. split; [done|].
      apply (filled_cons w w1 w1 l _ p d [] x); [lia|done|done|done|done|].
      exists []. splits; [simpl; by rewrite Nat.add_0_r, take_drop|done|simpl; lia|done].
    + destruct (IH true true true (<[p := x]> l) (S p) (S n) w1) as (w2 & s' & E2 & Hn & G2 & F2);
        [by apply G1|rewrite length_insert; lia|lia|].
      exists w2, s'. split; [exact E2|]. split; [lia|]. split; [by etrans|].
      by apply (filled_cons w w1 w2 l _ p d ds x).
Qed.

End reading.

(** ** The array *)

Section bounds.
Context `{Machine}.
Context (first : nat) (space : Z) (l : list tapsProtocol).
Hypothesis room : Z.of_nat first + space <= Z.of_nat (length l).

(** The rows the parser may write are those from [first], [space] of them. *)
Definition outside (l' : list tapsProtocol) : Prop :=
  length l' = length l /\ forall j, (j < first)%nat \/ Z.of_nat first + space <= Z.of_nat j -> l' !! j = l !! j.

Definition running (s : parser) : Prop :=
  ps_proto s = (first + ps_numProtos s)%nat /\ Z.of_nat (ps_numProtos s) < space /\ outside (ps_list s).

Definition ended (s : parser) : Prop := Z.of_nat (ps_numProtos s) <= space /\ outside (ps_list s).

Definition outcome_ok (o : outcome) : Prop :=
  match o with Continue s => running s | Out s => ended s | Failed s => running s end.

Lemma running_row s : running s -> (ps_proto s < length (ps_list s))%nat.
Proof. intros (E & Hlt & El & _). rewrite El, E. lia. Qed.

Lemma at_proto_inside f s :
  running s -> inside (at_proto f s) (fun s' => running s' /\ ps_key s' = ps_key s).
Proof.
  intros Hr w. unfold at_proto. destruct (lookup_lt_is_Some_2 _ _ (running_row s Hr)) as [x Hx]. rewrite Hx.
  destruct Hr as (E & Hlt & El & Ho). split; [|done]. split; [done|]. split; [done|]. split; simpl.
  - by rewrite length_alter.
  - intros j Hj. rewrite list_lookup_alter_ne by lia. by apply Ho.
Qed.

Lemma reset_inside s : running s -> inside (reset s) outcome_ok.
Proof. intros Hr. eapply inside_bind; [apply inside_free|]. intros. by apply inside_ret. Qed.

Lemma scalar_inside v s : running s -> inside (scalar v s) outcome_ok.
Proof.
  intros Hr. unfold scalar. eapply inside_bind; [apply inside_strdup|]. intros field _. cbv zeta.
  assert (running (set_field field s)) as Hr1 by done.
  change (ps_key (set_field field s)) with (ps_key s). destruct (ps_key s); [|by apply inside_ret].
  eapply inside_bind; [apply inside_load|]. intros key _.
  destruct (String.eqb key "properties").
  - eapply inside_bind; [apply inside_load|]. intros f _. eapply (inside_bind _ _ running).
    { case_goal; [|by apply inside_ret].
      intros w. pose proof (at_proto_inside (or_p_properties (Z.shiftl 1 (Z.of_nat (index_of f tapsPropertyNames))))
        _ Hr1 w) as Hi. destruct (fst _); [by destruct Hi|done]. }
    intros s' Hs'. eapply inside_bind; [apply inside_free|]. intros. by apply inside_ret.
  - repeat (match goal with |- context [String.eqb key ?n] => destruct (String.eqb key n) end;
      [eapply inside_bind; [by apply at_proto_inside|]; intros s' [Hs' _]; by apply reset_inside|]).
    by apply reset_inside.
Qed.

Lemma state_must_be_inside lv s k : running s -> inside k outcome_ok -> inside (state_must_be lv s k) outcome_ok.
Proof. intros Hr Hk. unfold state_must_be. case_decide; [done|by apply inside_ret]. Qed.

Lemma yaml_step_inside e s : running s -> inside (yaml_step space e s) outcome_ok.
Proof.
  intros Hr. destruct e; cbn [yaml_step]; try apply state_must_be_inside; try (by apply inside_ret); try done.
  - apply inside_ret. destruct Hr as (_ & ? & ?). split; [simpl; lia|done].
  - eapply inside_bind; [by apply at_proto_inside|]. intros s' [Hs' _]. by apply inside_ret.
  - case_goal; [by apply inside_ret|]. apply inside_ret. destruct Hr as (E & Hlt & Ho).
    parser_simpl. destruct (Z.eqb_spec (Z.of_nat (S (ps_numProtos s))) space).
    + split; [simpl; lia|done].
    + split; [simpl; lia|]. split; [simpl; lia|done].
  - destruct (ps_key (set_level MAPPING s)); [|by apply inside_ret]. eapply inside_bind; [apply inside_free|]. intros. by apply inside_ret.
  - by apply scalar_inside.
Qed.

Lemma yaml_loop_inside events : forall s, running s -> inside (yaml_loop space events s) outcome_ok.
Proof.
  induction events as [|[e|] events IH]; intros s Hr; cbn [yaml_loop].
  - by apply inside_throw.
  - eapply inside_bind; [by apply yaml_step_inside|]. intros [s'|s'|s'] Hs'; [by apply IH|by apply inside_ret..].
  - by apply inside_ret.
Qed.

Lemma delete_loop_inside fuel : forall lst proto,
  (first < length lst)%nat -> inside (delete_loop fuel first lst proto) (fun _ => True).
Proof.
  induction fuel as [|fuel IH]; intros lst proto Hl; cbn [delete_loop]; [by apply inside_throw|].
  case_goal; [|by apply inside_ret]. destruct (lookup_lt_is_Some_2 _ _ Hl) as [x ->].
  eapply inside_bind; [case_goal; [apply inside_free|by apply inside_ret]|]. intros _ _.
  eapply inside_bind; [case_goal; [apply inside_free|by apply inside_ret]|]. intros _ _. by apply IH.
Qed.

End bounds.

(** ** Whole files *)

Section files.
Context `{Machine}.

Lemma file_ok fuel ds l protocol space w :
  (forall c, malloc_ok c = true) -> fresh_from (heap w) (brk w) ->
  (protocol + length ds <= length l)%nat -> Z.of_nat (length ds) <= space ->
  exists w' l', tapsParseYaml fuel (file ds) l protocol space w = (Ok (Z.of_nat (length ds), l'), w')
    /\ grows w w' /\ filled w w' l l' protocol ds.
Proof.
  intros Hm Hf Hl Hs.
  destruct (documents_ok Hm space ds false false false l protocol 0 w Hf Hl) as (w' & s' & E & Hn & Hg & Hfl); [lia|].
  exists w', (ps_list s'). splits; [|done|done]. unfold tapsParseYaml, file. simpl map.
  erewrite bind_ok by (erewrite yaml_loop_cons by done; exact E). simpl. by rewrite Hn.
Qed.

Lemma parse_inside fuel yaml l protocol space :
  0 < space -> Z.of_nat protocol + space <= Z.of_nat (length l) ->
  inside (tapsParseYaml fuel yaml l protocol space) (fun '(n, l') => 0 <= n <= space /\ outside protocol space l l').
Proof.
  intros Hs Hr. unfold tapsParseYaml. destruct yaml as [events|]; [|by apply inside_ret; split; [lia|]].
  eapply inside_bind; [apply (yaml_loop_inside protocol space l Hr)|].
  { split; [simpl; lia|]. split; [simpl; lia|]. by split. }
  intros [s|s|s] Hs'.
  - destruct Hs' as (_ & ? & ?). apply inside_ret. split; [lia|done].
  - destruct Hs' as (? & ?). apply inside_ret. split; [lia|done].
  - eapply inside_bind; [case_goal; [apply inside_free|by apply inside_ret]|]. intros _ _.
    eapply inside_bind; [case_goal; [apply inside_free|by apply inside_ret]|]. intros _ _.
    pose proof (running_row protocol space l Hr s Hs'). destruct Hs' as (? & ? & Ho).
    eapply inside_bind; [apply delete_loop_inside; destruct Ho as [-> _]; lia|].
    intros _ _. apply inside_ret. split; [lia|done].
Qed.

(** A name the loop over the directory reads. *)
Definition conf_name (n : string) : Prop :=
  strlen n <? 6 = false /\ String.eqb (last_chars 4 n) "yaml" = true
  /\ 255 <? strlen TAPS_CONF_PATH + 1 + strlen n + 1 = false.

Lemma update_loop_file fuel n events entries l slots num proto w num' l' w' :
  conf_name n -> tapsParseYaml fuel events l proto (slots - num) w = (Ok (num', l'), w') -> num' <> slots ->
  update_loop fuel (Dirent n (Some events) :: entries) l slots num proto w
  = update_loop fuel entries l' slots num' (Z.to_nat num') w'.
Proof.
  intros (H1 & H2 & H3) E Hn. cbn [update_loop d_name d_events]. rewrite H1, H2. cbn [negb]. rewrite H3.
  erewrite bind_ok by exact E. cbv beta iota. by rewrite (proj2 (Z.eqb_neq _ _)).
Qed.

(** An entry the loop passes over: another name, or a file that cannot be
    opened. *)
Definition skipped (e : dirent) : Prop :=
  strlen (d_name e) <? 6 = true \/ String.eqb (last_chars 4 (d_name e)) "yaml" = false
  \/ (255 <? strlen TAPS_CONF_PATH + 1 + strlen (d_name e) + 1 = false /\ d_events e = None).

(** A directory that describes [ds]: one file that is read, with these
    documents, whatever else there is; or none, and no documents. *)
Definition configured (entries : list dirent) (ds : list description) : Prop :=
  (Forall skipped entries /\ ds = []) \/
  exists before n after, entries = before ++ Dirent n (Some (file ds)) :: after
    /\ Forall skipped before /\ conf_name n /\ Forall skipped after.

Lemma update_loop_skips fuel before after l slots num proto w :
  Forall skipped before ->
  update_loop fuel (before ++ after) l slots num proto w = update_loop fuel after l slots num proto w.
Proof.
  induction 1 as [|e before Hs _ IH]; [done|]. cbn [app update_loop]. rewrite <- IH.
  destruct Hs as [->|[->|[-> ->]]]; [done|by destruct (_ <? 6)|].
  destruct (strlen (d_name e) <? 6); [done|]. by destruct (String.eqb (last_chars 4 (d_name e)) "yaml").
Qed.

(** What such a directory fills in. *)
Lemma update_configured fuel entries ds l slots w :
  (forall c, malloc_ok c = true) -> fresh_from (heap w) (brk w) ->
  configured entries ds -> (length ds <= length l)%nat -> Z.of_nat (length ds) < slots ->
  exists w' l', tapsUpdateProtocols fuel (Some entries) l slots w = (Ok (Z.of_nat (length ds), l'), w')
    /\ grows w w' /\ filled w w' l l' 0 ds.
Proof.
  intros Hm Hf Hc Hs Hl. unfold tapsUpdateProtocols. destruct Hc as [[He ->]|(before & n & after & -> & Hb & Hn & Ha)].
  - exists w, l. rewrite <- (app_nil_r entries), update_loop_skips by done.
    split; [done|]. split; [reflexivity|]. exists [].
    splits; [done|constructor|simpl; lia|apply only_refl].
  - destruct (file_ok fuel ds l 0 (slots - 0) w Hm Hf) as (w1 & l1 & E1 & G1 & F1); [lia|lia|].
    exists w1, l1. split; [|done]. rewrite update_loop_skips by done.
    erewrite update_loop_file by (exact E1 || done || lia). by rewrite <- (app_nil_r after), update_loop_skips.
Qed.

Lemma rows_in_le b b' c rows : rows_in b b' rows -> (c <= b)%positive -> rows_in c b' rows.
Proof.
  destruct rows as [|x rows]; simpl; [lia|]. intros (m & (c1 & c2 & c3 & E1 & E2 & E3 & H1 & H2 & H3 & H4) & Hr) Hc.
  exists m. split; [|done]. exists c1, c2, c3. splits; done || lia.
Qed.

Lemma rows_in_bounds b b' rows : rows_in b b' rows -> (b <= b')%positive.
Proof.
  revert b. induction rows as [|x rows IH]; intros b; simpl; [done|].
  intros (m & (c1 & c2 & c3 & E1 & E2 & E3 & H1 & H2 & H3 & H4) & Hr). apply IH in Hr. lia.
Qed.

Lemma rows_in_app b m b' rows1 rows2 : rows_in b m rows1 -> rows_in m b' rows2 -> rows_in b b' (rows1 ++ rows2).
Proof.
  revert b. induction rows1 as [|x rows1 IH]; intros b; simpl; [intros; by eapply rows_in_le|].
  intros (m' & Hx & Hr) H2. exists m'. split; [done|]. by apply IH.
Qed.

Lemma rows_describe_grows w w' b rows ds :
  Forall2 (describes (heap w)) rows ds -> rows_in b (brk w) rows -> grows w w' ->
  Forall2 (describes (heap w')) rows ds.
Proof.
  intros Hf. revert b. induction Hf as [|x d rows ds Hx _ IH]; intros b; simpl; [done|].
  intros (m & Hb & Hr) Hg. constructor; [|by eapply IH].
  eapply (describes_grows w w' b); [done| |done]. eapply row_in_le; [done|]. by apply rows_in_bounds in Hr.
Qed.

(** Rows filled one after the other. *)
Lemma filled_app w w1 w2 l l1 l2 p ds1 ds2 :
  (p + length ds1 + length ds2 <= length l)%nat ->
  filled w w1 l l1 p ds1 -> filled w1 w2 l1 l2 (p + length ds1) ds2 -> grows w1 w2 ->
  filled w w2 l l2 p (ds1 ++ ds2).
Proof.
  intros Hl (rows1 & -> & D1 & R1 & O1) (rows2 & -> & D2 & R2 & O2) Hg.
  pose proof (Forall2_length _ _ _ D1) as L1.
  exists (rows1 ++ rows2). splits.
  - assert (length (take p l ++ rows1) = (p + length ds1)%nat) as L by (rewrite length_app, length_take; lia).
    rewrite (app_assoc (take p l) rows1), take_app_length', drop_app_ge by lia.
    rewrite drop_drop, L, length_app, <- !app_assoc. do 4 f_equal. lia.
  - apply Forall2_app; [by eapply rows_describe_grows|done].
  - by eapply rows_in_app.
  - unfold strings. rewrite bind_app. by apply (only_trans _ _ _ (heap w1)).
Qed.

End files.

(** ** Failure *)

Section failure.
Context `{Machine}.

(** [m] does not return. *)
Definition stuck {A} (m : M A) : Prop := forall w, exists f w', m w = (Fault f, w').

Lemma stuck_bind {A B} (m : M A) (k : A -> M B) : (forall a, stuck (k a)) -> stuck (m ≫= k).
Proof.
  intros Hk w. unfold mbind, M_bind. destruct (m w) as [[a|f] w1]; [|by eexists _, _]. apply Hk.
Qed.

Lemma stuck_first {A B} (m : M A) (k : A -> M B) : stuck m -> stuck (m ≫= k).
Proof. intros Hm w. destruct (Hm w) as (f & w1 & E). exists f, w1. by apply bind_fault. Qed.

(** The loop that cleans up moves the end it compares with, so its condition
    stays true. *)
Lemma delete_loop_stuck fuel : forall first l proto, (first <= proto)%nat -> stuck (delete_loop fuel first l proto).
Proof.
  induction fuel as [|fuel IH]; intros first l proto Hle; cbn [delete_loop]; [by intros w; eexists _, _|].
  rewrite (proj2 (Nat.leb_le _ _)) by done.
  destruct (l !! first) as [x|]; [|by intros w; eexists _, _].
  apply stuck_bind. intros _. apply stuck_bind. intros _. apply IH. lia.
Qed.

End failure.

(** ** Properties *)

Section properties.
Context `{Machine}.

(** C11: what is written is read.  A file of documents, each with a name, a
    protocol, a path and abilities, fills that many rows with copies of what
    the documents say, in order, and no other row, when there is room.  (The
    keys come in the order kernel.yaml has them, and no copy fails for want of
    memory; a document whose name, protocol or path is missing is refused, C39.) *)
Theorem tapsParseYaml_reads_file fuel ds l protocol space w :
  (forall c, malloc_ok c = true) -> fresh_from (heap w) (brk w) ->
  (protocol + length ds <= length l)%nat -> Z.of_nat (length ds) <= space ->
  exists w' l', tapsParseYaml fuel (file ds) l protocol space w = (Ok (Z.of_nat (length ds), l'), w')
    /\ grows w w' /\ filled w w' l l' protocol ds.
Proof. by apply file_ok. Qed.

(** C31: the parser stays inside the rows it was given: whatever libyaml
    answers and whatever memory there is, it never writes past the array, and when it
    returns it has counted at most [space] rows and changed no other. *)
Theorem tapsParseYaml_bounds fuel yaml l protocol space w :
  0 < space -> Z.of_nat protocol + space <= Z.of_nat (length l) ->
  match fst (tapsParseYaml fuel yaml l protocol space w) with
  | Ok (n, l') => 0 <= n <= space /\ length l' = length l
      /\ forall j, (j < protocol)%nat \/ Z.of_nat protocol + space <= Z.of_nat j -> l' !! j = l !! j
  | Fault f => f <> OutOfBounds
  end.
Proof. intros Hs Hr. by apply parse_inside. Qed.

(** C39: a file the automaton refuses, or libyaml fails to parse, is never
    returned from: the clean-up does not end by itself, so the run faults, at the latest
    when its fuel is spent, whatever the fuel. *)
Theorem tapsParseYaml_failure_never_returns events l protocol space w s w1 :
  yaml_loop space events (Parser NONE None None false false false l protocol 0) w = (Ok (Failed s), w1) ->
  (protocol <= ps_proto s)%nat ->
  forall fuel, exists f w', tapsParseYaml fuel (Some events) l protocol space w = (Fault f, w').
Proof.
  intros E Hle fuel. unfold tapsParseYaml. erewrite bind_ok by exact E.
  apply stuck_bind. intros _. apply stuck_bind. intros _. by apply stuck_first, delete_loop_stuck.
Qed.

(** Of two files, only the second is counted, although the first filled
    its rows. *)
Theorem tapsUpdateProtocols_counts_last_file fuel n1 n2 ds1 ds2 l slots w :
  (forall c, malloc_ok c = true) -> fresh_from (heap w) (brk w) ->
  conf_name n1 -> conf_name n2 -> slots <= Z.of_nat (length l) ->
  Z.of_nat (length ds1 + length ds2) < slots ->
  exists w' l', tapsUpdateProtocols fuel (Some [Dirent n1 (Some (file ds1)); Dirent n2 (Some (file ds2))]) l slots w
      = (Ok (Z.of_nat (length ds2), l'), w')
    /\ filled w w' l l' 0 (ds1 ++ ds2).
Proof.
  intros Hm Hf Hn1 Hn2 Hs Hl.
  destruct (file_ok fuel ds1 l 0 (slots - 0) w Hm Hf) as (w1 & l1 & E1 & G1 & F1); [lia|lia|].
  assert (length l1 = length l) as L1.
  { destruct F1 as (rows & -> & D & _). pose proof (Forall2_length _ _ _ D).
    rewrite !length_app, length_take, length_drop. lia. }
  destruct (file_ok fuel ds2 l1 (length ds1) (slots - Z.of_nat (length ds1)) w1 Hm) as (w2 & l2 & E2 & G2 & F2);
    [by apply G1|lia|lia|].
  exists w2, l2. split; [|eapply filled_app; [lia|done..]]. unfold tapsUpdateProtocols.
  erewrite update_loop_file by (exact E1 || done || lia). rewrite Nat2Z.id.
  erewrite update_loop_file by (exact E2 || done || lia). done.
Qed.

End properties.

(** ** The properties at the files of the repository *)

Module CfgSample.

#[local] Existing Instance strict_machine.

(** The documents of kernel.yaml. *)
Definition kernel_tcp : description := Description "_kernel_TCP" "TCP" "/usr/lib/x86_64-linux-gnu/libtaps_tcp.so"
  ["reliability"; "preserveOrder"; "zeroRttMsg"; "FullChecksumSend"; "FullChecksumRecv"; "activeReadBeforeSend";
   "congestionControl"; "keepAlive"; "activeReadBeforeSend"]%string.
Definition kernel_udp : description := Description "_kernel_UDP" "UDP" "/usr/lib/x86_64-linux-gnu/libtaps_udp.so"
  ["preserveMsgBoundaries"; "zeroRttMsg"; "FullChecksumSend"; "FullChecksumRecv"; "activeReadBeforeSend"]%string.

(** /etc/taps of a host with that file. *)
Definition kernel_dir : list dirent :=
  [Dirent "." None; Dirent ".." None; Dirent "kernel.yaml" (Some (file [kernel_tcp; kernel_udp]))].

Lemma kernel_configured : configured kernel_dir [kernel_tcp; kernel_udp].
Proof.
  right. exists [Dirent "." None; Dirent ".." None], "kernel.yaml"%string, [].
  splits; [done|by repeat constructor|by vm_compute|constructor].
Qed.

Definition empty : world := test_world [] 1.
Definition rows : list tapsProtocol := replicate 4 zero_protocol.

Lemma empty_fresh : fresh_from (heap empty) (brk empty).
Proof. intros j _. apply lookup_empty. Qed.

Example kernel_masks :
  abilities (ds_properties kernel_tcp) 0 = 0x83d9 /\ abilities (ds_properties kernel_udp) 0 = 0x80d2.
Proof. by vm_compute. Qed.

Lemma tapsParseYaml_reads_file_witness :
  exists w' l', tapsParseYaml 0 (file [kernel_tcp; kernel_udp]) rows 0 4 empty = (Ok (2, l'), w')
    /\ grows empty w' /\ filled empty w' rows l' 0 [kernel_tcp; kernel_udp].
Proof.
  apply (tapsParseYaml_reads_file 0 [kernel_tcp; kernel_udp] rows 0 4 empty);
    [done|apply empty_fresh|simpl; lia|simpl; lia].
Defined.

(** Three documents for two rows. *)
Lemma tapsParseYaml_bounds_witness :
  match fst (tapsParseYaml 0 (file [kernel_tcp; kernel_udp; kernel_tcp]) rows 1 2 empty) with
  | Ok (n, l') => 0 <= n <= 2 /\ length l' = 4%nat /\ forall j, (j < 1)%nat \/ 1 + 2 <= Z.of_nat j -> l' !! j = rows !! j
  | Fault f => f <> OutOfBounds
  end.
Proof. apply (tapsParseYaml_bounds 0 _ rows 1 2 empty); [lia|simpl; lia]. Defined.

(** A document without a path. *)
Definition pathless : list (option yaml_event) :=
  map Some [YAML_STREAM_START; YAML_DOCUMENT_START; YAML_MAPPING_START; YAML_SCALAR "name"; YAML_SCALAR "x";
            YAML_MAPPING_END; YAML_DOCUMENT_END].

Lemma tapsParseYaml_failure_never_returns_witness :
  exists f w', tapsParseYaml 100 (Some pathless) rows 0 4 empty = (Fault f, w').
Proof.
  eapply (tapsParseYaml_failure_never_returns pathless rows 0 4 empty _ _ _ _ 100).
  Unshelve. 3: vm_compute; reflexivity. lia.
Defined.

Lemma tapsUpdateProtocols_counts_last_file_witness :
  exists w' l', tapsUpdateProtocols 0
      (Some [Dirent "tcp.yaml" (Some (file [kernel_tcp; kernel_tcp])); Dirent "udp.yaml" (Some (file [kernel_udp]))])
      rows 4 empty = (Ok (1, l'), w')
    /\ filled empty w' rows l' 0 [kernel_tcp; kernel_tcp; kernel_udp].
Proof.
  apply (tapsUpdateProtocols_counts_last_file 0 "tcp.yaml" "udp.yaml" [kernel_tcp; kernel_tcp] [kernel_udp] rows 4 empty);
    [done|apply empty_fresh|by vm_compute|by vm_compute|simpl; lia|simpl; lia].
Defined.

End CfgSample.
