(* ===== verification/Preconnection.v ===== *)
(** * Preconnection: taps_preconnection.c

    A preconnection collects the endpoints, the transport properties and the
    protocols of the host that satisfy them, and turns into a listener. *)

From S2P Require Import Prelude Structs Memory Message Queue Listener Connection Accept TransportProperties Endpoint Cfg.
Local Open Scope Z_scope.

(** ** Definitions *)

Definition TAPS_MAX_ENDPOINTS : Z := 8.
Definition TAPS_MAX_PROTOCOL_CANDIDATES : Z := 256.
Definition MAX_NUM_PROTOCOLS : Z := 256.
Definition E2BIG : Z := 7.
Definition ENOPROTOOPT : Z := 92.

Definition set_pc_local (l : list ptr) (p : tapsPreconnection) : tapsPreconnection :=
  Preconnection l (pc_numLocal p) (pc_remote p) (pc_numRemote p) (pc_protocol p) (pc_numProtocols p)
    (pc_transport p) (pc_security p).
Definition set_pc_numLocal (n : Z) (p : tapsPreconnection) : tapsPreconnection :=
  Preconnection (pc_local p) n (pc_remote p) (pc_numRemote p) (pc_protocol p) (pc_numProtocols p)
    (pc_transport p) (pc_security p).
Definition set_pc_remote (l : list ptr) (p : tapsPreconnection) : tapsPreconnection :=
  Preconnection (pc_local p) (pc_numLocal p) l (pc_numRemote p) (pc_protocol p) (pc_numProtocols p)
    (pc_transport p) (pc_security p).
Definition set_pc_numRemote (n : Z) (p : tapsPreconnection) : tapsPreconnection :=
  Preconnection (pc_local p) (pc_numLocal p) (pc_remote p) n (pc_protocol p) (pc_numProtocols p)
    (pc_transport p) (pc_security p).
Definition set_pc_protocol (l : list tapsProtocol) (p : tapsPreconnection) : tapsPreconnection :=
  Preconnection (pc_local p) (pc_numLocal p) (pc_remote p) (pc_numRemote p) l (pc_numProtocols p)
    (pc_transport p) (pc_security p).
Definition set_pc_numProtocols (n : Z) (p : tapsPreconnection) : tapsPreconnection :=
  Preconnection (pc_local p) (pc_numLocal p) (pc_remote p) (pc_numRemote p) (pc_protocol p) n
    (pc_transport p) (pc_security p).
Definition set_pc_transport (t : ptr) (p : tapsPreconnection) : tapsPreconnection :=
  Preconnection (pc_local p) (pc_numLocal p) (pc_remote p) (pc_numRemote p) (pc_protocol p) (pc_numProtocols p)
    t (pc_security p).

(** [htons] on a little-endian host: the two bytes change places. *)
Definition htons (n : Z) : Z := Z.lor (Z.shiftl (Z.land n 255) 8) (Z.land (Z.shiftr n 8) 255).

(** The number of bits set in a 32-bit word, by halves, quarters and bytes. *)
Definition numberOfSetBits (i : Z) : Z :=
  let i := u32 (i - Z.land (Z.shiftr i 1) 0x55555555) in
  let i := u32 (Z.land i 0x33333333 + Z.land (Z.shiftr i 2) 0x33333333) in
  let i := Z.land (u32 (i + Z.shiftr i 4)) 0x0f0f0f0f in
  Z.shiftr (u32 (i * 0x01010101)) 24.

(** The test of the loop over the protocols, without the bound: the abilities
    have nothing that is prohibited and everything that is required. *)
Definition acceptable (t : transportProperties) (properties : Z) : bool :=
  negb (truth (Z.land properties (t_prohibit t))
        || negb (Z.land properties (t_require t) =? t_require t)).

Section preconnection.
Context `{Machine} `{App} `{Proto} `{Net}.

(** The strings of a row. *)
Definition free_row (x : tapsProtocol) : M unit :=
  free string (p_name x) ;; free string (p_protocol x) ;; free string (p_libpath x).

(** [memcpy(&pc->protocol[pc->numProtocols], ...); pc->numProtocols++]. *)
Definition append_row (pc : ptr) (x : tapsProtocol) : M unit :=
  p ← load pc;
  if (0 <=? pc_numProtocols p) && (pc_numProtocols p <? Z.of_nat (length (pc_protocol p))) then
    modify pc (fun p => set_pc_protocol (<[Z.to_nat (pc_numProtocols p) := x]> (pc_protocol p)) p) ;;
    modify pc (fun p => set_pc_numProtocols (pc_numProtocols p + 1) p)
  else throw OutOfBounds.

Fixpoint select_loop (pc tp : ptr) (proto : list tapsProtocol) : M unit :=
  match proto with
  | [] => mret tt
  | x :: proto =>
      t ← load tp;
      p ← (load pc : M tapsPreconnection);
      (if negb (acceptable t (p_properties x)) || (pc_numProtocols p =? TAPS_MAX_PROTOCOL_CANDIDATES)
       then free_row x
       else append_row pc x) ;;
      select_loop pc tp proto
  end.

(** The loop of [tapsPreconnectionFree], from the last row down. *)
Fixpoint free_loop (fuel : nat) (preconn : ptr) : M unit :=
  match fuel with
  | O => throw OutOfFuel
  | S fuel =>
      p ← load preconn;
      if truth (pc_numProtocols p) then
        match (if pc_numProtocols p <=? 0 then None else pc_protocol p !! Z.to_nat (pc_numProtocols p - 1)) with
        | None => throw OutOfBounds
        | Some x =>
            free_row x ;;
            modify preconn (fun p => set_pc_numProtocols (pc_numProtocols p - 1) p) ;;
            free_loop fuel preconn
        end
      else mret tt
  end.

(** One turn for every row, and one to see that there is none left. *)
Definition tapsPreconnectionFree (pc : ptr) : M unit :=
  match pc with
  | None => mret tt
  | Some _ =>
      p ← load pc;
      free_loop (S (Z.to_nat (pc_numProtocols p))) pc ;;
      free tapsPreconnection pc
  end.

(** [memcpy(to, from, sizeof(TAPS_CTX * ) * n)]: a negative [n] is a huge size. *)
Definition copy_ptrs (from : list ptr) (n : Z) (to : list ptr) : M (list ptr) :=
  if (n <? 0) || (Z.of_nat (length from) <? n) || (Z.of_nat (length to) <? n) then throw OutOfBounds
  else mret (take (Z.to_nat n) from ++ drop (Z.to_nat n) to).

(** What the function does to a new block before it looks at the protocols.
    [memset(pc, 0, sizeof(pc))] clears as many bytes as the pointer has: the
    first element of [local]. *)
Definition fill_endpoints (pc : ptr) (localEndpoint : list ptr) (numLocal : Z)
    (remoteEndpoint : list ptr) (numRemote : Z) : M unit :=
  modify pc (fun p => set_pc_local (<[0%nat := None]> (pc_local p)) p) ;;
  p ← load pc;
  l ← copy_ptrs localEndpoint numLocal (pc_local p);
  modify pc (set_pc_local l) ;;
  r ← copy_ptrs remoteEndpoint numRemote (pc_remote p);
  modify pc (set_pc_remote r) ;;
  modify pc (set_pc_numLocal numLocal) ;;
  modify pc (set_pc_numRemote numRemote).

(** The end of the function, with its label [fail]. *)
Definition conclude (pc transportProps : ptr) : M ptr :=
  p ← (load pc : M tapsPreconnection);
  if pc_numProtocols p =? 0
  then
    set_errno ENOPROTOOPT ;;
    tapsPreconnectionFree pc ;;
    mret None
  else
    modify pc (set_pc_transport transportProps) ;;
    mret pc.

(** [proto] is what the array of the function holds before it is written. *)
Definition tapsPreconnectionNew (fuel : nat) (directory : option (list dirent)) (proto : list tapsProtocol)
    (localEndpoint : list ptr) (numLocal : Z) (remoteEndpoint : list ptr) (numRemote : Z)
    (transportProps : ptr) : M ptr :=
  if (TAPS_MAX_ENDPOINTS <? numLocal) || (TAPS_MAX_ENDPOINTS <? numRemote)
  then set_errno E2BIG ;; mret None
  else
    pc ← malloc tapsPreconnection;
    match pc with
    | None => set_errno ENOMEM ;; mret None
    | Some _ =>
        fill_endpoints pc localEndpoint numLocal remoteEndpoint numRemote ;;
        '(numProtocols, proto) ← tapsUpdateProtocols fuel directory proto MAX_NUM_PROTOCOLS;
        select_loop pc transportProps (take (Z.to_nat numProtocols) proto) ;;
        conclude pc transportProps
    end.

(** [sin6] and [sin] are what the two addresses of the function hold before
    they are written. *)
Definition tapsPreconnectionListen (sin6 sin : sockaddr) (preconn app_ctx base : ptr)
    (callbacks : option tapsCallbacks) : M ptr :=
  match preconn with
  | None => set_errno EINVAL ;; mret None
  | Some _ =>
      pc ← load preconn;
      match (if pc_numLocal pc <? 1 then None else
             cb ← callbacks; cb_connectionReceived cb ;; cb_establishmentError cb) with
      | None => set_errno EINVAL ;; mret None
      | Some _ =>
          match base with
          | None => set_errno EINVAL ;; mret None
          | Some _ =>
              let start (addr : sockaddr) : M ptr :=
                if sa_port addr =? 0 then set_errno EINVAL ;; mret None
                else
                  pc ← load preconn;
                  match pc_protocol pc with
                  | [] => throw OutOfBounds
                  | x :: _ =>
                      libpath ← load (p_libpath x);
                      tapsListenerNew app_ctx libpath addr base callbacks
                  end in
              let to_net (s : sockaddr) := Sockaddr (sa_family s) (htons (sa_port s)) (sa_in s) (sa_in6 s) in
              let local0 := default None (head (pc_local pc)) in
              '(r, addr) ← tapsEndpointGetAddress local0 (Sockaddr AF_INET6 (sa_port sin6) (sa_in sin6) (sa_in6 sin6));
              if r <? 0 then
                '(r, addr) ← tapsEndpointGetAddress local0 (Sockaddr AF_INET (sa_port sin) (sa_in sin) (sa_in6 sin));
                if r <? 0 then set_errno EINVAL ;; mret None
                else start (to_net addr)
              else start (to_net addr)
          end
      end
  end.

End preconnection.

(** ** Rows and their strings *)

(** None of the strings of a row is live. *)
Definition gone (h : gmap loc obj) (x : tapsProtocol) : Prop :=
  forall c, p_name x = Some c \/ p_protocol x = Some c \/ p_libpath x = Some c -> h !! c = None.

(** Abilities [m] fit the properties of an application: everything required is
    there and nothing prohibited is. *)
Definition fits (t : transportProperties) (m : Z) : Prop :=
  forall i, 0 <= i -> (Z.testbit (t_require t) i = true -> Z.testbit m i = true)
    /\ (Z.testbit (t_prohibit t) i = true -> Z.testbit m i = false).

Lemma acceptable_fits t m : acceptable t m = true <-> fits t m.
Proof.
  unfold acceptable, truth, fits. rewrite negb_true_iff, orb_false_iff, !negb_false_iff, !Z.eqb_eq. split.
  - intros [Ep Er] i Hi. apply (f_equal (fun z => Z.testbit z i)) in Ep, Er.
    rewrite Z.land_spec in Ep, Er. rewrite Z.bits_0 in Ep.
    destruct (Z.testbit m i), (Z.testbit (t_prohibit t) i), (Z.testbit (t_require t) i); by simpl in *.
  - intros Hf. split; apply Z.bits_inj'; intros i Hi; rewrite Z.land_spec, ?Z.bits_0; destruct (Hf i Hi) as [Hr Hp];
      destruct (Z.testbit m i), (Z.testbit (t_prohibit t) i), (Z.testbit (t_require t) i); naive_solver.
Qed.

#[export] Instance fits_dec t m : Decision (fits t m).
Proof.
  destruct (acceptable t m) eqn:E; [left; by apply acceptable_fits|right].
  rewrite <- acceptable_fits, E. done.
Defined.

Lemma acceptable_decide t m : acceptable t m = bool_decide (fits t m).
Proof.
  destruct (acceptable t m) eqn:E; symmetry; [by apply bool_decide_eq_true_2, acceptable_fits|].
  apply bool_decide_eq_false_2. by rewrite <- acceptable_fits, E.
Qed.

(** What the selection leaves of a row that was read from the description [d]:
    the row of a protocol that fits has its strings, any other has not. *)
Definition settled (t : transportProperties) (h : gmap loc obj) (x : tapsProtocol) (d : description) : Prop :=
  p_properties x = abilities (ds_properties d) 0
  /\ if decide (fits t (p_properties x)) then describes h x d else gone h x.

Definition accepts (t : transportProperties) (x : tapsProtocol) : Prop := fits t (p_properties x).

#[export] Instance accepts_dec t x : Decision (accepts t x).
Proof. unfold accepts. apply _. Defined.

Lemma gone_string h x c : gone h x -> c ∈ strings_of x -> h !! c = None.
Proof.
  intros Hg Hc. apply Hg. unfold strings_of in Hc.
  destruct (p_name x), (p_protocol x), (p_libpath x); simpl in Hc; set_solver.
Qed.

(** The two states differ only between [b] and [b'], and in the block [l]. *)
Definition framed (l b b' : loc) (w w' : world) : Prop :=
  brk w' = brk w /\ errno w' = errno w /\ trace w' = trace w
  /\ forall j, j <> l -> (j < b)%positive \/ (b' <= j)%positive -> heap w' !! j = heap w !! j.

Lemma framed_trans l b m b' w1 w2 w3 :
  (b <= m)%positive -> (m <= b')%positive -> framed l b m w1 w2 -> framed l m b' w2 w3 -> framed l b b' w1 w3.
Proof.
  intros H1 H2 (B1 & E1 & T1 & F1) (B2 & E2 & T2 & F2). unfold framed. splits; [congruence..|].
  intros j Hn Hj. rewrite F2, F1; [done|done|lia|done|lia].
Qed.

Lemma row_in_lt b b' x : row_in b b' x -> (b < b')%positive.
Proof. intros (c1 & c2 & c3 & E1 & E2 & E3 & ?). lia. Qed.

Lemma describes_same b b' h h' x d :
  row_in b b' x -> (forall j, (b <= j)%positive -> (j < b')%positive -> h' !! j = h !! j) ->
  describes h x d -> describes h' x d.
Proof.
  intros (c1 & c2 & c3 & E1 & E2 & E3 & H1 & H2 & H3 & H4) Hs (D1 & D2 & D3 & D4). unfold describes.
  rewrite E1, E2, E3 in *. splits; [..|done];
    [destruct D1 as (c & [= <-] & ?)|destruct D2 as (c & [= <-] & ?)|destruct D3 as (c & [= <-] & ?)];
    eexists; (split; [done|]); rewrite Hs by lia; done.
Qed.

Lemma gone_same b b' h h' x :
  row_in b b' x -> (forall j, (b <= j)%positive -> (j < b')%positive -> h' !! j = h !! j) -> gone h x -> gone h' x.
Proof.
  intros (c1 & c2 & c3 & E1 & E2 & E3 & H1 & H2 & H3 & H4) Hs Hg c Hc. rewrite Hs; [by apply Hg|..];
    rewrite E1, E2, E3 in Hc; destruct Hc as [[= <-]|[[= <-]|[= <-]]]; lia.
Qed.

Lemma settled_same b b' t h h' x d :
  row_in b b' x -> (forall j, (b <= j)%positive -> (j < b')%positive -> h' !! j = h !! j) ->
  settled t h x d -> settled t h' x d.
Proof.
  intros Hb Hs [E Hx]. split; [done|]. destruct decide; [by eapply describes_same|by eapply gone_same].
Qed.

Lemma rows_settled_same b b' t h h' rows ds :
  rows_in b b' rows -> (forall j, (b <= j)%positive -> (j < b')%positive -> h' !! j = h !! j) ->
  Forall2 (settled t h) rows ds -> Forall2 (settled t h') rows ds.
Proof.
  intros Hr Hs Hd. revert b Hr Hs. induction Hd as [|x d rows ds Hx _ IH]; intros b; simpl; [by constructor|].
  intros (m & Hm & Hr) Hs. pose proof (row_in_lt _ _ _ Hm). pose proof (rows_in_bounds _ _ _ Hr). constructor.
  - eapply (settled_same b m); [done| |done]. intros. apply Hs; lia.
  - apply (IH m); [done|]. intros. apply Hs; lia.
Qed.

(** The rows that are kept are rows one after the other. *)
Lemma rows_in_filter t b b' rows : rows_in b b' rows -> rows_in b b' (filter (accepts t) rows).
Proof.
  revert b. induction rows as [|x rows IH]; intros b; [done|]. intros (m & Hx & Hr). apply IH in Hr.
  destruct (decide (accepts t x)).
  - rewrite filter_cons_True by done. by exists m.
  - rewrite filter_cons_False by done. eapply rows_in_le; [done|]. apply row_in_lt in Hx. lia.
Qed.

Lemma rows_in_snoc b b' rows x :
  rows_in b b' (rows ++ [x]) -> exists m, rows_in b m rows /\ row_in m b' x.
Proof.
  revert b. induction rows as [|y rows IH]; intros b; simpl.
  - intros (m & (c1 & c2 & c3 & E1 & E2 & E3 & ?) & ?). exists b. split; [lia|]. exists c1, c2, c3. splits; done || lia.
  - intros (m & Hy & Hr). apply IH in Hr as (m' & Hr & Hx). exists m'. split; [|done]. by exists m.
Qed.

Lemma settled_kept t h rows ds :
  Forall2 (settled t h) rows ds ->
  Forall2 (describes h) (filter (accepts t) rows)
    (filter (fun d => fits t (abilities (ds_properties d) 0)) ds).
Proof.
  induction 1 as [|x d rows ds [E Hx] _ IH]; [by constructor|].
  destruct decide as [Ha|Ha]; rewrite E in Ha.
  - rewrite !filter_cons_True; [by constructor|done|by unfold accepts; rewrite E].
  - rewrite !filter_cons_False; [done| |unfold accepts; rewrite E]; done.
Qed.

Lemma rows_describe_same b b' h h' rows ds :
  rows_in b b' rows -> (forall j, (b <= j)%positive -> (j < b')%positive -> h' !! j = h !! j) ->
  Forall2 (describes h) rows ds -> Forall2 (describes h') rows ds.
Proof.
  intros Hr Hs Hd. revert b Hr Hs. induction Hd as [|x d rows ds Hx _ IH]; intros b; simpl; [by constructor|].
  intros (m & Hm & Hr) Hs. pose proof (row_in_lt _ _ _ Hm). pose proof (rows_in_bounds _ _ _ Hr). constructor.
  - eapply (describes_same b m); [done| |done]. intros. apply Hs; lia.
  - apply (IH m); [done|]. intros. apply Hs; lia.
Qed.

Section rows.
Context `{Machine} `{App} `{Proto} `{Net}.

Lemma free_row_ok l b b' x d w :
  describes (heap w) x d -> row_in b b' x -> (l < b)%positive ->
  exists w', free_row x w = (Ok tt, w') /\ gone (heap w') x /\ framed l b b' w w' /\ heap w' !! l = heap w !! l
    /\ only (strings_of x) (heap w) (heap w').
Proof.
  intros (D1 & D2 & D3 & _) (c1 & c2 & c3 & E1 & E2 & E3 & L1 & L2 & L3 & L4) Hl.
  unfold free_row, gone. rewrite E1, E2, E3 in *.
  destruct D1 as (? & [= <-] & D1), D2 as (? & [= <-] & D2), D3 as (? & [= <-] & D3).
  assert (c1 <> c2 /\ c1 <> c3 /\ c2 <> c3) as (N1 & N2 & N3) by (splits; lia).
  eexists. splits.
  - steps. reflexivity.
  - simpl. intros c [[= <-]|[[= <-]|[= <-]]]; heap_look; done.
  - unfold framed. splits; try done. simpl. intros j Hj Hr. rewrite !lookup_delete_ne by lia. done.
  - simpl. rewrite !lookup_delete_ne by lia. done.
  - intros j Hj. unfold strings_of in Hj. rewrite E1, E2, E3 in Hj. simpl in *.
    rewrite !lookup_delete_ne by set_solver. done.
Qed.

Lemma append_row_ok l p x w :
  heap w !! l = Some (OPreconnection p) -> 0 <= pc_numProtocols p < Z.of_nat (length (pc_protocol p)) ->
  append_row (Some l) x w
  = (Ok tt, set_heap (<[l := OPreconnection (set_pc_numProtocols (pc_numProtocols p + 1)
              (set_pc_protocol (<[Z.to_nat (pc_numProtocols p) := x]> (pc_protocol p)) p))]> (heap w)) w).
Proof.
  intros Hp Hn. unfold append_row. erewrite bind_ok by (apply load_ok; exact Hp).
  rewrite (proj2 (Z.leb_le _ _)), (proj2 (Z.ltb_lt _ _)) by lia. cbn [andb].
  erewrite bind_ok by (apply modify_ok; exact Hp).
  erewrite modify_ok by apply lookup_insert_eq. unfold set_heap. simpl. by rewrite insert_insert_eq.
Qed.

(** A row that does not fit the count, or the array, is written outside of it. *)
Lemma append_row_outside l p x w :
  heap w !! l = Some (OPreconnection p) ->
  pc_numProtocols p < 0 \/ Z.of_nat (length (pc_protocol p)) <= pc_numProtocols p ->
  append_row (Some l) x w = (Fault OutOfBounds, w).
Proof.
  intros Hp Hn. unfold append_row. erewrite bind_ok by (apply load_ok; exact Hp).
  by destruct (0 <=? _) eqn:?, (pc_numProtocols p <? _) eqn:?; try done; exfalso;
    destruct Hn; lia.
Qed.

(** What the selection makes of the preconnection. *)
Definition with_rows (rows : list tapsProtocol) (p : tapsPreconnection) : tapsPreconnection :=
  set_pc_numProtocols (pc_numProtocols p + Z.of_nat (length rows))
    (set_pc_protocol (list_inserts (Z.to_nat (pc_numProtocols p)) rows (pc_protocol p)) p).

Lemma with_rows_nil p : 0 <= pc_numProtocols p -> with_rows [] p = p.
Proof.
  intros. unfold with_rows, set_pc_numProtocols, set_pc_protocol. simpl. rewrite Z.add_0_r. by destruct p.
Qed.

Lemma with_rows_cons x rows p :
  0 <= pc_numProtocols p ->
  with_rows rows (set_pc_numProtocols (pc_numProtocols p + 1)
      (set_pc_protocol (<[Z.to_nat (pc_numProtocols p) := x]> (pc_protocol p)) p))
  = with_rows (x :: rows) p.
Proof.
  intros. unfold with_rows, set_pc_numProtocols, set_pc_protocol. simpl. f_equal; [|lia].
  rewrite list_insert_inserts_lt by lia. do 2 f_equal. lia.
Qed.

Lemma select_loop_ok t l tp rows ds : forall b b' p w,
  heap w !! tp = Some (OTransport t) -> heap w !! l = Some (OPreconnection p) ->
  (l < b)%positive -> (tp < b)%positive -> rows_in b b' rows -> Forall2 (describes (heap w)) rows ds ->
  0 <= pc_numProtocols p -> pc_numProtocols p + Z.of_nat (length rows) <= 256 -> length (pc_protocol p) = 256%nat ->
  exists w', select_loop (Some l) (Some tp) rows w = (Ok tt, w')
    /\ heap w' !! l = Some (OPreconnection (with_rows (filter (accepts t) rows) p))
    /\ Forall2 (settled t (heap w')) rows ds /\ framed l b b' w w' /\ only (l :: strings rows) (heap w) (heap w').
Proof.
  revert ds. induction rows as [|x rows IH]; intros ds b b' p w Ht Hp Hl Htp Hr Hd Hz Hn Ha.
  - inversion Hd; subst. exists w. split; [done|]. rewrite with_rows_nil by done. splits; [done..|apply only_refl].
  - apply Forall2_cons_inv_l in Hd as (d & ds' & Hx & Hd & ->). destruct Hr as (m & Hm & Hr).
    pose proof (row_in_lt _ _ _ Hm). pose proof (rows_in_bounds _ _ _ Hr).
    simpl length in Hn. cbn [select_loop].
    erewrite bind_ok by (apply load_ok; exact Ht). erewrite bind_ok by (apply load_ok; exact Hp).
    rewrite (proj2 (Z.eqb_neq (pc_numProtocols p) _)) by (unfold TAPS_MAX_PROTOCOL_CANDIDATES; lia).
    rewrite orb_false_r.
    assert (exists w1 p1, (if negb (acceptable t (p_properties x)) then free_row x else append_row (Some l) x) w
              = (Ok tt, w1) /\ heap w1 !! l = Some (OPreconnection p1) /\ settled t (heap w1) x d
              /\ framed l b m w w1 /\ pc_numProtocols p <= pc_numProtocols p1 <= pc_numProtocols p + 1
              /\ length (pc_protocol p1) = 256%nat
              /\ with_rows (filter (accepts t) rows) p1 = with_rows (filter (accepts t) (x :: rows)) p
              /\ only (l :: strings_of x) (heap w) (heap w1))
      as (w1 & p1 & E1 & Hp1 & Hx1 & F1 & Hn1 & Ha1 & Hw & O1).
    { assert (p_properties x = abilities (ds_properties d) 0) as Hpx by apply Hx.
      unfold settled. rewrite acceptable_decide.
      destruct (decide (fits t (p_properties x))) as [Hacc|Hacc];
        [rewrite bool_decide_eq_true_2 by done|rewrite bool_decide_eq_false_2 by done]; cbn [negb].
      - eexists _, _. split; [apply append_row_ok; [exact Hp|lia]|]. split; [apply lookup_insert_eq|].
        split; [split; [done|]; eapply describes_same; [exact Hm| |exact Hx];
                intros; simpl; rewrite lookup_insert_ne; [done|lia]|].
        split; [unfold framed; splits; try done; simpl; intros j Hj _; by rewrite lookup_insert_ne|].
        simpl. rewrite length_insert, filter_cons_True by done. split; [lia|]. split; [done|].
        split; [by apply with_rows_cons|]. intros j Hj. rewrite lookup_insert_ne; [done|set_solver].
      - destruct (free_row_ok l b m x d w) as (w1 & E1 & G1 & F1 & L1 & O1); [done..|].
        exists w1, p. rewrite L1, filter_cons_False by done. splits; try (done || lia).
        intros j Hj. apply O1. set_solver. }
    erewrite bind_ok by exact E1.
    assert (tp <> l) as Hne by (intros ->; congruence).
    destruct (IH ds' m b' p1 w1) as (w2 & E2 & Hp2 & Hs2 & F2 & O2); [|done|lia|lia|done| |lia|lia|done|].
    { destruct F1 as (_ & _ & _ & F1). by rewrite F1 by (done || lia). }
    { eapply rows_describe_same; [exact Hr| |exact Hd]. intros j Hj1 Hj2. apply F1; lia. }
    exists w2. split; [done|]. rewrite <- Hw. split; [done|].
    split; [|split; [by eapply framed_trans; [| |done..]; lia|intros j Hj; rewrite O2, O1; set_solver]].
    constructor; [|done]. eapply (settled_same b m); [done| |done].
    intros j Hj1 Hj2. apply F2; lia.
Qed.

Lemma free_loop_ok l rows : forall fuel ds b b' p w,
  heap w !! l = Some (OPreconnection p) -> (l < b)%positive -> rows_in b b' rows ->
  Forall2 (describes (heap w)) rows ds -> pc_numProtocols p = Z.of_nat (length rows) ->
  (forall i x, rows !! i = Some x -> pc_protocol p !! i = Some x) -> (length rows < fuel)%nat ->
  exists w', free_loop fuel (Some l) w = (Ok tt, w')
    /\ heap w' !! l = Some (OPreconnection (set_pc_numProtocols 0 p))
    /\ Forall (gone (heap w')) rows /\ framed l b b' w w' /\ only (l :: strings rows) (heap w) (heap w').
Proof.
  induction rows as [|x rows IH] using rev_ind; intros fuel ds b b' p w Hp Hl Hr Hd Hn Hx Hf.
  - destruct fuel as [|fuel]; [simpl in Hf; lia|]. simpl in Hn. cbn [free_loop].
    erewrite bind_ok by (apply load_ok; exact Hp). rewrite Hn. exists w. split; [done|].
    split; [rewrite Hp; unfold set_pc_numProtocols; destruct p; simpl in *; by subst|].
    splits; [by constructor|done|apply only_refl].
  - destruct fuel as [|fuel]; [lia|]. apply rows_in_snoc in Hr as (m & Hr & Hm).
    pose proof (row_in_lt _ _ _ Hm). pose proof (rows_in_bounds _ _ _ Hr).
    rewrite length_app in *. simpl length in *.
    apply Forall2_app_inv_l in Hd as (ds1 & ds2 & Hd & Hdx & ->).
    apply Forall2_cons_inv_l in Hdx as (d & ? & Hdx & _ & ->).
    cbn [free_loop]. erewrite bind_ok by (apply load_ok; exact Hp).
    assert (truth (pc_numProtocols p) = true) as -> by (unfold truth; by rewrite (proj2 (Z.eqb_neq _ _)) by lia).
    rewrite (proj2 (Z.leb_gt _ _)) by lia.
    replace (Z.to_nat (pc_numProtocols p - 1)) with (length rows) by lia.
    rewrite (Hx (length rows) x) by (by rewrite list_lookup_middle).
    destruct (free_row_ok l m b' x d w) as (w1 & E1 & G1 & F1 & L1 & O1); [done|done|lia|].
    erewrite bind_ok by exact E1. erewrite bind_ok by (apply modify_ok; rewrite L1; exact Hp).
    set (w1' := set_heap _ w1).
    destruct (IH fuel ds1 b m (set_pc_numProtocols (pc_numProtocols p - 1) p) w1') as (w2 & E2 & Hp2 & G2 & F2 & O2);
      [apply lookup_insert_eq|done|done| |simpl; lia|simpl; intros i y Hi; apply Hx; by apply lookup_app_l_Some|lia|].
    { eapply rows_describe_same; [exact Hr| |exact Hd]. intros j Hj1 Hj2. simpl.
      rewrite lookup_insert_ne by lia. apply F1; lia. }
    exists w2. split; [exact E2|]. rewrite Hp2. splits; [done|..].
    + apply Forall_app. split; [done|]. constructor; [|done]. eapply (gone_same m b'); [done| |exact G1].
      intros j Hj1 Hj2. destruct F2 as (_ & _ & _ & F2). rewrite F2 by lia. simpl. rewrite lookup_insert_ne by lia. done.
    + unfold framed in *. simpl in *. destruct F1 as (B1 & N1 & T1 & F1), F2 as (B2 & N2 & T2 & F2).
      splits; [congruence..|]. intros j Hne Hj. rewrite F2 by lia. rewrite lookup_insert_ne by done. apply F1; lia.
    + intros j Hj. unfold strings in *. rewrite bind_app in Hj. simpl in Hj. rewrite app_nil_r in Hj.
      rewrite O2 by set_solver. simpl. rewrite lookup_insert_ne by set_solver. apply O1. set_solver.
Qed.

(** The arrays of the structure have the sizes of its declaration. *)
Definition shaped (p : tapsPreconnection) : Prop :=
  length (pc_local p) = 8%nat /\ length (pc_remote p) = 8%nat /\ length (pc_protocol p) = 256%nat.

(** An array of endpoints that has as many as the caller says, and not too many. *)
Definition counted (endpoints : list ptr) (n : Z) : Prop := 0 <= n <= 8 /\ n <= Z.of_nat (length endpoints).

(** The endpoints the preconnection has are those of the caller. *)
Definition holds_endpoints (p : tapsPreconnection) (local : list ptr) (numLocal : Z) (remote : list ptr) (numRemote : Z) : Prop :=
  pc_numLocal p = numLocal /\ take (Z.to_nat numLocal) (pc_local p) = take (Z.to_nat numLocal) local
  /\ pc_numRemote p = numRemote /\ take (Z.to_nat numRemote) (pc_remote p) = take (Z.to_nat numRemote) remote.

Lemma copy_ptrs_ok from n to w :
  counted from n -> length to = 8%nat ->
  copy_ptrs from n to w = (Ok (take (Z.to_nat n) from ++ drop (Z.to_nat n) to), w).
Proof.
  intros [Hn Hl] Ht. unfold copy_ptrs.
  by rewrite (proj2 (Z.ltb_ge n 0)), (proj2 (Z.ltb_ge (Z.of_nat (length from)) n)),
    (proj2 (Z.ltb_ge (Z.of_nat (length to)) n)) by lia.
Qed.

Lemma take_copied from n (to : list ptr) :
  counted from n -> take (Z.to_nat n) (take (Z.to_nat n) from ++ drop (Z.to_nat n) to) = take (Z.to_nat n) from.
Proof. intros [Hn Hl]. apply take_app_length'. rewrite length_take. lia. Qed.

Lemma fill_endpoints_ok l p local numLocal remote numRemote w :
  heap w !! l = Some (OPreconnection p) -> shaped p -> counted local numLocal -> counted remote numRemote ->
  exists p', fill_endpoints (Some l) local numLocal remote numRemote w
      = (Ok tt, set_heap (<[l := OPreconnection p']> (heap w)) w)
    /\ holds_endpoints p' local numLocal remote numRemote
    /\ pc_protocol p' = pc_protocol p /\ pc_numProtocols p' = pc_numProtocols p.
Proof.
  intros Hp (L1 & L2 & L3) Hl Hr. unfold fill_endpoints. eexists. split.
  - steps. erewrite bind_ok by (apply copy_ptrs_ok; [done|by rewrite length_insert]).
    steps. erewrite bind_ok by (by apply copy_ptrs_ok). steps.
    unfold set_heap. simpl. rewrite !insert_insert_eq. reflexivity.
  - unfold holds_endpoints. simpl. by rewrite !take_copied.
Qed.

Lemma tapsPreconnectionNew_runs fuel entries ds proto local numLocal remote numRemote tp t w :
  (forall c, malloc_ok c = true) -> fresh_from (heap w) (brk w) ->
  configured entries ds -> (length ds <= length proto)%nat -> (length ds < 256)%nat ->
  counted local numLocal -> counted remote numRemote -> heap w !! tp = Some (OTransport t) ->
  shaped (uninit (brk w)) -> 0 <= pc_numProtocols (uninit (brk w)) ->
  pc_numProtocols (uninit (brk w)) + Z.of_nat (length ds) <= 256 ->
  exists rows p w1,
    tapsPreconnectionNew fuel (Some entries) proto local numLocal remote numRemote (Some tp) w
      = conclude (Some (brk w)) (Some tp) w1
    /\ heap w1 !! brk w = Some (OPreconnection (with_rows (filter (accepts t) rows) p))
    /\ holds_endpoints p local numLocal remote numRemote
    /\ pc_protocol p = pc_protocol (uninit (brk w)) /\ pc_numProtocols p = pc_numProtocols (uninit (brk w))
    /\ Forall2 (settled t (heap w1)) rows ds
    /\ rows_in (Pos.succ (brk w)) (brk w1) rows
    /\ (forall j, (j < brk w)%positive -> heap w1 !! j = heap w !! j)
    /\ fresh_from (heap w1) (brk w1) /\ only (brk w :: strings rows) (heap w) (heap w1) /\ trace w1 = trace w.
Proof.
  intros Hm Hf Hn Hl Hs Hloc Hrem Ht Hsh Hz Hc. unfold tapsPreconnectionNew.
  assert (tp < brk w)%positive as Htp.
  { destruct (decide (tp < brk w)%positive); [done|]. rewrite (Hf tp) in Ht by lia. done. }
  rewrite (proj2 (Z.ltb_ge TAPS_MAX_ENDPOINTS numLocal)), (proj2 (Z.ltb_ge TAPS_MAX_ENDPOINTS numRemote))
    by (unfold TAPS_MAX_ENDPOINTS; destruct Hloc, Hrem; lia).
  cbn [orb]. erewrite bind_ok by (by apply malloc_succeeds). cbv beta iota.
  set (w0 := World _ _ _ _).
  destruct (fill_endpoints_ok (brk w) (uninit (brk w)) local numLocal remote numRemote w0)
    as (p & E1 & He & Hpp & Hpn); [apply lookup_insert_eq|done..|].
  erewrite bind_ok by exact E1. set (w1 := set_heap _ w0).
  assert (fresh_from (heap w1) (brk w1)) as Hf1.
  { subst w1 w0. simpl. rewrite insert_insert_eq. intros j Hj. rewrite lookup_insert_ne by lia. apply Hf. lia. }
  destruct (update_configured fuel entries ds proto MAX_NUM_PROTOCOLS w1) as (w2 & l & E2 & G2 & rows & El & Hd & Hr & O2);
    [done|exact Hf1|done|done|unfold MAX_NUM_PROTOCOLS; lia|].
  erewrite bind_ok by exact E2. cbv beta iota. rewrite Nat2Z.id.
  replace (take (length ds) l) with rows
    by (rewrite El; simpl; rewrite <- (Forall2_length _ _ _ Hd); by rewrite take_app_length).
  assert (forall j, (j < Pos.succ (brk w))%positive -> heap w2 !! j = heap w1 !! j) as Hold by (intros; by apply G2).
  destruct (select_loop_ok t (brk w) tp rows ds (Pos.succ (brk w)) (brk w2) p w2) as (w3 & E3 & Hp3 & Hs3 & F3 & O3);
    [| |lia|lia|done|done|lia|rewrite (Forall2_length _ _ _ Hd); lia|rewrite Hpp; apply Hsh|].
  { rewrite Hold by lia. simpl. rewrite !lookup_insert_ne by lia. done. }
  { rewrite Hold by lia. apply lookup_insert_eq. }
  erewrite bind_ok by exact E3. exists rows, p, w3. destruct F3 as (B3 & _ & T3 & F3).
  pose proof (rows_in_bounds _ _ _ Hr) as Hb.
  splits; try done; [by rewrite B3|..].
  - intros j Hj. rewrite F3, Hold by lia. simpl. by rewrite !lookup_insert_ne by lia.
  - rewrite B3. intros j Hj. rewrite F3; [by apply G2|simpl in Hb; lia|by right].
  - intros j Hj. rewrite O3, O2 by set_solver. simpl. by rewrite !lookup_insert_ne by set_solver.
  - rewrite T3. by destruct G2 as (_ & -> & _).
Qed.

Lemma conclude_none l p tp w :
  heap w !! l = Some (OPreconnection p) -> pc_numProtocols p = 0 ->
  conclude (Some l) tp w = (Ok None, set_heap (delete l (heap w)) (set_errno_w ENOPROTOOPT w)).
Proof.
  intros Hp Hn. unfold conclude. erewrite bind_ok by (apply load_ok; exact Hp). rewrite Hn, Z.eqb_refl.
  erewrite (bind_ok (set_errno _)) by reflexivity.
  assert (heap (set_errno_w ENOPROTOOPT w) !! l = Some (OPreconnection p)) as Hp' by exact Hp.
  erewrite bind_ok; [apply ret_ok|]. unfold tapsPreconnectionFree.
  erewrite bind_ok by (apply load_ok; exact Hp'). rewrite Hn.
  erewrite (bind_ok (free_loop _ _)) by
    (cbn [Z.to_nat free_loop]; erewrite bind_ok by (apply load_ok; exact Hp'); rewrite Hn; reflexivity).
  rewrite (free_ok l _ p) by exact Hp'. done.
Qed.

Lemma conclude_some l p tp w :
  heap w !! l = Some (OPreconnection p) -> pc_numProtocols p <> 0 ->
  conclude (Some l) tp w = (Ok (Some l), set_heap (<[l := OPreconnection (set_pc_transport tp p)]> (heap w)) w).
Proof.
  intros Hp Hn. unfold conclude. steps. rewrite (proj2 (Z.eqb_neq _ _)) by done. by steps.
Qed.

(** Rows put at the front of the array. *)
Lemma list_inserts_front {A} (ks l : list A) :
  (length ks <= length l)%nat -> list_inserts 0 ks l = ks ++ drop (length ks) l.
Proof.
  intros. rewrite <- (take_drop (length ks) l) at 1. apply list_inserts_0_r. rewrite length_take. lia.
Qed.

(** The release of a preconnection frees the strings of its rows. *)
Lemma tapsPreconnectionFree_ok l p rows ds b b' w :
  heap w !! l = Some (OPreconnection p) -> (l < b)%positive -> rows_in b b' rows ->
  Forall2 (describes (heap w)) rows ds -> pc_numProtocols p = Z.of_nat (length rows) ->
  (forall i x, rows !! i = Some x -> pc_protocol p !! i = Some x) ->
  exists w', tapsPreconnectionFree (Some l) w = (Ok tt, w') /\ heap w' !! l = None
    /\ Forall (gone (heap w')) rows /\ framed l b b' w w' /\ only (l :: strings rows) (heap w) (heap w').
Proof.
  intros Hp Hl Hr Hd Hn Hx. unfold tapsPreconnectionFree. erewrite bind_ok by (apply load_ok; exact Hp).
  destruct (free_loop_ok l rows (S (Z.to_nat (pc_numProtocols p))) ds b b' p w) as (w1 & E1 & Hp1 & G1 & F1 & O1);
    [done..|lia|].
  erewrite bind_ok by exact E1. erewrite free_ok by exact Hp1. eexists. split; [done|]. simpl.
  split; [apply lookup_delete_eq|]. splits.
  - eapply Forall_impl; [exact G1|]. intros x Hg c Hc. destruct (decide (c = l)) as [->|];
      [apply lookup_delete_eq|rewrite lookup_delete_ne by done; by apply Hg].
  - destruct F1 as (B1 & N1 & T1 & F1). unfold framed. simpl. splits; try done.
    intros j Hj Hb. rewrite lookup_delete_ne by done. by apply F1.
  - intros j Hj. rewrite lookup_delete_ne by set_solver. by apply O1.
Qed.

(** The blocks of the rows that were read, kept or not. *)
Lemma strings_settled t h h' rows ds j :
  Forall2 (settled t h) rows ds -> Forall (gone h') (filter (accepts t) rows) ->
  (j ∉ strings (filter (accepts t) rows) -> h' !! j = h !! j) -> j ∈ strings rows -> h' !! j = None.
Proof.
  intros Hs Hg Ho Hj. assert (forall x, x ∈ filter (accepts t) rows -> gone h' x) as Hk by (by apply Forall_forall).
  destruct (decide (j ∈ strings (filter (accepts t) rows))) as [Hi|Hi];
    apply list_elem_of_bind in Hj as (x & Hx & Hr); [apply list_elem_of_bind in Hi as (y & Hy & Hi); by eapply gone_string; [apply Hk|]|].
  rewrite Ho by done. apply list_elem_of_lookup in Hr as (i & Hr).
  destruct (Forall2_lookup_l _ _ _ _ _ Hs Hr) as (d & _ & _ & Hd). case_decide as Ha; [|by eapply gone_string].
  destruct Hi. apply list_elem_of_bind. exists x. split; [done|]. apply list_elem_of_filter. split; [done|].
  by eapply list_elem_of_lookup_2.
Qed.

Lemma strings_bounds b b' rows j : rows_in b b' rows -> j ∈ strings rows -> (b <= j < b')%positive.
Proof.
  revert b. induction rows as [|x rows IH]; intros b Hr Hj; [by apply elem_of_nil in Hj|].
  destruct Hr as (m & Hx & Hr). pose proof (row_in_lt _ _ _ Hx). pose proof (rows_in_bounds _ _ _ Hr).
  unfold strings in Hj. simpl in Hj. apply elem_of_app in Hj as [Hj|Hj]; [|specialize (IH _ Hr Hj); lia].
  destruct Hx as (c1 & c2 & c3 & E1 & E2 & E3 & ?). unfold strings_of in Hj. rewrite E1, E2, E3 in Hj.
  simpl in Hj. set_unfold in Hj. destruct Hj as [->|[->|[->|[]]]]; lia.
Qed.

(** The release of the rows that were kept, when those that were not are gone. *)
Lemma release_kept t rows ds p w w1 v :
  let kept := filter (accepts t) rows in
  fresh_from (heap w) (brk w) -> (brk w < brk w1)%positive -> rows_in (Pos.succ (brk w)) (brk w1) rows ->
  Forall2 (settled t (heap w1)) rows ds -> only (brk w :: strings rows) (heap w) (heap w1) ->
  pc_numProtocols p = Z.of_nat (length kept) -> take (length kept) (pc_protocol p) = kept ->
  heap v !! brk w = Some (OPreconnection p) ->
  (forall j, (j < brk w1)%positive -> j <> brk w -> heap v !! j = heap w1 !! j) ->
  exists v', tapsPreconnectionFree (Some (brk w)) v = (Ok tt, v')
    /\ brk v' = brk v /\ errno v' = errno v /\ trace v' = trace v
    /\ forall j, heap v' !! j = if decide (j < brk w1)%positive then heap w !! j else heap v !! j.
Proof.
  intros kept Hf Hlt Hr Hset O1 Hn Hrows Hp Hv. pose proof (rows_in_filter t _ _ _ Hr) as Hk.
  pose proof (settled_kept _ _ _ _ Hset) as Hd. pose proof (fun j => strings_bounds _ _ _ j Hr) as Hb.
  pose proof (fun j => strings_bounds _ _ _ j Hk) as Hbk. fold kept in Hk, Hd, Hbk.
  destruct (tapsPreconnectionFree_ok (brk w) p kept (filter (fun d => fits t (abilities (ds_properties d) 0)) ds)
      (Pos.succ (brk w)) (brk w1) v) as (w2 & E2 & Hn2 & G2 & F2 & O2); [done|lia|done| |done| |].
  { eapply rows_describe_same; [exact Hk| |exact Hd]. intros. apply Hv; lia. }
  { intros i x Hi. rewrite <- Hrows in Hi. by apply lookup_take_Some in Hi as [Hi _]. }
  exists w2. destruct F2 as (B2 & N2 & T2 & F2). splits; [done..|]. intros j. case_decide as Hj.
  2: { apply F2; [intros ->; lia|]. right. lia. }
  destruct (decide (j = brk w)) as [->|Hjn]; [rewrite Hn2; symmetry; apply Hf; lia|].
  destruct (decide (j ∈ strings rows)) as [Hi|Hi].
  - rewrite (Hf j) by (specialize (Hb _ Hi); lia). apply (strings_settled t (heap w1) (heap w2) rows ds); [done..| |done].
    intros Hnk. rewrite O2 by (fold kept in Hnk; set_solver). by apply Hv.
  - rewrite O2; [rewrite Hv, O1 by (done || set_solver); done|].
    assert (j ∉ strings kept); [|set_solver].
    intros (y & Hy & Hyr)%list_elem_of_bind. apply Hi, list_elem_of_bind. exists y. split; [done|].
    by apply list_elem_of_filter in Hyr as [_ ?].
Qed.

(** The state a call of tapsPreconnectionNew leaves, for the rows it read: with
    a preconnection, whose release takes the heap back to what it was below the
    next address, whatever happens above it in the meantime. *)
Definition has_preconnection (w w' : world) (kept : list tapsProtocol) (local : list ptr) (numLocal : Z)
    (remote : list ptr) (numRemote : Z) (tp : loc) : Prop :=
  (exists p, heap w' !! brk w = Some (OPreconnection p)
     /\ pc_numProtocols p = Z.of_nat (length kept) /\ take (length kept) (pc_protocol p) = kept
     /\ pc_transport p = Some tp /\ holds_endpoints p local numLocal remote numRemote)
  /\ forall v, (forall j, (j < brk w')%positive -> heap v !! j = heap w' !! j) ->
     exists v', tapsPreconnectionFree (Some (brk w)) v = (Ok tt, v')
       /\ brk v' = brk v /\ errno v' = errno v /\ trace v' = trace v
       /\ forall j, heap v' !! j = if decide (j < brk w')%positive then heap w !! j else heap v !! j.

Lemma tapsPreconnectionNew_ok fuel entries ds proto local numLocal remote numRemote tp t w :
  (forall c, malloc_ok c = true) -> fresh_from (heap w) (brk w) ->
  configured entries ds -> (length ds <= length proto)%nat -> (length ds < 256)%nat ->
  counted local numLocal -> counted remote numRemote -> heap w !! tp = Some (OTransport t) ->
  shaped (uninit (brk w)) -> pc_numProtocols (uninit (brk w)) = 0 ->
  exists rows r w',
    tapsPreconnectionNew fuel (Some entries) proto local numLocal remote numRemote (Some tp) w
      = (Ok r, w')
    /\ Forall2 (settled t (heap w')) rows ds
    /\ (forall j, (j < brk w)%positive -> heap w' !! j = heap w !! j)
    /\ fresh_from (heap w') (brk w') /\ (brk w < brk w')%positive /\ trace w' = trace w
    /\ match filter (accepts t) rows with
       | [] => r = None /\ errno w' = ENOPROTOOPT /\ heap w' = heap w
       | kept => r = Some (brk w) /\ has_preconnection w w' kept local numLocal remote numRemote tp
       end.
Proof.
  intros Hm Hf Hn Hl Hs Hloc Hrem Ht Hsh Hz.
  destruct (tapsPreconnectionNew_runs fuel entries ds proto local numLocal remote numRemote tp t w)
    as (rows & p & w1 & E & Hp & He & Hpp & Hpn & Hset & Hr & Hold & Hf1 & O1 & T1); [done..|lia|lia|].
  exists rows. rewrite E. pose proof (rows_in_filter t _ _ _ Hr) as Hk. pose proof (settled_kept _ _ _ _ Hset) as Hd.
  pose proof (fresh_from_lt _ _ _ _ Hf1 Hp) as Hlt. pose proof (fun j => strings_bounds _ _ _ j Hr) as Hb.
  assert (length (filter (accepts t) rows) <= 256)%nat as Hlen.
  { rewrite length_filter, (Forall2_length _ _ _ Hset). lia. }
  destruct (filter (accepts t) rows) as [|x ks] eqn:Hkept.
  - erewrite conclude_none; [|exact Hp|simpl; lia]. eexists None, _. split; [done|]. simpl. splits; try done.
    + eapply rows_settled_same; [exact Hr| |exact Hset]. intros. by rewrite lookup_delete_ne by lia.
    + intros. rewrite lookup_delete_ne by lia. by apply Hold.
    + by apply fresh_from_delete.
    + apply (only_same (brk w :: strings rows)).
      * intros j Hj. rewrite lookup_delete_ne by set_solver. by apply O1.
      * intros j Hj. rewrite (Hf j) by (apply elem_of_cons in Hj as [->|Hj]; [lia|specialize (Hb _ Hj); lia]).
        destruct (decide (j = brk w)) as [->|]; [apply lookup_delete_eq|]. rewrite lookup_delete_ne by done.
        apply (strings_settled t (heap w1) (heap w1) rows ds); [done|by rewrite Hkept|done|set_solver].
  - rewrite <- Hkept in *. erewrite conclude_some; [|exact Hp|rewrite Hkept; simpl; lia].
    eexists (Some _), _. split; [done|]. set (w' := set_heap _ w1).
    assert (forall j, j <> brk w -> heap w' !! j = heap w1 !! j) as Hs' by (intros; simpl; by rewrite lookup_insert_ne).
    splits; [eapply rows_settled_same; [exact Hr| |exact Hset]; intros; apply Hs'; lia
            |intros; rewrite Hs' by lia; by apply Hold|by apply fresh_from_insert|done|done|done|].
    assert (take (length (filter (accepts t) rows)) (pc_protocol (with_rows (filter (accepts t) rows) p))
            = filter (accepts t) rows) as Hrows.
    { simpl. rewrite Hpn, Hz. simpl. rewrite list_inserts_front; [by apply take_app_length|].
      rewrite Hpp. by rewrite (proj2 (proj2 Hsh)). }
    split; [eexists; split; [apply lookup_insert_eq|]; simpl in *; splits; [lia|done|done|done..]|].
    intros v Hv. apply (release_kept t rows ds (set_pc_transport (Some tp) (with_rows (filter (accepts t) rows) p)) w w1);
      try done.
    + simpl. lia.
    + rewrite Hv by done. apply lookup_insert_eq.
    + intros j Hj Hne. rewrite Hv by done. by apply Hs'.
Qed.

End rows.

(** ** The address of a listener *)

(** The two bytes of a 16-bit value in the other order. *)
Definition network_order (port : Z) : Z := port mod 256 * 256 + port / 256.

Lemma htons_network_order n : 0 <= n < 65536 -> htons n = network_order n.
Proof.
  intros Hn. unfold htons, network_order. change 255 with (Z.ones 8).
  rewrite !Z.land_ones, Z.shiftl_mul_pow2, Z.shiftr_div_pow2 by lia. change (2 ^ 8) with 256.
  rewrite (Z.mod_small (n / 256)) by (split; [apply Z.div_pos; lia|apply Z.div_lt_upper_bound; lia]).
  rewrite <- (Z.add_lor_land _ (n / 256)). replace (Z.land _ _) with 0; [lia|]. symmetry.
  apply Z.bits_inj'. intros i Hi. rewrite Z.land_spec, Z.bits_0.
  destruct (decide (i < 8)).
  - change 256 with (2 ^ 8) at 2. rewrite Z.mul_pow2_bits_low by done. done.
  - rewrite <- (Z.mod_small (n / 256) 256) at 1
      by (split; [apply Z.div_pos; lia|apply Z.div_lt_upper_bound; lia]).
    change (n / 256 mod 256) with ((n / 256) mod 2 ^ 8). rewrite Z.mod_pow2_bits_high by lia. by rewrite andb_false_r.
Qed.

Lemma network_order_zero n : 0 <= n < 65536 -> network_order n = 0 <-> n = 0.
Proof. intros. unfold network_order. split; [|by intros ->]. intros. Z.to_euclidean_division_equations. lia. Qed.

(** The address an endpoint is listened on: its IPv6 address if it has one, else
    its IPv4 address, with its port in network order; none without a port.
    [sin6] and [sin] fill the fields that the family does not have. *)
Definition listen_address (a : attrs) (sin6 sin : sockaddr) : option sockaddr :=
  let port := default 0 (at_port a) in
  if port =? 0 then None else
  match at_ipv6 a, at_ipv4 a with
  | Some n, _ => Some (Sockaddr AF_INET6 (network_order port) (sa_in sin6) n)
  | None, Some n => Some (Sockaddr AF_INET (network_order port) n (sa_in6 sin))
  | None, None => None
  end.

(** What must be there for a listener to be started. *)
Definition can_listen (p : tapsPreconnection) (base : ptr) (callbacks : option tapsCallbacks) : bool :=
  (1 <=? pc_numLocal p) && bool_decide (is_Some base)
  && bool_decide (is_Some (callbacks ≫= cb_connectionReceived))
  && bool_decide (is_Some (callbacks ≫= cb_establishmentError)).

Section listening.
Context `{Machine} `{App} `{Proto} `{Net}.

Lemma listen_refused pc p base app callbacks sin6 sin w :
  heap w !! pc = Some (OPreconnection p) -> can_listen p base callbacks = false ->
  tapsPreconnectionListen sin6 sin (Some pc) app base callbacks w = (Ok None, set_errno_w EINVAL w).
Proof.
  intros Hp. unfold tapsPreconnectionListen, can_listen. erewrite bind_ok by (apply load_ok; exact Hp).
  rewrite Z.ltb_antisym. destruct (1 <=? pc_numLocal p); cbn [negb andb]; [|done].
  destruct callbacks as [cb|]; simpl; [|by destruct base].
  destruct (cb_connectionReceived cb) as [r|] eqn:Er; simpl; [|by destruct base; simpl; rewrite ?Er].
  destruct (cb_establishmentError cb) as [f|] eqn:Ef; simpl; [|by destruct base; simpl; rewrite ?Er].
  by destruct base.
Qed.

(** With its arguments in order the code reads the address of the first
    endpoint, and only with an address the first protocol. *)
Lemma listen_reads h0 w pc p e x a base app callbacks sin6 sin :
  heap w !! pc = Some (OPreconnection p) -> can_listen p base callbacks = true ->
  head (pc_local p) = Some (Some e) -> endpoint_ok h0 w e x a -> 0 <= default 0 (at_port a) < 65536 ->
  match listen_address a sin6 sin with
  | None => tapsPreconnectionListen sin6 sin (Some pc) app base callbacks w = (Ok None, set_errno_w EINVAL w)
  | Some addr => forall row l lib,
      head (pc_protocol p) = Some row -> p_libpath row = Some l -> heap w !! l = Some (OString lib) ->
      tapsPreconnectionListen sin6 sin (Some pc) app base callbacks w = tapsListenerNew app lib addr base callbacks w
  end.
Proof.
  intros Hp Hc Hloc He Hport. unfold tapsPreconnectionListen, can_listen, listen_address in *.
  erewrite !bind_ok by (apply load_ok; exact Hp). rewrite Z.ltb_antisym.
  destruct (1 <=? pc_numLocal p); cbn [negb andb] in *; [|done].
  destruct callbacks as [cb|]; simpl in *; [|by destruct base].
  destruct (cb_connectionReceived cb) as [r|] eqn:Er; simpl in *; [|by destruct base; simpl in *; rewrite ?Er in *].
  destruct (cb_establishmentError cb) as [f|] eqn:Ef; simpl in *; [|by destruct base; simpl in *; rewrite ?Er in *].
  destruct base as [base|]; simpl in *; [|done]. rewrite Hloc. simpl.
  erewrite !bind_ok by (apply (get_ipv6 h0 w e x a); done). cbn [sa_family sa_port sa_in sa_in6].
  set (port := default 0 (at_port a)) in *.
  destruct (at_ipv6 a) as [n|]; [|simpl; erewrite !bind_ok by (apply (get_ipv4 h0 w e x a); done); fold port;
    destruct (at_ipv4 a) as [n|]; [|by destruct (port =? 0)]]; simpl;
    rewrite (htons_network_order port) by done;
    (destruct (Z.eqb_spec port 0) as [->|Hz]; [done|]);
    rewrite (proj2 (Z.eqb_neq _ _)) by (by rewrite network_order_zero);
    erewrite bind_ok by (apply load_ok; exact Hp); intros row l lib Hrow Hlib Hl;
    (destruct (pc_protocol p) as [|row' rows]; [done|]); injection Hrow as ->; rewrite Hlib;
    by erewrite bind_ok by (apply load_ok; exact Hl).
Qed.

Lemma tapsPreconnectionListen_ok h0 w pc p e x a row l lib base app callbacks sin6 sin :
  heap w !! pc = Some (OPreconnection p) -> head (pc_local p) = Some (Some e) -> endpoint_ok h0 w e x a ->
  0 <= default 0 (at_port a) < 65536 ->
  head (pc_protocol p) = Some row -> p_libpath row = Some l -> heap w !! l = Some (OString lib) ->
  tapsPreconnectionListen sin6 sin (Some pc) app base callbacks w
  = match (if can_listen p base callbacks then listen_address a sin6 sin else None) with
    | Some addr => tapsListenerNew app lib addr base callbacks w
    | None => (Ok None, set_errno_w EINVAL w)
    end.
Proof.
  intros Hp Hloc He Hport Hrow Hlib Hl. destruct (can_listen p base callbacks) eqn:Hc; [|by eapply listen_refused].
  pose proof (listen_reads h0 w pc p e x a base app callbacks sin6 sin Hp Hc Hloc He Hport) as Hr.
  destruct (listen_address a sin6 sin); [by eapply Hr|exact Hr].
Qed.

End listening.

(** ** Properties *)

Section properties.
Context `{Machine} `{App} `{Proto} `{Net}.

(** C10: of the protocols in the configuration file of the host, a new
    preconnection has those that lack nothing the application requires and have
    nothing it prohibits, in the order of the file, and its endpoints are those of
    the caller.  The strings of the other rows are freed at once and those of its
    own by the release, which leaves the heap as it was before the call.  When no
    protocol is left there is no preconnection either, and the heap is as it was.
    Assumed: memory never fails; the directory has at most one file whose name is
    that of a configuration and that can be opened, and it is well formed (with
    two, only the last is counted: tapsUpdateProtocols_counts_last_file; for a
    malformed one see C39); the count of protocols in the block from malloc is 0
    (otherwise tapsPreconnectionNew_keeps_garbage).  The heap does not have the
    buffers of libyaml's events, which leak. *)
Theorem tapsPreconnectionNew_selects fuel entries ds proto local numLocal remote numRemote tp t w :
  (forall c, malloc_ok c = true) -> fresh_from (heap w) (brk w) ->
  configured entries ds -> (length ds <= length proto)%nat -> (length ds < 256)%nat ->
  counted local numLocal -> counted remote numRemote -> heap w !! tp = Some (OTransport t) ->
  shaped (uninit (brk w)) -> pc_numProtocols (uninit (brk w)) = 0 ->
  exists rows r w',
    tapsPreconnectionNew fuel (Some entries) proto local numLocal remote numRemote (Some tp) w
      = (Ok r, w')
    /\ Forall2 (settled t (heap w')) rows ds
    /\ (forall j, (j < brk w)%positive -> heap w' !! j = heap w !! j)
    /\ match filter (accepts t) rows with
       | [] => r = None /\ errno w' = ENOPROTOOPT /\ heap w' = heap w
       | kept =>
           r = Some (brk w)
           /\ (exists p, heap w' !! brk w = Some (OPreconnection p)
                /\ pc_numProtocols p = Z.of_nat (length kept) /\ take (length kept) (pc_protocol p) = kept
                /\ pc_transport p = Some tp /\ holds_endpoints p local numLocal remote numRemote)
           /\ exists w'', tapsPreconnectionFree r w' = (Ok tt, w'') /\ heap w'' = heap w
       end.
Proof.
  intros Hm Hf Hn Hl Hs Hloc Hrem Ht Hsh Hz.
  destruct (tapsPreconnectionNew_ok fuel entries ds proto local numLocal remote numRemote tp t w)
    as (rows & r & w' & E & Hset & Hold & Hf' & Hb & _ & Hk); [done..|].
  exists rows, r, w'. splits; [done..|]. destruct (filter (accepts t) rows) as [|x ks]; [done|].
  destruct Hk as (-> & Hp & Hfree). split; [done|]. split; [done|].
  destruct (Hfree w') as (v & E' & _ & _ & _ & Hv); [done|]. exists v. split; [done|]. apply map_eq. intros j.
  rewrite Hv. case_decide as Hj; [done|]. apply Pos.le_nlt in Hj. rewrite Hf', Hf by lia. done.
Qed.

(** The count of rows is not cleared with the rest of the block.  When the
    block holds [g] there, the first [g] rows of the preconnection are whatever
    the memory held, and there is a preconnection even if the host has no
    protocol that the application can use. *)
Theorem tapsPreconnectionNew_keeps_garbage fuel entries ds proto local numLocal remote numRemote tp t w :
  let raw : tapsPreconnection := uninit (brk w) in
  (forall c, malloc_ok c = true) -> fresh_from (heap w) (brk w) ->
  configured entries ds -> (length ds <= length proto)%nat -> (length ds < 256)%nat ->
  counted local numLocal -> counted remote numRemote -> heap w !! tp = Some (OTransport t) ->
  shaped raw -> 0 < pc_numProtocols raw -> pc_numProtocols raw + Z.of_nat (length ds) <= 256 ->
  exists p w',
    tapsPreconnectionNew fuel (Some entries) proto local numLocal remote numRemote (Some tp) w
      = (Ok (Some (brk w)), w')
    /\ heap w' !! brk w = Some (OPreconnection p)
    /\ pc_numProtocols p = pc_numProtocols raw
        + Z.of_nat (length (filter (fun d => fits t (abilities (ds_properties d) 0)) ds))
    /\ take (Z.to_nat (pc_numProtocols raw)) (pc_protocol p) = take (Z.to_nat (pc_numProtocols raw)) (pc_protocol raw).
Proof.
  intros raw Hm Hf Hn Hl Hs Hloc Hrem Ht Hsh Hz Hc.
  destruct (tapsPreconnectionNew_runs fuel entries ds proto local numLocal remote numRemote tp t w)
    as (rows & p & w1 & E & Hp & He & Hpp & Hpn & Hset & Hr & Hold & _); [done..|by apply Z.lt_le_incl|done|].
  fold raw in Hpn, Hpp. rewrite E. erewrite conclude_some; [|exact Hp|simpl; lia]. eexists _, _. split; [done|].
  split; [apply lookup_insert_eq|]. simpl. rewrite Hpn, Hpp.
  rewrite <- (Forall2_length _ _ _ (settled_kept _ _ _ _ Hset)). split; [done|].
  apply list_eq. intros i. destruct (decide (i < Z.to_nat (pc_numProtocols raw))%nat).
  - by rewrite !lookup_take_lt, list_lookup_inserts_lt by done.
  - by rewrite !lookup_take_ge by lia.
Qed.

(** C20: listening starts a listener for the library of the first protocol on
    the address of the first local endpoint, with the callbacks and the event
    base of the caller.  Without a preconnection, a local endpoint, an event base
    or the two callbacks it fails with EINVAL before it reads an endpoint, and
    without an address or a port in the endpoint it fails with EINVAL before it
    reads a protocol. *)
Theorem tapsPreconnectionListen_starts base app callbacks sin6 sin w :
  let listen pc := tapsPreconnectionListen sin6 sin pc app base callbacks w in
  listen None = (Ok None, set_errno_w EINVAL w) /\
  forall pc p, heap w !! pc = Some (OPreconnection p) ->
    (can_listen p base callbacks = false -> listen (Some pc) = (Ok None, set_errno_w EINVAL w)) /\
    forall h0 e x a, can_listen p base callbacks = true ->
      head (pc_local p) = Some (Some e) -> endpoint_ok h0 w e x a -> 0 <= default 0 (at_port a) < 65536 ->
      match listen_address a sin6 sin with
      | None => listen (Some pc) = (Ok None, set_errno_w EINVAL w)
      | Some addr => forall row l lib,
          head (pc_protocol p) = Some row -> p_libpath row = Some l -> heap w !! l = Some (OString lib) ->
          listen (Some pc) = tapsListenerNew app lib addr base callbacks w
      end.
Proof.
  intros listen. split; [done|]. intros pc p Hp. split; [by apply listen_refused|].
  intros h0 e x a Hc Hl He Ha. by apply (listen_reads h0 w pc p e x a).
Qed.

End properties.

(** ** The properties at concrete preconnections *)

Module PreconnectionSample.

#[local] Existing Instance strict_machine.
#[local] Instance app : App := test_app (None, None).
#[local] Instance proto : Proto := test_proto 0.
#[local] Existing Instance EndpointSample.net.

(** An application that requires reliability. *)
Definition reliable : transportProperties := Transport 1 0 0 0 1 TAPS_MP_DISABLED TAPS_BIDIR false [].
Definition at_start : world := test_world [(1%positive, OTransport reliable)] 2.
Definition stack : list tapsProtocol := replicate 255 zero_protocol.
Definition kernel : option (list dirent) :=
  Some CfgSample.kernel_dir.
Definition endpoints : list ptr := [Some 100%positive].

Lemma at_start_fresh : fresh_from (heap at_start) (brk at_start).
Proof. intros j Hj. simpl. unfold test_world in *. simpl in *. rewrite lookup_insert_ne by lia. apply lookup_empty. Qed.

(** TCP is kept, UDP is not. *)
Example kernel_selects :
  match tapsPreconnectionNew 0 kernel stack endpoints 1 [] 0 (Some 1%positive) at_start with
  | (Ok (Some pc), w) =>
      match heap w !! pc with
      | Some (OPreconnection p) =>
          pc_numProtocols p = 1
          /\ (p_name <$> head (pc_protocol p)) ≫= (fun n => n ≫= (heap w !!.)) = Some (OString "_kernel_TCP")
      | _ => False
      end
  | _ => False
  end.
Proof. by vm_compute. Qed.

Lemma tapsPreconnectionNew_selects_witness :
  exists rows r w', tapsPreconnectionNew 0 kernel stack endpoints 1 [] 0 (Some 1%positive) at_start = (Ok r, w')
    /\ Forall2 (settled reliable (heap w')) rows [CfgSample.kernel_tcp; CfgSample.kernel_udp].
Proof.
  destruct (tapsPreconnectionNew_selects 0 CfgSample.kernel_dir [CfgSample.kernel_tcp; CfgSample.kernel_udp] stack
    endpoints 1 [] 0 1 reliable at_start) as (rows & r & w' & E & Hs & _);
    [done|apply at_start_fresh|apply CfgSample.kernel_configured|simpl; lia|simpl; lia|split; simpl; lia|split; simpl; lia|done|done|done|].
  exists rows, r, w'. exact (conj E Hs).
Defined.

(** A machine whose new blocks hold one protocol already, which is not there. *)
Definition dirty : tapsPreconnection :=
  Preconnection (replicate 8 None) 0 (replicate 8 None) 0
    (replicate 256 (Protocol (Some 7%positive) (Some 7%positive) (Some 7%positive) 0)) 1 None None.
Definition dirty_machine : Machine := {|
  malloc_ok _ := true;
  uninit T _ _ := default zero (proj (OPreconnection dirty));
  stale _ := None;
  wild _ := None;
  dlopen _ := None;
  dlsym _ _ := None;
  event_base_new := None;
|}.

(** No protocol of the host can be used: everything is prohibited. *)
Definition nothing : transportProperties := Transport 0 0 0 65535 65535 TAPS_MP_DISABLED TAPS_BIDIR false [].
Definition at_dirty_start : world := test_world [(1%positive, OTransport nothing)] 2.

Lemma tapsPreconnectionNew_keeps_garbage_witness :
  exists p w', @tapsPreconnectionNew dirty_machine 0 kernel stack endpoints 1 [] 0 (Some 1%positive) at_dirty_start
      = (Ok (Some 2%positive), w')
    /\ heap w' !! 2%positive = Some (OPreconnection p) /\ pc_numProtocols p = 1
    /\ take 1 (pc_protocol p) = [Protocol (Some 7%positive) (Some 7%positive) (Some 7%positive) 0].
Proof.
  apply (@tapsPreconnectionNew_keeps_garbage dirty_machine 0 CfgSample.kernel_dir
    [CfgSample.kernel_tcp; CfgSample.kernel_udp] stack endpoints 1 [] 0 1 nothing at_dirty_start);
    [done| |apply CfgSample.kernel_configured|simpl; lia|simpl; lia|split; simpl; lia|split; simpl; lia|done|done|done|done].
  intros j Hj. simpl in *. rewrite lookup_insert_ne by lia. apply lookup_empty.
Defined.

(** An endpoint with port 80 and the address 127.0.0.1. *)
Definition local_endpoint : tapsEndpoint :=
  Endpoint true true false false false false false false 16777343 0 80 (Sockaddr 0 0 0 0) None
    None None None None None None.
Definition local_attrs : attrs := Attrs (fun _ => None) (Some 80) (Some 16777343) None.
Definition ready : tapsPreconnection :=
  Preconnection (Some 1%positive :: replicate 7 None) 1 (replicate 8 None) 0
    (Protocol None None (Some 3%positive) 0 :: replicate 255 zero_protocol) 1 None None.
Definition others : list (loc * obj) := [(2%positive, OPreconnection ready); (3%positive, OString "libtaps_tcp.so")].
Definition at_listen : world := test_world ((1%positive, OEndpoint local_endpoint) :: others) 4.
Definition callbacks : tapsCallbacks :=
  Callbacks (Some 11%positive) (Some 12%positive) None None None None None None None None None.
Definition junk : sockaddr := Sockaddr 9 9 9 9.

Lemma local_ok : endpoint_ok (list_to_map others) at_listen 1 local_endpoint local_attrs.
Proof.
  split.
  - done.
  - by intros [].
  - intros [] [] l; simpl; congruence.
  - done.
  - done.
  - done.
  - done.
  - intros i Hi _. unfold at_listen, test_world. simpl heap. by rewrite lookup_insert_ne.
  - intros i [->|(k & Hk & Hg)]; [done|by destruct k].
  - intros j Hj. unfold at_listen, test_world in *. simpl in *. rewrite !lookup_insert_ne by lia. apply lookup_empty.
Qed.

(** A preconnection made without endpoints: [local] holds only NULL. *)
Definition endpointless : tapsPreconnection :=
  Preconnection (replicate 8 None) 0 (replicate 8 None) 0
    (Protocol None None (Some 3%positive) 0 :: replicate 255 zero_protocol) 1 None None.
Definition at_endpointless : world := test_world [(2%positive, OPreconnection endpointless)] 4.

Lemma tapsPreconnectionListen_starts_witness :
  tapsPreconnectionListen junk junk (Some 2%positive) None (Some 5%positive) (Some callbacks) at_endpointless
    = (Ok None, set_errno_w EINVAL at_endpointless)
  /\ tapsPreconnectionListen junk junk (Some 2%positive) None (Some 5%positive) (Some callbacks) at_listen
    = tapsListenerNew None "libtaps_tcp.so" (Sockaddr AF_INET 20480 16777343 9) (Some 5%positive) (Some callbacks) at_listen.
Proof.
  split.
  - by apply (tapsPreconnectionListen_starts (Some 5%positive) None (Some callbacks) junk junk at_endpointless) with endpointless.
  - destruct (tapsPreconnectionListen_starts (Some 5%positive) None (Some callbacks) junk junk at_listen) as [_ Hl].
    destruct (Hl 2%positive ready) as [_ Hs]; [done|].
    apply (Hs (list_to_map others) 1%positive local_endpoint local_attrs) with (Protocol None None (Some 3%positive) 0) 3%positive;
      [done|done|apply local_ok|simpl; lia|done|done|done].
Defined.

End PreconnectionSample.
