(* ===== verification/Bits.v ===== *)
(** * Bits: the population count of taps_preconnection.c

    [numberOfSetBits] adds neighbouring fields of a word in parallel.  Read as
    a list of nibbles, each of its steps is a step on every nibble. *)

From S2P Require Import Prelude Structs Memory TransportProperties Preconnection.
Local Open Scope Z_scope.

(** The number a list of nibbles stands for, the lowest first. *)
Fixpoint value (l : list Z) : Z :=
  match l with [] => 0 | x :: r => x + 16 * value r end.

Definition nibble (x : Z) : Prop := 0 <= x < 16.

(** The reference: how many of the lowest [n] bits are set. *)
Definition bits_set (n i : Z) : Z := foldr Z.add 0 ((fun k => Z.b2z (Z.testbit i k)) <$> seqZ 0 n).

(** ** Nibbles *)

Lemma value_bound l : Forall nibble l -> 0 <= value l < 16 ^ Z.of_nat (length l).
Proof.
  induction 1 as [|x l Hx _ IH]; [done|]. unfold nibble in Hx. cbn [value length].
  rewrite Nat2Z.inj_succ, Z.pow_succ_r by lia. lia.
Qed.

Lemma nibble_testbit x y n :
  nibble x -> 0 <= n -> Z.testbit (x + 16 * y) n = if n <? 4 then Z.testbit x n else Z.testbit y (n - 4).
Proof.
  unfold nibble. intros Hx Hn. destruct (Z.ltb_spec n 4).
  - rewrite <- (Z.mod_pow2_bits_low (x + 16 * y) 4 n) by lia. f_equal.
    replace (x + 16 * y) with (x + y * 2 ^ 4) by lia. rewrite Z_mod_plus_full. apply Z.mod_small. lia.
  - rewrite <- (Z.sub_add 4 n) at 1. rewrite <- Z.div_pow2_bits by lia. f_equal.
    replace (x + 16 * y) with (y * 2 ^ 4 + x) by lia. rewrite Z.div_add_l, Z.div_small by lia. lia.
Qed.

(** Masking a shifted word, when the mask has no bit where the next nibble
    comes in. *)
Lemma land_shift_step s x y m u :
  0 <= s <= 4 -> nibble x -> 0 <= m < 2 ^ (4 - s) ->
  Z.land (Z.shiftr (x + 16 * y) s) (m + 16 * u) = Z.land (Z.shiftr x s) m + 16 * Z.land (Z.shiftr y s) u.
Proof.
  intros Hs Hx Hm. assert (2 ^ (4 - s) <= 2 ^ 4) by (apply Z.pow_le_mono_r; lia).
  assert (nibble m) as Hm' by (unfold nibble; lia).
  assert (nibble (Z.land (Z.shiftr x s) m)) as Hl.
  { unfold nibble in *. split; [apply Z.land_nonneg; lia|].
    destruct (Z.eq_dec m 0) as [->|]; [rewrite Z.land_0_r; lia|].
    pose proof (Z.log2_land (Z.shiftr x s) m ltac:(apply Z.shiftr_nonneg; lia) ltac:(lia)).
    assert (Z.log2 m < 4) by (apply Z.log2_lt_pow2; lia).
    change 16 with (2 ^ 4). apply Z.log2_lt_cancel. rewrite Z.log2_pow2 by lia. lia. }
  apply Z.bits_inj'. intros n Hn. rewrite Z.land_spec, Z.shiftr_spec by done.
  rewrite !nibble_testbit by (done || lia). destruct (Z.ltb_spec n 4).
  - rewrite Z.land_spec, Z.shiftr_spec by done. destruct (Z.ltb_spec (n + s) 4); [done|].
    assert (Z.testbit m n = false) as ->; [|by rewrite !andb_false_r].
    apply Z.testbit_false; [lia|]. rewrite Z.div_small; [done|]. split; [lia|].
    apply Z.lt_le_trans with (2 ^ (4 - s)); [lia|]. apply Z.pow_le_mono_r; lia.
  - rewrite (proj2 (Z.ltb_ge (n + s) 4)) by lia. rewrite Z.land_spec, Z.shiftr_spec by lia.
    do 2 f_equal. lia.
Qed.

Lemma land_shift s l ms :
  0 <= s <= 4 -> Forall nibble l -> Forall (fun m => 0 <= m < 2 ^ (4 - s)) ms -> length l = length ms ->
  Z.land (Z.shiftr (value l) s) (value ms) = value (zip_with (fun x m => Z.land (Z.shiftr x s) m) l ms).
Proof.
  intros Hs Hl. revert ms. induction Hl as [|x l Hx _ IH]; intros [|m ms] Hm Hlen; try done.
  - cbn. by rewrite Z.land_0_r.
  - apply Forall_cons in Hm as [Hm Hms]. cbn [value zip_with]. rewrite land_shift_step by done.
    by rewrite IH by (done || (simpl in Hlen; lia)).
Qed.

(** Every word is a list of nibbles. *)
Fixpoint nibbles (n : nat) (i : Z) : list Z :=
  match n with O => [] | S n => i mod 16 :: nibbles n (i / 16) end.

Lemma nibbles_value n i : 0 <= i < 16 ^ Z.of_nat n ->
  i = value (nibbles n i) /\ length (nibbles n i) = n /\ Forall nibble (nibbles n i).
Proof.
  revert i. induction n as [|n IH]; intros i Hi; [simpl in Hi |- *; splits; [lia|done|done]|].
  rewrite Nat2Z.inj_succ, Z.pow_succ_r in Hi by lia.
  destruct (IH (i / 16)) as (E & Hl & Hf).
  { split; [apply Z.div_pos; lia|]. apply Z.div_lt_upper_bound; lia. }
  cbn [nibbles value length]. rewrite <- E. splits; [|by f_equal|constructor; [|done]].
  - rewrite Z.add_comm. apply Z.div_mod. lia.
  - apply Z.mod_pos_bound. lia.
Qed.

Lemma bits_set_value l : Forall nibble l ->
  bits_set (4 * Z.of_nat (length l)) (value l) = foldr Z.add 0 (bits_set 4 <$> l).
Proof.
  induction 1 as [|x l Hx _ IH]; [done|]. cbn [length value]. rewrite fmap_cons. cbn [foldr]. rewrite <- IH.
  unfold bits_set. replace (4 * Z.of_nat (S (length l))) with (4 + 4 * Z.of_nat (length l)) by lia.
  rewrite seqZ_app by lia. rewrite fmap_app, foldr_app.
  replace (0 + 4) with (4 + 0) by lia. rewrite <- fmap_add_seqZ, <- list_fmap_compose.
  assert (forall a (b : list Z), foldr Z.add a b = foldr Z.add 0 b + a) as Hfold.
  { intros a b. induction b; simpl; lia. }
  rewrite Hfold. f_equal; f_equal; apply list_fmap_ext; intros k y Hk%lookup_seqZ.
  - rewrite nibble_testbit by (done || lia). by rewrite (proj2 (Z.ltb_lt _ _)) by lia.
  - simpl. rewrite nibble_testbit by (done || lia). rewrite (proj2 (Z.ltb_ge _ _)) by lia. do 2 f_equal. lia.
Qed.

(** ** The steps on a nibble *)

(** Pairs, then the nibble. *)
Definition pairs (x : Z) : Z := x - Z.land (Z.shiftr x 1) 5.
Definition halves (x : Z) : Z := Z.land x 3 + Z.land (Z.shiftr x 2) 3.

Lemma nibble_steps x : nibble x ->
  nibble (pairs x) /\ halves (pairs x) = bits_set 4 x /\ 0 <= bits_set 4 x <= 4.
Proof.
  assert (Forall (fun x => nibble (pairs x) /\ halves (pairs x) = bits_set 4 x /\ 0 <= bits_set 4 x <= 4) (seqZ 0 16)) as Hall.
  { unfold nibble. repeat (constructor; [vm_compute; splits; congruence|]). constructor. }
  intros Hx. rewrite Forall_forall in Hall. apply Hall, elem_of_seqZ. unfold nibble in Hx. lia.
Qed.

(** *** The steps on a word *)

Lemma value_sub f l : value l - value (f <$> l) = value ((fun x => x - f x) <$> l).
Proof. induction l as [|x l IH]; [done|]. rewrite !fmap_cons. cbn [value]. lia. Qed.

Lemma value_add (f g : Z -> Z) l : value (f <$> l) + value (g <$> l) = value ((fun x => f x + g x) <$> l).
Proof. induction l as [|x l IH]; [done|]. rewrite !fmap_cons. cbn [value]. lia. Qed.

Lemma land_shift_all s l m :
  0 <= s <= 4 -> Forall nibble l -> 0 <= m < 2 ^ (4 - s) ->
  Z.land (Z.shiftr (value l) s) (value (replicate (length l) m)) = value ((fun x => Z.land (Z.shiftr x s) m) <$> l).
Proof.
  intros Hs Hl Hm. rewrite land_shift; [|done|done|by apply Forall_replicate|by rewrite length_replicate].
  by rewrite zip_with_replicate_r_eq.
Qed.

Lemma word_pairs l : Forall nibble l -> length l = 8%nat ->
  u32 (value l - Z.land (Z.shiftr (value l) 1) 0x55555555) = value (pairs <$> l).
Proof.
  intros Hl Hn. change 0x55555555 with (value (replicate 8 5)). rewrite <- Hn.
  rewrite land_shift_all by (done || lia). rewrite value_sub. apply wrap_small.
  pose proof (value_bound (pairs <$> l)) as Hb. rewrite length_fmap, Hn in Hb. apply Hb.
  apply Forall_fmap. eapply Forall_impl; [exact Hl|]. intros x Hx. apply (nibble_steps x Hx).
Qed.

Lemma word_halves l : Forall nibble l -> length l = 8%nat ->
  u32 (Z.land (value (pairs <$> l)) 0x33333333 + Z.land (Z.shiftr (value (pairs <$> l)) 2) 0x33333333)
  = value (bits_set 4 <$> l).
Proof.
  intros Hl Hn. assert (Forall nibble (pairs <$> l)) as Hp.
  { apply Forall_fmap. eapply Forall_impl; [exact Hl|]. intros x Hx. apply (nibble_steps x Hx). }
  change 0x33333333 with (value (replicate 8 3)). rewrite <- Hn, <- (length_fmap pairs l).
  rewrite <- (Z.shiftr_0_r (value (pairs <$> l))) at 1. rewrite !land_shift_all by (done || lia).
  rewrite value_add, <- list_fmap_compose.
  assert (((fun x => Z.land (Z.shiftr x 0) 3 + Z.land (Z.shiftr x 2) 3) ∘ pairs) <$> l = bits_set 4 <$> l) as ->.
  { apply list_fmap_ext. intros i x Hx. simpl. rewrite Z.shiftr_0_r.
    destruct (nibble_steps x) as (_ & E & _); [exact (Forall_lookup_1 _ _ _ _ Hl Hx)|exact E]. }
  apply wrap_small. pose proof (value_bound (bits_set 4 <$> l)) as Hb. rewrite length_fmap, Hn in Hb. apply Hb.
  apply Forall_fmap. eapply Forall_impl; [exact Hl|]. intros x Hx.
  destruct (nibble_steps x Hx) as (_ & _ & ?). unfold nibble. simpl. lia.
Qed.

Lemma value_shift x l : nibble x -> Z.shiftr (value (x :: l)) 4 = value l.
Proof.
  unfold nibble. intros Hx. rewrite Z.shiftr_div_pow2 by lia. cbn [value]. change (2 ^ 4) with 16.
  rewrite Z.add_comm, Z.mul_comm, Z.div_add_l, Z.div_small; lia.
Qed.

(** The product adds the four bytes in its highest one. *)
Lemma bytes_sum p q r s : 0 <= p <= 8 -> 0 <= q <= 8 -> 0 <= r <= 8 -> 0 <= s <= 8 ->
  Z.shiftr (u32 (value [p; 0; q; 0; r; 0; s; 0] * 0x01010101)) 24 = p + q + r + s.
Proof.
  intros. replace (value [p; 0; q; 0; r; 0; s; 0] * 0x01010101)
    with ((p + q + r + s) * 2 ^ 24 + (p + 256 * (p + q) + 65536 * (p + q + r))
          + (q + r + s + 256 * (r + s) + 65536 * s) * 2 ^ 32) by (cbn [value]; lia).
  unfold wrap. rewrite Z_mod_plus_full, Z.mod_small by lia.
  rewrite Z.shiftr_div_pow2, Z.div_add_l, Z.div_small by lia. lia.
Qed.

(** The nibbles are added to bytes, and the bytes by a multiplication. *)
Lemma word_sum q : Forall (fun x => 0 <= x <= 4) q -> length q = 8%nat ->
  Z.shiftr (u32 (Z.land (u32 (value q + Z.shiftr (value q) 4)) 0x0f0f0f0f * 0x01010101)) 24 = foldr Z.add 0 q.
Proof.
  intros Hq Hn. destruct q as [|a [|b [|c [|d [|e [|f [|g [|h [|]]]]]]]]]; try done.
  repeat match goal with H : Forall _ (_ :: _) |- _ => apply Forall_cons in H as [? H] end.
  rewrite value_shift by (unfold nibble; lia).
  replace (value [a; b; c; d; e; f; g; h] + value [b; c; d; e; f; g; h])
    with (value [a + b; b + c; c + d; d + e; e + f; f + g; g + h; h]) by (cbn [value]; lia).
  rewrite (wrap_small 32 (value _)) by (cbn [value]; lia).
  change 0x0f0f0f0f with (value [15; 0; 15; 0; 15; 0; 15; 0]).
  rewrite <- (Z.shiftr_0_r (value [_; _; _; _; _; _; _; _])) at 1.
  rewrite land_shift; [|lia|repeat (constructor; [unfold nibble; lia|]); constructor|by repeat constructor|done].
  cbn [zip_with]. rewrite !Z.shiftr_0_r, !Z.land_0_r. change 15 with (Z.ones 4). rewrite !Z.land_ones, !Z.mod_small by lia.
  rewrite bytes_sum by lia. simpl. lia.
Qed.

(** C24: the population count of the scores.  The parallel count computes, for
    every 32-bit word, the number of its bits that are set. *)
Theorem numberOfSetBits_counts i : 0 <= i < 2 ^ 32 -> numberOfSetBits i = bits_set 32 i.
Proof.
  intros Hi. destruct (nibbles_value 8 i) as (E & Hn & Hl); [done|]. revert E Hn Hl.
  generalize (nibbles 8 i) as l. intros l -> Hn Hl. unfold numberOfSetBits.
  rewrite word_pairs, word_halves by done. rewrite word_sum; [|..|by rewrite length_fmap].
  - rewrite <- bits_set_value by done. by rewrite Hn.
  - apply Forall_fmap. eapply Forall_impl; [exact Hl|]. intros x Hx. apply (nibble_steps x Hx).
Qed.

Lemma numberOfSetBits_counts_witness : numberOfSetBits 0xdeadbeef = 24 /\ bits_set 32 0xdeadbeef = 24.
Proof. split; [rewrite (numberOfSetBits_counts 0xdeadbeef) by lia|]; by vm_compute. Defined.
