(* ===== verification/Tests.v ===== *)
(** * Tests: the unit tests of the repository, run on the model

    The functions of src/test/ as programs over the library.  What they check
    with a [goto fail] is a list of checks, run up to the first that fails; what
    they print is left out. *)

From S2P Require Import Prelude Structs Memory TransportProperties Endpoint Cfg Preconnection.
Local Open Scope Z_scope.

(** ** The tests *)

Section tests.
Context `{Machine} `{Net}.

(** [if (check) goto fail;] for each check: 1 if none holds. *)
Fixpoint checks (l : list (M bool)) : M Z :=
  match l with
  | [] => mret 1
  | c :: l => b ← c; if b : bool then mret 0 else checks l
  end.

(** [TEST_FN(!m)] and [TEST_FN(m)]. *)
Definition must (m : M Z) : M bool := r ← m; mret (negb (truth r)).
Definition must_not (m : M Z) : M bool := r ← m; mret (truth r).

(** [strcmp(m, s) != 0]. *)
Definition differs (m : M (option string)) (s : string) : M bool :=
  p ← m; t ← deref p; mret (negb (String.eqb t s)).
Definition differs_at (p : ptr) (s : string) : M bool := t ← load p; mret (negb (String.eqb t s)).

Definition endpointTest (sin : sockaddr) : M Z :=
  ep ← tapsEndpointNew;
  match ep with
  | None => mret 0
  | Some _ =>
      result ← checks [
        must (tapsEndpointWithHostname ep "example.com");
        must (tapsEndpointWithPort ep 443);
        must (tapsEndpointWithService ep "h3");
        must (tapsEndpointWithIPv4Address ep "192.168.0.1");
        must (tapsEndpointWithIPv6Address ep "2001:0db8:85a3::8a2e:0370:7334");
        must (tapsEndpointWithInterface ep "eth0");
        must (tapsEndpointWithProtocol ep "UDP");
        must_not (tapsEndpointWithHostname ep "example.net");
        must_not (tapsEndpointWithPort ep 80);
        must_not (tapsEndpointWithService ep "h2");
        must_not (tapsEndpointWithIPv4Address ep "192.168.0.2");
        must_not (tapsEndpointWithIPv6Address ep "2001:0db8:85a3::8a2e:0370:7335");
        must_not (tapsEndpointWithInterface ep "eth1");
        must_not (tapsEndpointWithProtocol ep "TCP");
        ('(r, sin) ← tapsEndpointGetAddress ep (Sockaddr AF_INET (sa_port sin) (sa_in sin) (sa_in6 sin));
         mret ((r <? 0) || negb (sa_port sin =? 443)));
        differs (tapsEndpointGetProperty ep "ipv4") "192.168.0.1";
        differs (tapsEndpointGetProperty ep "ipv6") "2001:db8:85a3::8a2e:370:7334";
        differs (tapsEndpointGetProperty ep "hostname") "example.com";
        differs (tapsEndpointGetProperty ep "protocol") "UDP";
        differs (tapsEndpointGetProperty ep "interface") "eth0"];
      tapsEndpointFree ep ;;
      mret result
  end.

(** What is printed for each row is read from its strings. *)
Definition print_row (x : tapsProtocol) : M unit :=
  name ← (load (p_name x) : M string);
  if String.eqb name "_kernel_TCP" || String.eqb name "_kernel_UDP"
  then (load (p_protocol x) : M string) ;; (load (p_libpath x) : M string) ;; mret tt
  else mret tt.

Definition NUM_PROTOS_EXPECTED : Z := 2.

Definition yamlTest (fuel : nat) (directory : option (list dirent)) (proto : list tapsProtocol) : M Z :=
  '(numProto, proto) ← tapsUpdateProtocols fuel directory proto 255;
  if numProto <? NUM_PROTOS_EXPECTED then mret 0
  else foldr (fun x m => print_row x ;; m) (mret tt) (take (Z.to_nat numProto) proto) ;; mret 1.

(** [pc] is what the variable holds before it is written. *)
Definition preconnectionTest (fuel : nat) (directory : option (list dirent)) (proto : list tapsProtocol) (pc : ptr) : M Z :=
  local ← tapsEndpointNew;
  tp ← tapsTransportPropertiesNew TAPS_LISTENER;
  match local, tp with
  | Some _, Some _ =>
      r ← tapsEndpointWithPort local 80;
      if negb (truth r) then tapsPreconnectionFree pc ;; mret 0
      else
        pc ← tapsPreconnectionNew fuel directory proto [local] 1 [] 0 tp;
        result ← match pc with
          | None => mret 0
          | Some _ =>
              p ← load pc;
              row ← deref (head (pc_protocol p));
              checks [
                mret (negb (bool_decide (head (pc_local p) = Some local)));
                mret (negb (pc_numLocal p =? 1));
                mret (negb (pc_numRemote p =? 0));
                mret (negb (pc_numProtocols p =? 1));
                differs_at (p_name row) "_kernel_TCP";
                differs_at (p_protocol row) "TCP";
                differs_at (p_libpath row) "/usr/lib/x86_64-linux-gnu/libtaps_tcp.so";
                mret (negb (bool_decide (pc_transport p = tp)));
                mret (negb (bool_decide (pc_security p = None)))]
          end;
        tapsPreconnectionFree pc ;;
        mret result
  | _, _ => mret 0
  end.

(** The name of the last interface with an internet address. *)
Fixpoint last_inet (l : list ifaddrs) (ifName : ptr) : M (option ptr) :=
  match l with
  | [] => mret (Some ifName)
  | ifa :: l =>
      family ← deref (ifa_addr ifa);
      if (family =? AF_INET) || (family =? AF_INET6) then
        p ← strdup (ifa_name ifa);
        match p with None => mret None | Some _ => last_inet l p end
      else last_inet l ifName
  end.

(** The marks of the interfaces: only the one that was named is required. *)
Fixpoint wrongly_marked (l : list ifaddrs) (ifName : string) : M bool :=
  match l with
  | [] => mret false
  | ifa :: l =>
      family ← deref (ifa_addr ifa);
      if negb (family =? AF_INET) && negb (family =? AF_INET6) then wrongly_marked l ifName
      else if negb (read_preference (ifa_data ifa)
                    =? preference_value (if String.eqb (ifa_name ifa) ifName then TAPS_REQUIRE else TAPS_IGNORE))
      then mret true
      else wrongly_marked l ifName
  end.

(** A check of the fields of the properties. *)
Definition field (tp : ptr) (bad : transportProperties -> bool) : M bool := t ← load tp; mret (bad t).

Definition not_defaults (t : transportProperties) : bool :=
  negb (t_require t =? 0x01c9) || negb (t_prefer t =? 0x0820) || negb (t_avoid t =? 0x0400)
  || negb (t_prohibit t =? 0) || negb (t_explicitlySet t =? 0)
  || negb (bool_decide (t_multipath t = TAPS_MP_PASSIVE)) || negb (bool_decide (t_direction t = TAPS_BIDIR))
  || t_advertises_altaddr t || negb (bool_decide (t_interfaces t = [])).

Definition not_all_set (t : transportProperties) : bool :=
  negb (t_explicitlySet t =? 0xffff) || negb (t_require t =? 0x0412) || negb (t_prefer t =? 0x3a09)
  || negb (t_avoid t =? 0xc004) || negb (t_prohibit t =? 0x0120)
  || negb (bool_decide (t_multipath t = TAPS_MP_ACTIVE)) || negb (bool_decide (t_direction t = TAPS_UNIDIR_SEND))
  || negb (t_advertises_altaddr t) || bool_decide (t_interfaces t = []).

(** [getifaddrs] is called by the test and by the library; [ifName] is what the
    variable holds before it is written. *)
Definition transportPropertiesTest (getifaddrs : option (list ifaddrs)) (ifName : ptr) : M Z :=
  tp ← tapsTransportPropertiesNew TAPS_LISTENER;
  match tp with
  | None => mret 0
  | Some _ =>
      if negb (preference_value TAPS_IGNORE =? 0) then mret 0
      else
        b ← field tp not_defaults;
        match (if b : bool then None else getifaddrs) with
        | None => tapsTransportPropertiesFree tp ;; mret 0
        | Some l =>
            name ← last_inet l ifName;
            match name with
            | None => mret 0
            | Some ifName =>
                tapsTransportPropertiesSetMultipath tp TAPS_MP_ACTIVE ;;
                tapsTransportPropertiesSetDirection tp TAPS_UNIDIR_SEND ;;
                tapsTransportPropertiesSetAdvertises_altaddr tp true ;;
                name ← load ifName;
                result ← checks [
                  must (tapsTransportPropertiesSetInterface getifaddrs tp name TAPS_REQUIRE);
                  must (tapsTransportPropertiesSet tp "reliability" TAPS_PREFER);
                  must (tapsTransportPropertiesSet tp "preserveMsgBoundaries" TAPS_REQUIRE);
                  must (tapsTransportPropertiesSet tp "perMsgReliability" TAPS_AVOID);
                  must (tapsTransportPropertiesSet tp "preserveOrder" TAPS_PREFER);
                  must (tapsTransportPropertiesSet tp "zeroRttMsg" TAPS_REQUIRE);
                  must (tapsTransportPropertiesSet tp "multistreaming" TAPS_PROHIBIT);
                  must (tapsTransportPropertiesSet tp "FullChecksumSend" TAPS_IGNORE);
                  must (tapsTransportPropertiesSet tp "FullChecksumRecv" TAPS_IGNORE);
                  must (tapsTransportPropertiesSet tp "congestionControl" TAPS_PROHIBIT);
                  must (tapsTransportPropertiesSet tp "keepAlive" TAPS_PREFER);
                  must (tapsTransportPropertiesSet tp "useTemporaryLocalAddress" TAPS_REQUIRE);
                  must (tapsTransportPropertiesSet tp "softErrorNotify" TAPS_AVOID);
                  must (tapsTransportPropertiesSet tp "activeReadBeforeSend" TAPS_AVOID);
                  field tp not_all_set;
                  (t ← load tp; wrongly_marked (t_interfaces t) name)];
                tapsTransportPropertiesFree tp ;;
                mret result
            end
        end
  end.

End tests.

(** ** The tests run *)

Module TestsSample.

#[local] Existing Instance strict_machine.
#[local] Instance net : Net := {|
  inet_pton4 s := if String.eqb s "192.168.0.1" then Some 1 else if String.eqb s "192.168.0.2" then Some 2 else None;
  inet_pton6 s := if String.eqb s "2001:0db8:85a3::8a2e:0370:7334" then Some 1
                  else if String.eqb s "2001:0db8:85a3::8a2e:0370:7335" then Some 2 else None;
  inet_ntop4 n := if n =? 1 then "192.168.0.1"%string else "192.168.0.2"%string;
  inet_ntop6 n := if n =? 1 then "2001:db8:85a3::8a2e:370:7334"%string else "2001:db8:85a3::8a2e:370:7335"%string;
|}.

Definition host : list ifaddrs :=
  [Ifaddrs "lo" (Some 17) 77; Ifaddrs "eth0" (Some 17) 88; Ifaddrs "lo" (Some AF_INET) 0; Ifaddrs "eth0" (Some AF_INET) 0].
Definition start : world := test_world [] 1.
Definition kernel : option (list dirent) := Some CfgSample.kernel_dir.
Definition rows : list tapsProtocol := replicate 256 zero_protocol.

(** The four tests succeed, and the first gives back all memory it took. *)
Example endpointTest_succeeds :
  let '(r, w) := endpointTest (Sockaddr 0 0 0 0) start in r = Ok 1 /\ heap w = ∅.
Proof. by vm_compute. Qed.

Example yamlTest_succeeds : fst (yamlTest 0 kernel rows start) = Ok 1.
Proof. by vm_compute. Qed.

Example preconnectionTest_succeeds : fst (preconnectionTest 0 kernel rows None start) = Ok 1.
Proof. by vm_compute. Qed.

Example transportPropertiesTest_succeeds : fst (transportPropertiesTest (Some host) None start) = Ok 1.
Proof. by vm_compute. Qed.

(** A host with an interface that has no address ends the last one. *)
Example transportPropertiesTest_traps :
  fst (transportPropertiesTest (Some (Ifaddrs "tun0" None 0 :: host)) None start) = Fault NullDeref.
Proof. by vm_compute. Qed.

End TestsSample.
