(* ===== verification/Tcp.v ===== *)
(** * Tcp: tcp/tcp.c, the protocol library that comes with the repository

    TCP sockets behind the functions taps_protocol.h asks for.  The socket layer
    and libevent are the class [Sys], which answers each call from the calls
    made so far; the callbacks into the library are the class [Taps].  What is
    read into a buffer is not modelled, only where and how much. *)

From S2P Require Import Prelude Structs Memory Resources Frame TransportProperties.
Local Open Scope Z_scope.

(** ** The environment *)

Class Sys := {
  sys_socket : list event -> Z -> Z;
  sys_bind : list event -> Z -> sockaddr -> Z;
  sys_listen : list event -> Z -> Z -> Z;
  sys_accept : list event -> Z -> Z;
  sys_readv : list event -> Z -> option iovptr -> Z -> Z;
  sys_writev : list event -> Z -> iovptr -> Z -> Z;
  lev_new : list event -> ptr -> Z -> Z -> ptr -> ptr;
  lev_add : list event -> ptr -> Z;
  lev_pending : list event -> ptr -> bool;
}.

Class Taps := {
  up_connectionReceived : fn -> ptr -> ptr -> M ptr;
  up_closed : fn -> ptr -> M unit;
  up_sent : fn -> ptr -> M unit;
  up_receivedPartial : fn -> ptr -> option iovptr -> Z -> M unit;
}.

(** The callback of [Stop]. *)
Class TapsStop := { up_stopped : fn -> ptr -> M unit }.

(** Conditions of libevent's events. *)
Definition EV_READ : Z := 2.
Definition EV_WRITE : Z := 4.
Definition EV_PERSIST : Z := 16.
Definition EV_CLOSED : Z := 128.

Definition TAPS_TCP_DEFAULT_MAX_LISTEN : Z := 100.

(** A call of the environment, recorded with its answer. *)
Definition ask {A} (f : list event -> A) (ev : A -> event) : M A :=
  fun w => (Ok (f (trace w)), add_event (ev (f (trace w))) w).

(** A call through a function pointer of the library. *)
Definition call_up {A} (f : fptr) (ev : fn -> event) (k : fn -> M A) : M A :=
  match f with
  | None => throw NullCall
  | Some f => emit (ev f) ;; k f
  end.

(** ** Field updates *)

Definition set_cc_fd (n : Z) (c : conn_ctx) : conn_ctx :=
  ConnCtx n (cc_base c) (cc_closeEvent c) (cc_sendEvent c) (cc_receiveEvent c) (cc_errorEvent c) (cc_closed c)
    (cc_connectionError c) (cc_sent c) (cc_expired c) (cc_sendError c) (cc_received c) (cc_receivedPartial c)
    (cc_receiveError c) (cc_taps_ctx c) (cc_send_ctx c) (cc_receive_ctx c) (cc_receive_buffer c) (cc_iovcnt c).
Definition set_cc_base (b : ptr) (c : conn_ctx) : conn_ctx :=
  ConnCtx (cc_fd c) b (cc_closeEvent c) (cc_sendEvent c) (cc_receiveEvent c) (cc_errorEvent c) (cc_closed c)
    (cc_connectionError c) (cc_sent c) (cc_expired c) (cc_sendError c) (cc_received c) (cc_receivedPartial c)
    (cc_receiveError c) (cc_taps_ctx c) (cc_send_ctx c) (cc_receive_ctx c) (cc_receive_buffer c) (cc_iovcnt c).
Definition set_cc_closeEvent (e : ptr) (c : conn_ctx) : conn_ctx :=
  ConnCtx (cc_fd c) (cc_base c) e (cc_sendEvent c) (cc_receiveEvent c) (cc_errorEvent c) (cc_closed c)
    (cc_connectionError c) (cc_sent c) (cc_expired c) (cc_sendError c) (cc_received c) (cc_receivedPartial c)
    (cc_receiveError c) (cc_taps_ctx c) (cc_send_ctx c) (cc_receive_ctx c) (cc_receive_buffer c) (cc_iovcnt c).
Definition set_cc_sendEvent (e : ptr) (c : conn_ctx) : conn_ctx :=
  ConnCtx (cc_fd c) (cc_base c) (cc_closeEvent c) e (cc_receiveEvent c) (cc_errorEvent c) (cc_closed c)
    (cc_connectionError c) (cc_sent c) (cc_expired c) (cc_sendError c) (cc_received c) (cc_receivedPartial c)
    (cc_receiveError c) (cc_taps_ctx c) (cc_send_ctx c) (cc_receive_ctx c) (cc_receive_buffer c) (cc_iovcnt c).
Definition set_cc_receiveEvent (e : ptr) (c : conn_ctx) : conn_ctx :=
  ConnCtx (cc_fd c) (cc_base c) (cc_closeEvent c) (cc_sendEvent c) e (cc_errorEvent c) (cc_closed c)
    (cc_connectionError c) (cc_sent c) (cc_expired c) (cc_sendError c) (cc_received c) (cc_receivedPartial c)
    (cc_receiveError c) (cc_taps_ctx c) (cc_send_ctx c) (cc_receive_ctx c) (cc_receive_buffer c) (cc_iovcnt c).
Definition set_cc_errorEvent (e : ptr) (c : conn_ctx) : conn_ctx :=
  ConnCtx (cc_fd c) (cc_base c) (cc_closeEvent c) (cc_sendEvent c) (cc_receiveEvent c) e (cc_closed c)
    (cc_connectionError c) (cc_sent c) (cc_expired c) (cc_sendError c) (cc_received c) (cc_receivedPartial c)
    (cc_receiveError c) (cc_taps_ctx c) (cc_send_ctx c) (cc_receive_ctx c) (cc_receive_buffer c) (cc_iovcnt c).
Definition set_cc_end (f g : fptr) (c : conn_ctx) : conn_ctx :=
  ConnCtx (cc_fd c) (cc_base c) (cc_closeEvent c) (cc_sendEvent c) (cc_receiveEvent c) (cc_errorEvent c) f g
    (cc_sent c) (cc_expired c) (cc_sendError c) (cc_received c) (cc_receivedPartial c) (cc_receiveError c)
    (cc_taps_ctx c) (cc_send_ctx c) (cc_receive_ctx c) (cc_receive_buffer c) (cc_iovcnt c).
Definition set_cc_taps_ctx (p : ptr) (c : conn_ctx) : conn_ctx :=
  ConnCtx (cc_fd c) (cc_base c) (cc_closeEvent c) (cc_sendEvent c) (cc_receiveEvent c) (cc_errorEvent c)
    (cc_closed c) (cc_connectionError c) (cc_sent c) (cc_expired c) (cc_sendError c) (cc_received c)
    (cc_receivedPartial c) (cc_receiveError c) p (cc_send_ctx c) (cc_receive_ctx c) (cc_receive_buffer c)
    (cc_iovcnt c).
Definition set_cc_sending (f g k : fptr) (c : conn_ctx) : conn_ctx :=
  ConnCtx (cc_fd c) (cc_base c) (cc_closeEvent c) (cc_sendEvent c) (cc_receiveEvent c) (cc_errorEvent c)
    (cc_closed c) (cc_connectionError c) f g k (cc_received c) (cc_receivedPartial c) (cc_receiveError c)
    (cc_taps_ctx c) (cc_send_ctx c) (cc_receive_ctx c) (cc_receive_buffer c) (cc_iovcnt c).
Definition set_cc_receiving (f g k : fptr) (c : conn_ctx) : conn_ctx :=
  ConnCtx (cc_fd c) (cc_base c) (cc_closeEvent c) (cc_sendEvent c) (cc_receiveEvent c) (cc_errorEvent c)
    (cc_closed c) (cc_connectionError c) (cc_sent c) (cc_expired c) (cc_sendError c) f g k (cc_taps_ctx c)
    (cc_send_ctx c) (cc_receive_ctx c) (cc_receive_buffer c) (cc_iovcnt c).
Definition set_cc_send_ctx (p : ptr) (c : conn_ctx) : conn_ctx :=
  ConnCtx (cc_fd c) (cc_base c) (cc_closeEvent c) (cc_sendEvent c) (cc_receiveEvent c) (cc_errorEvent c)
    (cc_closed c) (cc_connectionError c) (cc_sent c) (cc_expired c) (cc_sendError c) (cc_received c)
    (cc_receivedPartial c) (cc_receiveError c) (cc_taps_ctx c) p (cc_receive_ctx c) (cc_receive_buffer c)
    (cc_iovcnt c).
Definition set_cc_receive (p : ptr) (d : option iovptr) (n : Z) (c : conn_ctx) : conn_ctx :=
  ConnCtx (cc_fd c) (cc_base c) (cc_closeEvent c) (cc_sendEvent c) (cc_receiveEvent c) (cc_errorEvent c)
    (cc_closed c) (cc_connectionError c) (cc_sent c) (cc_expired c) (cc_sendError c) (cc_received c)
    (cc_receivedPartial c) (cc_receiveError c) (cc_taps_ctx c) (cc_send_ctx c) p d n.

Definition set_lc (base : ptr) (event : ptr) (fd : Z) (l : listener_ctx) : listener_ctx :=
  ListenerCtx base event fd (lc_connectionReceived l) (lc_establishmentError l) (lc_closed l) (lc_connectionError l)
    (lc_taps_ctx l).
Definition set_lc_callbacks (received error closed connError : fptr) (taps : ptr) (l : listener_ctx) : listener_ctx :=
  ListenerCtx (lc_base l) (lc_event l) (lc_fd l) received error closed connError taps.

(** ** The event handlers *)

Section handlers.
Context `{Machine} `{Sys} `{Taps}.

Definition event_new (base : ptr) (fd what : Z) (arg : ptr) : M ptr :=
  ask (fun h => lev_new h base fd what arg) (fun e => LNew e fd what arg).
(** event_add reads through its argument, which is NULL when event_new failed. *)
Definition event_add (e : ptr) : M Z :=
  match e with
  | None => throw NullDeref
  | Some _ => ask (fun h => lev_add h e) (fun r => LAdd e r)
  end.

(** [event_del(e); event_free(e)]. *)
Definition drop_event (e : ptr) : M unit := emit (LDel e) ;; emit (LFree e).

Definition _tcp_closed (arg : ptr) : M unit :=
  c ← load arg;
  drop_event (cc_closeEvent c) ;;
  drop_event (cc_sendEvent c) ;;
  drop_event (cc_receiveEvent c) ;;
  emit (KClose (cc_fd c)) ;;
  call_up (cc_closed c) (fun f => UClosed f (cc_taps_ctx c)) (fun f => up_closed f (cc_taps_ctx c)) ;;
  free conn_ctx arg.

Definition _tcp_sent (arg : ptr) : M unit :=
  c ← load arg;
  call_up (cc_sent c) (fun f => USent f (cc_send_ctx c)) (fun f => up_sent f (cc_send_ctx c)).

Definition _tcp_received (arg : ptr) : M unit :=
  c ← load arg;
  bytes ← ask (fun h => sys_readv h (cc_fd c) (cc_receive_buffer c) (cc_iovcnt c))
              (fun n => KReadv (cc_fd c) (cc_receive_buffer c) (cc_iovcnt c) n);
  if bytes <? 0 then mret tt
  else if bytes =? 0 then mret tt
  else
    c ← load arg;
    call_up (cc_receivedPartial c) (fun f => UReceivedPartial f (cc_receive_ctx c) (cc_receive_buffer c) bytes)
      (fun f => up_receivedPartial f (cc_receive_ctx c) (cc_receive_buffer c) bytes).

(** The label [fail] of [_tcp_connection_received]. *)
Definition refuse (cctx : ptr) : M unit :=
  c ← load cctx;
  emit (KClose (cc_fd c)) ;;
  free conn_ctx cctx.

(** The three events of a connection, none of them for errors. *)
Definition new_events (lctx cctx : ptr) : M unit :=
  l ← load lctx;
  modify cctx (set_cc_base (lc_base l)) ;;
  c ← load cctx;
  e ← event_new (cc_base c) (cc_fd c) EV_CLOSED cctx;
  modify cctx (set_cc_closeEvent e) ;;
  c ← load cctx;
  e ← event_new (cc_base c) (cc_fd c) EV_WRITE cctx;
  modify cctx (set_cc_sendEvent e) ;;
  c ← load cctx;
  e ← event_new (cc_base c) (cc_fd c) EV_READ cctx;
  modify cctx (set_cc_receiveEvent e) ;;
  modify cctx (set_cc_errorEvent None).

(** The new connection is shown to the library, which may refuse it. *)
Definition introduce (lctx cctx : ptr) : M unit :=
  l ← load lctx;
  modify cctx (set_cc_end (lc_closed l) (lc_connectionError l)) ;;
  t ← call_up (lc_connectionReceived l) (fun f => UConnectionReceived f (lc_taps_ctx l) cctx)
        (fun f => up_connectionReceived f (lc_taps_ctx l) cctx);
  modify cctx (set_cc_taps_ctx t) ;;
  match t with
  | None => refuse cctx
  | Some _ => mret tt
  end.

Definition _tcp_connection_received (listener : Z) (arg : ptr) : M unit :=
  cctx ← malloc conn_ctx;
  match cctx with
  | None => mret tt
  | Some _ =>
      fd ← ask (fun h => sys_accept h listener) (fun fd => KAccept listener fd);
      modify cctx (set_cc_fd fd) ;;
      if fd <? 0 then refuse cctx
      else
        new_events arg cctx ;;
        c ← load cctx;
        r ← event_add (cc_closeEvent c);
        (if r <? 0 then emit (LFree (cc_closeEvent c)) else mret tt) ;;
        introduce arg cctx
  end.

(** ** The functions the library looks up *)

(** The label [fail] of [Listen] frees the context before it reads it. *)
Definition listen_fail (listener : ptr) : M ptr :=
  free listener_ctx listener ;;
  l ← load listener;
  (if -1 <? lc_fd l then emit (KClose (lc_fd l)) else mret tt) ;;
  l ← (load listener : M listener_ctx);
  match lc_event l with
  | Some _ => emit (LFree (lc_event l))
  | None => mret tt
  end ;;
  mret None.

Definition Listen (taps_ctx base : ptr) (local : sockaddr)
    (connectionReceived establishmentError closed connectionError : fptr) : M ptr :=
  listener ← malloc listener_ctx;
  match listener with
  | None => mret None
  | Some _ =>
      fd ← ask (fun h => sys_socket h (sa_family local)) KSocket;
      modify listener (set_lc base None fd) ;;
      if fd <? 0 then listen_fail listener
      else
        modify listener (set_lc_callbacks connectionReceived establishmentError closed connectionError taps_ctx) ;;
        r ← ask (fun h => sys_bind h fd local) (fun _ => KBind fd local);
        if r <? 0 then listen_fail listener
        else
          r ← ask (fun h => sys_listen h fd TAPS_TCP_DEFAULT_MAX_LISTEN) (fun _ => KListen fd);
          if r <? 0 then listen_fail listener
          else
            e ← event_new base fd (EV_READ + EV_PERSIST) listener;
            modify listener (fun l => set_lc (lc_base l) e (lc_fd l) l) ;;
            event_add e ;;
            mret listener
  end.

Definition Stop `{TapsStop} (proto_ctx : ptr) (cb : fptr) : M unit :=
  ctx ← load proto_ctx;
  drop_event (lc_event ctx) ;;
  emit (KClose (lc_fd ctx)) ;;
  free listener_ctx proto_ctx ;;
  ctx ← load proto_ctx;
  call_up cb (fun f => UStopped f (lc_taps_ctx ctx)) (fun f => up_stopped f (lc_taps_ctx ctx)).

Definition Send (proto_ctx taps_ctx : ptr) (message : iovptr) (iovcnt : Z) (sent expired sendError : fptr) : M Z :=
  c ← load proto_ctx;
  match cc_sent c with
  | None => modify proto_ctx (set_cc_sending sent expired sendError)
  | Some _ => mret tt
  end ;;
  busy ← (fun w => (Ok (lev_pending (trace w) (cc_sendEvent c)), w));
  if busy : bool then mret (-1)
  else
    modify proto_ctx (set_cc_send_ctx taps_ctx) ;;
    retval ← ask (fun h => sys_writev h (cc_fd c) message iovcnt) (fun n => KWritev (cc_fd c) message iovcnt n);
    if retval <? 0 then mret (-1)
    else
      r ← event_add (cc_sendEvent c);
      if r <? 0 then mret (-1) else mret (to_int retval).

Definition Receive (proto_ctx taps_ctx : ptr) (iovec : iovptr) (iovcnt : Z)
    (received receivedPartial receiveError : fptr) : M Z :=
  c ← load proto_ctx;
  match cc_received c with
  | None => modify proto_ctx (set_cc_receiving received receivedPartial receiveError)
  | Some _ => mret tt
  end ;;
  busy ← (fun w => (Ok (lev_pending (trace w) (cc_receiveEvent c)), w));
  if busy : bool then mret (-1)
  else
    modify proto_ctx (set_cc_receive taps_ctx (Some iovec) iovcnt) ;;
    r ← event_add (cc_receiveEvent c);
    if r <? 0 then mret (-1) else mret 0.

End handlers.

Lemma event_add_ok `{Sys} e : e <> None -> event_add e = ask (fun h => lev_add h e) (fun r => LAdd e r).
Proof. by destruct e. Qed.

(** ** What a callback may change *)

(** What the library may not change of a context it was given. *)
Definition same_handles (c c' : conn_ctx) : Prop :=
  cc_fd c' = cc_fd c /\ cc_closeEvent c' = cc_closeEvent c /\ cc_sendEvent c' = cc_sendEvent c
  /\ cc_receiveEvent c' = cc_receiveEvent c /\ cc_closed c' = cc_closed c /\ cc_taps_ctx c' = cc_taps_ctx c.

#[export] Instance same_handles_preorder : PreOrder same_handles.
Proof.
  split; [by intros c|]. intros c1 c2 c3 (A1 & A2 & A3 & A4 & A5 & A6) (B1 & B2 & B3 & B4 & B5 & B6).
  unfold same_handles. splits; congruence.
Qed.

(** The contexts of the connections stay, with what they hold. *)
Definition steady (w w' : world) : Prop :=
  (forall k c, heap w !! k = Some (OConnCtx c) -> exists c', heap w' !! k = Some (OConnCtx c') /\ same_handles c c')
  /\ balanced (trace w) (trace w').

#[export] Instance steady_preorder : PreOrder steady.
Proof.
  split; [intros w; split; [intros k c ?; by exists c|done]|]. intros w1 w2 w3 [H1 B1] [H2 B2]. split; [|by transitivity (trace w2)].
  intros k c Hc. destruct (H1 k c Hc) as (c2 & Hc2 & S2). destruct (H2 k c2 Hc2) as (c3 & Hc3 & S3).
  exists c3. split; [done|by transitivity c2].
Qed.

(** A library that may call back but leaves the contexts and what they hold. *)
Class TameTaps `{Taps} : Prop := {
  tame_received f t p w : exists r w', up_connectionReceived f t p w = (Ok r, w') /\ steady w w';
  tame_closed f t w : exists w', up_closed f t w = (Ok tt, w') /\ steady w w';
  tame_sent f t w : exists w', up_sent f t w = (Ok tt, w') /\ steady w w';
  tame_partial f t d n w : exists w', up_receivedPartial f t d n w = (Ok tt, w') /\ steady w w';
}.

Lemma steady_event ev w :
  (forall fd, socket_step fd ev = 0) -> (forall e, event_step e ev = 0) -> steady w (add_event ev w).
Proof.
  intros Hs He. split; [intros k c ?; by exists c|]. simpl. apply balanced_app; intros; unfold opens, events; simpl;
    [rewrite Hs|rewrite He]; done.
Qed.

Lemma steady_set k c c' w :
  heap w !! k = Some (OConnCtx c) -> same_handles c c' -> steady w (set_heap (<[k := OConnCtx c']> (heap w)) w).
Proof.
  intros Hk Hs. split; [|done]. intros j d Hj. simpl. destruct (decide (j = k)) as [->|].
  - exists c'. rewrite lookup_insert_eq. split; [done|]. congruence.
  - exists d. by rewrite lookup_insert_ne.
Qed.

(** ** The operations on one connection *)

Section connection.
Context `{Machine} `{Sys} `{Taps} `{!TameTaps}.

(** What may happen to a connection until it is closed. *)
Inductive tcp_op :=
| OpSend (item : ptr) (msg : iovptr) (n : Z) (f g h : fptr)
| OpReceive (item : ptr) (data : iovptr) (n : Z) (f g h : fptr)
| OpWritable
| OpReadable.

Definition run_tcp_op (k : ptr) (op : tcp_op) : M unit :=
  match op with
  | OpSend item msg n f g h => Send k item msg n f g h ;; mret tt
  | OpReceive item data n f g h => Receive k item data n f g h ;; mret tt
  | OpWritable => _tcp_sent k
  | OpReadable => _tcp_received k
  end.

Fixpoint run_tcp_ops (k : ptr) (ops : list tcp_op) : M unit :=
  match ops with
  | [] => mret tt
  | op :: ops => run_tcp_op k op ;; run_tcp_ops k ops
  end.

Abbreviation calm := (preserves steady).

Lemma calm_emit ev : (forall fd, socket_step fd ev = 0) -> (forall e, event_step e ev = 0) -> calm (emit ev).
Proof. intros Hs He w a w' [= <- <-]. by apply steady_event. Qed.

Lemma calm_ask {A} (f : list event -> A) ev :
  (forall a fd, socket_step fd (ev a) = 0) -> (forall a e, event_step e (ev a) = 0) -> calm (ask f ev).
Proof. intros Hs He w a w' [= <- <-]. by apply steady_event. Qed.

Lemma calm_load {T} `{Object T} p : calm (load p : M T).
Proof. intros w a w'. unfold load. repeat case_match; intros [= <- <-]; try done. by apply steady_event. Qed.

Lemma calm_modify p (f : conn_ctx -> conn_ctx) : (forall c, same_handles c (f c)) -> calm (modify p f).
Proof.
  intros Hf w a w'. unfold modify. destruct p as [k|]; [|by intros [= <- <-]].
  destruct (heap w !! k) as [o|] eqn:E; [|by intros [= <- <-]].
  destruct (proj o) as [c|] eqn:Ep; intros [= <- <-]; [|done]. apply inj_proj in Ep as ->. by apply (steady_set k c).
Qed.

Lemma calm_up f ev (k : fn -> M unit) :
  (forall f fd, socket_step fd (ev f) = 0) -> (forall f e, event_step e (ev f) = 0) -> (forall f, calm (k f)) ->
  calm (call_up f ev k).
Proof.
  intros Hs He Hk. unfold call_up. destruct f; [|apply (preserves_throw steady)].
  apply (preserves_bind steady); [by apply calm_emit|done].
Qed.

Lemma calm_sent f t : calm (up_sent f t).
Proof. intros w r w' E. destruct (tame_sent f t w) as (w2 & E2 & Hs). congruence. Qed.

Lemma calm_partial f t d n : calm (up_receivedPartial f t d n).
Proof. intros w r w' E. destruct (tame_partial f t d n w) as (w2 & E2 & Hs). congruence. Qed.

(** Walk through a computation. *)
Ltac calm :=
  repeat first
    [ progress intros
    | match goal with |- preserves _ (_ ≫= _) => apply preserves_bind; [exact _|..] end
    | apply calm_load | by apply calm_ask | by apply calm_emit | by apply calm_modify
    | apply (preserves_throw steady)
    | by apply (preserves_ret steady) | by apply (preserves_read steady (fun w => Ok _))
    | apply calm_up; [done|done|intros]; (apply calm_sent || apply calm_partial)
    | case_match ].

Lemma calm_op k op : calm (run_tcp_op k op).
Proof. destruct op; unfold run_tcp_op, Send, Receive, _tcp_sent, _tcp_received, event_add; calm. Qed.

Lemma calm_ops k ops : calm (run_tcp_ops k ops).
Proof.
  induction ops as [|op ops IH]; [apply (preserves_ret steady)|].
  apply (preserves_bind steady); [apply calm_op|done].
Qed.

End connection.

(** ** A connection from its acceptance to its end *)

Section life.
Context `{Machine} `{Sys} `{Taps} `{!TameTaps}.

(** The calls of the acceptance of [fd], up to the report to the library. *)
Definition accept_calls (lfd : Z) (k : loc) (c : conn_ctx) (r : Z) : list event :=
  [KAccept lfd (cc_fd c); LNew (cc_closeEvent c) (cc_fd c) EV_CLOSED (Some k);
   LNew (cc_sendEvent c) (cc_fd c) EV_WRITE (Some k); LNew (cc_receiveEvent c) (cc_fd c) EV_READ (Some k);
   LAdd (cc_closeEvent c) r].

(** The three events are made one after the other, for [k], after the calls [h]. *)
Definition events_in_a_row (h : list event) (k : loc) (c : conn_ctx) : Prop :=
  exists b,
    let ce := LNew (cc_closeEvent c) (cc_fd c) EV_CLOSED (Some k) in
    let se := LNew (cc_sendEvent c) (cc_fd c) EV_WRITE (Some k) in
    cc_closeEvent c = lev_new h b (cc_fd c) EV_CLOSED (Some k)
    /\ cc_sendEvent c = lev_new (h ++ [ce]) b (cc_fd c) EV_WRITE (Some k)
    /\ cc_receiveEvent c = lev_new ((h ++ [ce]) ++ [se]) b (cc_fd c) EV_READ (Some k).

Lemma new_events_ok arg l k c0 w :
  heap w !! arg = Some (OListenerCtx l) -> heap w !! k = Some (OConnCtx c0) ->
  exists c w1, new_events (Some arg) (Some k) w = (Ok tt, w1)
    /\ heap w1 = <[k := OConnCtx c]> (heap w) /\ brk w1 = brk w /\ cc_fd c = cc_fd c0
    /\ (cc_sent c = cc_sent c0 /\ cc_received c = cc_received c0 /\ events_in_a_row (trace w) k c)
    /\ trace w1 = trace w ++ [LNew (cc_closeEvent c) (cc_fd c) EV_CLOSED (Some k);
         LNew (cc_sendEvent c) (cc_fd c) EV_WRITE (Some k); LNew (cc_receiveEvent c) (cc_fd c) EV_READ (Some k)].
Proof.
  intros Hl Hk. assert (arg <> k) as Hne by congruence. unfold new_events, event_new. steps.
  eexists (set_cc_errorEvent None _), _. split; [reflexivity|]. simpl. rewrite !insert_insert_eq.
  split; [reflexivity|]. split; [done|]. split; [done|]. split; [|by rewrite <- !app_assoc].
  splits; [done|done|]. by eexists _.
Qed.

(** When the close event cannot be added it is freed at once, and kept. *)
Definition close_event_calls (c : conn_ctx) (r : Z) : list event :=
  if r <? 0 then [LFree (cc_closeEvent c)] else [].

Lemma accept_ok lfd arg l w :
  heap w !! arg = Some (OListenerCtx l) -> heap w !! brk w = None -> malloc_ok (brk w) = true ->
  0 <= sys_accept (trace w) lfd ->
  exists c h w0 w1, let r := lev_add h (cc_closeEvent c) in
    _tcp_connection_received lfd (Some arg) w
      = match cc_closeEvent c with None => (Fault NullDeref, w0) | Some _ => introduce (Some arg) (Some (brk w)) w1 end
    /\ heap w1 = <[brk w := OConnCtx c]> (heap w) /\ brk w1 = Pos.succ (brk w)
    /\ cc_fd c = sys_accept (trace w) lfd 
    /\ (cc_sent c = cc_sent (uninit (brk w)) /\ cc_received c = cc_received (uninit (brk w))
        /\ events_in_a_row (trace w ++ [KAccept lfd (cc_fd c)]) (brk w) c)
    /\ trace w1 = trace w ++ accept_calls lfd (brk w) c r ++ close_event_calls c r.
Proof.
  intros Hl Hk Hm Hfd. assert (arg <> brk w) as Hne by congruence.
  unfold _tcp_connection_received. erewrite bind_ok by (by apply malloc_succeeds). cbv beta iota.
  erewrite (bind_ok (ask _ _)) by reflexivity. erewrite bind_ok by (eapply modify_ok; heap_lookup).
  rewrite (proj2 (Z.ltb_ge _ _)) by done. set (w0 := set_heap _ _).
  destruct (new_events_ok arg l (brk w) (set_cc_fd (sys_accept (trace w) lfd) (uninit (brk w))) w0)
    as (c & w1 & E1 & Hh1 & Hb1 & Hf1 & Hs1 & Ht1); [subst w0; heap_lookup|subst w0; heap_lookup|].
  erewrite bind_ok by exact E1.
  erewrite bind_ok by (apply (load_ok (T := conn_ctx)); rewrite Hh1; apply lookup_insert_eq).
  exists c, (trace w1), w1. eexists. split.
  - unfold event_add at 1. destruct (cc_closeEvent c) as [e|] eqn:He; [|reflexivity]. rewrite <- He.
    erewrite (bind_ok (ask _ _)) by reflexivity. erewrite bind_ok; [reflexivity|].
    instantiate (1 := World (heap w1) (brk w1) (errno w1)
      (trace w1 ++ [LAdd (cc_closeEvent c) (lev_add (trace w1) (cc_closeEvent c))]
         ++ close_event_calls c (lev_add (trace w1) (cc_closeEvent c)))).
    unfold close_event_calls. case_match; [unfold emit, add_event; simpl; by rewrite <- app_assoc|by rewrite app_nil_r].
  - simpl. destruct Hs1 as (? & ? & ?). rewrite Hh1, Hb1, Hf1, Ht1. subst w0. simpl. rewrite !insert_insert_eq.
    splits; [done..|]. unfold accept_calls. rewrite <- !app_assoc. simpl. by rewrite Hf1.
Qed.

(** A context keeps its socket and its events. *)
Definition same_resources (c c' : conn_ctx) : Prop :=
  cc_fd c' = cc_fd c /\ cc_closeEvent c' = cc_closeEvent c /\ cc_sendEvent c' = cc_sendEvent c
  /\ cc_receiveEvent c' = cc_receiveEvent c.

Lemma introduce_ok arg l k c f w :
  heap w !! arg = Some (OListenerCtx l) -> heap w !! k = Some (OConnCtx c) -> lc_connectionReceived l = Some f ->
  exists t c1 w1 w2 w3, up_connectionReceived f (lc_taps_ctx l) (Some k) w1 = (Ok t, w2)
    /\ introduce (Some arg) (Some k) w = (match t with None => refuse (Some k) | Some _ => mret tt end) w3
    /\ heap w3 !! k = Some (OConnCtx c1) /\ same_resources c c1 /\ cc_closed c1 = lc_closed l
    /\ balanced (trace w) (trace w3).
Proof.
  intros Hl Hk Hf. assert (arg <> k) as Hne by congruence. unfold introduce. steps. rewrite Hf. unfold call_up.
  set (w0 := set_heap _ w). set (w1 := add_event (UConnectionReceived f (lc_taps_ctx l) (Some k)) w0).
  assert (heap w1 !! k = Some (OConnCtx (set_cc_end (lc_closed l) (lc_connectionError l) c))) as Hk1
    by (subst w1 w0; heap_lookup).
  destruct (tame_received f (lc_taps_ctx l) (Some k) w1) as (t & w2 & E2 & Hs & Hb).
  destruct (Hs _ _ Hk1) as (c2 & Hk2 & (A1 & A2 & A3 & A4 & A5 & A6)).
  exists t, (set_cc_taps_ctx t c2), w1, w2. eexists. split; [exact E2|]. split.
  - rewrite bind_assoc. erewrite bind_ok by reflexivity. erewrite bind_ok by exact E2.
    erewrite bind_ok by (apply modify_ok; exact Hk2). by destruct t.
  - simpl. split; [apply lookup_insert_eq|]. split; [done|]. split; [done|].
    transitivity (trace w1); [|done]. subst w1 w0. by apply balanced_app.
Qed.

Lemma refuse_ok k c w :
  heap w !! k = Some (OConnCtx c) ->
  refuse (Some k) w = (Ok tt, add_event (KClose (cc_fd c)) (set_heap (delete k (heap w)) w)).
Proof.
  intros Hk. unfold refuse. erewrite bind_ok by (apply load_ok; exact Hk). erewrite bind_ok by reflexivity.
  by rewrite (free_ok k _ c).
Qed.

Lemma closed_ok k c f w :
  heap w !! k = Some (OConnCtx c) -> cc_closed c = Some f ->
  exists w', _tcp_closed (Some k) w = (Ok tt, w') /\ heap w' !! k = None
    /\ balanced (trace w ++ [LFree (cc_closeEvent c); LFree (cc_sendEvent c); LFree (cc_receiveEvent c); KClose (cc_fd c)])
         (trace w').
Proof.
  intros Hk Hf. unfold _tcp_closed, drop_event, call_up. steps. rewrite Hf. steps.
  set (w1 := add_event _ _). assert (heap w1 !! k = Some (OConnCtx c)) as Hk1 by exact Hk.
  destruct (tame_closed f (cc_taps_ctx c) w1) as (w2 & E2 & Hs & Hb). destruct (Hs _ _ Hk1) as (c2 & Hk2 & _).
  erewrite bind_ok by exact E2. rewrite (free_ok k _ c2) by exact Hk2.
  eexists. split; [done|]. simpl. split; [apply lookup_delete_eq|].
  transitivity (trace w1); [|done]. subst w1. simpl. rewrite <- !app_assoc.
  split; intros; unfold opens, events; rewrite !total_app; simpl; lia.
Qed.

Lemma listen_fail_null l w k w' : listen_fail l w <> (Ok (Some k), w').
Proof.
  unfold listen_fail. intros E. repeat (apply bind_inv in E as (? & ? & _ & E)). discriminate E.
Qed.

(** A context is returned only if the socket listens and waits for connections. *)
Lemma Listen_returns taps base local f1 f2 f3 f4 w k w' :
  Listen taps base local f1 f2 f3 f4 w = (Ok (Some k), w') ->
  k = brk w /\ exists fd e r,
    w' = World (<[k := OListenerCtx (ListenerCtx base e fd f1 f2 f3 f4 taps)]> (heap w)) (Pos.succ k) (errno w)
      (trace w ++ [KSocket fd; KBind fd local; KListen fd; LNew e fd (EV_READ + EV_PERSIST) (Some k); LAdd e r]).
Proof.
  unfold Listen, event_new, event_add. destruct (malloc_ok (brk w)) eqn:Hm.
  2: by erewrite bind_ok by (by apply malloc_fails).
  erewrite bind_ok by (by apply malloc_succeeds). cbv beta iota.
  erewrite (bind_ok (ask _ _)) by reflexivity. erewrite bind_ok by (eapply modify_ok; heap_lookup).
  case_match; [by intros []%listen_fail_null|]. erewrite bind_ok by (eapply modify_ok; heap_lookup).
  erewrite (bind_ok (ask _ _)) by reflexivity. case_match; [by intros []%listen_fail_null|].
  erewrite (bind_ok (ask _ _)) by reflexivity. case_match; [by intros []%listen_fail_null|].
  erewrite (bind_ok (ask _ _)) by reflexivity. erewrite bind_ok by (eapply modify_ok; heap_lookup).
  match goal with |- context [lev_new ?h ?b ?f ?n ?a] => destruct (lev_new h b f n a) as [e|] end; [|done].
  erewrite (bind_ok (ask _ _)) by reflexivity. intros [= <- <-]. split; [done|]. eexists _, _, _.
  unfold add_event, set_heap. simpl. rewrite !insert_insert_eq, <- !app_assoc. reflexivity.
Qed.

(** The calls of a stop, up to the report. *)
Definition stop_calls (k : loc) (l : listener_ctx) : list event :=
  [LDel (lc_event l); LFree (lc_event l); KClose (lc_fd l); DeadRead k].

(** A stop returns only if the freed context still has a value to read, and
    then what it reports is up to that value. *)
Lemma Stop_returns `{TapsStop} k l f w w' :
  heap w !! k = Some (OListenerCtx l) -> Stop (Some k) (Some f) w = (Ok tt, w') ->
  exists l', stale k = Some (OListenerCtx l')
    /\ up_stopped f (lc_taps_ctx l') (World (delete k (heap w)) (brk w) (errno w)
         (trace w ++ stop_calls k l ++ [UStopped f (lc_taps_ctx l')])) = (Ok tt, w').
Proof.
  intros Hk. unfold Stop, drop_event. steps. intros (l' & w1 & E1 & E2)%bind_inv. unfold load in E1. simpl in E1.
  rewrite lookup_delete_eq in E1. destruct (stale k) as [o|] eqn:Es; [|done].
  destruct o; simplify_eq/=.
  eexists. split; [done|]. rewrite <- E2. unfold call_up, mbind, M_bind, emit. f_equal.
  unfold add_event, set_heap, stop_calls. simpl. by rewrite <- !app_assoc.
Qed.

End life.

(** ** Properties *)

Section properties.
Context `{Machine} `{Sys} `{Taps} `{!TameTaps}.


(** When the library refuses a connection, its socket is closed and its
    context freed, but the three events are not, and the first of them waits for
    the end of the connection: if it fires, the freed context is used. *)
Theorem refused_connection_leaves_events lfd arg l fr w :
  StrictMachine ->
  heap w !! arg = Some (OListenerCtx l) -> heap w !! brk w = None -> malloc_ok (brk w) = true ->
  0 <= sys_accept (trace w) lfd -> (forall h e, 0 <= lev_add h e) ->
  (forall h b fd what a, lev_new h b fd what a <> None) -> lc_connectionReceived l = Some fr ->
  (forall t p v, exists v', up_connectionReceived fr t p v = (Ok None, v')) ->
  exists w1 e1 e2 e3, _tcp_connection_received lfd (Some arg) w = (Ok tt, w1)
    /\ (forall fd, opens fd (trace w1) = opens fd (trace w))
    /\ (forall e, events e (trace w1) = events e (trace w)
         + events e [LNew e1 0 EV_CLOSED None; LNew e2 0 EV_WRITE None; LNew e3 0 EV_READ None])
    /\ _tcp_closed (Some (brk w)) w1 = (Fault (UseAfterFree (brk w)), w1).
Proof.
  intros Hst Hl Hk Hm Hfd Ha Hnew Hr Hno. assert (arg <> brk w) as Hne by congruence.
  destruct (accept_ok lfd arg l w Hl Hk Hm Hfd) as (c & h & wz & wa & Ea & Hka & _ & Hf & (_ & _ & (b & Hce & _)) & Ht).
  destruct (cc_closeEvent c) as [e0|] eqn:He0; [rewrite <- He0 in *|by destruct (Hnew _ _ _ _ _ (eq_sym Hce))].
  unfold close_event_calls in Ht. rewrite (proj2 (Z.ltb_ge _ _)), app_nil_r in Ht by done.
  destruct (introduce_ok arg l (brk w) c fr wa) as (t & ci & wb & wc & wd & Eu & Ei & Hki & Hs & Hci & [Hb Hb']);
    [by rewrite Hka, lookup_insert_ne by done|rewrite Hka; apply lookup_insert_eq|done|].
  destruct (Hno (lc_taps_ctx l) (Some (brk w)) wb) as [v' Ev]. rewrite Ev in Eu. injection Eu as <- <-.
  destruct Hs as (R1 & R2 & R3 & R4). rewrite Ea, Ei, (refuse_ok _ ci) by done.
  eexists _, (cc_closeEvent c), (cc_sendEvent c), (cc_receiveEvent c). split; [done|].
  split; [intros fd|split; [intros e|]].
  - simpl. unfold opens in *. rewrite total_app, Hb, Ht, total_app. unfold accept_calls. simpl. rewrite R1. case_match; lia.
  - simpl. unfold events in *. rewrite total_app, Hb', Ht, total_app. unfold accept_calls. simpl. lia.
  - unfold _tcp_closed. erewrite bind_fault; [done|]. apply load_strict; [done|]. simpl. apply lookup_delete_eq.
Qed.

(** C37: The context of a listener is read after it is freed.  On a machine that
    traps such reads a stop closes the socket and never reports that it
    stopped, and a failed Listen never returns and keeps its socket; on one that
    still finds the old values there, the stop is reported. *)
Theorem freed_listener_is_read `{TapsStop} k l f w :
  heap w !! k = Some (OListenerCtx l) ->
  let w1 := World (delete k (heap w)) (brk w) (errno w) (trace w ++ [LDel (lc_event l); LFree (lc_event l); KClose (lc_fd l)]) in
  (stale k = None -> Stop (Some k) (Some f) w = (Fault (UseAfterFree k), w1))
  /\ (stale k = Some (OListenerCtx l) ->
      Stop (Some k) (Some f) w = up_stopped f (lc_taps_ctx l) (add_event (UStopped f (lc_taps_ctx l)) (add_event (DeadRead k) w1)))
  /\ (forall taps base local c1 c2 c3 c4, malloc_ok (brk w) = true -> stale (brk w) = None ->
      let fd := sys_socket (trace w) (sa_family local) in
      0 <= fd -> sys_bind (trace w ++ [KSocket fd]) fd local < 0 ->
      exists w2, Listen taps base local c1 c2 c3 c4 w = (Fault (UseAfterFree (brk w)), w2)
        /\ opens fd (trace w2) = opens fd (trace w) + 1).
Proof.
  intros Hk. cbv zeta. assert (forall w', heap w' = delete k (heap w) -> stale k = None ->
    (load (Some k) : M listener_ctx) w' = (Fault (UseAfterFree k), w')) as Hdead.
  { intros w' Hw Hs. unfold load. by rewrite Hw, lookup_delete_eq, Hs. }
  split; [|split].
  - intros Hs. unfold Stop, drop_event. steps. erewrite bind_fault by (by apply Hdead).
    unfold set_heap, add_event. simpl. by rewrite <- !app_assoc.
  - intros Hs. unfold Stop, drop_event. steps.
    erewrite bind_ok by (apply load_stale; [apply lookup_delete_eq|exact Hs]). unfold call_up. steps.
    unfold set_heap, add_event. simpl. by rewrite <- !app_assoc.
  - intros taps base local c1 c2 c3 c4 Hm Hs Hfd Hbind. unfold Listen.
    erewrite bind_ok by (by apply malloc_succeeds). cbv beta iota.
    erewrite (bind_ok (ask _ _)) by reflexivity. erewrite bind_ok by (eapply modify_ok; heap_lookup).
    rewrite (proj2 (Z.ltb_ge _ _)) by done. erewrite bind_ok by (eapply modify_ok; heap_lookup).
    erewrite (bind_ok (ask _ _)) by reflexivity. simpl trace.
    rewrite (proj2 (Z.ltb_lt (sys_bind _ _ _) 0)) by done.
    unfold listen_fail. erewrite bind_ok by (eapply free_ok; heap_lookup).
    erewrite bind_fault; [eexists; split; [done|]|unfold load; simpl; by rewrite lookup_delete_eq, Hs].
    simpl. unfold opens. rewrite !total_app. simpl. rewrite Z.eqb_refl. lia.
Qed.

(** One write at a time.  A send that the socket takes is reported when the
    socket is writable again, for the item of that send, whatever number of its
    bytes was written; a second one before that is refused and leaves the first
    to be reported.  The report is the one given with the send only if the
    context held no callback yet, and a new context holds what its memory held. *)
Theorem one_write_at_a_time k c w item msg n f g h :
  heap w !! k = Some (OConnCtx c) -> lev_pending (trace w) (cc_sendEvent c) = false ->
  let bytes := sys_writev (trace w) (cc_fd c) msg n in
  0 <= bytes -> (forall h e, 0 <= lev_add h e) -> cc_sendEvent c <> None ->
  let f' := default f (cc_sent c) in
  exists w1, Send (Some k) item msg n (Some f) g h w = (Ok (to_int bytes), w1)
    /\ _tcp_sent (Some k) w1 = up_sent f' item (add_event (USent f' item) w1)
    /\ forall item2 msg2 n2 f2 g2 h2, lev_pending (trace w1) (cc_sendEvent c) = true ->
         Send (Some k) item2 msg2 n2 f2 g2 h2 w1 = (Ok (-1), w1).
Proof.
  intros Hk Hp bytes Hb Ha Hse f'.
  set (c0 := match cc_sent c with None => set_cc_sending (Some f) g h c | Some _ => c end).
  set (w0 := set_heap (<[k := OConnCtx c0]> (heap w)) w).
  assert (cc_sent c0 = Some f') as Hf' by (subst c0 f'; by destruct (cc_sent c) eqn:E; simpl; rewrite ?E).
  assert (cc_sendEvent c0 = cc_sendEvent c) as He by (subst c0; by destruct (cc_sent c)).
  assert (match cc_sent c with None => modify (Some k) (set_cc_sending (Some f) g h) | Some _ => mret tt end w = (Ok tt, w0)) as E0.
  { subst w0 c0. destruct (cc_sent c); [rewrite ret_ok|by rewrite (modify_ok k w c)].
    unfold set_heap. rewrite insert_id by done. by destruct w. }
  eexists. split; [|split].
  - unfold Send. erewrite bind_ok by (apply load_ok; exact Hk). erewrite bind_ok by exact E0.
    erewrite bind_ok by reflexivity. cbv beta. change (trace w0) with (trace w). rewrite Hp.
    erewrite bind_ok by (apply (modify_ok k w0 c0), lookup_insert_eq).
    erewrite (bind_ok (ask _ _)) by reflexivity. rewrite (proj2 (Z.ltb_ge _ _)) by done. rewrite event_add_ok by done.
    erewrite (bind_ok (ask _ _)) by reflexivity. rewrite (proj2 (Z.ltb_ge (lev_add _ _) 0)) by done. done.
  - unfold _tcp_sent. erewrite bind_ok by (apply (load_ok (T := conn_ctx)); simpl; apply lookup_insert_eq).
    simpl. rewrite Hf'. unfold call_up. by erewrite bind_ok by reflexivity.
  - intros item2 msg2 n2 f2 g2 h2 Hp2. unfold Send.
    erewrite bind_ok by (apply (load_ok (T := conn_ctx)); simpl; apply lookup_insert_eq). simpl cc_sent. rewrite Hf'.
    erewrite bind_ok by apply ret_ok. erewrite bind_ok by reflexivity. change (cc_sendEvent (set_cc_send_ctx item c0)) with (cc_sendEvent c0). cbv beta. by rewrite He, Hp2.
Qed.

End properties.

(** ** The properties at concrete connections *)

Module TcpSample.

#[local] Existing Instance strict_machine.

(** Socket 5 listens, 7 is accepted; an event is pending once it was added. *)
#[local] Instance sys : Sys := {|
  sys_socket _ _ := 5;
  sys_bind _ _ a := if sa_port a =? 0 then -1 else 0;
  sys_listen _ _ _ := 0;
  sys_accept _ _ := 7;
  sys_readv _ _ _ _ := 10;
  sys_writev _ _ _ _ := 3;
  lev_new h _ _ _ _ := Some (Pos.of_succ_nat (100 + length h));
  lev_add _ _ := 0;
  lev_pending h e := existsb (fun ev => match ev with LAdd e' _ => bool_decide (e' = e) | _ => false end) h;
|}.

(** A library that takes every connection, or none. *)
Definition taps (answer : ptr) : Taps := {|
  up_connectionReceived _ _ _ := mret answer;
  up_closed _ _ := mret tt;
  up_sent _ _ := mret tt;
  up_receivedPartial _ _ _ _ := mret tt;
|}.

#[local] Instance taps_stop : TapsStop := {| up_stopped _ _ := mret tt |}.

#[local] Instance taps_tame a : @TameTaps (taps a).
Proof. split; intros; [by exists a, w|by exists w..]. Defined.

Definition lctx : listener_ctx :=
  ListenerCtx (Some 2%positive) (Some 3%positive) 5 (Some 11%positive) (Some 12%positive) (Some 13%positive)
    (Some 14%positive) (Some 20%positive).
Definition listening : world := test_world [(1%positive, OListenerCtx lctx)] 2.
Definition item : ptr := Some 60%positive.

Section accepting.
#[local] Instance accepting : Taps := taps (Some 50%positive).

Definition ops : list tcp_op :=
  [OpSend item (IovMessage 30) 1 (Some 21%positive) (Some 22%positive) (Some 23%positive);
   OpReceive (Some 61%positive) (IovMessage 31) 1 (Some 24%positive) (Some 25%positive) (Some 26%positive);
   OpWritable; OpReadable].
Definition accepted : world := snd (_tcp_connection_received 5 (Some 1%positive) listening).
Definition used : world := snd (run_tcp_ops (Some 2%positive) ops accepted).
Definition context : conn_ctx :=
  match heap accepted !! 2%positive with Some (OConnCtx c) => c | _ => zero end.


(** A send of which the socket takes three bytes. *)
Lemma one_write_at_a_time_witness :
  exists w1, Send (Some 2%positive) item (IovMessage 30) 1 (Some 21%positive) None None accepted = (Ok 3, w1)
    /\ _tcp_sent (Some 2%positive) w1 = up_sent 21%positive item (add_event (USent 21%positive item) w1)
    /\ forall item2 msg2 n2 f2 g2 h2, lev_pending (trace w1) (cc_sendEvent context) = true ->
         Send (Some 2%positive) item2 msg2 n2 f2 g2 h2 w1 = (Ok (-1), w1).
Proof.
  destruct (one_write_at_a_time 2 context accepted item (IovMessage 30) 1 21 None None) as (w1 & E1 & E2 & E3);
    [vm_compute; reflexivity|vm_compute; reflexivity|simpl; lia|intros; simpl; lia|vm_compute; discriminate|].
  assert (cc_sent context = None) as Ec by (vm_compute; reflexivity). rewrite Ec in E2.
  exists w1. exact (conj E1 (conj E2 E3)).
Defined.

Lemma freed_listener_is_read_witness :
  exists w1, Stop (Some 1%positive) (Some 15%positive) listening = (Fault (UseAfterFree 1), w1)
    /\ trace w1 = [LDel (Some 3%positive); LFree (Some 3%positive); KClose 5].
Proof.
  eexists. split; [apply (freed_listener_is_read 1 lctx 15 listening eq_refl); reflexivity|done].
Defined.

End accepting.

Lemma refused_connection_leaves_events_witness :
  exists w1, @_tcp_connection_received strict_machine sys (taps None) 5 (Some 1%positive) listening = (Ok tt, w1)
    /\ events (Some 102%positive) (trace w1) = 1
    /\ @_tcp_closed strict_machine (taps None) (Some 2%positive) w1 = (Fault (UseAfterFree 2), w1).
Proof.
  destruct (@refused_connection_leaves_events strict_machine sys (taps None) (taps_tame None) 5 1 lctx 11 listening)
    as (w1 & e1 & e2 & e3 & E1 & _ & _ & E2);
    [apply _|reflexivity|reflexivity|reflexivity|simpl; lia|intros; simpl; lia|done|reflexivity|intros; by exists v|].
  exists w1. split; [exact E1|]. split; [|exact E2]. vm_compute in E1. injection E1 as <- . by vm_compute.
Defined.

End TcpSample.
