(* ===== verification/TcpStack.v ===== *)
(** * TcpStack: the library on top of the TCP library

    The two halves of the program put together: the functions the library looks
    up are those of tcp/tcp.c, and the callbacks the TCP library makes are those
    of taps_listener.c and taps_connection.c.  The transition system has the
    events of libevent and the requests of the application as its steps, so that
    the rules Lifecycle.v asks of a protocol are theorems here. *)

From S2P Require Import Prelude Structs Memory Message Queue Listener Connection Accept Resources Frame.
From S2P Require Import Lifecycle Serving Listening Tcp.
Local Open Scope Z_scope.

(** ** The two interfaces, implemented by each other *)

(** The functions the library hands to a protocol. *)
Definition fn_connection_received : fn := 1001.
Definition fn_closed : fn := 1002.
Definition fn_connection_error : fn := 1003.
Definition fn_stopped : fn := 1004.
Definition fn_sent : fn := 1005.
Definition fn_expired : fn := 1006.
Definition fn_send_error : fn := 1007.
Definition fn_received : fn := 1008.
Definition fn_received_partial : fn := 1009.
Definition fn_receive_error : fn := 1010.

Section stack.
Context `{Machine} `{App} `{Sys}.

#[export] Instance library_stop : TapsStop := {| up_stopped f t := call_if fn_stopped f (_taps_stopped t) |}.

#[export] Instance tcp_proto : Proto := {|
  proto_listen _ l base addr :=
    Listen l base addr (Some fn_connection_received) None (Some fn_closed) (Some fn_connection_error);
  proto_stop _ p := Stop p (Some fn_stopped);
  proto_send _ p t d n := Send p t d n (Some fn_sent) (Some fn_expired) (Some fn_send_error);
  proto_receive _ p t d n :=
    Receive p t d n (Some fn_received) (Some fn_received_partial) (Some fn_receive_error) ;; mret tt;
|}.

(** A receive event is added by Receive only, which sets the vector. *)
#[export] Instance library_taps : Taps := {|
  up_connectionReceived f t p := call_if fn_connection_received f (_taps_connection_received t p);
  up_closed f t := call_if fn_closed f (_taps_closed t);
  up_sent f i := call_if fn_sent f (_taps_sent i);
  up_receivedPartial f i d n :=
    call_if fn_received_partial f (d ← deref d; _taps_received_partial i d n);
|}.

End stack.

(** ** The frame of the TCP library *)

Section frame.
Context `{Machine} `{TameApp} `{Sys}.

Lemma pres_ask {A} (f : list event -> A) ev : (forall a, idle (ev a) = true) -> pres (ask f ev).
Proof. intros Hi w r w' [= <- <-]. by apply keeps_event. Qed.

Lemma pres_tcp_Send p t d n f g h : pres (Send p t d n f g h).
Proof. unfold Send, event_add. pose proof (@pres_ask). pres. Qed.

Lemma pres_tcp_Receive p t d n f g h : pres (Receive p t d n f g h).
Proof. unfold Receive, event_add. pose proof (@pres_ask). pres. Qed.

#[export] Instance tcp_tame : TameProto.
Proof.
  split; intros; [apply pres_tcp_Send|]. apply (preserves_bind keeps); [apply pres_tcp_Receive|intros; apply (preserves_ret keeps)].
Qed.

Lemma pres_call_if {A} f g (m : M A) : pres m -> pres (call_if f g m).
Proof. intros Hm. unfold call_if. case_match; [done|apply (preserves_throw keeps)]. Qed.

Lemma pres_tcp_sent k : pres (_tcp_sent k).
Proof.
  unfold _tcp_sent, call_up, up_sent, library_taps. pose proof pres_sent. pres. by apply pres_call_if.
Qed.

Lemma pres_tcp_received k : pres (_tcp_received k).
Proof.
  unfold _tcp_received, call_up, up_receivedPartial, library_taps. pose proof (@pres_ask).
  pose proof pres_received_partial. pres. apply pres_call_if. pres.
Qed.

End frame.

(** ** The transition system *)

Section system.
Context `{Machine} `{App} `{Sys}.

(** The connections of the TCP library: context to connection of the library. *)
Definition tcp_taps (h : holding) : ptr :=
  match h with HConnection _ _ _ _ _ t => t | HAccepting _ => None end.
Definition tcp_conns (hs : gmap loc holding) : gmap loc loc := omap tcp_taps hs.

Definition is_connection (h : holding) : bool := match h with HConnection _ _ _ _ _ _ => true | HAccepting _ => false end.

(** The number of connection contexts. *)
Definition live_connections (hs : gmap loc holding) : Z := count is_connection hs.

(** A listener [L] made over the TCP context [K], from a state without any. *)
Definition made (w0 : world) (L K : loc) (w : world) : Prop :=
  fresh_from (heap w0) (brk w0) /\ links (heap w0) = ∅ /\ holdings (heap w0) = ∅ /\
  stopped_events (trace w0) = 0%nat /\
  exists app path addr b cb x, tapsListenerNew app path addr (Some b) (Some cb) w0 = (Ok (Some L), w) /\
    listeners (heap w) !! L = Some x /\ l_proto_ctx x = Some K.

(** What happens next, as long as every call returns: a fault ends the program.
    The events of a context fire while it is in memory; the application stops
    the listener once and frees a connection after it was closed. *)
Inductive stack_step (L K : loc) (w : world) : world -> Prop :=
| ss_accept l w' :
    heap w !! K = Some (OListenerCtx l) -> attached (heap w) L + 1 < 2 ^ 32 ->
    _tcp_connection_received (lc_fd l) (Some K) w = (Ok tt, w') -> stack_step L K w w'
| ss_closed k c w' :
    heap w !! k = Some (OConnCtx c) -> _tcp_closed (Some k) w = (Ok tt, w') -> stack_step L K w w'
| ss_writable k c w' :
    heap w !! k = Some (OConnCtx c) -> _tcp_sent (Some k) w = (Ok tt, w') -> stack_step L K w w'
| ss_readable k c w' :
    heap w !! k = Some (OConnCtx c) -> _tcp_received (Some k) w = (Ok tt, w') -> stack_step L K w w'
| ss_request m w' :
    request m -> m w = (Ok tt, w') -> stack_step L K w w'
| ss_stop x cb z w' :
    listeners (heap w) !! L = Some x -> l_readyToStop x = FALSE ->
    tapsListenerStop (Some L) cb w = (Ok z, w') -> stack_step L K w w'
| ss_free c w' :
    links (heap w) !! c = None -> tapsConnectionFree (Some c) w = (Ok tt, w') -> stack_step L K w w'.

Inductive stack_reachable (w0 : world) (L K : loc) : world -> Prop :=
| sr_made w : made w0 L K w -> stack_reachable w0 L K w
| sr_step w w' : stack_reachable w0 L K w -> stack_step L K w w' -> stack_reachable w0 L K w'.

(** A context of a connection belongs to one attached connection. *)
Definition owned (L : loc) (ls : gmap loc loc) (hd : holding) : Prop :=
  match hd with
  | HConnection _ _ _ _ closed t => closed = Some fn_closed /\ exists c, t = Some c /\ ls !! c = Some L
  | HAccepting l => lc_connectionReceived l = Some fn_connection_received /\ lc_closed l = Some fn_closed
                    /\ lc_taps_ctx l = Some L
  end.

(** The contexts [hs] and the attached connections [ls] match. *)
Record matched (L K : loc) (hs : gmap loc holding) (ls : gmap loc loc) : Prop := {
  ma_owned k hd : hs !! k = Some hd -> owned L ls hd;
  ma_listener k l : hs !! k = Some (HAccepting l) -> k = K;
  ma_inj k1 k2 c : tcp_conns hs !! k1 = Some c -> tcp_conns hs !! k2 = Some c -> k1 = k2;
  ma_surj c : ls !! c = Some L -> exists k, tcp_conns hs !! k = Some c;
  ma_count : live_connections hs = count (fun l => bool_decide (l = L)) ls;
}.

(** The listener and its context stop together. *)
Definition paired (L K : loc) (h : gmap loc obj) : Prop :=
  exists x, listeners h !! L = Some x /\
    ((l_readyToStop x = FALSE /\ l_stopped x = None /\ l_proto_ctx x = Some K /\
        exists l, holdings h !! K = Some (HAccepting l))
     \/ (l_readyToStop x = TRUE /\ forall l, holdings h !! K <> Some (HAccepting l))).

(** The sockets that are open are those of the contexts. *)
Definition sockets_held (w0 w : world) : Prop :=
  forall fd, opens fd (trace w) = opens fd (trace w0) + count (holds_socket fd) (holdings (heap w)).

Definition sinv (w0 : world) (L K : loc) (w : world) : Prop :=
  linv L w /\ matched L K (holdings (heap w)) (links (heap w)) /\ paired L K (heap w) /\ sockets_held w0 w.

End system.

(** ** Matching *)

Section matching.
Context (L K : loc).

Lemma tcp_conns_lookup hs k : tcp_conns hs !! k = hs !! k ≫= tcp_taps.
Proof. apply lookup_omap. Qed.

Lemma matched_insert hs ls k c fd ce se re :
  matched L K hs ls -> hs !! k = None -> ls !! c = None ->
  matched L K (<[k := HConnection fd ce se re (Some fn_closed) (Some c)]> hs) (<[c := L]> ls).
Proof.
  intros [Ho Hl Hi Hs Hc] Hk Hn. set (hd := HConnection _ _ _ _ _ _).
  assert (forall j d, tcp_conns (<[k := hd]> hs) !! j = Some d ->
    (j = k /\ d = c) \/ (j <> k /\ d <> c /\ tcp_conns hs !! j = Some d)) as Hcase.
  { intros j d. rewrite tcp_conns_lookup. destruct (decide (j = k)) as [->|Hne].
    - rewrite lookup_insert_eq. intros [= <-]. by left.
    - rewrite lookup_insert_ne by done. intros E. right. rewrite tcp_conns_lookup. splits; [done| |done].
      destruct (hs !! j) as [h'|] eqn:Ej; [|done]. intros ->. specialize (Ho j h' Ej).
      destruct h' as [? ? ? ? ? t|]; [|done]. simpl in *. destruct Ho as (_ & c' & -> & Hc'). congruence. }
  split.
  - intros j h'. destruct (decide (j = k)) as [->|].
    + rewrite lookup_insert_eq. intros [= <-]. split; [done|]. exists c. by rewrite lookup_insert_eq.
    + rewrite lookup_insert_ne by done. intros Ej. specialize (Ho j h' Ej). destruct h'; [|done].
      destruct Ho as (? & c' & -> & Hc'). split; [done|]. exists c'. split; [done|].
      rewrite lookup_insert_ne; [done|]. congruence.
  - intros j l. destruct (decide (j = k)) as [->|]; [by rewrite lookup_insert_eq|].
    rewrite lookup_insert_ne by done. apply Hl.
  - intros k1 k2 d [[-> ->]|(? & ? & E1)]%Hcase [[-> ?]|(? & ? & E2)]%Hcase; try done. by eapply Hi.
  - intros d. destruct (decide (d = c)) as [->|].
    + intros _. exists k. by rewrite tcp_conns_lookup, lookup_insert_eq.
    + rewrite lookup_insert_ne by done. intros [j Hj]%Hs. exists j.
      rewrite tcp_conns_lookup, lookup_insert_ne, <- tcp_conns_lookup; [done|].
      intros ->. by rewrite tcp_conns_lookup, Hk in Hj.
  - unfold live_connections in *. rewrite !count_insert by done. rewrite Hc, bool_decide_true by done. done.
Qed.

Lemma matched_delete hs ls k c fd ce se re cl :
  matched L K hs ls -> hs !! k = Some (HConnection fd ce se re cl (Some c)) -> ls !! c = Some L ->
  matched L K (delete k hs) (delete c ls).
Proof.
  intros [Ho Hl Hi Hs Hc] Hk Hn.
  assert (tcp_conns hs !! k = Some c) as Hkc by (by rewrite tcp_conns_lookup, Hk).
  assert (forall j d, tcp_conns (delete k hs) !! j = Some d -> j <> k /\ tcp_conns hs !! j = Some d) as Hcase.
  { intros j d. rewrite !tcp_conns_lookup. destruct (decide (j = k)) as [->|]; [by rewrite lookup_delete_eq|].
    by rewrite lookup_delete_ne. }
  split.
  - intros j h' Ej. rewrite lookup_delete_Some in Ej. destruct Ej as [Hne Ej]. specialize (Ho j h' Ej).
    destruct h' as [? ? ? ? ? t|]; [|done]. destruct Ho as (? & c' & -> & Hc'). split; [done|]. exists c'. split; [done|].
    rewrite lookup_delete_ne; [done|]. intros ->. destruct Hne. apply (Hi _ _ c'); [done|].
    by rewrite tcp_conns_lookup, Ej.
  - intros j l [_ Ej]%lookup_delete_Some. by eapply Hl.
  - intros k1 k2 d [_ E1]%Hcase [_ E2]%Hcase. by eapply Hi.
  - intros d [Hne [j Hj]%Hs]%lookup_delete_Some. exists j. rewrite tcp_conns_lookup, lookup_delete_ne, <- tcp_conns_lookup; [done|].
    intros ->. congruence.
  - unfold live_connections in *. rewrite (count_delete _ _ _ _ Hk), (count_delete _ _ _ _ Hn), Hc, bool_decide_true by done. done.
Qed.

Lemma matched_stop hs ls l :
  matched L K hs ls -> hs !! K = Some (HAccepting l) -> matched L K (delete K hs) ls.
Proof.
  intros [Ho Hl Hi Hs Hc] HK.
  assert (tcp_conns (delete K hs) = tcp_conns hs) as E.
  { apply map_eq. intros j. rewrite !tcp_conns_lookup. destruct (decide (j = K)) as [->|].
    - by rewrite lookup_delete_eq, HK.
    - by rewrite lookup_delete_ne. }
  split; rewrite ?E; [..|done|done|].
  - intros j h' [_ Ej]%lookup_delete_Some. by eapply Ho.
  - intros j l' [_ Ej]%lookup_delete_Some. by eapply Hl.
  - unfold live_connections in *. rewrite (count_delete _ _ _ _ HK), Hc. simpl. lia.
Qed.

End matching.

(** ** Preservation *)

Section preservation.
Context `{Machine} `{TameApp} `{Sys}.
Context (w0 : world) (L K : loc).

Lemma holdings_connection h k fd ce se re cl t :
  holdings h !! k = Some (HConnection fd ce se re cl t) ->
  exists c, h !! k = Some (OConnCtx c) /\ held c = HConnection fd ce se re cl t.
Proof.
  rewrite holdings_lookup. destruct (h !! k) as [[]|]; simpl; try done. intros E. eexists. split; [done|congruence].
Qed.

Lemma holdings_accepting h k l : holdings h !! k = Some (HAccepting l) <-> h !! k = Some (OListenerCtx l).
Proof.
  rewrite holdings_lookup. split; [|by intros ->].
  destruct (h !! k) as [[]|]; simpl; try done. by intros [= ->].
Qed.

Lemma keeps_sinv w w' : sinv w0 L K w -> keeps w w' -> sinv w0 L K w'.
Proof.
  intros (Hi & Hm & Hp & Hs) Hk. destruct (Hk (proj1 Hi)) as (_ & E1 & E2 & E3 & _ & _ & [E4 _]).
  split; [by eapply keeps_linv|]. unfold paired, sockets_held. rewrite E1, E2, E3.
  splits; [done|done|]. intros fd. by rewrite E4.
Qed.

Lemma pres_sinv {A} (m : M A) w r w' : pres m -> sinv w0 L K w -> m w = (r, w') -> sinv w0 L K w'.
Proof. intros Hp Hi E. eapply keeps_sinv; [done|by eapply Hp]. Qed.

(** The listener stays paired while connections come and go. *)
Lemma paired_settled h h' :
  paired L K h ->
  (forall x, listeners h !! L = Some x -> exists x', listeners h' !! L = Some x' /\ settled x x') ->
  (forall l, holdings h' !! K = Some (HAccepting l) <-> holdings h !! K = Some (HAccepting l)) ->
  paired L K h'.
Proof.
  intros (x & Hx & Hcase) Hl Hk. destruct (Hl x Hx) as (x' & Hx' & (S1 & S2 & S3)). exists x'. split; [done|].
  destruct Hcase as [(Hrd & Hst & Hpc & (l & Hl'))|[Hrd Hno]]; [left|right].
  - splits; [congruence|by apply S3|congruence|]. exists l. by apply Hk.
  - split; [congruence|]. intros l Hl'. by apply (Hno l), Hk.
Qed.

(** The end of a connection: it completes, and everything still matches. *)
Lemma closed_sinv w k c :
  sinv w0 L K w -> heap w !! k = Some (OConnCtx c) ->
  exists w', _tcp_closed (Some k) w = (Ok tt, w') /\ sinv w0 L K w'
    /\ heap w' !! k = None /\ holdings (heap w') = delete k (holdings (heap w))
    /\ exists t, cc_taps_ctx c = Some t /\ links (heap w') = delete t (links (heap w)).
Proof.
  intros (Hi & Hm & Hp & Hs) Hk.
  assert (holdings (heap w) !! k = Some (held c)) as Hhk by (by rewrite holdings_lookup, Hk).
  destruct (ma_owned _ _ _ _ Hm k (held c) Hhk) as (Hcl & t & Ht & Hlt). pose proof Hi as (Hf & _).
  set (tr := [LDel (cc_closeEvent c); LFree (cc_closeEvent c); LDel (cc_sendEvent c); LFree (cc_sendEvent c);
    LDel (cc_receiveEvent c); LFree (cc_receiveEvent c); KClose (cc_fd c); UClosed fn_closed (Some t)]).
  set (w1 := World (heap w) (brk w) (errno w) (trace w ++ tr)).
  destruct (closed_effect L t w1) as (w2 & E2 & Hi2 & El2 & Sv2);
    [by eapply undisturbed_linv, undisturbed_calls|done|].
  destruct (Sv2 Hf) as (Hf2 & Eh2 & [Eb2 _] & Ex2). simpl in El2, Eh2, Eb2, Ex2.
  rewrite <- Eh2 in Hhk. destruct (holdings_connection _ _ _ _ _ _ _ _ Hhk) as (c2 & Hk2 & _).
  exists (set_heap (delete k (heap w2)) w2). splits.
  - unfold _tcp_closed, drop_event. steps. rewrite Hcl. unfold call_up. steps.
    unfold call_if. rewrite bool_decide_true, Ht by done.
    erewrite bind_ok; [by apply (free_ok k w2 c2)|]. rewrite <- E2. f_equal. unfold w1, tr, add_event. simpl.
    by rewrite <- !app_assoc.
  - split; [|split; [|split]].
    + eapply undisturbed_linv; [exact Hi2|]. by apply undisturbed_delete; [|rewrite Hk2..].
    + simpl. rewrite holdings_delete.
      rewrite Eh2, links_delete, El2, (delete_id (delete t _) k).
      * eapply matched_delete; [exact Hm|rewrite <- Eh2; unfold held in Hhk; rewrite Ht in Hhk; exact Hhk|done].
      * rewrite <- El2, links_lookup, Hk2. done.
    + eapply paired_settled; [exact Hp| |].
      * simpl. rewrite listeners_delete. intros x Hx. destruct (Ex2 x Hx) as (x' & Hx' & ?). exists x'.
        split; [|done]. rewrite lookup_delete_ne; [done|]. intros ->. by rewrite listeners_lookup, Hk2 in Hx'.
      * intros l. simpl. rewrite holdings_delete, Eh2. rewrite lookup_delete_Some, <- Eh2. split; [by intros []|].
        intros E. split; [|done].
        intros ->. by rewrite E in Hhk.
    + intros fd. simpl. rewrite holdings_delete, Eb2, Eh2. unfold w1. simpl. rewrite opens_app, Hs.
      rewrite <- Eh2, (count_delete _ _ _ _ Hhk). unfold tr, opens. simpl. destruct (cc_fd c =? fd); simpl; lia.
  - simpl. apply lookup_delete_eq.
  - simpl. by rewrite holdings_delete, Eh2.
  - exists t. split; [done|]. simpl. rewrite links_delete, El2, delete_id; [done|].
    by rewrite <- El2, links_lookup, Hk2.
Qed.

(** A context that is about to belong to the connection [t]. *)
Definition taken (c : conn_ctx) (t : ptr) : holding :=
  HConnection (cc_fd c) (cc_closeEvent c) (cc_sendEvent c) (cc_receiveEvent c) (Some fn_closed) t.

Lemma partial_alter_insert {A} (m : gmap loc A) k v : partial_alter (fun _ => Some v) k m = <[k := v]> m.
Proof. done. Qed.

(** The introduction of a new context to the library, up to the answer. *)
Lemma introduce_answer k c l x w w' :
  linv L w -> heap w !! K = Some (OListenerCtx l) -> heap w !! k = Some (OConnCtx c) ->
  owned L (links (heap w)) (HAccepting l) ->
  listeners (heap w) !! L = Some x -> l_readyToStop x = FALSE -> attached (heap w) L + 1 < 2 ^ 32 ->
  introduce (Some K) (Some k) w = (Ok tt, w') ->
  exists t c4 w4, (match t with None => refuse (Some k) | Some _ => mret tt end) w4 = (Ok tt, w')
    /\ linv L w4 /\ heap w4 !! k = Some (OConnCtx c4) /\ cc_fd c4 = cc_fd c
    /\ (exists x', listeners (heap w4) !! L = Some x' /\ settled x x')
    /\ holdings (heap w4) = <[k := taken c t]> (holdings (heap w))
    /\ (forall fd, opens fd (trace w4) = opens fd (trace w))
    /\ match t with
       | Some t => links (heap w) !! t = None /\ links (heap w4) = <[t := L]> (links (heap w))
       | None => links (heap w4) = links (heap w)
       end.
Proof.
  intros Hi HK Hk (Hcr & Hcl & Htx) Hx Hrd Ha. assert (K <> k) as Hne by congruence. pose proof Hi as (Hf & _).
  set (c1 := set_cc_end (Some fn_closed) (lc_connectionError l) c).
  set (w2 := add_event (UConnectionReceived fn_connection_received (Some L) (Some k))
               (set_heap (<[k := OConnCtx c1]> (heap w)) w)).
  unfold introduce. erewrite bind_ok by (apply load_ok; exact HK). rewrite Hcl.
  erewrite bind_ok by (apply modify_ok; exact Hk). rewrite Hcr, Htx. unfold call_up. rewrite bind_assoc.
  erewrite bind_ok by reflexivity. change (add_event _ _) with w2. fold c1.
  cbn [up_connectionReceived library_taps]. unfold call_if. rewrite bool_decide_true by done.
  intros (t & w3 & E3 & E4)%bind_inv.
  assert (undisturbed w w2) as Hu2.
  { eapply undisturbed_trans; [apply (undisturbed_insert k (OConnCtx c1)); [done|by eapply fresh_from_lt|by rewrite Hk..]|].
    apply undisturbed_calls; [|done]. apply fresh_from_insert; [by eapply fresh_from_lt|done]. }
  pose proof (undisturbed_linv _ _ _ Hi Hu2) as Hi2. destruct Hu2 as (Hf2 & El2 & Ex2 & _).
  destruct (accept_effect L (Some k) x w2 t w3 Hi2) as (Hi3 & Hlk);
    [by rewrite Ex2|done|by rewrite (attached_links _ _ L El2)|done|].
  destruct (serves_connection_received L (Some L) (Some k) _ _ _ E3 Hf2) as (Hf3 & Eh3 & [Eb3 _] & Ex3).
  rewrite Ex2 in Ex3. rewrite El2 in Hlk.
  assert (holdings (heap w2) = <[k := held c1]> (holdings (heap w))) as Eh2 by apply holdings_insert.
  rewrite Eh2 in Eh3. pose proof (f_equal (lookup k) Eh3) as Hhk. rewrite lookup_insert_eq in Hhk.
  destruct (holdings_connection _ _ _ _ _ _ _ _ Hhk) as (c3 & Hk3 & Ehd). injection Ehd as F1 F2 F3 F4 F5 F6.
  erewrite bind_ok in E4 by (apply modify_ok; exact Hk3).
  assert (undisturbed w3 (set_heap (<[k := OConnCtx (set_cc_taps_ctx t c3)]> (heap w3)) w3)) as Hu4
    by (apply undisturbed_insert; [done|by eapply fresh_from_lt|by rewrite Hk3..]).
  exists t, (set_cc_taps_ctx t c3), (set_heap (<[k := OConnCtx (set_cc_taps_ctx t c3)]> (heap w3)) w3).
  split; [exact E4|].
  split; [by eapply undisturbed_linv|]. destruct Hu4 as (_ & El4 & Ex4 & _). rewrite El4, Ex4.
  split; [apply lookup_insert_eq|]. split; [exact F1|]. split; [by apply Ex3|]. split; [|split; [|exact Hlk]].
  - simpl. rewrite holdings_insert, Eh3. simpl. rewrite partial_alter_insert, insert_insert_eq.
    unfold held, taken. simpl. by rewrite F1, F2, F3, F4, F5.
  - intros fd. simpl. rewrite Eb3. unfold w2. simpl. rewrite opens_app. unfold opens at 2. simpl. lia.
Qed.

(** The library takes the context with a connection of its own, or the context
    is gone and its socket closed. *)
Lemma introduce_library k c l x w w' :
  linv L w -> heap w !! K = Some (OListenerCtx l) -> heap w !! k = Some (OConnCtx c) ->
  owned L (links (heap w)) (HAccepting l) ->
  listeners (heap w) !! L = Some x -> l_readyToStop x = FALSE -> attached (heap w) L + 1 < 2 ^ 32 ->
  introduce (Some K) (Some k) w = (Ok tt, w') ->
  linv L w' /\ (exists x', listeners (heap w') !! L = Some x' /\ settled x x') /\
  ((exists t, links (heap w) !! t = None /\ links (heap w') = <[t := L]> (links (heap w))
     /\ holdings (heap w') = <[k := taken c (Some t)]> (holdings (heap w))
     /\ forall fd, opens fd (trace w') = opens fd (trace w))
   \/ (links (heap w') = links (heap w) /\ holdings (heap w') = delete k (holdings (heap w))
     /\ forall fd, opens fd (trace w') = opens fd (trace w) - Z.b2z (cc_fd c =? fd))).
Proof.
  intros Hi HK Hk Ho Hx Hrd Ha E.
  destruct (introduce_answer k c l x w w' Hi HK Hk Ho Hx Hrd Ha E)
    as (t & c4 & w4 & E4 & Hi4 & Hk4 & Hfd & (x' & Hx' & Hset) & Eh4 & Eo4 & Hlk).
  destruct t as [t|].
  - injection E4 as <-. splits; [done|by exists x'|]. left. exists t. by destruct Hlk.
  - rewrite (refuse_ok k c4) in E4 by done. injection E4 as <-.
    assert (undisturbed w4 (add_event (KClose (cc_fd c4)) (set_heap (delete k (heap w4)) w4))) as Hu.
    { eapply undisturbed_trans; [apply (undisturbed_delete k); [apply Hi4|by rewrite Hk4..]|].
      apply undisturbed_calls; [|done]. apply fresh_from_delete, Hi4. }
    split; [by eapply undisturbed_linv|]. destruct Hu as (_ & El & Ex & _). rewrite El, Ex.
    split; [by exists x'|]. right. splits; [done| |].
    + simpl. by rewrite holdings_delete, Eh4, delete_insert_eq.
    + intros fd. simpl. rewrite opens_app, Eo4. unfold opens at 2. simpl. rewrite Hfd.
      destruct (cc_fd c =? fd); simpl; lia.
Qed.

(** A state in which nothing the invariant speaks of has changed. *)
Lemma same_sinv w w' :
  sinv w0 L K w -> undisturbed w w' -> holdings (heap w') = holdings (heap w) ->
  (forall fd, opens fd (trace w') = opens fd (trace w)) -> sinv w0 L K w'.
Proof.
  intros (Hi & Hm & Hp & Hs) Hu Eh Eo. pose proof Hu as (_ & El & Ex & _).
  split; [by eapply undisturbed_linv|]. unfold paired, sockets_held. rewrite El, Ex, Eh.
  splits; [done|done|]. intros fd. by rewrite Eo.
Qed.

(** A new context, before the library knows of it. *)
Lemma new_undisturbed w k o tr w1 :
  fresh_from (heap w) (brk w) -> obj_link o = None -> obj_listener o = None ->
  k = brk w -> heap w1 = <[k := o]> (heap w) -> brk w1 = Pos.succ k ->
  trace w1 = trace w ++ tr -> stopped_events tr = 0%nat -> undisturbed w w1.
Proof.
  intros Hf Ho1 Ho2 -> Eh Eb Et Es.
  destruct (undisturbed_alloc o w Hf Ho1 Ho2) as (F1 & F2 & F3 & _). simpl in *.
  split; [by rewrite Eh, Eb|]. rewrite Eh, Et. splits; [done|done|].
  unfold stopped_events in *. rewrite filter_app, length_app, Es. lia.
Qed.

(** No memory for a context, or no connection to accept. *)
Lemma accept_nothing w lfd arg w' :
  sinv w0 L K w -> malloc_ok (brk w) = false \/ sys_accept (trace w) lfd < 0 ->
  _tcp_connection_received lfd arg w = (Ok tt, w') -> sinv w0 L K w'.
Proof.
  intros Hsi Hno. pose proof Hsi as ((Hf & _) & _). assert (heap w !! brk w = None) as Hn by (apply Hf; lia).
  assert (undisturbed w (set_errno_w ENOMEM (set_brk (Pos.succ (brk w)) w))) as Hsb by (split; [by apply fresh_from_succ|done]).
  unfold _tcp_connection_received. destruct (malloc_ok (brk w)) eqn:Hmal.
  2: { erewrite bind_ok by (by apply malloc_fails). intros [= <-]. by eapply same_sinv. }
  destruct Hno as [|Hfd]; [done|]. erewrite bind_ok by (by apply malloc_succeeds). cbv beta iota.
  erewrite (bind_ok (ask _ _)) by reflexivity. erewrite bind_ok by (eapply modify_ok; heap_lookup).
  rewrite (proj2 (Z.ltb_lt (sys_accept _ _) 0)) by done.
  erewrite refuse_ok by heap_lookup. intros [= <-]. simpl.
  rewrite insert_insert_eq, delete_insert_id by done. eapply (same_sinv w); [done| |done|].
  - eapply undisturbed_trans; [exact Hsb|]. unfold add_event. simpl. rewrite <- app_assoc.
    apply (undisturbed_calls _ (set_brk (Pos.succ (brk w)) w)); [by apply fresh_from_succ|done].
  - intros fd. simpl. rewrite !opens_app. unfold opens at 2 3. simpl. destruct (sys_accept _ _ =? fd); lia.
Qed.

Lemma accept_sinv w l w' :
  sinv w0 L K w -> heap w !! K = Some (OListenerCtx l) -> attached (heap w) L + 1 < 2 ^ 32 ->
  _tcp_connection_received (lc_fd l) (Some K) w = (Ok tt, w') -> sinv w0 L K w'.
Proof.
  intros Hsi HK Ha. pose proof Hsi as (Hi & Hm & Hp & Hs). pose proof Hi as (Hf & _).
  assert (heap w !! brk w = None) as Hn by (apply Hf; lia).
  assert (holdings (heap w) !! brk w = None) as Hhn by (by rewrite holdings_lookup, Hn).
  destruct (malloc_ok (brk w)) eqn:Hmal; [|apply accept_nothing; auto].
  destruct (decide (0 <= sys_accept (trace w) (lc_fd l))) as [Hfd|Hfd]; [|apply accept_nothing; auto with lia].
  destruct (accept_ok (lc_fd l) K l w HK Hn Hmal Hfd) as (c & h & wz & w1 & Ea & Eh1 & Eb1 & Ec & _ & Et1).
  set (r := lev_add h (cc_closeEvent c)) in *. rewrite Ea. intros E0.
  assert (introduce (Some K) (Some (brk w)) w1 = (Ok tt, w')) as E by (destruct (cc_closeEvent c); [exact E0|discriminate E0]). clear E0 Ea.
  destruct Hp as (x & Hx & [(Hrd & Hst & Hpc & _)|[_ Hno]]); [|by destruct (Hno l); apply holdings_accepting].
  assert (undisturbed w w1) as Hu.
  { eapply (new_undisturbed w (brk w) (OConnCtx c)); [done..|exact Et1|]. unfold close_event_calls. by case_match. }
  pose proof (undisturbed_linv _ _ _ Hi Hu) as Hi1. destruct Hu as (_ & El1 & Ex1 & _).
  assert (K <> brk w) as Hne by congruence.
  assert (holdings (heap w1) = <[brk w := held c]> (holdings (heap w))) as Ehd by (by rewrite Eh1, holdings_insert).
  assert (forall fd, opens fd (trace w1) = opens fd (trace w) + Z.b2z (cc_fd c =? fd)) as Eo1.
  { intros fd. rewrite Et1, !opens_app. unfold opens at 2 3, accept_calls, close_event_calls. simpl.
    destruct (cc_fd c =? fd); case_match; simpl; lia. }
  destruct (introduce_library (brk w) c l x w1 w' Hi1) as (Hi' & (x' & Hx' & Hset) & Hcase);
    [by rewrite Eh1, lookup_insert_ne|by rewrite Eh1, lookup_insert_eq| |by rewrite Ex1|done|
     by rewrite (attached_links _ _ L El1)|exact E|].
  { rewrite El1. eapply (ma_owned _ _ _ _ Hm K), holdings_accepting, HK. }
  setoid_rewrite Ehd in Hcase. setoid_rewrite insert_insert_eq in Hcase. rewrite El1, delete_insert_id in Hcase by done.
  assert (forall l', holdings (heap w') !! K = Some (HAccepting l') <-> holdings (heap w) !! K = Some (HAccepting l')) as HKs.
  { intros l'. destruct Hcase as [(t & _ & _ & -> & _)|(_ & -> & _)]; [rewrite lookup_insert_ne by done|]; reflexivity. }
  split; [exact Hi'|split; [|split]].
  - destruct Hcase as [(t & Hnt & -> & -> & _)|(-> & -> & _)]; [by apply matched_insert|done].
  - eapply (paired_settled (heap w)); [|intros y Hy; exists x'; split; [exact Hx'|by replace y with x by congruence]|exact HKs].
    exists x. split; [done|]. left. splits; [done..|]. exists l. by apply holdings_accepting.
  - intros fd. destruct Hcase as [(t & _ & _ & -> & ->)|(_ & -> & ->)]; rewrite Eo1, Hs;
      [rewrite count_insert by done; simpl|]; lia.
Qed.

(** The stop: the context of the listener goes, and the library is told. *)
Lemma stop_sinv w x cb z w' :
  (forall l, stale K = Some (OListenerCtx l) -> lc_taps_ctx l = Some L) ->
  sinv w0 L K w -> listeners (heap w) !! L = Some x -> l_readyToStop x = FALSE ->
  tapsListenerStop (Some L) cb w = (Ok z, w') -> sinv w0 L K w'.
Proof.
  intros Hstale Hsi Hx Hrd. pose proof Hsi as (Hi & Hm & Hp & Hs). unfold tapsListenerStop.
  destruct (cb ≫= cb_stopped) as [f|]; [|intros E; eapply pres_sinv; [|exact Hsi|exact E]; pres].
  destruct Hp as (x' & Hx' & Hcase). assert (x' = x) as -> by congruence.
  destruct Hcase as [(_ & Hst & Hpc & (l & Hl))|[Hrd' _]]; [|by rewrite Hrd in Hrd'].
  pose proof (proj1 (listeners_listener _ _ _) Hx) as HL.
  pose proof (proj1 (holdings_accepting _ _ _) Hl) as HK. assert (L <> K) as Hne by congruence.
  set (y := set_l_stopped (Some f) x). set (w1 := set_heap (<[L := OListener y]> (heap w)) w).
  destruct (stopping_linv L x f w Hi Hx Hrd Hst) as (Hi1 & El1 & Ex1). fold y w1 in Hi1, El1, Ex1.
  erewrite bind_ok by (apply modify_ok; exact HL). change (set_heap _ _) with w1.
  erewrite bind_ok by (apply (load_ok L w1 y), lookup_insert_eq). cbn [l_handles l_proto_ctx y set_l_stopped].
  rewrite Hpc. intros ([] & w2 & E2 & [= <- <-])%bind_inv.
  unfold call_stop in E2. destruct (ph_stop (l_handles x)) as [g|]; [|done].
  erewrite bind_ok in E2 by reflexivity. cbn [proto_stop tcp_proto] in E2.
  apply (Stop_returns K l) in E2 as (l' & Hl' & E2); [|unfold w1; simpl; by rewrite lookup_insert_ne].
  cbn [up_stopped library_stop] in E2. unfold call_if in E2. rewrite bool_decide_true, (Hstale l' Hl') in E2 by done.
  set (w3 := World _ _ _ _) in E2.
  assert (undisturbed w1 w3) as Hu.
  { eapply undisturbed_trans; [apply (undisturbed_delete K w1); [apply Hi1|unfold w1; simpl; by rewrite lookup_insert_ne, HK..]|].
    set (v := set_heap _ _). assert (w3 = World (heap v) (brk v) (errno v)
      (trace v ++ [PStop g (Some K)] ++ stop_calls K l ++ [UStopped fn_stopped (Some L)])) as ->
      by (unfold w3, v; simpl; by rewrite <- app_assoc).
    apply undisturbed_calls; [apply fresh_from_delete, Hi1|done]. }
  pose proof (undisturbed_linv _ _ _ Hi1 Hu) as Hi3. destruct Hu as (_ & El3 & Ex3 & _).
  destruct (stopped_effect L y f w3 w2 Hi3) as (Hi2 & El2 & Eh2 & [Eb2 _] & (v & Hv & Hrv)); [by rewrite Ex3|done..|].
  assert (holdings (heap w2) = delete K (holdings (heap w))) as Eh.
  { rewrite Eh2. unfold w3, w1. simpl. rewrite holdings_delete, holdings_insert, partial_alter_same; [done|].
    by rewrite holdings_lookup, HL. }
  split; [done|]. rewrite El2, El3, El1, Eh. split; [by eapply matched_stop|]. split.
  - exists v. split; [done|]. right. split; [done|]. rewrite Eh. intros l0. by rewrite lookup_delete_eq.
  - intros fd. rewrite Eb2, Eh, (count_delete _ _ _ _ Hl). unfold w3, w1. simpl. rewrite !opens_app, Hs.
    unfold opens at 2 3, stop_calls. simpl. destruct (lc_fd l =? fd); simpl; lia.
Qed.

(** A listener that has just been made. *)
Lemma made_sinv w : made w0 L K w -> sinv w0 L K w.
Proof.
  intros (Hf & Hl & Hh & Ht & app & path & addr & b & cb & x & E & Hx & Hpc).
  destruct (tapsListenerNew_returns app path addr b cb w0 L w Hf E) as (-> & lib & listen & p & w1 & Hd & Elis & Ew).
  assert (heap w0 !! brk w0 = None) as Hn by (apply Hf; lia).
  set (wa := asked path listen addr (Some b) w0) in *. cbn [proto_listen tcp_proto] in Elis.
  destruct (Listen_returns _ _ _ _ _ _ _ _ _ _ Elis) as (-> & fd & e & r & ->).
  set (lc := ListenerCtx _ _ _ _ _ _ _ _) in *. set (tr := [_; _; _; _; _]) in *.
  assert (fresh_from (heap wa) (brk wa)) as Hfa
    by (apply fresh_from_insert; [simpl; lia|by apply fresh_from_succ]).
  assert (undisturbed wa (World (<[brk wa := OListenerCtx lc]> (heap wa)) (Pos.succ (brk wa)) (errno wa) (trace wa ++ tr))) as Hu.
  { by eapply (new_undisturbed wa (brk wa) (OListenerCtx lc)). }
  specialize (Ew Hu). destruct (asked_undisturbed _ _ _ _ lib w0 _ Hf Hd Hu) as (Hf1 & El1 & HL1 & Et1).
  pose proof (listener_done_initial (Some lib) (Some b) (Some (brk wa)) app cb (brk w0) w0 _ Hf1 El1 HL1) as Hinit.
  rewrite <- Ew in Hinit. simpl in El1, HL1, Et1.
  assert (links (heap w) = ∅) as El. { rewrite Ew. simpl. rewrite links_insert, partial_alter_same; [by rewrite El1|].
    by rewrite links_lookup, HL1. }
  assert (holdings (heap w) = {[brk wa := HAccepting lc]}) as Eh.
  { rewrite Ew. simpl. rewrite holdings_insert, partial_alter_same by (by rewrite holdings_lookup, HL1).
    rewrite !holdings_insert. simpl. rewrite partial_alter_insert, partial_alter_same; [by rewrite Hh|].
    by rewrite Hh. }
  assert (listeners (heap w) !! brk w0 = Some (listener_done (Some lib) (Some b) (Some (brk wa)) app (brk w0) cb)) as Hx2
    by (rewrite Ew; apply listeners_listener, lookup_insert_eq).
  assert (K = brk wa) as -> by (rewrite Hx2 in Hx; injection Hx as <-; injection Hpc as E'; exact (eq_sym E')).
  split; [|split; [|split]].
  - apply initial_linv, Hinit; [unfold attached; by rewrite Hl|]. simpl. by rewrite Et1.
  - rewrite El, Eh. split.
    + intros k hd [<- <-]%lookup_singleton_Some. done.
    + by intros k l [<- _]%lookup_singleton_Some.
    + intros k1 k2 c. rewrite !tcp_conns_lookup. destruct (decide (k1 = brk wa)) as [->|].
      * by rewrite lookup_singleton_eq.
      * by rewrite lookup_singleton_ne.
    + intros c. by rewrite lookup_empty.
    + unfold live_connections. by rewrite count_singleton, count_empty.
  - exists (listener_done (Some lib) (Some b) (Some (brk wa)) app (brk w0) cb). split; [done|]. left.
    splits; [done..|]. exists lc. by rewrite Eh, lookup_singleton_eq.
  - intros g. rewrite Eh, count_singleton, Ew. simpl. rewrite <- app_assoc, opens_app. unfold tr, opens at 2. simpl.
    destruct (fd =? g); done.
Qed.

(** *** A listener freed before it was stopped *)

(** tapsListenerFree has Stop report from inside. *)
Lemma early_free_run w x g l l' :
  listeners (heap w) !! L = Some x -> l_readyToStop x = FALSE -> l_stopped x = None ->
  l_proto_ctx x = Some K -> ph_stop (l_handles x) = Some g -> heap w !! K = Some (OListenerCtx l) ->
  stale K = Some (OListenerCtx l') -> lc_taps_ctx l' = Some L ->
  tapsListenerFree (Some L) w
  = (_taps_stopped (Some L) ;; modify (Some L) (set_l_readyToStop TRUE) ;; mret 0)
      (World (delete K (heap w)) (brk w) (errno w)
         (trace w ++ PStop g (Some K) :: stop_calls K l ++ [UStopped fn_stopped (Some L)])).
Proof.
  intros HL%listeners_listener Hrd Hst Hpc Hg HK Hs Hl'. unfold tapsListenerFree. steps.
  rewrite Hrd, Hst, truth_FALSE, Hg, Hpc. cbn [negb andb]. unfold call_stop. rewrite bind_assoc.
  erewrite bind_ok by reflexivity. cbn [proto_stop tcp_proto]. unfold Stop, drop_event. rewrite !bind_assoc. steps.
  erewrite bind_ok by (apply load_stale; [apply lookup_delete_eq|exact Hs]). unfold call_up. steps.
  cbn [up_stopped library_stop]. unfold call_if. rewrite bool_decide_true, Hl' by done.
  unfold set_heap, add_event, stop_calls. simpl. by rewrite <- !app_assoc.
Qed.

(** A machine that traps reads of freed memory stops inside Stop. *)
Lemma early_free_traps w x g l :
  listeners (heap w) !! L = Some x -> l_readyToStop x = FALSE -> l_stopped x = None ->
  l_proto_ctx x = Some K -> ph_stop (l_handles x) = Some g -> heap w !! K = Some (OListenerCtx l) ->
  stale K = None -> exists w', tapsListenerFree (Some L) w = (Fault (UseAfterFree K), w').
Proof.
  intros HL%listeners_listener Hrd Hst Hpc Hg HK Hs. unfold tapsListenerFree. steps.
  rewrite Hrd, Hst, truth_FALSE, Hg, Hpc. cbn [negb andb]. unfold call_stop. rewrite bind_assoc.
  erewrite bind_ok by reflexivity. cbn [proto_stop tcp_proto].
  set (v := add_event _ _). destruct (freed_listener_is_read K l fn_stopped v HK) as [E _].
  erewrite bind_fault by (by apply E). by eexists.
Qed.

(** With connections attached the call returns; the last of them to close then
    calls through NULL. *)
Lemma early_free_drained w x k c :
  heap w !! L = Some (OListener x) -> l_readyToStop x = TRUE -> l_stopped x = None -> l_ref_count x = 1 ->
  heap w !! k = Some (OConnCtx c) -> owned L (links (heap w)) (held c) ->
  exists w', _tcp_closed (Some k) w = (Fault NullCall, w').
Proof.
  intros HL Hrd Hst Hrc Hk (Hcl & t & Ht & (cx & Hcx & Hcl')%links_connection).
  unfold _tcp_closed, drop_event. steps. rewrite Hcl. unfold call_up. steps. unfold call_if. rewrite bool_decide_true, Ht by done.
  unfold _taps_closed, detach. rewrite !bind_assoc. steps. rewrite Hcl'.
  unfold tapsListenerDeref. rewrite !bind_assoc. steps. rewrite Hrc, Hrd. cbn. steps. rewrite Hst. eexists. reflexivity.
Qed.

End preservation.

(** ** Properties *)

Section properties.
Context `{Machine} `{TameApp} `{Sys}.
Context (w0 : world) (L K : loc).

(** What the freed context of a listener still holds, if it can be read at all,
    leads to the same listener (the read itself is in [Stop]). *)
Hypothesis stale_listener : forall l, stale K = Some (OListenerCtx l) -> lc_taps_ctx l = Some L.

Lemma step_sinv w w' : sinv w0 L K w -> stack_step L K w w' -> sinv w0 L K w'.
Proof.
  intros Hi [l v HK Ha E|k c v Hk E|k c v Hk E|k c v Hk E|m v Hm E|x cb z v Hx Hrd E|c v Hc E].
  - by eapply accept_sinv.
  - destruct (closed_sinv w0 L K w k c Hi Hk) as (w2 & E2 & Hi2 & _). congruence.
  - eapply pres_sinv; [apply pres_tcp_sent|done..].
  - eapply pres_sinv; [apply pres_tcp_received|done..].
  - eapply pres_sinv; [by apply request_pres|done..].
  - by eapply stop_sinv.
  - eapply keeps_sinv; [done|]. eapply keeps_ConnectionFree; [apply Hi|done..].
Qed.

Lemma reachable_sinv w : stack_reachable w0 L K w -> sinv w0 L K w.
Proof. induction 1; [by apply made_sinv|by eapply step_sinv]. Qed.

(** C12: on top of the TCP library the counter of a listener is the number of
    TCP contexts: in every state the events of libevent and the requests of the
    application lead to, each context of a connection belongs to one attached
    connection and each attached connection has one context. *)
Theorem ref_count_counts_contexts w :
  stack_reachable w0 L K w ->
  exists x, listeners (heap w) !! L = Some x /\ l_ref_count x = live_connections (holdings (heap w)) /\
    (forall k c, heap w !! k = Some (OConnCtx c) -> exists t, cc_taps_ctx c = Some t /\ links (heap w) !! t = Some L) /\
    (forall t, links (heap w) !! t = Some L ->
       exists! k, exists c, heap w !! k = Some (OConnCtx c) /\ cc_taps_ctx c = Some t).
Proof.
  intros ((Hf & x & Hx & Hr & _) & Hm & _)%reachable_sinv. exists x.
  assert (forall k t, tcp_conns (holdings (heap w)) !! k = Some t <->
    exists c, heap w !! k = Some (OConnCtx c) /\ cc_taps_ctx c = Some t) as Hconn.
  { intros k t. rewrite tcp_conns_lookup, holdings_lookup. split.
    - destruct (heap w !! k) as [[]|]; simpl; try done. eauto.
    - intros (c & -> & Hc). done. }
  splits; [done|by rewrite (ma_count _ _ _ _ Hm)| |].
  - intros k c Hk. destruct (ma_owned _ _ _ _ Hm k (held c)) as (_ & t & Ht & Hl); [by rewrite holdings_lookup, Hk|eauto].
  - intros t Ht. destruct (ma_surj _ _ _ _ Hm t Ht) as [k Hk]. exists k. split; [by apply Hconn|].
    intros k' Hk'%Hconn. by eapply (ma_inj _ _ _ _ Hm).
Qed.

(** C13: the sockets the program holds open are those of its contexts: every
    socket opened since the start is one of a live connection or of the
    listener, or has been closed, whatever has happened in between. *)
Theorem open_sockets_are_held w fd :
  stack_reachable w0 L K w ->
  opens fd (trace w) = opens fd (trace w0) + count (holds_socket fd) (holdings (heap w)).
Proof. intros (_ & _ & _ & Hs)%reachable_sinv. apply Hs. Qed.

(** In the states of the invariant. *)
Lemma stopped_nothing_held w :
  sinv w0 L K w -> (stopped_events (trace w) <= 1)%nat /\ (stopped_events (trace w) = 1%nat <-> holdings (heap w) = ∅).
Proof.
  intros ((Hf & x & Hx & Hr & Hb & Hph) & Hm & (x' & Hx' & Hcase) & _).
  assert (x' = x) as -> by congruence. pose proof (ma_count _ _ _ _ Hm) as Hc. fold (attached (heap w) L) in Hc.
  split; [by destruct Hph; lia|]. split.
  - intros Hk. rewrite Hk in Hph. apply map_empty. intros k.
    destruct (holdings (heap w) !! k) as [[fd ce se re cl t|l]|] eqn:Ek; [| |done].
    + assert (attached (heap w) L = 0) as Ha by (by inversion Hph). rewrite Ha in Hc.
      apply (count_zero is_connection) in Ek; [done|done].
    + pose proof (ma_listener _ _ _ _ Hm k l Ek) as ->. destruct Hcase as [(Hrd & Hst & _)|[_ Hno]]; [|by destruct (Hno l)].
      rewrite Hrd in Hph. inversion Hph.
  - intros Hh. rewrite Hh in *. unfold live_connections in Hc. rewrite count_empty in Hc.
    destruct Hcase as [(_ & _ & _ & (l & Hl))|[Hrd _]]; [by rewrite lookup_empty in Hl|].
    rewrite Hrd, <- Hc in Hph. inversion Hph; [lia|done].
Qed.

(** C2: Stopped is reported once, and exactly when the TCP library holds
    nothing any more: neither the context of the listener nor one of a
    connection. *)
Theorem stopped_iff_nothing_held w :
  stack_reachable w0 L K w ->
  (stopped_events (trace w) <= 1)%nat /\ (stopped_events (trace w) = 1%nat <-> holdings (heap w) = ∅).
Proof. intros Hr. by apply stopped_nothing_held, reachable_sinv. Qed.



End properties.

(** ** A run of the whole stack *)

Module StackSample.

(** The memory of a freed listener context is not used again. *)
Definition lctx : listener_ctx :=
  ListenerCtx (Some 5%positive) (Some 106%positive) 5 (Some fn_connection_received) None (Some fn_closed)
    (Some fn_connection_error) (Some 1%positive).
#[local] Instance machine : Machine :=
  test_machine (fun l => if bool_decide (l = 2%positive) then Some (OListenerCtx lctx) else None) (fun _ => None).
#[local] Instance app : App := test_app (None, Some Demo.cbs).
#[local] Existing Instance TcpSample.sys.

Definition w0 : world := test_world [] 1.
Definition local : sockaddr := Sockaddr 2 5555 0 0.

(** Listening, with one connection, stopped, and the connection closed. *)
Definition w1 : world := snd (tapsListenerNew None "libtaps_tcp.so" local (Some 5%positive) (Some Demo.cbs) w0).
Definition w2 : world := snd (_tcp_connection_received 5 (Some 2%positive) w1).
Definition w3 : world := snd (tapsListenerStop (Some 1%positive) (Some Demo.cbs) w2).
Definition w4 : world := snd (_tcp_closed (Some 3%positive) w3).
Definition context : conn_ctx := match heap w3 !! 3%positive with Some (OConnCtx c) => c | _ => zero end.

Lemma stale_listener l : stale 2%positive = Some (OListenerCtx l) -> lc_taps_ctx l = Some 1%positive.
Proof. by intros [= <-]. Qed.

Ltac run := vm_compute; reflexivity.

Lemma made_w1 : made w0 1 2 w1.
Proof.
  split; [by apply (test_world_fresh [] 1)|]. splits; [done..|].
  eexists None, "libtaps_tcp.so"%string, local, 5%positive, Demo.cbs, _. splits; [run..].
Qed.

Lemma stack_reach_w3 : stack_reachable w0 1 2 w3.
Proof.
  eapply sr_step; [eapply sr_step; [apply sr_made, made_w1|]|].
  - eapply (ss_accept _ _ _ lctx) with (w' := w2); run.
  - eapply (ss_stop _ _ _ _ (Some Demo.cbs) 0) with (w' := w3); run.
Qed.

Lemma ref_count_counts_contexts_witness :
  exists x, listeners (heap w3) !! 1%positive = Some x /\ l_ref_count x = live_connections (holdings (heap w3)).
Proof.
  destruct (ref_count_counts_contexts w0 1 2 stale_listener w3 stack_reach_w3) as (x & Hx & Hr & _).
  exact (ex_intro _ x (conj Hx Hr)).
Defined.

Lemma open_sockets_are_held_witness :
  opens 5 (trace w3) = 0 /\ opens 7 (trace w3) = opens 7 (trace w0) + count (holds_socket 7) (holdings (heap w3)).
Proof. split; [run|]. exact (open_sockets_are_held w0 1 2 stale_listener w3 7 stack_reach_w3). Defined.

Lemma stopped_iff_nothing_held_witness :
  (stopped_events (trace w3) <= 1)%nat /\ (stopped_events (trace w3) = 1%nat <-> holdings (heap w3) = ∅).
Proof. exact (stopped_iff_nothing_held w0 1 2 stale_listener w3 stack_reach_w3). Defined.


(** A listener freed while its only connection is open. *)
Definition listening : tapsListener := match heap w2 !! 1%positive with Some (OListener x) => x | _ => zero end.
Definition stop_handle : loc := default 1%positive (ph_stop (l_handles listening)).

Lemma stack_reach_w2 : stack_reachable w0 1 2 w2.
Proof.
  eapply sr_step; [apply sr_made, made_w1|]. eapply (ss_accept _ _ _ lctx) with (w' := w2); run.
Qed.


End StackSample.
