(* ===== verification/Echo.v ===== *)
(** * Echo: examples/echoapp.c, the server that sends back what it receives

    The callbacks of the example are written out as an instance of [App], so
    that the library runs with a real application above it, and [main] puts the
    components together: endpoint, transport properties, preconnection,
    listener.  What the text buffers hold is not modelled; a message is the
    range of addresses it covers, so "the same bytes" is "the same range". *)

From S2P Require Import Prelude Structs Memory Message Queue Listener Connection Accept TransportProperties Endpoint.
From S2P Require Import Cfg Preconnection Tcp.
Local Open Scope Z_scope.

Definition MIN_BUF : Z := 0.
Definition BUF_SIZE : Z := 1024.

(** The functions the application hands to the library. *)
Definition fn_app_connection_received : fn := 2001.
Definition fn_app_establishment_error : fn := 2002.
Definition fn_app_stopped : fn := 2003.
Definition fn_app_sent : fn := 2004.
Definition fn_app_expired : fn := 2005.
Definition fn_app_send_error : fn := 2006.
Definition fn_app_received : fn := 2007.
Definition fn_app_received_partial : fn := 2008.
Definition fn_app_receive_error : fn := 2009.
Definition fn_app_closed : fn := 2010.
Definition fn_app_connection_error : fn := 2011.

Definition cbs : tapsCallbacks :=
  Callbacks (Some fn_app_connection_received) (Some fn_app_establishment_error) (Some fn_app_stopped)
    (Some fn_app_sent) (Some fn_app_expired) (Some fn_app_send_error) (Some fn_app_received)
    (Some fn_app_received_partial) (Some fn_app_receive_error) (Some fn_app_closed) (Some fn_app_connection_error).

(** Where the array [buf] of a message is. *)
Class Buffers := buf_of : loc -> Z.

Section callbacks.
Context `{Machine} `{Proto} `{Buffers}.

Definition set_am_taps (p : ptr) (m : app_msg) : app_msg := AppMsg p.
Definition set_ac_l (p : ptr) (c : app_conn) : app_conn := AppConn p (ac_taps c).
Definition set_ac_taps (p : ptr) (c : app_conn) : app_conn := AppConn (ac_l c) p.
Definition set_al_base (p : ptr) (l : app_listener) : app_listener := AppListener p (al_taps l) (al_callbacks l).
Definition set_al_taps (p : ptr) (l : app_listener) : app_listener := AppListener (al_base l) p (al_callbacks l).
Definition set_al_callbacks (c : tapsCallbacks) (l : app_listener) : app_listener := AppListener (al_base l) (al_taps l) c.

(** [&c->l->callbacks], read where the library reads it. *)
Definition conn_callbacks (c : app_conn) : M (option tapsCallbacks) :=
  l ← load (ac_l c); mret (Some (al_callbacks l)).

Definition _app_send_error (conn msg : ptr) (reason : option string) : M unit :=
  m ← load msg;
  tapsMessageFree (am_taps m).

Definition _app_expired (conn msg : ptr) : M unit :=
  m ← load msg;
  tapsMessageFree (am_taps m) ;;
  free app_msg msg.

Definition _app_sent (conn msg : ptr) : M unit :=
  m ← load msg;
  tapsMessageFree (am_taps m) ;;
  free app_msg msg.

(** A new message to receive into, for the connection [c]: the end of
    [_app_received_partial] and of [_app_connection_received]. *)
Definition receive_more (c : ptr) : M unit :=
  m ← malloc app_msg;
  match m with
  | None => throw (Exited (-1))
  | Some b =>
      t ← tapsMessageNew (buf_of b) BUF_SIZE;
      modify m (set_am_taps t) ;;
      match t with
      | Some _ =>
          x ← load c;
          callbacks ← conn_callbacks x;
          tapsConnectionReceive (ac_taps x) m t MIN_BUF BUF_SIZE callbacks ;;
          mret tt
      | None => mret tt
      end
  end.

Definition _app_received_partial (conn msg : ptr) (bytes eom : Z) : M unit :=
  m ← (load msg : M app_msg);
  tapsMessageGetFirstBuf (am_taps m) ;;
  tapsMessageTruncate (am_taps m) bytes ;;
  c ← load conn;
  callbacks ← conn_callbacks c;
  r ← tapsConnectionSend (ac_taps c) (am_taps m) msg callbacks;
  (if r <? 0
   then tapsMessageFree (am_taps m) ;; free app_msg msg
   else mret tt) ;;
  receive_more conn.

Definition _app_received (conn msg : ptr) (bytes : Z) : M unit := _app_received_partial conn msg bytes 1.

Definition _app_receive_error (conn msg : ptr) (reason : option string) : M unit := free app_msg msg.

Definition _app_stopped (listener : ptr) : M unit :=
  l ← load listener;
  emit (EvLoopBreak (al_base l)).

(** [exit -1] subtracts one from the address of exit(), and does nothing. *)
Definition _app_connection_received (listener conn : ptr) : M (ptr * option tapsCallbacks) :=
  c ← malloc app_conn;
  modify c (set_ac_l listener) ;;
  modify c (set_ac_taps conn) ;;
  l ← load listener;
  let cb := Some (al_callbacks l) in
  receive_more c ;;
  mret (c, cb).

Definition _app_establishment_error (listener : ptr) (reason : option string) : M unit :=
  l ← load listener;
  tapsListenerFree (al_taps l) ;;
  free app_listener listener.

Definition _app_sighandler (arg : ptr) : M unit :=
  l ← load arg;
  tapsListenerStop (al_taps l) (Some (al_callbacks l)) ;;
  mret tt.

(** These two give the connection back; the library calls the application again
    while it does. *)
Definition _app_closed `{App} (conn : ptr) : M unit :=
  c ← load conn;
  tapsConnectionFree (ac_taps c) ;;
  free app_conn conn.

Definition _app_connection_error `{App} (conn : ptr) (reason : option string) : M unit :=
  c ← load conn;
  tapsConnectionFree (ac_taps c) ;;
  free app_conn conn.

(** The application: [depth] bounds how often the library and the application
    call each other in turn. *)
Fixpoint echo_app (depth : nat) : App :=
  match depth with
  | O => {| app_call _ := throw OutOfFuel; app_connectionReceived _ _ _ := throw OutOfFuel |}
  | S depth =>
      let inner := echo_app depth in
      {| app_call e :=
           match e with
           | EvStopped f l => call_if fn_app_stopped f (_app_stopped l)
           | EvSent f c m => call_if fn_app_sent f (_app_sent c m)
           | EvExpired f c m => call_if fn_app_expired f (_app_expired c m)
           | EvSendError f c m r => call_if fn_app_send_error f (_app_send_error c m r)
           | EvReceived f c m n => call_if fn_app_received f (_app_received c m n)
           | EvReceivedPartial f c m n eom => call_if fn_app_received_partial f (_app_received_partial c m n eom)
           | EvReceiveError f c m r => call_if fn_app_receive_error f (_app_receive_error c m r)
           | EvClosed f c => call_if fn_app_closed f (_app_closed c)
           | EvConnectionError f c r => call_if fn_app_connection_error f (_app_connection_error c r)
           | _ => mret tt
           end;
         app_connectionReceived f l c := call_if fn_app_connection_received f (_app_connection_received l c) |}
  end.

End callbacks.

(** ** The program *)

Section main.
Context `{Machine} `{App} `{Proto} `{Net} `{Sys}.
Context (fuel : nat) (directory : option (list dirent)) (proto : list tapsProtocol) (sin6 sin : sockaddr).
Context (event_base_dispatch : ptr -> M unit).

Definition SIGINT : Z := 2.
Definition EV_SIGNAL : Z := 8.

(** [if (p) f(p)]. *)
Definition when (p : ptr) (f : ptr -> M unit) : M unit := match p with Some _ => f p | None => mret tt end.

(** The label [fail]. *)
Definition main_fail (pc ep tp l : ptr) : M Z :=
  when pc tapsPreconnectionFree ;;
  when ep tapsEndpointFree ;;
  when tp tapsTransportPropertiesFree ;;
  when l (fun l =>
    x ← load l;
    when (al_taps x) (fun t => tapsListenerFree t ;; mret tt) ;;
    when (al_base x) (fun b => emit (EvBaseFree b)) ;;
    free app_listener l) ;;
  mret 0.

(** From the event loop to the end. *)
Definition main_waits (base sigint l : ptr) : M Z :=
  event_base_dispatch base ;;
  x ← load l;
  tapsListenerFree (al_taps x) ;;
  drop_event sigint ;;
  emit (EvBaseFree (al_base x)) ;;
  free app_listener l ;;
  mret 0.

(** From the listener that listens to the event loop. *)
Definition main_serve (pc ep tp l : ptr) : M Z :=
  tapsPreconnectionFree pc ;;
  tapsEndpointFree ep ;;
  tapsTransportPropertiesFree tp ;;
  x ← load l;
  sigint ← event_new (al_base x) SIGINT EV_SIGNAL l;
  event_add sigint ;;
  main_waits (al_base x) sigint l.

(** The listener of the application, then the listener of the library. *)
Definition main_listen (pc ep tp : ptr) : M Z :=
  l ← malloc app_listener;
  match l with
  | None => main_fail pc ep tp None
  | Some _ =>
      modify l (set_al_taps None) ;;
      modify l (set_al_base event_base_new) ;;
      match event_base_new with
      | None => main_fail pc ep tp l
      | Some _ =>
          modify l (set_al_callbacks cbs) ;;
          t ← tapsPreconnectionListen sin6 sin pc l event_base_new (Some cbs);
          modify l (set_al_taps t) ;;
          match t with
          | None => main_fail pc ep tp l
          | Some _ => main_serve pc ep tp l
          end
      end
  end.

Definition main : M Z :=
  ep ← tapsEndpointNew;
  match ep with
  | None => main_fail None None None None
  | Some _ =>
      r ← tapsEndpointWithPort ep 5555;
      if negb (truth r) then main_fail None ep None None
      else
        r ← tapsEndpointWithIPv4Address ep "127.0.0.1";
        if negb (truth r) then main_fail None ep None None
        else
          tp ← tapsTransportPropertiesNew TAPS_LISTENER;
          match tp with
          | None => main_fail None ep None None
          | Some _ =>
              pc ← tapsPreconnectionNew fuel directory proto [ep] 1 [] 0 tp;
              match pc with
              | None => main_fail None ep tp None
              | Some _ => main_listen pc ep tp
              end
          end
  end.

End main.
