(* ===== verification/EchoRound.v ===== *)
(** * EchoRound: what the echo application does with the library's reports

    A connection of the echo server receives into one message at a time and has
    any number of messages queued to be sent back.  [echoing] says so of a
    state; the theorems run the reports of the protocol through the library and
    the callbacks of the application, and find a state that says so again. *)

From S2P Require Import Prelude Structs Memory Message Queue Listener Connection Accept Lifecycle Requests Sending Release.
From S2P Require Import Receiving Echo.
Local Open Scope Z_scope.

(** A message of the application: its [app_msg], its [tapsMessage], and the bytes
    of the buffer the message covers. *)
Record body := Body { b_msg : loc; b_message : loc; b_len : Z }.

(** The connection stays what it is to its listener and to the protocol. *)
Definition same_life (x x' : tapsConnection) : Prop :=
  c_proto_ctx x' = c_proto_ctx x /\ c_listener x' = c_listener x /\ c_closed x' = c_closed x.

#[export] Instance same_life_preorder : PreOrder same_life.
Proof. split; [by intros x|]. intros x1 x2 x3 (A1 & A2 & A3) (B1 & B2 & B3). unfold same_life. splits; congruence. Qed.

(** ** States *)

Section states.
Context `{Buffers} (gs gr : fn) (c cc al : loc) (ctx : ptr).

Definition body_message (b : body) : tapsMessage := Message (Iovec (buf_of (b_msg b)) (b_len b)) None 1.

Definition body_blocks (h : gmap loc obj) (b : body) : Prop :=
  h !! b_msg b = Some (OAppMsg (AppMsg (Some (b_message b)))) /\
  h !! b_message b = Some (OMessage (body_message b)).

(** The blocks of several messages, no two of which share one. *)
Record holds (h : gmap loc obj) (bs : list body) : Prop := {
  hd_blocks : Forall (body_blocks h) bs;
  hd_msgs : NoDup (b_msg <$> bs);
  hd_messages : NoDup (b_message <$> bs);
}.

#[global] Instance holds_perm h : Proper ((≡ₚ) ==> iff) (holds h).
Proof.
  intros bs bs' Ep. split; intros [H1 H2 H3]; split.
  all: first [by rewrite Ep in H1|by rewrite <- Ep in H1|by rewrite Ep in H2|by rewrite <- Ep in H2
             |by rewrite Ep in H3|by rewrite <- Ep in H3].
Qed.

Lemma holds_held h b rs bs : holds h (rs ++ b :: bs) <-> holds h (b :: rs ++ bs).
Proof. apply holds_perm. symmetry. apply Permutation_middle. Qed.

(** A message queued to be sent, or to be received into. *)
Definition echo_send (p : loc * body) : loc * send_item :=
  (p.1, new_send c (Some (b_message p.2)) (Some (b_msg p.2)) cbs).
Definition echo_recv (p : loc * body) : loc * recv_item :=
  (p.1, new_recv c (Some (b_message p.2)) (Some (b_msg p.2)) MIN_BUF BUF_SIZE cbs).

(** The application's own structures for the connection, which calls the
    application with [ctx]. *)
Record app_view (h : gmap loc obj) (x : tapsConnection) : Prop := {
  av_ctx : c_app_ctx x = ctx;
  av_conn : h !! cc = Some (OAppConn (AppConn (Some al) (Some c)));
  av_listener : exists y, h !! al = Some (OAppListener y) /\ al_callbacks y = cbs;
}.

(** The connection receives into [rs]; the messages [bs] are elsewhere. *)
Record receiving (w : world) (x : tapsConnection) (rs : list (loc * body)) (bs : list body) : Prop := {
  rg_receiver : receiver w c x (echo_recv <$> rs) gr;
  rg_ready : truth (c_receiveReady x) = match rs with [] => true | _ => false end;
  rg_app : app_view (heap w) x;
  rg_holds : holds (heap w) (rs.*2 ++ bs);
}.

(** The receives [rs] are at the protocol, the messages [hs] are in the hands of
    the application, and the messages [es] are queued to be sent. *)
Record echoing (w : world) (x : tapsConnection) (rs : list (loc * body)) (hs : list body) (es : list (loc * body)) : Prop := {
  eg_receiver : receiver w c x (echo_recv <$> rs) gr;
  eg_sender : sender w c x (echo_send <$> es) gs;
  eg_sendReady : truth (c_sendReady x) = true;
  eg_receiveReady : truth (c_receiveReady x) = match rs with [] => true | _ => false end;
  eg_app : app_view (heap w) x;
  eg_holds : holds (heap w) (rs.*2 ++ hs ++ es.*2);
  eg_room : Forall (fun p => b_len p.2 = BUF_SIZE) rs;
}.

Lemma sends_items es : (echo_send <$> es).*1 = es.*1.
Proof. induction es as [|p es IH]; [done|]. by rewrite !fmap_cons, IH. Qed.

(** A queue of requests in another state. *)
Lemma owner_move {T} `{Request T} (f : field tapsConnection) w w' x x' (q : list (loc * T)) :
  owner f w c x q -> heap w' !! c = Some (OConnection x') -> f_get f x' = f_get f x ->
  fresh_from (heap w') (brk w') ->
  (forall j (s : T), heap w !! j = Some (inj s) -> heap w' !! j = Some (inj s)) -> owner f w' c x' q.
Proof.
  intros [Hc Hq Hf] Hc' E Hf' Hk. split; [done| |done]. rewrite E.
  eapply queue_frame; [|exact Hq]. intros j Hj. destruct (queue_typed _ _ _ _ Hq Hj) as [s Es].
  by rewrite Es, (Hk _ _ Es).
Qed.

Lemma handle_move (h h' : gmap loc obj) x x' get g :
  has_handle h x get g -> c_handles x' = c_handles x ->
  (forall j l, h !! j = Some (OListener l) -> h' !! j = Some (OListener l)) -> has_handle h' x' get g.
Proof. intros (L & lx & E1 & E2 & E3) E Hk. exists L, lx. rewrite E. splits; [done|by apply Hk|done]. Qed.

Lemma sender_move w w' x x' q :
  sender w c x q gs -> heap w' !! c = Some (OConnection x') -> c_sndq x' = c_sndq x -> c_handles x' = c_handles x ->
  fresh_from (heap w') (brk w') ->
  (forall j o, heap w !! j = Some o -> match o with OSend _ | OListener _ => heap w' !! j = Some o | _ => True end) ->
  Forall (fun p => has_message (heap w') (s_message p.2)) q -> sender w' c x' q gs.
Proof.
  intros [Ho Hh Hi] Hc Eq Eh Hf Hk Hm. split.
  - eapply owner_move; [exact Ho|done..|]. intros j s E. exact (Hk _ _ E).
  - eapply handle_move; [exact Hh|done|]. intros j l E. exact (Hk _ _ E).
  - apply Forall_and. split; [|done]. eapply Forall_impl; [exact Hi|]. by intros p [].
Qed.

Lemma receiver_move w w' x x' q :
  receiver w c x q gr -> heap w' !! c = Some (OConnection x') -> c_rcvq x' = c_rcvq x -> c_handles x' = c_handles x ->
  fresh_from (heap w') (brk w') ->
  (forall j o, heap w !! j = Some o -> match o with ORecv _ | OListener _ => heap w' !! j = Some o | _ => True end) ->
  Forall (fun p => has_message (heap w') (r_message p.2)) q -> receiver w' c x' q gr.
Proof.
  intros [Ho Hh Hi] Hc Eq Eh Hf Hk Hm. split.
  - eapply owner_move; [exact Ho|done..|]. intros j s E. exact (Hk _ _ E).
  - eapply handle_move; [exact Hh|done|]. intros j l E. exact (Hk _ _ E).
  - apply Forall_and. split; [|done]. eapply Forall_impl; [exact Hi|]. by intros p [].
Qed.

Lemma sends_have_messages h es :
  Forall (body_blocks h) es.*2 -> Forall (fun p => has_message h (s_message p.2)) (echo_send <$> es).
Proof.
  intros Hb. apply Forall_fmap. rewrite Forall_fmap in Hb. eapply Forall_impl; [exact Hb|].
  intros p [_ E]. by exists (b_message p.2), (body_message p.2).
Qed.

Lemma receives_have_messages h rs :
  Forall (body_blocks h) rs.*2 -> Forall (fun p => has_message h (r_message p.2)) (echo_recv <$> rs).
Proof.
  intros Hb. apply Forall_fmap. rewrite Forall_fmap in Hb. eapply Forall_impl; [exact Hb|].
  intros p [_ E]. by exists (b_message p.2), (body_message p.2).
Qed.

Lemma holds_kept h h' bs :
  (forall j o, h !! j = Some o -> match o with OAppMsg _ | OMessage _ => h' !! j = Some o | _ => True end) ->
  holds h bs -> holds h' bs.
Proof.
  intros Hk [Hb H1 H2]. split; [|done..]. eapply Forall_impl; [exact Hb|].
  intros b [E1 E2]. split; [exact (Hk _ _ E1)|exact (Hk _ _ E2)].
Qed.

Lemma app_view_move h h' x x' :
  app_view h x -> c_app_ctx x' = c_app_ctx x ->
  (forall j o, h !! j = Some o -> match o with OAppConn _ | OAppListener _ => h' !! j = Some o | _ => True end) ->
  app_view h' x'.
Proof.
  intros [E1 E2 (y & E3 & E4)] E Hk. split; [congruence|exact (Hk _ _ E2)|]. exists y. split; [exact (Hk _ _ E3)|done].
Qed.

(** What has been freed is none of the blocks of the connection. *)
Lemma echoing_dead w x rs hs es j :
  echoing w x rs hs es -> heap w !! j = None ->
  j <> c /\ j ∉ es.*1 /\ Forall (fun b => j <> b_msg b /\ j <> b_message b) (rs.*2 ++ hs ++ es.*2).
Proof.
  intros [_ [[Hc Hq _] _ _] _ _ _ [Hb _ _] _] Hj. splits.
  - congruence.
  - rewrite <- sends_items. intros Hin. destruct (queue_typed _ _ _ _ Hq Hin) as [it E]. congruence.
  - eapply Forall_impl; [exact Hb|]. intros b [E1 E2]. split; congruence.
Qed.

(** *** Steps that change one side *)

Lemma echoing_receiving w x rs hs es : echoing w x rs hs es -> receiving w x rs (hs ++ es.*2).
Proof. by intros []. Qed.

(** Blocks are added, or changed in what is not the receives'. *)
Lemma receiving_blocks w w' x rs bs bs' :
  receiving w x rs bs -> heap w' !! c = heap w !! c -> fresh_from (heap w') (brk w') ->
  (forall j o, heap w !! j = Some o ->
     match o with ORecv _ | OListener _ | OAppConn _ | OAppListener _ => heap w' !! j = Some o | _ => True end) ->
  holds (heap w') (rs.*2 ++ bs') -> receiving w' x rs bs'.
Proof.
  intros [Hr R Ha Hh] Hc Hf Hk Hh'.
  assert (heap w' !! c = Some (OConnection x)) as Hc' by (rewrite Hc; apply Hr).
  pose proof (hd_blocks _ _ Hh') as [Hb1 _]%Forall_app. split; [|done| |done].
  - eapply receiver_move; [exact Hr|done..| |by apply receives_have_messages].
    intros j o E. specialize (Hk j o E). by destruct o.
  - eapply app_view_move; [exact Ha|done|]. intros j o E. specialize (Hk j o E). by destruct o.
Qed.

(** The messages of the application change. *)
Lemma echoing_blocks w w' x rs hs hs' es :
  echoing w x rs hs es -> heap w' !! c = heap w !! c -> fresh_from (heap w') (brk w') ->
  (forall j o, heap w !! j = Some o -> match o with OMessage _ | OAppMsg _ | OConnection _ => True | _ => heap w' !! j = Some o end) ->
  holds (heap w') (rs.*2 ++ hs' ++ es.*2) -> echoing w' x rs hs' es.
Proof.
  intros Hg Hc Hf Hk Hh'. pose proof Hg as [Hr Hs R1 R2 Ha Hh Hl].
  destruct (receiving_blocks w w' x rs _ (hs' ++ es.*2) (echoing_receiving _ _ _ _ _ Hg)) as [Hr' _ Ha' _]; try done.
  { intros j o E. specialize (Hk j o E). by destruct o. }
  pose proof (hd_blocks _ _ Hh') as [_ [_ Hb]%Forall_app]%Forall_app. split; try done.
  eapply sender_move; [exact Hs|apply Hr'|done|done|done| |by apply sends_have_messages].
  intros j o E. specialize (Hk j o E). by destruct o.
Qed.

(** The receive queue changes. *)
Lemma echoing_received w w' x x' rs rs' hs hs' es :
  echoing w x rs hs es -> receiver w' c x' (echo_recv <$> rs') gr -> static_kept recv_static (heap w) (heap w') ->
  c_sndq x' = c_sndq x -> c_handles x' = c_handles x -> c_app_ctx x' = c_app_ctx x -> c_sendReady x' = c_sendReady x ->
  truth (c_receiveReady x') = match rs' with [] => true | _ => false end ->
  rs'.*2 ++ hs' ≡ₚ rs.*2 ++ hs -> Forall (fun p => b_len p.2 = BUF_SIZE) rs' -> echoing w' x' rs' hs' es.
Proof.
  intros [Hr Hs R1 R2 Ha Hh Hl] Hr' Hk E1 E2 E3 E4 R2' Ep Hl'.
  assert (holds (heap w') (rs.*2 ++ hs ++ es.*2)) as Hh1.
  { eapply holds_kept; [|exact Hh]. intros j o E. specialize (Hk j o E). by destruct o; try apply Hk. }
  pose proof (hd_blocks _ _ Hh1) as [_ [_ Hb]%Forall_app]%Forall_app.
  split; [done| |by rewrite E4|done| | |done].
  - eapply sender_move; [exact Hs|apply Hr'|done|done|apply Hr'| |by apply sends_have_messages].
    intros j o E. specialize (Hk j o E). by destruct o; try apply Hk.
  - eapply app_view_move; [exact Ha|done|]. intros j o E. specialize (Hk j o E). by destruct o; try apply Hk.
  - by rewrite app_assoc, Ep, <- app_assoc.
Qed.

(** The send queue changes. *)
Lemma echoing_sent w w' x x' rs hs hs' es es' :
  echoing w x rs hs es -> sender w' c x' (echo_send <$> es') gs -> static_kept send_static (heap w) (heap w') ->
  c_rcvq x' = c_rcvq x -> c_handles x' = c_handles x -> c_app_ctx x' = c_app_ctx x -> c_receiveReady x' = c_receiveReady x ->
  truth (c_sendReady x') = true -> hs' ++ es'.*2 ≡ₚ hs ++ es.*2 -> echoing w' x' rs hs' es'.
Proof.
  intros [Hr Hs R1 R2 Ha Hh Hl] Hs' Hk E1 E2 E3 E4 R1' Ep.
  assert (holds (heap w') (rs.*2 ++ hs ++ es.*2)) as Hh1.
  { eapply holds_kept; [|exact Hh]. intros j o E. specialize (Hk j o E). by destruct o; try apply Hk. }
  pose proof (hd_blocks _ _ Hh1) as [Hb _]%Forall_app.
  split; [|done|done|by rewrite E4| | |done].
  - eapply receiver_move; [exact Hr|apply Hs'|done|done|apply Hs'| |by apply receives_have_messages].
    intros j o E. specialize (Hk j o E). by destruct o; try apply Hk.
  - eapply app_view_move; [exact Ha|done|]. intros j o E. specialize (Hk j o E). by destruct o; try apply Hk.
  - by rewrite Ep.
Qed.

End states.

(** ** The steps of the application *)

Section steps.
Context `{Machine} `{QuietProto} `{Buffers} (gs gr : fn) (c cc al : loc) (ctx : ptr).
Hypothesis memory : forall l, malloc_ok l = true.

#[local] Abbreviation echoing := (echoing gs gr c cc al ctx).
#[local] Abbreviation receiving := (receiving gr c cc al ctx).

Lemma truncate_one m b k n w :
  heap w !! m = Some (OMessage (Message (Iovec b k) None 1)) -> 0 <= n <= k ->
  tapsMessageTruncate (Some m) n w = (Ok tt, set_heap (<[m := OMessage (Message (Iovec b n) None 1)]> (heap w)) w).
Proof.
  intros Hm Hn. unfold tapsMessageTruncate. erewrite bind_ok by (by apply (load_ok (T := tapsMessage))).
  assert (truncate_loop 2 [Iovec b k] 1 n 0 w = (Ok (n, 0), w)) as E.
  { unfold truncate_loop, mbind, M_bind. simpl. by rewrite (proj2 (Z.ltb_ge _ _)) by lia. }
  erewrite bind_ok by exact E. cbv beta iota. simpl. erewrite bind_ok by (by apply (modify_ok (T := tapsMessage))).
  erewrite (modify_ok (T := tapsMessage)) by apply lookup_insert_eq.
  unfold set_heap. simpl. by rewrite insert_insert_eq.
Qed.

Lemma conn_callbacks_ok w x :
  app_view c cc al ctx (heap w) x ->
  load (Some cc) w = (Ok (AppConn (Some al) (Some c)), w) /\
  conn_callbacks (AppConn (Some al) (Some c)) w = (Ok (Some cbs), w).
Proof.
  intros [_ Hc (y & Hl & Hy)]. split; [by apply load_ok|].
  unfold conn_callbacks. erewrite bind_ok by (by apply (load_ok (T := app_listener))). by rewrite Hy.
Qed.

Lemma echoing_event w x rs hs es e : echoing w x rs hs es -> echoing (add_event e w) x rs hs es.
Proof.
  intros Hg. eapply echoing_blocks; [exact Hg|done|apply Hg| |apply Hg].
  intros j o E. by destruct o.
Qed.

(** The connection once the item [l] is received into. *)
Definition receive_at (l : loc) (x : tapsConnection) : tapsConnection :=
  set_c_receiveReady FALSE (set_c_rcvq (Some l) x).

(** A receive into a message the application holds. *)
Lemma receive_step w x bs b :
  receiving w x [] (b :: bs) ->
  exists w', tapsConnectionReceive (Some c) (Some (b_msg b)) (Some (b_message b)) MIN_BUF BUF_SIZE (Some cbs) w = (Ok 0, w')
    /\ receiving w' (receive_at (brk w) x) [(brk w, b)] bs /\ static_kept recv_static (heap w) (heap w')
    /\ (forall j, j <> c -> (j < brk w)%positive -> heap w' !! j = heap w !! j) /\ brk w' = Pos.succ (brk w)
    /\ trace w' = trace w ++ [PReceive gr (c_proto_ctx x) (Some (brk w)) (IovMessage (b_message b)) 1].
Proof.
  intros [Hr R Ha Hh]. pose proof Hh as [[[_ Em] Hb]%Forall_cons _ _].
  destruct (Receive_spec w c x [] gr (Some (b_message b)) (Some (b_msg b)) MIN_BUF BUF_SIZE (Some cbs) cbs)
    as (w' & E & Hr' & Et & Eb & Hk & Hfr); [done|by exists (b_message b), (body_message b)|done|done|].
  rewrite R in Et. unfold after_receive in Hr'. rewrite R in Hr'.
  exists w'. splits; [done| |done| |done|].
  - split; [done|done| |].
    + eapply app_view_move; [exact Ha|done|]. intros j o E'. specialize (Hk j o E'). by destruct o; try apply Hk.
    + eapply holds_kept; [|exact Hh]. intros j o E'. specialize (Hk j o E'). by destruct o; try apply Hk.
  - intros j ??. apply Hfr; [done..|]. apply not_elem_of_nil.
  - rewrite Et. unfold recv_call, hand_over. simpl. by rewrite Em.
Qed.

(** A new message of the application. *)
Lemma new_message_step w x rs bs :
  receiving w x rs bs ->
  let b := Body (brk w) (Pos.succ (brk w)) BUF_SIZE in
  forall w', heap w' = <[b_msg b := OAppMsg (AppMsg (Some (b_message b)))]>
                         (<[b_message b := OMessage (body_message b)]> (heap w)) ->
  brk w' = Pos.succ (Pos.succ (brk w)) ->
  receiving w' x rs (b :: bs) /\ (forall j o, heap w !! j = Some o -> heap w' !! j = Some o).
Proof.
  intros Hg b w' Eh Eb. pose proof Hg as [Hr _ _ [Hb Hn1 Hn2]].
  pose proof (ow_fresh _ _ _ _ _ (rv_owner _ _ _ _ _ Hr)) as Hf.
  assert (forall j o, heap w !! j = Some o -> heap w' !! j = Some o) as Hk.
  { intros j o E. pose proof (fresh_from_lt _ _ _ _ Hf E). rewrite Eh, !lookup_insert_ne by (simpl; lia). done. }
  split; [|exact Hk].
  assert (heap w' !! c = heap w !! c) as Hc by (rewrite (ow_conn _ _ _ _ _ (rv_owner _ _ _ _ _ Hr)); apply Hk, Hr).
  eapply receiving_blocks; [exact Hg|exact Hc| |intros j o E; pose proof (Hk _ _ E); by destruct o|].
  - rewrite Eb, Eh. simpl. apply fresh_from_insert; [lia|]. apply fresh_from_insert; [lia|].
    intros j Hj. apply Hf. lia.
  - apply holds_held. rewrite Forall_forall in Hb. split; simpl.
    + constructor; [split; rewrite Eh; [apply lookup_insert_eq|]|].
      * rewrite lookup_insert_ne by (simpl; lia). apply lookup_insert_eq.
      * apply Forall_forall. intros b' Hin. destruct (Hb b' Hin) as [E1 E2]. by split; apply Hk.
    + constructor; [|done]. intros (b' & Hb' & Hin)%list_elem_of_fmap. destruct (Hb b' Hin) as [E1 _].
      apply (fresh_from_lt _ _ _ _ Hf) in E1. lia.
    + constructor; [|done]. intros (b' & Hb' & Hin)%list_elem_of_fmap. destruct (Hb b' Hin) as [_ E2].
      apply (fresh_from_lt _ _ _ _ Hf) in E2. lia.
Qed.

(** The application asks for more. *)
Lemma receive_more_step w x bs :
  receiving w x [] bs ->
  let b := Body (brk w) (Pos.succ (brk w)) BUF_SIZE in
  let l := Pos.succ (Pos.succ (brk w)) in
  exists w', receive_more (Some cc) w = (Ok tt, w')
    /\ receiving w' (receive_at l x) [(l, b)] bs /\ static_kept recv_static (heap w) (heap w')
    /\ (forall j, j <> c -> (j < brk w)%positive -> heap w' !! j = heap w !! j) /\ brk w' = Pos.succ l
    /\ trace w' = trace w ++ [PReceive gr (c_proto_ctx x) (Some l) (IovMessage (b_message b)) 1].
Proof.
  intros Hg b l. unfold receive_more. erewrite bind_ok by (by apply (malloc_succeeds (T := app_msg))).
  set (w1 := World _ _ _ _). destruct (tapsMessageNew_ok (buf_of (brk w)) BUF_SIZE w1) as (m & E & -> & _); [done|done|].
  erewrite bind_ok by exact E. set (w2 := World _ _ _ _).
  assert (heap w2 !! brk w = Some (OAppMsg (uninit (brk w)))) as Ha.
  { unfold w2, w1. simpl. rewrite lookup_insert_ne by lia. apply lookup_insert_eq. }
  erewrite bind_ok by (apply (modify_ok (T := app_msg)); exact Ha). set (w3 := set_heap _ _).
  destruct (new_message_step w x [] bs Hg w3) as [Hg3 Hk3]; [|done|].
  { unfold w3, w2, w1. simpl. rewrite insert_insert_ne by lia. rewrite insert_insert_eq. by rewrite insert_insert_ne by lia. }
  destruct (conn_callbacks_ok w3 x) as [E1 E2]; [apply Hg3|].
  erewrite bind_ok by exact E1. erewrite bind_ok by exact E2.
  destruct (receive_step w3 x bs b) as (w' & E' & Hg' & Hk & Hfr & Eb & Et); [done..|].
  erewrite bind_ok by exact E'. rewrite ret_ok. exists w'. splits; try done.
  - etrans; [|exact Hk]. intros j o Ej _. by apply Hk3.
  - intros j Hj Hlt. rewrite Hfr by (simpl; lia || done). unfold w3, w2, w1. simpl.
    by rewrite !lookup_insert_ne by lia.
Qed.

(** The same, with what is being sent. *)
Lemma echo_more w x hs es :
  echoing w x [] hs es ->
  let b := Body (brk w) (Pos.succ (brk w)) BUF_SIZE in
  let l := Pos.succ (Pos.succ (brk w)) in
  exists w' x', receive_more (Some cc) w = (Ok tt, w')
    /\ echoing w' x' [(l, b)] hs es /\ same_life x x'
    /\ (forall j, j <> c -> (j < brk w)%positive -> heap w' !! j = heap w !! j) /\ brk w' = Pos.succ l
    /\ trace w' = trace w ++ [PReceive gr (c_proto_ctx x) (Some l) (IovMessage (b_message b)) 1].
Proof.
  intros Hg b l. destruct (receive_more_step w x (hs ++ es.*2)) as (w' & E & [Hr' R' Ha' Hh'] & Hk & Hfr & Eb & Et).
  { by apply (echoing_receiving gs). }
  exists w', (receive_at l x). splits; [done| |done..]. destruct Hg as [_ Hs R1 _ _ _ _].
  split; try done; [|by repeat constructor].
  pose proof (hd_blocks _ _ Hh') as [_ [_ Hb]%Forall_app]%Forall_app.
  eapply sender_move; [exact Hs|apply Hr'|done|done|apply Hr'| |by apply sends_have_messages].
  intros j o E'. specialize (Hk j o E'). by destruct o; try apply Hk.
Qed.

(** A send of a message the application holds. *)
Lemma send_step w x rs hs es b :
  echoing w x rs (b :: hs) es ->
  exists z w' x', tapsConnectionSend (Some c) (Some (b_message b)) (Some (b_msg b)) (Some cbs) w = (Ok z, w')
    /\ echoing w' x' rs hs (es ++ [(brk w, b)]) /\ same_life x x' /\ brk w' = Pos.succ (brk w)
    /\ (forall j, j <> c -> (j < brk w)%positive -> j ∉ es.*1 -> heap w' !! j = heap w !! j)
    /\ trace w' = trace w ++ [PSend gs (c_proto_ctx x) (Some (brk w)) (IovMessage (b_message b)) 1]
    /\ exists d n v, trace v = trace w ++ [PSend gs (c_proto_ctx x) (Some (brk w)) d n]
         /\ proto_send gs (c_proto_ctx x) (Some (brk w)) d n v = (Ok z, v).
Proof.
  intros Hg. pose proof Hg as [_ Hs R1 R2 _ [Hb _ _] _].
  apply Forall_app in Hb as [_ [[_ Em] _]%Forall_cons].
  destruct (Send_spec w c x (echo_send c <$> es) gs (Some (b_message b)) (Some (b_msg b)) cbs)
    as (z & w' & E & Hs' & Et & _ & Eb & Hfr & Hz); [done|by exists (b_message b), (body_message b)|done|].
  exists z, w', (set_c_sndq (Some (brk w)) x). splits; [done| |done|done|by rewrite <- (sends_items c es)| |by apply Hz].
  - eapply (echoing_sent gs gr c cc al ctx w w' x _ rs (b :: hs) hs es); try done; [by rewrite fmap_app| |].
    + exact (owner_static sndq w c x _ _ (sd_owner _ _ _ _ _ Hs) Hfr).
    + rewrite fmap_app. simpl. rewrite app_assoc, (Permutation_app_comm _ [b]). done.
  - rewrite Et, R1. unfold send_call, hand_over. simpl. by rewrite Em.
Qed.

(** A message the application holds is cut. *)
Lemma truncate_step w x rs hs es b n :
  echoing w x rs (b :: hs) es -> 0 <= n <= b_len b ->
  exists w', tapsMessageTruncate (Some (b_message b)) n w = (Ok tt, w')
    /\ echoing w' x rs (Body (b_msg b) (b_message b) n :: hs) es /\ trace w' = trace w /\ brk w' = brk w
    /\ unmoved [b_message b] w w'.
Proof.
  intros Hg Hn. pose proof Hg as [Hr _ _ _ _ Hh _].
  apply holds_held in Hh as [[[E1 E2] Hb]%Forall_cons Hn1 Hn2].
  eexists. splits; [by apply (truncate_one _ (buf_of (b_msg b)) (b_len b))| |done|done|].
  2: { apply unmoved_cons. intros j Hj _. by apply lookup_insert_ne. }
  pose proof (rv_owner _ _ _ _ _ Hr) as [Hc _ Hf].
  eapply echoing_blocks; [exact Hg|..]; simpl.
  - rewrite lookup_insert_ne; [done|]. intros Ec. rewrite Ec in E2. simplify_eq.
  - apply fresh_from_insert; [by eapply fresh_from_lt|done].
  - intros j o E. destruct (decide (b_message b = j)) as [<-|]; [by rewrite E2 in E; simplify_eq|].
    rewrite lookup_insert_ne by done. by destruct o.
  - apply holds_held. split; [|done..]. constructor.
    + split; simpl; [|apply lookup_insert_eq]. rewrite lookup_insert_ne; [done|]. intros Ec. rewrite Ec in E2. simplify_eq.
    + rewrite Forall_forall in Hb |- *. intros b' Hin. destruct (Hb b' Hin) as [E3 E4].
      assert (b_message b <> b_message b').
      { apply NoDup_cons in Hn2 as [Hn2 _]. intros Ec. apply Hn2. rewrite Ec. by apply list_elem_of_fmap_2. }
      split; rewrite lookup_insert_ne; try done. intros Ec. rewrite Ec in E2. simplify_eq.
Qed.

(** A message is given up, whether it is queued or not. *)
Lemma message_release w x rs bs b :
  receiving w x rs (b :: bs) ->
  exists w', (tapsMessageFree (Some (b_message b)) ;; free app_msg (Some (b_msg b))) w = (Ok tt, w')
    /\ receiving w' x rs bs /\ trace w' = trace w /\ brk w' = brk w
    /\ heap w' = delete (b_msg b) (delete (b_message b) (heap w)) /\ heap w' !! c = heap w !! c
    /\ (forall j o, heap w !! j = Some o -> match o with OMessage _ | OAppMsg _ => True | _ => heap w' !! j = Some o end).
Proof.
  intros Hg. pose proof Hg as [Hr _ _ Hh].
  apply holds_held in Hh as [[[E1 E2] Hb]%Forall_cons Hn1 Hn2].
  assert (b_message b <> b_msg b) as Hne by (intros Ec; rewrite Ec in E2; simplify_eq).
  unfold tapsMessageFree. erewrite bind_assoc, bind_ok by (by apply (load_ok (T := tapsMessage))).
  erewrite bind_ok by (by apply (free_ok (T := tapsMessage) _ _ (body_message b))).
  erewrite (free_ok (T := app_msg)) by (simpl; by rewrite lookup_delete_ne).
  pose proof (rv_owner _ _ _ _ _ Hr) as [Hc _ Hf]. eexists. set (w' := set_heap _ _).
  assert (forall j, j <> b_message b -> j <> b_msg b -> heap w' !! j = heap w !! j) as Hfr
    by (intros; unfold w'; simpl; by rewrite !lookup_delete_ne).
  assert (heap w' !! c = heap w !! c) as Hc' by (apply Hfr; congruence).
  assert (forall j o, heap w !! j = Some o -> match o with OMessage _ | OAppMsg _ => True | _ => heap w' !! j = Some o end) as Hk.
  { intros j o E. destruct o; try done; rewrite Hfr; congruence. }
  splits; [done| |done|done|done|done|done].
  eapply receiving_blocks; [exact Hg|done|by do 2 apply fresh_from_delete| |].
  - intros j o E. specialize (Hk j o E). by destruct o.
  - apply NoDup_cons in Hn1 as [Hn1 ?], Hn2 as [Hn2 ?]. split; [|done..].
    rewrite Forall_forall in Hb |- *. intros b' Hin. destruct (Hb b' Hin) as [E3 E4].
    assert (b_message b <> b_message b') by (intros Ec; apply Hn2; rewrite Ec; by apply list_elem_of_fmap_2).
    assert (b_msg b <> b_msg b') by (intros Ec; apply Hn1; rewrite Ec; by apply list_elem_of_fmap_2).
    split; rewrite Hfr; congruence.
Qed.

(** A message the application holds is given up. *)
Lemma free_step w x rs hs es b :
  echoing w x rs (b :: hs) es ->
  exists w', (tapsMessageFree (Some (b_message b)) ;; free app_msg (Some (b_msg b))) w = (Ok tt, w')
    /\ echoing w' x rs hs es /\ trace w' = trace w /\ brk w' = brk w
    /\ heap w' !! b_message b = None /\ heap w' !! b_msg b = None /\ unmoved [b_msg b; b_message b] w w'.
Proof.
  intros Hg. destruct (message_release w x rs (hs ++ es.*2) b) as (w' & E & [Hr R Ha Hh] & T & B & Eh & Ec & Hk);
    [by apply (echoing_receiving gs) in Hg|].
  exists w'. splits; [done| |done|done|..].
  - eapply echoing_blocks; [exact Hg|done|apply Hr| |done]. intros j o Ej. specialize (Hk j o Ej). by destruct o.
  - rewrite Eh. destruct (decide (b_msg b = b_message b)) as [->|]; [apply lookup_delete_eq|].
    rewrite lookup_delete_ne by done. apply lookup_delete_eq.
  - rewrite Eh. apply lookup_delete_eq.
  - apply unmoved_cons. intros j ? [? _]%not_elem_of_cons. by rewrite Eh, !lookup_delete_ne by congruence.
Qed.

Context `{App}.

(** A partial report hands the message of the receive to the application; its
    length is read from the freed item. *)
Lemma partial_step w x l b es n r :
  echoing w x [(l, b)] [] es -> 0 <= n -> stale l = Some (ORecv r) ->
  exists w' x', echoing w' x' [] [b] es /\ same_life x x'
    /\ trace w' = trace w ++ [DeadRead l] /\ brk w' = brk w /\ b_len b = BUF_SIZE
    /\ heap w' !! l = None /\ unmoved [c; l] w w'
    /\ _taps_received_partial (Some l) (IovMessage (b_message b)) n w
       = call_app (Some fn_app_received_partial) (fun f => EvReceivedPartial f ctx (Some (b_msg b)) (r_currLength r) FALSE) w'.
Proof.
  intros Hg Hn Hst. pose proof Hg as [Hr Hs R1 R2 [E1 _ _] Hh Hl]. apply Forall_cons in Hl as [Hl _].
  destruct (partial_reached_spec w c x [] [] l (echo_recv c (l, b)).2 gr (IovMessage (b_message b)) n fn_app_received_partial)
    as (w1 & Hr1 & Et & Hl1 & Eb & Hk & Hu & E); [done|done| |done|].
  { apply wrap_bound. lia. }
  exists (add_event (DeadRead l) w1), (set_c_rcvq None (set_c_receiveReady TRUE x)). splits; [|done| |done|done|done|done|].
  - apply echoing_event.
    by eapply (echoing_received gs gr c cc al ctx w w1 x _ [(l, b)] [] [] [b] es).
  - simpl. by rewrite Et, app_nil_r.
  - rewrite E. erewrite bind_ok by (by apply (load_stale (T := recv_item))). by rewrite E1.
Qed.

(** The first calls of the protocol that follow when sends are left. *)
Definition next_send (p : ptr) (es : list (loc * body)) : list event :=
  match es with
  | [] => []
  | (l, b) :: _ => [PSend gs p (Some l) (IovMessage (b_message b)) 1]
  end.

(** A report that a message was sent hands it to the application. *)
Lemma sent_step w x rs hs es1 es2 l b :
  echoing w x rs hs (es1 ++ (l, b) :: es2) ->
  exists w' x', echoing w' x' rs (b :: hs) (es1 ++ es2) /\ same_life x x'
    /\ trace w' = trace w ++ next_send (c_proto_ctx x) es2 /\ brk w' = brk w
    /\ heap w' !! l = None /\ unmoved (c :: (es1 ++ (l, b) :: es2).*1) w w'
    /\ _taps_sent (Some l) w = call_app (Some fn_app_sent) (fun f => EvSent f ctx (Some (b_msg b))) w'.
Proof.
  intros Hg. pose proof Hg as [_ Hs R1 _ [E1 _ _] [Hb _ _] _].
  rewrite fmap_app, fmap_cons in Hs. change (echo_send c (l, b)) with (l, (echo_send c (l, b)).2) in Hs.
  destruct (sender_item _ _ _ _ _ _ _ _ Hs) as (Hl & Hc & _).
  destruct (send_common_spec _ _ _ _ _ _ _ _ Hs) as (z & w1 & E & Hs1 & Hdl & Eb & Et & Hfr).
  set (x1 := after_report _ _ x) in *.
  assert (x1 = x \/ x1 = set_c_sendReady TRUE (set_c_sndq (last_of None (echo_send c <$> es1)) x)) as Hx
    by (unfold x1, after_report; destruct es2; simpl; auto).
  exists w1, x1. splits; [|by destruct Hx as [->| ->]| |done|done| |].
  - eapply (echoing_sent gs gr c cc al ctx w w1 x x1 rs hs (b :: hs)); try done;
      [by rewrite fmap_app| |by destruct Hx as [->| ->]..|].
    + exact (owner_static sndq w c x _ _ (sd_owner _ _ _ _ _ Hs) (fun j a _ d => Hfr j a d)).
    + rewrite !fmap_app, fmap_cons. simpl. rewrite <- (Permutation_middle (es1.*2) (es2.*2) b). apply Permutation_middle.
  - rewrite Et. f_equal. destruct es2 as [|[l2 b2] es2]; [done|]. simpl. unfold send_call, hand_over. simpl.
    assert (body_blocks (heap w) b2) as [_ ->]; [|done].
    rewrite Forall_forall in Hb. apply Hb. rewrite fmap_app, !fmap_cons. set_solver.
  - rewrite <- (sends_items c), fmap_app. by apply unmoved_cons.
  - unfold _taps_sent. rewrite (bind_ok _ _ _ _ _ (load_ok _ _ _ Hl)). change (s_connection (set_links _ _ _)) with (Some c).
    erewrite bind_ok by exact E. rewrite (bind_ok _ _ _ _ _ (owner_load _ _ _ _ _ (sd_owner _ _ _ _ _ Hs1))).
    replace (c_app_ctx x1) with ctx by (by destruct Hx as [->| ->]). done.
Qed.

End steps.

(** ** The blocks of a connection *)

(** A request of the library and the message it is for. *)
Definition queued_blocks (p : loc * body) : list loc := [p.1; b_msg p.2; b_message p.2].
Definition echo_blocks (ps : list (loc * body)) : list loc := ps ≫= queued_blocks.

(** The heap is [bg] and the blocks [S], which [bg] has none of. *)
Record surrounds (bg : gmap loc obj) (w : world) (S : list loc) : Prop := {
  sr_own j : j ∈ S -> bg !! j = None;
  sr_rest j : j ∉ S -> heap w !! j = bg !! j;
}.

Lemma echo_blocks_app ps qs : echo_blocks (ps ++ qs) = echo_blocks ps ++ echo_blocks qs.
Proof. apply bind_app. Qed.

Lemma echo_blocks_cons p ps : echo_blocks (p :: ps) = queued_blocks p ++ echo_blocks ps.
Proof. done. Qed.

Lemma items_in_blocks ps j : j ∈ ps.*1 -> j ∈ echo_blocks ps.
Proof.
  intros (p & -> & Hp)%list_elem_of_fmap. apply list_elem_of_bind. exists p. by split; [left|].
Qed.

Lemma surrounds_heap bg w w' S : heap w' = heap w -> surrounds bg w S -> surrounds bg w' S.
Proof. intros E [H1 H2]. by split; [|rewrite E]. Qed.

Lemma surrounds_step bg w w' S S' :
  surrounds bg w S -> (forall j, j ∉ S -> j ∉ S' -> heap w' !! j = heap w !! j) ->
  (forall j, j ∈ S -> j ∉ S' -> heap w' !! j = None) -> (forall j, j ∈ S' -> j ∉ S -> heap w !! j = None) ->
  surrounds bg w' S'.
Proof.
  intros [H1 H2] Hk Hd Hn. split; intros j Hj; destruct (decide (j ∈ S)) as [Hin|Hin].
  - by apply H1.
  - rewrite <- H2 by done. by apply Hn.
  - rewrite H1 by done. by apply Hd.
  - rewrite Hk by done. by apply H2.
Qed.

(** ** Reports *)

Section rounds.
Context `{Machine} `{QuietProto} `{Buffers} (gs gr : fn) (c cc al : loc) (depth : nat).
Hypothesis memory : forall l, malloc_ok l = true.

#[local] Instance app : App := echo_app (S depth).
#[local] Abbreviation echoing := (echoing gs gr c cc al (Some cc)).

(** What the callback for received data does: the send, then the message given
    up if the send was refused, then the next receive. *)
Lemma app_received_step w x es b n eom :
  echoing w x [] [b] es -> 0 <= n <= b_len b ->
  let b' := Body (b_msg b) (b_message b) n in
  exists z w1 x1, (exists d k v, trace v = trace w ++ [PSend gs (c_proto_ctx x) (Some (brk w)) d k]
                       /\ proto_send gs (c_proto_ctx x) (Some (brk w)) d k v = (Ok z, v))
    /\ echoing w1 x1 [] [] (es ++ [(brk w, b')]) /\ same_life x x1 /\ brk w1 = Pos.succ (brk w)
    /\ (forall j, j <> c -> j <> b_message b -> (j < brk w)%positive -> j ∉ es.*1 -> heap w1 !! j = heap w !! j)
    /\ trace w1 = trace w ++ [PSend gs (c_proto_ctx x) (Some (brk w)) (IovMessage (b_message b)) 1]
    /\ _app_received_partial (Some cc) (Some (b_msg b)) n eom w
       = ((if z <? 0 then tapsMessageFree (Some (b_message b)) ;; free app_msg (Some (b_msg b)) else mret tt) ;;
          receive_more (Some cc)) w1.
Proof.
  intros Hg Hn b'. pose proof Hg as [_ _ _ _ _ [[[E1 E2] _]%Forall_cons _ _] _].
  destruct (truncate_step gs gr c cc al (Some cc) w x [] [] es b n Hg Hn) as (w1 & Et & Hg1 & T1 & B1 & U1).
  destruct (conn_callbacks_ok c cc al (Some cc) w1 x) as [Ec Ek]; [apply Hg1|].
  destruct (send_step gs gr c cc al (Some cc) memory w1 x [] [] es b' Hg1) as (z & w2 & x2 & Es & Hg2 & Ep & B2 & U2 & T2 & Hz).
  rewrite B1, ?T1 in *. exists z, w2, x2. splits; [done|done|done|done| |done|].
  { intros j ????. by rewrite U2, U1 by set_solver. }
  unfold _app_received_partial. erewrite bind_ok by (by apply (load_ok (T := app_msg))).
  erewrite bind_ok; [|unfold tapsMessageGetFirstBuf; erewrite bind_ok by (by apply (load_ok (T := tapsMessage))); reflexivity].
  erewrite bind_ok by exact Et. erewrite bind_ok by exact Ec. erewrite bind_ok by exact Ek.
  by erewrite bind_ok by exact Es.
Qed.

(** The four blocks of a round: the item of the send, then the message and the
    item of the next receive. *)
Definition next_body (b : loc) : body := Body (Pos.succ b) (Pos.succ (Pos.succ b)) BUF_SIZE.
Definition next_item (b : loc) : loc := Pos.succ (Pos.succ (Pos.succ b)).

(** The protocol takes what it is given to send after the calls [t]; it always
    does. *)
Definition accepts_after (t : list event) (p : ptr) : Prop :=
  forall item d k v z v', trace v = t ++ [PSend gs p item d k] -> proto_send gs p item d k v = (Ok z, v') -> 0 <= z.
Definition accepts (p : ptr) : Prop := forall t, accepts_after t p.

(** The calls before the message that arrived is sent. *)
Definition arrived_events (l : loc) (b : body) (n : Z) : list event :=
  [DeadRead l; EvReceivedPartial fn_app_received_partial (Some cc) (Some (b_msg b)) n FALSE].

Definition arrive_events (p : ptr) (l : loc) (b : body) (n : Z) (new : loc) : list event :=
  arrived_events l b n ++
  [PSend gs p (Some new) (IovMessage (b_message b)) 1;
   PReceive gr p (Some (next_item new)) (IovMessage (b_message (next_body new))) 1].

(** The receive is freed, and the send and the next receive are new. *)
Lemma arrive_surrounds bg own w w' l b es n :
  c ∈ own -> fresh_from (heap w) (brk w) -> fresh_from (heap w') (brk w') -> brk w' = Pos.succ (next_item (brk w)) ->
  heap w' !! l = None ->
  (forall j, j <> c -> j <> l -> j <> b_message b -> (j < brk w)%positive -> j ∉ es.*1 -> heap w' !! j = heap w !! j) ->
  surrounds bg w (own ++ echo_blocks ((l, b) :: es)) ->
  surrounds bg w' (own ++ echo_blocks ((next_item (brk w), next_body (brk w)) :: es ++ [(brk w, Body (b_msg b) (b_message b) n)])).
Proof.
  intros Hc Hf Hf' Hb Hl Hk Hsr. eapply surrounds_step; [exact Hsr|..]; intros j;
    rewrite !echo_blocks_cons, echo_blocks_app, !elem_of_app; unfold queued_blocks; simpl; rewrite !elem_of_cons, !elem_of_nil.
  - intros Hj Hj'. destruct (decide (j < brk w)%positive).
    + apply Hk; try tauto; [by intros ->; tauto|]. intros ?%items_in_blocks. tauto.
    + rewrite (Hf j) by lia. apply Hf'. rewrite Hb.
      assert (j <> brk w /\ j <> next_item (brk w) /\ j <> Pos.succ (brk w) /\ j <> Pos.succ (Pos.succ (brk w))) by tauto.
      unfold next_item in *. lia.
  - intros Hj Hj'. assert (j = l) as -> by tauto. done.
  - intros Hj Hj'. apply Hf. unfold next_item in *. destruct (decide (j < brk w)%positive); [|lia]. exfalso.
    assert (j <> Pos.succ (brk w) /\ j <> Pos.succ (Pos.succ (brk w)) /\ j <> brk w /\ j <> Pos.succ (Pos.succ (Pos.succ (brk w)))) by lia.
    tauto.
Qed.

Lemma arrive_step w x l b es n r :
  echoing w x [(l, b)] [] es -> 0 <= n <= BUF_SIZE -> stale l = Some (ORecv r) -> r_currLength r = n ->
  accepts_after (trace w ++ arrived_events l b n) (c_proto_ctx x) ->
  exists w' x', _taps_received_partial (Some l) (IovMessage (b_message b)) n w = (Ok tt, w')
    /\ echoing w' x' [(next_item (brk w), next_body (brk w))] [] (es ++ [(brk w, Body (b_msg b) (b_message b) n)])
    /\ same_life x x' /\ brk w' = Pos.succ (next_item (brk w))
    /\ (forall bg own, c ∈ own -> surrounds bg w (own ++ echo_blocks ((l, b) :: es)) -> surrounds bg w'
          (own ++ echo_blocks ((next_item (brk w), next_body (brk w)) :: es ++ [(brk w, Body (b_msg b) (b_message b) n)])))
    /\ trace w' = trace w ++ arrive_events (c_proto_ctx x) l b n (brk w).
Proof.
  intros Hg Hn Hst Hlen Hacc.
  destruct (partial_step gs gr c cc al (Some cc) w x l b es n r Hg) as (w1 & x1 & Hg1 & S1 & T1 & B1 & Hl & D1 & U1 & ->); [lia|done|].
  rewrite Hlen. set (e := EvReceivedPartial fn_app_received_partial (Some cc) (Some (b_msg b)) n FALSE).
  pose proof (proj1 S1) as Ep1.
  destruct (app_received_step (add_event e w1) x1 es b n FALSE) as (z & w2 & x2 & (d & k & v & Tv & Hz) & Hg2 & S2 & B2 & U2 & T2 & E2);
    [by apply echoing_event|lia|].
  change (brk (add_event e w1)) with (brk w1) in Hz, Tv, Hg2, B2, T2, U2. rewrite Ep1, B1 in Hz, Tv, T2. rewrite B1 in Hg2, B2, U2.
  pose proof (proj1 S2) as Ep2. rewrite Ep1 in Ep2. eapply Hacc in Hz; [|by rewrite Tv; simpl; rewrite T1, <- !app_assoc]. rewrite (proj2 (Z.ltb_ge _ _)) in E2 by lia.
  destruct (echo_more gs gr c cc al (Some cc) memory w2 x2 [] _ Hg2) as (w3 & x3 & E3 & Hg3 & S3 & U3 & B3 & T3).
  rewrite B2 in Hg3, B3, T3, U3.
  assert (forall j, j <> c -> j <> b_message b -> (j < brk w)%positive -> j ∉ es.*1 -> heap w3 !! j = heap w1 !! j) as U.
  { intros j ????. rewrite U3, U2 by (done || lia). done. }
  exists w3, x3. splits; [|done|by etrans; [|etrans]|done| |].
  - change (_app_received_partial (Some cc) (Some (b_msg b)) n FALSE (add_event e w1) = (Ok tt, w3)).
    rewrite E2. by erewrite bind_ok by apply ret_ok.
  - intros bg own Hc Hsr. destruct Hg as [Hr _ _ _ _ _ _]. pose proof (rv_owner _ _ _ _ _ Hr) as Ho.
    apply (arrive_surrounds bg own w w3 l b es n); try done; [apply Ho|apply Hg3| |intros j ?????; by rewrite U, U1 by set_solver].
    destruct (echoing_dead _ _ _ _ _ _ _ _ _ _ _ _ Hg1 D1) as (? & ? & [[_ ?] _]%Forall_cons). rewrite U; [done..| |done].
    apply (owner_items_below rcvq _ _ _ _ _ Ho). set_solver.
  - rewrite T3, T2. simpl. rewrite T1, Ep2, <- !app_assoc. done.
Qed.

(** The send and its message are freed. *)
Lemma written_surrounds bg own w w' rs es1 es2 l b :
  c ∈ own -> heap w' !! b_message b = None -> heap w' !! b_msg b = None -> heap w' !! l = None ->
  unmoved (c :: b_msg b :: b_message b :: (es1 ++ (l, b) :: es2).*1) w w' ->
  surrounds bg w (own ++ echo_blocks (rs ++ es1 ++ (l, b) :: es2)) ->
  surrounds bg w' (own ++ echo_blocks (rs ++ es1 ++ es2)).
Proof.
  intros Hc D1 D2 D3 Hk Hsr. eapply surrounds_step; [exact Hsr|..]; intros j;
    rewrite !echo_blocks_app, echo_blocks_cons, !elem_of_app; unfold queued_blocks; simpl; rewrite !elem_of_cons, elem_of_nil.
  - intros Hj Hj'. apply Hk. rewrite fmap_app, fmap_cons, !elem_of_cons, elem_of_app, elem_of_cons.
    intros [->|[->|[->|[?%items_in_blocks|[->|?%items_in_blocks]]]]]; tauto.
  - intros Hj Hj'. assert (j = l \/ j = b_msg b \/ j = b_message b) as [->|[->| ->]] by tauto; done.
  - tauto.
Qed.

Lemma written_step w x rs es1 es2 l b :
  echoing w x rs [] (es1 ++ (l, b) :: es2) ->
  exists w' x', _taps_sent (Some l) w = (Ok tt, w') /\ echoing w' x' rs [] (es1 ++ es2)
    /\ same_life x x' /\ brk w' = brk w
    /\ heap w' !! b_message b = None /\ heap w' !! b_msg b = None
    /\ (forall bg own, c ∈ own -> surrounds bg w (own ++ echo_blocks (rs ++ es1 ++ (l, b) :: es2)) ->
          surrounds bg w' (own ++ echo_blocks (rs ++ es1 ++ es2)))
    /\ trace w' = trace w ++ next_send gs (c_proto_ctx x) es2 ++ [EvSent fn_app_sent (Some cc) (Some (b_msg b))].
Proof.
  intros Hg. destruct (sent_step gs gr c cc al (Some cc) memory w x rs [] es1 es2 l b Hg) as (w1 & x1 & Hg1 & Ep & T1 & B1 & D0 & U1 & ->).
  set (e := EvSent fn_app_sent (Some cc) (Some (b_msg b))).
  assert (echoing (add_event e w1) x1 rs [b] (es1 ++ es2)) as Hg1' by (by apply echoing_event).
  destruct (free_step gs gr c cc al (Some cc) _ _ _ _ _ _ Hg1') as (w2 & E2 & Hg2 & T2 & B2 & D1 & D2 & U2).
  exists w2, x1. splits; [|done|done|by rewrite B2|done|done| |by rewrite T2; simpl; rewrite T1, <- app_assoc].
  2: { intros bg own Hc. apply written_surrounds; [done..| |].
       - destruct (echoing_dead _ _ _ _ _ _ _ _ _ _ _ l Hg1' D0) as (_ & _ & [_ [[??] _]%Forall_cons]%Forall_app).
         rewrite U2; [done|set_solver].
       - transitivity w1; [eapply unmoved_weaken, U1; intros j; rewrite !elem_of_cons; tauto|].
         apply (unmoved_weaken [b_msg b; b_message b]); [set_solver|exact U2]. }
  change (_app_sent (Some cc) (Some (b_msg b)) (add_event e w1) = (Ok tt, w2)).
  destruct Hg1' as [_ _ _ _ _ [[[E1 _] _]%Forall_cons _ _]%holds_held _].
  unfold _app_sent. by erewrite bind_ok by (by apply (load_ok (T := app_msg))).
Qed.

End rounds.

(** ** The contract of the application *)

(** What the protocol reports: [n] bytes arrived in message [m] of the receive
    [l], or the send [l] was written. *)
Inductive echo_op :=
| Arrive (l m : loc) (n : Z)
| Written (l : loc).

Section contract.
Context `{Machine} (gs gr : fn) (cc : loc) (p : ptr).

(** The next address, the receive at the protocol, and the sends queued. *)
Record echo_state := EchoState { es_next : loc; es_recv : loc * body; es_sends : list (loc * body) }.

(** What arrived is queued to be sent, in the message it arrived in and no
    more of it, and a new receive is issued; what was written is forgotten. *)
Definition spec_echo (op : echo_op) (s : echo_state) : option (echo_state * list event) :=
  match op with
  | Arrive l m n =>
      let '(l0, b) := es_recv s in
      let new := es_next s in
      if bool_decide (l = l0) && bool_decide (m = b_message b) && bool_decide (0 <= n <= BUF_SIZE)
      then Some (EchoState (Pos.succ (next_item new)) (next_item new, next_body new)
                   (es_sends s ++ [(new, Body (b_msg b) (b_message b) n)]),
                 arrive_events gs gr cc p l b n new)
      else None
  | Written l =>
      match split_at l (es_sends s) with
      | Some (es1, b, es2) =>
          Some (EchoState (es_next s) (es_recv s) (es1 ++ es2),
                next_send gs p es2 ++ [EvSent fn_app_sent (Some cc) (Some (b_msg b))])
      | None => None
      end
  end.

Fixpoint spec_echoes (ops : list echo_op) (s : echo_state) : option (echo_state * list event) :=
  match ops with
  | [] => Some (s, [])
  | op :: ops =>
      match spec_echo op s with
      | Some (s, evs) =>
          match spec_echoes ops s with
          | Some (s, evs') => Some (s, evs ++ evs')
          | None => None
          end
      | None => None
      end
  end.

(** A read of the freed item of a receive yields the length that arrived. *)
Definition length_survives (op : echo_op) : Prop :=
  match op with
  | Arrive l _ n => exists r, stale l = Some (ORecv r) /\ r_currLength r = n
  | Written _ => True
  end.

End contract.

Section contract_runs.
Context `{Machine} `{App} `{Proto}.

Definition run_echo (op : echo_op) : M unit :=
  match op with
  | Arrive l m n => _taps_received_partial (Some l) (IovMessage m) n
  | Written l => _taps_sent (Some l)
  end.

Fixpoint run_echoes (ops : list echo_op) : M unit :=
  match ops with
  | [] => mret tt
  | op :: ops => run_echo op ;; run_echoes ops
  end.

End contract_runs.

Section properties.
Context `{Machine} `{QuietProto} `{Buffers} (gs gr : fn) (c cc al : loc).

Lemma run_echo_refines depth op w x r es s' evs :
  (forall l, malloc_ok l = true) -> accepts gs (c_proto_ctx x) -> length_survives op ->
  echoing gs gr c cc al (Some cc) w x [r] [] es ->
  spec_echo gs gr cc (c_proto_ctx x) op (EchoState (brk w) r es) = Some (s', evs) ->
  exists w' x', run_echo (H0 := echo_app (S depth)) op w = (Ok tt, w')
    /\ echoing gs gr c cc al (Some cc) w' x' [es_recv s'] [] (es_sends s')
    /\ same_life x x' /\ brk w' = es_next s' /\ trace w' = trace w ++ evs
    /\ (forall bg own, c ∈ own -> surrounds bg w (own ++ echo_blocks (r :: es)) ->
          surrounds bg w' (own ++ echo_blocks (es_recv s' :: es_sends s'))).
Proof.
  intros Hm Hacc Hst Hg Hsp. destruct op as [l m n|l]; simpl in Hsp, Hst.
  - destruct r as [l0 b]. do 3 (case_bool_decide; [|done]). simplify_eq/=. destruct Hst as (r & Hr & Hl).
    destruct (arrive_step gs gr c cc al depth Hm w x l0 b es n r) as (w1 & x1 & ? & ? & ? & ? & ? & ?); try done.
    by exists w1, x1.
  - destruct (split_at l es) as [[[es1 b] es2]|] eqn:Es; [|done]. apply split_at_app in Es as ->. simplify_eq/=.
    destruct (written_step gs gr c cc al depth Hm w x [r] es1 es2 l b) as (w1 & x1 & ? & ? & ? & ? & _ & _ & ? & ?); try done.
    by exists w1, x1.
Qed.

(** C9: the echo server implements its contract, over a protocol that takes every
    send it is given ([accepts]; tcp.c does not while a send is pending, which is
    C33).  At a connection of it, any sequence of arrivals of data that fits
    the buffer and of reports that a send is done, run through the library
    and the callbacks of the application, leaves the receive and the queue of
    sends the contract computes, each send over exactly the bytes that arrived in
    its buffer, and makes exactly the calls it computes.  It touches no block but
    the connection's and leaks none: what the heap has besides the connection, the
    receive, the sends and their messages is what it had.  Assumed: memory never
    fails, and the freed item of each receive still holds its byte count when the
    code reads it ([length_survives]).  Other reports (errors, expiries, the end)
    are not in the sequences. *)
Theorem echo_refines_contract depth ops w x r es s' evs :
  (forall l, malloc_ok l = true) -> accepts gs (c_proto_ctx x) -> Forall length_survives ops ->
  echoing gs gr c cc al (Some cc) w x [r] [] es ->
  spec_echoes gs gr cc (c_proto_ctx x) ops (EchoState (brk w) r es) = Some (s', evs) ->
  exists w' x', run_echoes (H0 := echo_app (S depth)) ops w = (Ok tt, w')
    /\ echoing gs gr c cc al (Some cc) w' x' [es_recv s'] [] (es_sends s')
    /\ brk w' = es_next s' /\ trace w' = trace w ++ evs
    /\ (forall bg own, c ∈ own -> surrounds bg w (own ++ echo_blocks (r :: es)) ->
          surrounds bg w' (own ++ echo_blocks (es_recv s' :: es_sends s'))).
Proof.
  intros Hm Hacc Hst. revert w x r es evs Hacc.
  induction Hst as [|op ops Hop Hops IH]; intros w x r es evs Hacc Hg Hsp; simpl in Hsp.
  { simplify_eq. exists w, x. splits; [done..| |done]. by rewrite app_nil_r. }
  destruct (spec_echo gs gr cc (c_proto_ctx x) op _) as [[[b1 r1 es1] evs1]|] eqn:E1; [|done].
  destruct (run_echo_refines depth op w x r es _ _ Hm Hacc Hop Hg E1) as (w1 & x1 & R1 & Hg1 & [Ep _] & B1 & T1 & U1).
  simpl in *. subst b1. rewrite <- Ep in Hsp, Hacc.
  destruct (spec_echoes gs gr cc (c_proto_ctx x1) ops _) as [[s2 evs2]|] eqn:E2; [|done]. simplify_eq.
  destruct (IH w1 x1 r1 es1 evs2) as (w2 & x2 & R2 & Hg2 & B2 & T2 & U2); [done..|].
  exists w2, x2. erewrite bind_ok by exact R1. splits; [done..|by rewrite T2, T1, app_assoc|].
  intros bg own Hc Hsr. by apply U2, U1.
Qed.

(** The report of a send reads the message of the one behind it. *)
Lemma next_message_read `{App} w x q1 l1 it1 l2 it2 q2 m :
  owner sndq w c x (q1 ++ (l1, it1) :: (l2, it2) :: q2) -> s_connection it1 = Some c ->
  s_message it2 = Some m -> heap w !! m = None -> stale m = None ->
  exists w', _taps_sent (Some l1) w = (Fault (UseAfterFree m), w').
Proof.
  intros Ho Hc Hm Hn Hst. pose proof (queue_lookup _ _ _ _ _ _ (ow_queue _ _ _ _ _ Ho)) as Hl.
  destruct (dequeue sndq w c x q1 _ l1 it1 Ho) as (w1 & E & Ho1 & _ & _ & _ & _ & Hfr).
  pose proof (queue_lookup _ _ _ _ _ _ (ow_queue _ _ _ _ _ Ho1)) as Hl2.
  assert (heap w1 !! m = None) as Hn1.
  { rewrite Hfr; [done|..].
    - intros ->. pose proof (ow_conn _ _ _ _ _ Ho). congruence.
    - intros Hin. destruct (queue_typed _ _ _ _ (ow_queue _ _ _ _ _ Ho) Hin) as [s E']. congruence. }
  exists w1. unfold _taps_sent. rewrite (bind_ok _ _ _ _ _ (load_ok _ _ _ Hl)).
  change (s_connection (set_links _ _ it1)) with (s_connection it1). rewrite Hc. apply bind_fault.
  unfold _taps_send_common. rewrite (bind_ok _ _ _ _ _ (load_ok _ _ _ Hl)). erewrite bind_ok by exact E.
  cbn [first_of set_links send_linked set_s_links s_next].
  rewrite (bind_ok _ _ _ _ _ (load_ok _ _ _ Hl2)). change (s_message (set_links _ _ it2)) with (s_message it2).
  rewrite Hm. unfold tapsMessageGetIovec. do 2 apply bind_fault. unfold load. by rewrite Hn1, Hst.
Qed.

(** A send that is refused: its message is freed and stays queued. *)
Lemma refused_step w x es s b :
  (forall l, malloc_ok l = true) -> echoing gs gr c cc al (Some cc) w x [] [] (es ++ [(s, b)]) ->
  exists w' x', ((tapsMessageFree (Some (b_message b)) ;; free app_msg (Some (b_msg b))) ;; receive_more (Some cc)) w = (Ok tt, w')
    /\ owner sndq w' c x' (echo_send c <$> es ++ [(s, b)]) /\ heap w' !! b_message b = None
    /\ trace w' = trace w ++ [PReceive gr (c_proto_ctx x) (Some (next_item (Pos.pred (brk w)))) (IovMessage (b_message (next_body (Pos.pred (brk w))))) 1].
Proof.
  intros Hm Hg. pose proof Hg as [Hr Hs _ _ _ _ _].
  assert (receiving gr c cc al (Some cc) w x [] (b :: es.*2)) as Hg0.
  { destruct Hg as [? _ _ ? ? Hh _]. split; try done. rewrite fmap_app in Hh. simpl in *.
    by rewrite (Permutation_app_comm _ [b]) in Hh. }
  destruct (message_release gr c cc al (Some cc) w x [] (es.*2) b Hg0) as (w1 & E1 & Hg1 & T1 & B1 & Eh & Ec & Hk1).
  destruct (receive_more_step gr c cc al (Some cc) Hm w1 x _ Hg1) as (w2 & E2 & Hg2 & Hk2 & Hfr & B2 & T2).
  pose proof (hd_blocks _ _ (rg_holds _ _ _ _ _ _ _ _ _ Hg0)) as [[_ Eb] _]%Forall_cons.
  pose proof (rv_owner _ _ _ _ _ Hr) as [Hc _ Hf]. pose proof (fresh_from_lt _ _ _ _ Hf Eb).
  eexists w2, _. splits; [by erewrite bind_ok by exact E1| | |].
  - eapply (owner_move c sndq w w2 x); [apply Hs|apply (rg_receiver _ _ _ _ _ _ _ _ _ Hg2)|done|apply (rg_receiver _ _ _ _ _ _ _ _ _ Hg2)|].
    intros j it Ej. apply Hk2; [|done]. exact (Hk1 _ _ Ej).
  - rewrite Hfr by (rewrite ?B1; congruence || done). rewrite Eh.
    destruct (decide (b_msg b = b_message b)) as [->|]; [apply lookup_delete_eq|].
    rewrite lookup_delete_ne by done. apply lookup_delete_eq.
  - rewrite T2, T1, B1. unfold next_item, next_body. rewrite Pos.succ_pred by lia. done.
Qed.

(** The protocol refuses what it is given to send after the calls [t]. *)
Definition refuses_after (t : list event) (p : ptr) : Prop :=
  forall item d k v z v', trace v = t ++ [PSend gs p item d k] -> proto_send gs p item d k v = (Ok z, v') -> z < 0.

(** What arrives then stays queued, and its message is freed. *)
Lemma refused_arrival depth w x l b es n r :
  (forall l, malloc_ok l = true) -> refuses_after (trace w ++ arrived_events cc l b n) (c_proto_ctx x) ->
  echoing gs gr c cc al (Some cc) w x [(l, b)] [] es -> 0 <= n <= BUF_SIZE ->
  stale l = Some (ORecv r) -> r_currLength r = n ->
  exists w' x', _taps_received_partial (H0 := echo_app (S depth)) (Some l) (IovMessage (b_message b)) n w = (Ok tt, w')
    /\ owner sndq w' c x' (echo_send c <$> es ++ [(brk w, Body (b_msg b) (b_message b) n)])
    /\ heap w' !! b_message b = None /\ trace w' = trace w ++ arrive_events gs gr cc (c_proto_ctx x) l b n (brk w).
Proof.
  intros Hm Hz Hg Hn Hst Hlen.
  destruct (partial_step gs gr c cc al (Some cc) (H3 := echo_app (S depth)) w x l b _ n r Hg)
    as (w1 & x1 & Hg1 & [Ep1 _] & T1 & B1 & Hl & _ & _ & ->); [lia|done|].
  rewrite Hlen. set (e := EvReceivedPartial fn_app_received_partial (Some cc) (Some (b_msg b)) n FALSE).
  destruct (app_received_step gs gr c cc al Hm (add_event e w1) x1 es b n FALSE)
    as (z & w2 & x2 & (d & k & v & Tv & Ez) & Hg2 & [Ep2 _] & B2 & _ & T2 & E2); [by apply echoing_event|lia|].
  change (brk (add_event e w1)) with (brk w1) in *. rewrite Ep1, B1 in *.
  eapply Hz in Ez; [|by rewrite Tv; simpl; rewrite T1, <- !app_assoc]. rewrite (proj2 (Z.ltb_lt _ _)) in E2 by lia.
  destruct (refused_step w2 x2 _ _ _ Hm Hg2) as (w3 & x3 & E3 & Ho & Hn3 & T3).
  exists w3, x3. splits; [|done|done|].
  - change (_app_received_partial (Some cc) (Some (b_msg b)) n FALSE (add_event e w1) = (Ok tt, w3)). by rewrite E2.
  - rewrite T3, B2, Pos.pred_succ, T2, Ep2. simpl. rewrite T1, <- !app_assoc. done.
Qed.

(** A message whose send the protocol refuses is freed while it is queued:
    when the last send before it has been written, the library hands the next
    one to the protocol and reads the freed message. *)
Theorem refused_echo_is_read depth w x l b es l1 b1 n r :
  (forall l, malloc_ok l = true) -> refuses_after (trace w ++ arrived_events cc l b n) (c_proto_ctx x) ->
  echoing gs gr c cc al (Some cc) w x [(l, b)] [] (es ++ [(l1, b1)]) -> 0 <= n <= BUF_SIZE ->
  stale l = Some (ORecv r) -> r_currLength r = n -> stale (b_message b) = None ->
  exists w' w'', _taps_received_partial (H0 := echo_app (S depth)) (Some l) (IovMessage (b_message b)) n w = (Ok tt, w')
    /\ _taps_sent (H0 := echo_app (S depth)) (Some l1) w' = (Fault (UseAfterFree (b_message b)), w'').
Proof.
  intros Hm Hz Hg Hn Hst Hlen Hdead.
  destruct (refused_arrival depth w x l b _ n r Hm Hz Hg Hn Hst Hlen) as (w3 & x3 & E3 & Ho & Hn3 & _).
  rewrite <- app_assoc, fmap_app in Ho. simpl in Ho.
  destruct (next_message_read (H3 := echo_app (S depth)) w3 x3 _ l1 _ _ _ [] (b_message b) Ho) as (w4 & E4); [done..|].
  by exists w3, w4.
Qed.

(** The application's context and callbacks are set at the connection. *)
Lemma initialize_step ctx w x rs hs es :
  echoing gs gr c cc al ctx w x rs hs es ->
  exists w' x', tapsConnectionInitialize (Some c) (Some cc) (Some cbs) w = (Ok tt, w')
    /\ echoing gs gr c cc al (Some cc) w' x' rs hs es /\ trace w' = trace w
    /\ c_proto_ctx x' = c_proto_ctx x /\ c_listener x' = c_listener x /\ c_closed x' = Some fn_app_closed
    /\ (forall j, j <> c -> heap w' !! j = heap w !! j) /\ brk w' = brk w.
Proof.
  intros [Hr Hs R1 R2 [E1 E2 (y & E3 & E4)] Hh Hl]. pose proof (rv_owner _ _ _ _ _ Hr) as [Hc _ Hf].
  set (x' := set_c_callbacks (Some cc) (cb_closed cbs) (cb_connectionError cbs) x).
  exists (set_heap (<[c := OConnection x']> (heap w)) w), x'. splits; [| |done|done|done|done| |done].
  { unfold tapsConnectionInitialize. erewrite bind_ok by reflexivity. by erewrite (modify_ok (T := tapsConnection)). }
  2: { intros. by apply lookup_insert_ne. }
  assert (forall j o, heap w !! j = Some o -> match o with OConnection _ => True | _ => <[c := OConnection x']> (heap w) !! j = Some o end) as Hk.
  { intros j o E. destruct o; try done; rewrite lookup_insert_ne; congruence. }
  assert (fresh_from (<[c := OConnection x']> (heap w)) (brk w)) as Hf' by (apply fresh_from_insert; [by eapply fresh_from_lt|done]).
  assert (holds (<[c := OConnection x']> (heap w)) (rs.*2 ++ hs ++ es.*2)) as Hh'.
  { eapply holds_kept; [|exact Hh]. intros j o E. specialize (Hk j o E). by destruct o. }
  pose proof (hd_blocks _ _ Hh') as [Hb1 [_ Hb2]%Forall_app]%Forall_app. split; try done; simpl.
  - eapply receiver_move; [exact Hr|apply lookup_insert_eq|done..| |by apply receives_have_messages].
    intros j o E. specialize (Hk j o E). by destruct o.
  - eapply sender_move; [exact Hs|apply lookup_insert_eq|done..| |by apply sends_have_messages].
    intros j o E. specialize (Hk j o E). by destruct o.
  - split; [done|exact (Hk _ _ E2)|]. exists y. split; [exact (Hk _ _ E3)|done].
Qed.

(** The application takes a connection without requests. *)
Lemma taken_step w p y lx L :
  (forall l, malloc_ok l = true) -> fresh_from (heap w) (brk w) -> cc = brk w ->
  heap w !! c = Some (OConnection (new_connection p (Some (HListener L)) (Some L))) ->
  heap w !! L = Some (OListener lx) -> ph_send (l_handles lx) = Some gs -> ph_receive (l_handles lx) = Some gr ->
  heap w !! al = Some (OAppListener y) -> al_callbacks y = cbs ->
  exists w' x' r, _app_connection_received (Some al) (Some c) w = (Ok (Some cc, Some cbs), w')
    /\ echoing gs gr c cc al None w' x' [r] [] [] /\ c_proto_ctx x' = p /\ c_listener x' = Some L
    /\ trace w' = trace w ++ [PReceive gr p (Some r.1) (IovMessage (b_message r.2)) 1]
    /\ (forall j, j <> c -> (j < brk w)%positive -> heap w' !! j = heap w !! j) /\ r = (next_item cc, next_body cc) /\ brk w' = Pos.succ r.1.
Proof.
  intros Hm Hf Ecc Hc HL Egs Egr Hal Ecb. unfold _app_connection_received.
  erewrite bind_ok by (by apply (malloc_succeeds (T := app_conn))). rewrite <- Ecc.
  erewrite bind_ok by (apply (modify_ok (T := app_conn)), lookup_insert_eq).
  erewrite bind_ok by (apply (modify_ok (T := app_conn)), lookup_insert_eq). set (w1 := set_heap _ _).
  set (x := new_connection p (Some (HListener L)) (Some L)) in *.
  assert (heap w1 = <[cc := OAppConn (AppConn (Some al) (Some c))]> (heap w)) as Eh.
  { unfold w1. simpl. by rewrite !insert_insert_eq. }
  assert (forall j o, heap w !! j = Some o -> heap w1 !! j = Some o) as Hk.
  { intros j o E. pose proof (fresh_from_lt _ _ _ _ Hf E). rewrite Eh, lookup_insert_ne by lia. done. }
  assert (echoing gs gr c cc al None w1 x [] [] []) as Hg.
  { assert (fresh_from (heap w1) (brk w1)) as Hf1.
    { rewrite Eh. apply fresh_from_insert; [simpl; lia|]. intros j Hj. apply Hf. simpl in Hj. lia. }
    assert (queue (T := send_item) (heap w1) None []) as Hq1 by (split; [done|split; [apply NoDup_nil_2|done]]).
    assert (queue (T := recv_item) (heap w1) None []) as Hq2 by (split; [done|split; [apply NoDup_nil_2|done]]).
    split; try done.
    - split; [split; [by apply Hk|done|done]|exists L, lx; splits; [done|by apply Hk|done]|done].
    - split; [split; [by apply Hk|done|done]|exists L, lx; splits; [done|by apply Hk|done]|done].
    - split; [done|rewrite Eh; apply lookup_insert_eq|]. exists y. by split; [apply Hk|].
    - split; [done|apply NoDup_nil_2|apply NoDup_nil_2]. }
  erewrite bind_ok by (apply (load_ok (T := app_listener)); by apply Hk).
  destruct (echo_more gs gr c cc al None Hm w1 x [] [] Hg) as (w2 & x2 & E2 & Hg2 & (Ep & El & _) & Hfr & B2 & T2).
  erewrite bind_ok by exact E2. rewrite ret_ok, Ecb. eexists w2, x2, _. splits; [done|exact Hg2|done|done|done| |done|done].
  intros j ??. rewrite Hfr by (done || simpl; lia). rewrite Eh, lookup_insert_ne by lia. done.
Qed.

End properties.

Section accepted.
Context `{Machine} `{QuietProto} `{Buffers} (gs gr : fn) (al : loc).

(** The report of a new connection, with the next address. *)
Lemma accept_step depth w L lx p y :
  (forall l, malloc_ok l = true) -> fresh_from (heap w) (brk w) ->
  heap w !! L = Some (OListener lx) -> l_connectionReceived lx = Some fn_app_connection_received ->
  l_app_ctx lx = Some al -> ph_send (l_handles lx) = Some gs -> ph_receive (l_handles lx) = Some gr ->
  heap w !! al = Some (OAppListener y) -> al_callbacks y = cbs ->
  let c := brk w in
  let cc := Pos.succ c in
  exists w' x' r, _taps_connection_received (H0 := echo_app (S depth)) (Some L) p w = (Ok (Some c), w')
    /\ echoing gs gr c cc al (Some cc) w' x' [r] [] []
    /\ (c_proto_ctx x' = p /\ c_listener x' = Some L /\ c_closed x' = Some fn_app_closed)
    /\ (forall j, (j < brk w)%positive ->
          heap w' !! j = <[L := OListener (set_l_ref_count (u32 (l_ref_count lx + 1)) lx)]> (heap w) !! j)
    /\ trace w' = trace w ++ [EvConnectionReceived fn_app_connection_received (Some al) (Some c);
                              PReceive gr p (Some r.1) (IovMessage (b_message r.2)) 1]
    /\ r = (next_item cc, next_body cc) /\ brk w' = Pos.succ r.1.
Proof.
  intros Hm Hf HL Ecr Eal Egs Egr Hal Ecb c cc. set (lx' := set_l_ref_count (u32 (l_ref_count lx + 1)) lx).
  pose proof (fresh_from_lt _ _ _ _ Hf HL). pose proof (fresh_from_lt _ _ _ _ Hf Hal).
  assert (L <> al) by congruence. set (x := new_connection p (Some (HListener L)) (Some L)).
  unfold _taps_connection_received. erewrite bind_ok by (rewrite tapsConnectionNew_run, Hm; reflexivity).
  cbv beta iota. erewrite bind_ok by (apply (modify_ok (T := tapsListener)); simpl; rewrite lookup_insert_ne by lia; exact HL).
  erewrite bind_ok by (apply (load_ok (T := tapsListener) L _ lx'), lookup_insert_eq). cbv beta iota.
  change (l_connectionReceived lx') with (l_connectionReceived lx). change (l_app_ctx lx') with (l_app_ctx lx).
  rewrite Ecr, Eal. erewrite bind_ok by reflexivity. erewrite bind_ok by reflexivity. set (w1 := add_event _ _).
  assert (heap w1 = <[L := OListener lx']> (<[c := OConnection x]> (heap w))) as Eh by done.
  assert (brk w1 = cc) as Eb by done.
  destruct (taken_step gs gr c cc al w1 p y lx' L Hm) as (w2 & x2 & r & E2 & Hg2 & Ep2 & El2 & T2 & Hfr2 & Hr2 & B2); try done.
  - rewrite Eh, Eb. apply fresh_from_insert; [lia|]. apply fresh_from_insert; [lia|]. intros j Hj. apply Hf. lia.
  - rewrite Eh, lookup_insert_ne by lia. apply lookup_insert_eq.
  - rewrite Eh. apply lookup_insert_eq.
  - rewrite Eh, !lookup_insert_ne by (lia || done). done.
  - erewrite bind_ok by exact E2. cbv beta iota.
    destruct (initialize_step gs gr c cc al None w2 x2 [r] [] [] Hg2) as (w3 & x3 & E3 & Hg3 & T3 & Ep3 & El3 & Ecl3 & Hfr3 & B3).
    unfold cbs at 1. erewrite bind_ok by exact E3. rewrite ret_ok. exists w3, x3, r.
    splits; [done|done|congruence|congruence|congruence| | |done|congruence].
    + intros j Hj. assert (j <> c) by (unfold c; lia). rewrite Hfr3, Hfr2, Eh by (rewrite ?Eb; unfold cc; lia || done).
      destruct (decide (j = L)) as [->|]; [by rewrite !lookup_insert_eq|]. by rewrite !lookup_insert_ne by done.
    + rewrite T3, T2. simpl. by rewrite <- app_assoc.
Qed.

(** The echo server serves what it accepts.  When the protocol reports a new
    connection to a listener of the application, with memory for the four
    blocks that takes, the connection the library returns is in the state the
    contract starts from, with one receive at the protocol and nothing to send,
    and is counted at the listener. *)
Theorem accepted_connection_echoes depth w L lx p y :
  (forall l, malloc_ok l = true) -> fresh_from (heap w) (brk w) ->
  heap w !! L = Some (OListener lx) -> l_connectionReceived lx = Some fn_app_connection_received ->
  l_app_ctx lx = Some al -> ph_send (l_handles lx) = Some gs -> ph_receive (l_handles lx) = Some gr ->
  heap w !! al = Some (OAppListener y) -> al_callbacks y = cbs ->
  let c := brk w in
  let cc := Pos.succ c in
  exists w' x' r, _taps_connection_received (H0 := echo_app (S depth)) (Some L) p w = (Ok (Some c), w')
    /\ echoing gs gr c cc al (Some cc) w' x' [r] [] [] /\ c_proto_ctx x' = p
    /\ heap w' !! L = Some (OListener (set_l_ref_count (u32 (l_ref_count lx + 1)) lx))
    /\ trace w' = trace w ++ [EvConnectionReceived fn_app_connection_received (Some al) (Some c);
                              PReceive gr p (Some r.1) (IovMessage (b_message r.2)) 1].
Proof.
  intros Hm Hf HL E1 E2 E3 E4 Hal Ecb c cc.
  destruct (accept_step depth w L lx p y) as (w' & x' & r & ? & ? & (? & _) & Hk & ? & _); [done..|].
  exists w', x', r. splits; try done. rewrite Hk by (by eapply fresh_from_lt). apply lookup_insert_eq.
Qed.

(** The application is told that a receive died with its connection: it frees
    the [app_msg] alone. *)
Lemma receive_died depth c cc x w l b q :
  owner rcvq w c x q -> heap w !! b_msg b = Some (OAppMsg (AppMsg (Some (b_message b)))) ->
  let e := recv_died x (echo_recv c (l, b)).2 fn_app_receive_error in
  c_app_ctx x = Some cc ->
  exists w1, call_app (H := echo_app (S depth)) (Some fn_app_receive_error) (recv_died x (echo_recv c (l, b)).2) w = (Ok tt, w1)
    /\ owner rcvq w1 c x q /\ heap w1 = delete (b_msg b) (heap w) /\ brk w1 = brk w /\ trace w1 = trace w ++ [e].
Proof.
  intros Ho Eb e Ex. exists (set_heap (delete (b_msg b) (heap w)) (add_event e w)). splits; [|..]; try done.
  - change (_app_receive_error (c_app_ctx x) (Some (b_msg b)) (Some "Connection died"%string) (add_event e w)
            = (Ok tt, set_heap (delete (b_msg b) (heap w)) (add_event e w))).
    unfold _app_receive_error. by erewrite (free_ok (T := app_msg)).
  - pose proof Ho as [Hc _ Hf]. eapply (owner_move c rcvq w); [exact Ho| |done|by apply fresh_from_delete|].
    + simpl. rewrite lookup_delete_ne by congruence. done.
    + intros j it E. simpl in *. rewrite lookup_delete_ne by congruence. done.
Qed.

(** The callback for the end of a connection that waits for data. *)
Lemma closed_step depth c cc w x l b :
  owner (T := send_item) sndq w c x [] -> owner rcvq w c x [echo_recv c (l, b)] -> c_app_ctx x = Some cc ->
  heap w !! cc = Some (OAppConn (AppConn (Some al) (Some c))) -> body_blocks (heap w) b ->
  exists w', call_app (H := echo_app (S (S depth))) (Some fn_app_closed) (fun f => EvClosed f (Some cc)) w = (Ok tt, w')
    /\ heap w' = delete cc (delete c (delete (b_msg b) (heap w))) /\ brk w' = brk w
    /\ trace w' = trace w ++ [EvClosed fn_app_closed (Some cc);
                              recv_died x (echo_recv c (l, b)).2 fn_app_receive_error].
Proof.
  set (e := EvClosed fn_app_closed (Some cc)). intros Hos Ho Ex Ecc [E1 E2].
  apply (owner_same _ _ (add_event e w)) in Hos, Ho; [|done..]. pose proof Ho as [Hc Hq _].
  destruct (receive_died depth c cc x (add_event e w) l b _ Ho E1 Ex) as (w1 & Ec & Ho1 & Eh1 & B1 & T1).
  assert (c <> cc /\ b_msg b <> cc /\ b_msg b <> c) as (? & ? & ?) by (simpl in *; splits; congruence).
  exists (set_heap (delete cc (delete c (delete (b_msg b) (heap w)))) w1). splits; [|done| |].
  - pose (echo_app (S depth)) as inner. change (_app_closed (H2 := inner) (Some cc) (add_event e w) = (Ok tt, set_heap (delete cc (delete c (delete (b_msg b) (heap w)))) w1)).
    assert (tapsConnectionFree (H0 := inner) (Some c) (add_event e w)
            = (Ok tt, set_heap (delete c (delete (b_msg b) (heap w))) w1)) as Ef.
    { unfold tapsConnectionFree. destruct (Pos2Nat.is_succ (brk (add_event e w))) as [n ->].
      erewrite bind_ok by (exact (drop_all_none sndq s_sendError send_died _ _ _ _ Hos)).
      erewrite bind_ok by (exact (drop_all_one rcvq r_receiveError recv_died ltac:(done) ltac:(done) _ _ _ _ _ _ _ _ Ho eq_refl Ec Ho1)).
      erewrite (free_ok (T := tapsConnection)) by apply lookup_insert_eq.
      unfold set_heap. simpl. by rewrite delete_insert_eq, Eh1. }
    unfold _app_closed. erewrite bind_ok by (by apply (load_ok (T := app_conn))).
    erewrite bind_ok by exact Ef. erewrite (free_ok (T := app_conn)) by (simpl; by rewrite !lookup_delete_ne). done.
  - done.
  - simpl. rewrite T1. simpl. by rewrite <- app_assoc.
Qed.

(** Closing a connection of the echo server that waits for data gives the
    connection and the application's two structures back, and leaks the item of
    the receive and its message. *)
Theorem closed_echo_leaks depth c cc w x l b :
  echoing gs gr c cc al (Some cc) w x [(l, b)] [] [] ->
  exists w', call_app (H := echo_app (S (S depth))) (Some fn_app_closed) (fun f => EvClosed f (Some cc)) w = (Ok tt, w')
    /\ heap w' = delete cc (delete c (delete (b_msg b) (heap w)))
    /\ (exists it : recv_item, heap w' !! l = Some (ORecv it))
    /\ heap w' !! b_message b = Some (OMessage (body_message b))
    /\ trace w' = trace w ++ [EvClosed fn_app_closed (Some cc);
                              recv_died x (echo_recv c (l, b)).2 fn_app_receive_error].
Proof.
  intros [[Ho _ _] [Hos _ _] _ _ [Ex Ecc _] [[[E1 E2] _]%Forall_cons _ _] _]. pose proof Ho as [Hc Hq _].
  pose proof (queue_lookup _ _ [] [] _ _ Hq) as Hl.
  destruct (closed_step depth c cc w x l b Hos Ho Ex Ecc) as (w' & E & Eh & _ & T); [done|].
  simpl in *. exists w'. splits; [done|done| | |done]; rewrite Eh.
  - exists (set_links None None (echo_recv c (l, b)).2). by rewrite !lookup_delete_ne by congruence.
  - by rewrite !lookup_delete_ne by congruence.
Qed.

End accepted.

(** ** The properties at a sample connection *)

Module EchoSample.

#[local] Instance buffers : Buffers := fun l => 4096 * Z.pos l.
#[local] Instance proto : Proto := test_proto 0.

(** The listener of the library at 1 and of the application at 2. *)
Definition handles : proto_handles := Handles (Some 1%positive) (Some 101%positive) (Some 102%positive) (Some 103%positive) (Some 104%positive).
Definition listener : tapsListener :=
  Listener (Some 20%positive) (Some 2%positive) handles (Some fn_app_connection_received)
    (Some fn_app_establishment_error) None 0 4294967295 (Some 21%positive) 0 0.
Definition of_app : app_listener := AppListener (Some 21%positive) (Some 1%positive) cbs.
Definition started : world := test_world [(1%positive, OListener listener); (2%positive, OAppListener of_app)] 3.

Lemma started_fresh : fresh_from (heap started) (brk started).
Proof. apply fresh_from_list. by repeat constructor. Qed.

#[local] Instance machine : Machine := strict_machine.

Lemma accepted_connection_echoes_witness :
  exists w' x' r, _taps_connection_received (H0 := echo_app 1) (Some 1%positive) (Some 30%positive) started = (Ok (Some 3%positive), w')
    /\ echoing 103 104 3 4 2 (Some 4%positive) w' x' [r] [] [] /\ c_proto_ctx x' = Some 30%positive
    /\ heap w' !! 1%positive = Some (OListener (set_l_ref_count 1 listener))
    /\ trace w' = [EvConnectionReceived fn_app_connection_received (Some 2%positive) (Some 3%positive);
                   PReceive 104 (Some 30%positive) (Some r.1) (IovMessage (b_message r.2)) 1].
Proof.
  apply (accepted_connection_echoes 103 104 2 0 started 1 listener (Some 30%positive) of_app); [done|apply started_fresh|reflexivity..].
Defined.

(** The connection at 3 and 4 receives into the message at 5 and 6. *)
Definition conn (snd : ptr) : tapsConnection :=
  Connection (Some 30%positive) (Some 4%positive) (Some (HListener 1)) snd (Some 7%positive)
    (Some fn_app_closed) (Some fn_app_connection_error) TRUE FALSE (Some 1%positive).
Definition first : body := Body 5 6 BUF_SIZE.
Definition item : recv_item := new_recv 3 (Some 6%positive) (Some 5%positive) MIN_BUF BUF_SIZE cbs.
Definition waiting : world := test_world
  [(1%positive, OListener (set_l_ref_count 1 listener)); (2%positive, OAppListener of_app); (3%positive, OConnection (conn None));
   (4%positive, OAppConn (AppConn (Some 2%positive) (Some 3%positive)));
   (5%positive, OAppMsg (AppMsg (Some 6%positive))); (6%positive, OMessage (body_message first));
   (7%positive, ORecv item)] 8.

Lemma waiting_echoing : echoing 103 104 3 4 2 (Some 4%positive) waiting (conn None) [(7%positive, first)] [] [].
Proof.
  assert (fresh_from (heap waiting) (brk waiting)) as Hf by (apply fresh_from_list; by repeat constructor).
  split; [| |done..| | |by repeat constructor].
  - split; [split; [done| |done]|by exists 1%positive, (set_l_ref_count 1 listener)|].
    + split; [done|]. split; [apply NoDup_singleton|done].
    + repeat constructor. by exists 6%positive, (body_message first).
  - split; [split; [done| |done]|by exists 1%positive, (set_l_ref_count 1 listener)|done].
    split; [done|]. split; [apply NoDup_nil_2|done].
  - split; [done|done|]. by exists of_app.
  - split; [by repeat constructor|apply NoDup_singleton|apply NoDup_singleton].
Qed.

(** Ten bytes arrive, then twenty, and both are written. *)
Definition reports : list echo_op := [Arrive 7 6 10; Arrive 11 10 20; Written 8; Written 12].
Definition item_of (n : Z) : recv_item := set_r_currLength n item.
Definition surviving : Machine :=
  test_machine (fun l => if Pos.eqb l 7 then Some (ORecv (item_of 10)) else if Pos.eqb l 11 then Some (ORecv (item_of 20)) else None)
    (fun _ => None).

(** What the heap has besides the connection and its message. *)
Definition others : gmap loc obj := list_to_map
  [(1%positive, OListener (set_l_ref_count 1 listener)); (2%positive, OAppListener of_app);
   (4%positive, OAppConn (AppConn (Some 2%positive) (Some 3%positive)))].

Lemma waiting_surrounds : surrounds others waiting [3; 7; 5; 6]%positive.
Proof.
  split; intros j Hj.
  - repeat (apply elem_of_cons in Hj as [->|Hj]; [done|]). by apply not_elem_of_nil in Hj.
  - assert (j <> 3 /\ j <> 7 /\ j <> 5 /\ j <> 6)%positive as (? & ? & ? & ?) by set_solver.
    destruct (decide (j = 1 \/ j = 2 \/ j = 4)%positive) as [[->|[->| ->]]|]; [reflexivity..|].
    unfold waiting, others, test_world. simpl. by rewrite !lookup_insert_ne by (intros <-; tauto).
Qed.

Lemma echo_refines_contract_witness :
  exists w' x', run_echoes (H := surviving) (H0 := echo_app (H := surviving) 1) reports waiting = (Ok tt, w')
    /\ echoing 103 104 3 4 2 (Some 4%positive) w' x' [(15%positive, Body 13 14 BUF_SIZE)] [] []
    /\ brk w' = 16%positive
    /\ trace w' = [DeadRead 7; EvReceivedPartial fn_app_received_partial (Some 4%positive) (Some 5%positive) 10 FALSE;
                   PSend 103 (Some 30%positive) (Some 8%positive) (IovMessage 6) 1;
                   PReceive 104 (Some 30%positive) (Some 11%positive) (IovMessage 10) 1;
                   DeadRead 11; EvReceivedPartial fn_app_received_partial (Some 4%positive) (Some 9%positive) 20 FALSE;
                   PSend 103 (Some 30%positive) (Some 12%positive) (IovMessage 10) 1;
                   PReceive 104 (Some 30%positive) (Some 15%positive) (IovMessage 14) 1;
                   PSend 103 (Some 30%positive) (Some 12%positive) (IovMessage 10) 1;
                   EvSent fn_app_sent (Some 4%positive) (Some 5%positive);
                   EvSent fn_app_sent (Some 4%positive) (Some 9%positive)]
    /\ surrounds others w' [3; 15; 13; 14]%positive.
Proof.
  edestruct (echo_refines_contract (H := surviving) 103 104 3 4 2 0 reports waiting (conn None) (7%positive, first) []
           (EchoState 16 (15%positive, Body 13 14 BUF_SIZE) [])) as (w' & x' & E & Hg & B & T & U);
    [done| | |apply waiting_echoing|vm_compute; reflexivity|].
  - intros t i d k v z v' _ [= <- <-]. lia.
  - repeat constructor; simpl; by eexists.
  - exists w', x'. splits; [exact E|exact Hg|exact B|exact T|]. apply (U others [3%positive]); [by left|apply waiting_surrounds].
Defined.

(** The same with a message of ten bytes, at 8 and 9, queued to be sent. *)
Definition second : body := Body 8 9 10.
Definition sending : world := test_world
  [(1%positive, OListener (set_l_ref_count 1 listener)); (2%positive, OAppListener of_app);
   (3%positive, OConnection (conn (Some 10%positive)));
   (4%positive, OAppConn (AppConn (Some 2%positive) (Some 3%positive)));
   (5%positive, OAppMsg (AppMsg (Some 6%positive))); (6%positive, OMessage (body_message first));
   (7%positive, ORecv item);
   (8%positive, OAppMsg (AppMsg (Some 9%positive))); (9%positive, OMessage (body_message second));
   (10%positive, OSend (new_send 3 (Some 9%positive) (Some 8%positive) cbs))] 11.

Lemma sending_echoing :
  echoing 103 104 3 4 2 (Some 4%positive) sending (conn (Some 10%positive)) [(7%positive, first)] [] [(10%positive, second)].
Proof.
  assert (fresh_from (heap sending) (brk sending)) as Hf by (apply fresh_from_list; by repeat constructor).
  split; [| |done..| | |by repeat constructor].
  - split; [split; [done| |done]|by exists 1%positive, (set_l_ref_count 1 listener)|].
    + split; [done|]. split; [apply NoDup_singleton|done].
    + repeat constructor. by exists 6%positive, (body_message first).
  - split; [split; [done| |done]|by exists 1%positive, (set_l_ref_count 1 listener)|].
    + split; [done|]. split; [apply NoDup_singleton|done].
    + repeat constructor. by exists 9%positive, (body_message second).
  - split; [done|done|]. by exists of_app.
  - split; [by repeat constructor|by apply (bool_decide_unpack _)|by apply (bool_decide_unpack _)].
Qed.

Definition refusing : Proto := test_proto (-1).

Lemma refused_echo_is_read_witness :
  exists w' w'', _taps_received_partial (H := surviving) (H0 := echo_app (H := surviving) (H0 := refusing) 1) (H1 := refusing)
      (Some 7%positive) (IovMessage 6) 10 sending = (Ok tt, w')
    /\ _taps_sent (H := surviving) (H0 := echo_app (H := surviving) (H0 := refusing) 1) (H1 := refusing) (Some 10%positive) w'
       = (Fault (UseAfterFree 6), w'').
Proof.
  apply (refused_echo_is_read (H := surviving) (H0 := refusing) 103 104 3 4 2 0 sending (conn (Some 10%positive)) 7 first []
           10 second 10 (item_of 10)); [done| |apply sending_echoing|done..].
  intros i d k v z v' _ E. assert (z = -1) as -> by (injection E; congruence). lia.
Defined.

Lemma closed_echo_leaks_witness :
  exists w', call_app (H := echo_app 2) (Some fn_app_closed) (fun f => EvClosed f (Some 4%positive)) waiting = (Ok tt, w')
    /\ heap w' = delete 4%positive (delete 3%positive (delete 5%positive (heap waiting)))
    /\ (exists it : recv_item, heap w' !! 7%positive = Some (ORecv it))
    /\ heap w' !! 6%positive = Some (OMessage (body_message first))
    /\ trace w' = [EvClosed fn_app_closed (Some 4%positive);
                   EvReceiveError fn_app_receive_error (Some 4%positive) (Some 5%positive) (Some "Connection died"%string)].
Proof.
  apply (closed_echo_leaks 103 104 2 0 3 4 waiting (conn None) 7 first). apply waiting_echoing.
Defined.

End EchoSample.
