(* ===== verification/Simulate.v ===== *)
(** * Simulate: the library above two protocols

    The same code of the library and of the application, run above a protocol
    with state of its own and above one without.  The two runs see states that
    differ in one context of the protocol and in what the protocol has called;
    [sim] relates them, with one lemma for every operation, so that a theorem
    about the run above the protocol without state says what the other does. *)

From S2P Require Import Prelude Structs Memory Message Queue Listener Connection Accept Echo.
Local Open Scope Z_scope.

(** ** Events *)

(** The calls a protocol makes while it sends or receives. *)
Definition hidden (e : event) : bool :=
  match e with KWritev _ _ _ _ | LAdd _ _ => true | _ => false end.

Definition visible (t : list event) : list event := filter (fun e => hidden e = false) t.

(** What the library itself adds to the trace, requests to the protocol apart. *)
Definition ordinary (e : event) : bool :=
  match e with
  | EvConnectionReceived _ _ _ | EvStopped _ _ | EvSent _ _ _ | EvExpired _ _ _ | EvSendError _ _ _ _
  | EvReceived _ _ _ _ | EvReceivedPartial _ _ _ _ _ | EvReceiveError _ _ _ _ | EvClosed _ _
  | EvConnectionError _ _ _ | EvLoopBreak _ | DeadRead _ => true
  | _ => false
  end.

(** Requests to the protocol are for the context [k]. *)
Definition for_context (k : loc) (e : event) : Prop :=
  match e with
  | PSend _ p _ _ _ | PReceive _ p _ _ _ => p = Some k
  | _ => True
  end.

Lemma visible_app t1 t2 : visible (t1 ++ t2) = visible t1 ++ visible t2.
Proof. apply filter_app. Qed.

(** ** States *)

(** The states differ in the context [k] and in hidden calls. *)
Record alike (k : loc) (w v : world) : Prop := {
  al_heap j : j <> k -> heap w !! j = heap v !! j;
  al_left : exists c, heap w !! k = Some (OConnCtx c);
  al_right : exists c, heap v !! k = Some (OConnCtx c);
  al_below : (k < brk v)%positive;
  al_brk : brk w = brk v;
  al_errno : errno w = errno v;
  al_trace : visible (trace w) = visible (trace v);
}.

(** Structures that are not contexts. *)
Class Other (T : Type) `{Object T} : Prop := other_proj c : proj (OConnCtx c) = None.

#[export] Instance message_other : Other tapsMessage. Proof. done. Qed.
#[export] Instance iovec_other : Other (list iovec). Proof. done. Qed.
#[export] Instance handles_other : Other proto_handles. Proof. done. Qed.
#[export] Instance listener_other : Other tapsListener. Proof. done. Qed.
#[export] Instance send_other : Other send_item. Proof. done. Qed.
#[export] Instance recv_other : Other recv_item. Proof. done. Qed.
#[export] Instance connection_other : Other tapsConnection. Proof. done. Qed.
#[export] Instance app_listener_other : Other app_listener. Proof. done. Qed.
#[export] Instance app_conn_other : Other app_conn. Proof. done. Qed.
#[export] Instance app_msg_other : Other app_msg. Proof. done. Qed.

(** What the protocol maintains about its context and the trace. *)
Class Maintained (k : loc) (I : world -> Prop) : Prop := {
  maintained_blocks w w' : heap w' !! k = heap w !! k -> trace w' = trace w -> I w -> I w';
  maintained_event w e : ordinary e = true -> I w -> I (add_event e w);
}.

Definition related (k : loc) (I : world -> Prop) (w v : world) : Prop := alike k w v /\ I w.

(** If [n] returns, having asked the protocol for nothing but [k], then so does
    [m], in related states.  Whatever it asked for, the trace has grown. *)
Definition sim (k : loc) (I : world -> Prop) {A} (P : A -> A -> Prop) (m n : M A) : Prop :=
  (forall v b v', n v = (Ok b, v') -> trace v `prefix_of` trace v') /\
  (forall w v b v' es, related k I w v -> n v = (Ok b, v') ->
     trace v' = trace v ++ es -> Forall (for_context k) es ->
     exists a w', m w = (Ok a, w') /\ P a b /\ related k I w' v').

(** ** Primitive operations *)

Section primitives.
Context `{Machine} (k : loc) (I : world -> Prop) `{!Maintained k I}.

#[local] Abbreviation sim := (sim k I).

Lemma sim_bind {A B} (P : A -> A -> Prop) (Q : B -> B -> Prop) m n f g :
  Reflexive P -> sim P m n -> (forall a b, P a b -> sim Q (f a) (g b)) -> sim Q (m ≫= f) (n ≫= g).
Proof.
  intros HP [Gm Hm] Hf. split.
  - intros v d v' (b & v1 & E1 & E2)%bind_inv. etrans; [by eapply Gm|].
    eapply (Hf b b); [reflexivity|exact E2].
  - intros w v d v' es Hr (b & v1 & E1 & E2)%bind_inv T F.
    destruct (Gm _ _ _ E1) as [es1 T1]. destruct (proj1 (Hf b b (reflexivity b)) _ _ _ E2) as [es2 T2].
    assert (es = es1 ++ es2) as -> by (apply (app_inv_head (trace v)); by rewrite app_assoc, <- T1, <- T2).
    apply Forall_app in F as [F1 F2]. destruct (Hm _ _ _ _ _ Hr E1 T1 F1) as (a & w1 & Ew & Hp & Hr1).
    destruct (proj2 (Hf a b Hp) _ _ _ _ _ Hr1 E2 T2 F2) as (c & w2 & Ew2 & Hq & Hr2).
    exists c, w2. by rewrite (bind_ok _ _ _ _ _ Ew).
Qed.

Lemma sim_weaken {A} (P Q : A -> A -> Prop) m n : (forall a b, P a b -> Q a b) -> sim P m n -> sim Q m n.
Proof.
  intros Hpq [G Hm]. split; [done|]. intros w v b v' es Hr E T F.
  destruct (Hm _ _ _ _ _ Hr E T F) as (a & w' & ? & ? & ?). exists a, w'. auto.
Qed.

(** An operation that says nothing, or makes one ordinary call. *)
Lemma sim_step {A} (P : A -> A -> Prop) (m n : M A) :
  (forall v b v', n v = (Ok b, v') -> exists es, trace v' = trace v ++ es /\ Forall (fun e => ordinary e = true) es) ->
  (forall w v b v', related k I w v -> n v = (Ok b, v') ->
     exists a w', m w = (Ok a, w') /\ P a b /\ related k I w' v') -> sim P m n.
Proof.
  intros Hg Hm. split.
  - intros v b v' E. destruct (Hg _ _ _ E) as (es & -> & _). by apply prefix_app_r.
  - intros w v b v' es Hr E _ _. by eapply Hm.
Qed.

Lemma related_event w v e : ordinary e = true -> related k I w v -> related k I (add_event e w) (add_event e v).
Proof.
  intros He [[] Hi]. split; [|by apply (maintained_event (k := k))]. split; try done. simpl. rewrite !visible_app. congruence.
Qed.

(** Blocks other than [k] change in the same way. *)
Lemma related_blocks w v (f : gmap loc obj -> gmap loc obj) b e :
  (forall h, f h !! k = h !! k) -> (forall h h' j, h !! j = h' !! j -> f h !! j = f h' !! j) -> (brk v <= b)%positive ->
  related k I w v -> related k I (World (f (heap w)) b e (trace w)) (World (f (heap v)) b e (trace v)).
Proof.
  intros Hk Hf Hb [[H1 H2 H3 H4 H5 H6 H7] Hi]. split; [|by apply (maintained_blocks (k := k) w); [apply Hk| |]].
  split; simpl; rewrite ?Hk; try done; [|lia]. intros j Hj. by apply Hf, H1.
Qed.

Lemma related_set_heap w v f :
  (forall h, f h !! k = h !! k) -> (forall h h' j, h !! j = h' !! j -> f h !! j = f h' !! j) ->
  related k I w v -> related k I (set_heap (f (heap w)) w) (set_heap (f (heap v)) v).
Proof.
  intros Hk Hf Hr. unfold set_heap. rewrite (al_brk _ _ _ (proj1 Hr)), (al_errno _ _ _ (proj1 Hr)).
  by apply related_blocks.
Qed.

Lemma insert_congr l (o : obj) (h h' : gmap loc obj) j : h !! j = h' !! j -> <[l := o]> h !! j = <[l := o]> h' !! j.
Proof. intros E. destruct (decide (l = j)) as [->|]; [by rewrite !lookup_insert_eq|by rewrite !lookup_insert_ne]. Qed.

Lemma delete_congr l (h h' : gmap loc obj) j : h !! j = h' !! j -> delete l h !! j = delete l h' !! j.
Proof. intros E. destruct (decide (l = j)) as [->|]; [by rewrite !lookup_delete_eq|by rewrite !lookup_delete_ne]. Qed.

Lemma sim_ret {A} (P : A -> A -> Prop) a b : P a b -> sim P (mret a) (mret b).
Proof.
  intros Hp. apply sim_step; [intros v c v' [= <- <-]; exists []; by rewrite app_nil_r|].
  intros w v c v' Hr [= <- <-]. by exists a, w.
Qed.

Lemma sim_throw {A} (P : A -> A -> Prop) f g : sim P (throw f) (throw g).
Proof. by split. Qed.

Lemma sim_emit e : ordinary e = true -> sim eq (emit e) (emit e).
Proof.
  intros He. apply sim_step; [intros v c v' [= <- <-]; exists [e]; by repeat constructor|].
  intros w v c v' Hr [= <- <-]. eexists _, _. split; [done|]. split; [done|]. by apply related_event.
Qed.

Lemma sim_errno e : sim eq (set_errno e) (set_errno e).
Proof.
  apply sim_step; [intros v c v' [= <- <-]; exists []; by rewrite app_nil_r|].
  intros w v c v' Hr [= <- <-]. eexists _, _. split; [done|]. split; [done|].
  unfold set_errno_w. rewrite (al_brk _ _ _ (proj1 Hr)). by apply (related_blocks w v (fun h => h)).
Qed.

Lemma sim_load {T} `{Other T} p : sim eq (load p : M T) (load p).
Proof.
  apply sim_step.
  - intros v c v'. unfold load. repeat case_match; intros [= <- <-]; [exists []; by rewrite app_nil_r|].
    eexists [_]. by repeat constructor.
  - intros w v c v' Hr. unfold load. destruct p as [l|]; [|done].
    destruct (decide (l = k)) as [->|Hne].
    + destruct (al_right _ _ _ (proj1 Hr)) as [x ->]. by rewrite other_proj.
    + rewrite (al_heap _ _ _ (proj1 Hr)) by done.
      repeat case_match; intros [= <- <-]; eexists _, _; (split; [done|]); (split; [done|]); [done|].
      by apply related_event.
Qed.

Lemma sim_modify {T} `{Other T} p (f : T -> T) : sim eq (modify p f) (modify p f).
Proof.
  apply sim_step.
  - intros v c v'. unfold modify. repeat case_match; intros [= <- <-]; exists []; by rewrite app_nil_r.
  - intros w v c v' Hr. unfold modify. destruct p as [l|]; [|done].
    destruct (decide (l = k)) as [->|Hne].
    + destruct (al_right _ _ _ (proj1 Hr)) as [x ->]. by rewrite other_proj.
    + rewrite (al_heap _ _ _ (proj1 Hr)) by done.
      repeat case_match; intros [= <- <-]; eexists _, _; (split; [done|]); (split; [done|]).
      apply (related_set_heap w v (fun h => <[l := _]> h)); [intros h; by apply lookup_insert_ne|apply insert_congr|done].
Qed.

Lemma sim_free {T} `{Other T} p : sim eq (free T p) (free T p).
Proof.
  apply sim_step.
  - intros v c v'. unfold free. repeat case_match; intros [= <- <-]; exists []; by rewrite app_nil_r.
  - intros w v c v' Hr. unfold free. destruct p as [l|]; [|intros [= <- <-]; by eexists _, _].
    destruct (decide (l = k)) as [->|Hne].
    + destruct (al_right _ _ _ (proj1 Hr)) as [x ->]. by rewrite other_proj.
    + rewrite (al_heap _ _ _ (proj1 Hr)) by done.
      repeat case_match; intros [= <- <-]; eexists _, _; (split; [done|]); (split; [done|]).
      apply (related_set_heap w v (fun h => delete l h)); [intros h; by apply lookup_delete_ne|apply delete_congr|done].
Qed.

Lemma sim_malloc T `{Other T} : sim eq (malloc T) (malloc T).
Proof.
  apply sim_step.
  - intros v c v'. unfold malloc. repeat case_match; intros [= <- <-]; exists []; by rewrite app_nil_r.
  - intros w v c v' Hr. pose proof (al_below _ _ _ (proj1 Hr)). unfold malloc, set_errno_w, set_brk. cbn [heap brk trace].
    rewrite (al_brk _ _ _ (proj1 Hr)), (al_errno _ _ _ (proj1 Hr)).
    case_match; intros [= <- <-]; eexists _, _; (split; [done|]); (split; [done|]).
    + apply (related_blocks w v (fun h => <[brk v := _]> h)); [|apply insert_congr|lia|done].
      intros h. apply lookup_insert_ne. lia.
    + by apply (related_blocks w v (fun h => h)); [..|lia|].
Qed.

Lemma sim_read {A} (f : world -> result A) :
  (forall w v, alike k w v -> f w = f v) -> sim eq (fun w => (f w, w)) (fun w => (f w, w)).
Proof.
  intros Hf. apply sim_step; [intros v c v' [= _ <-]; exists []; by rewrite app_nil_r|].
  intros w v c v' Hr [= E <-]. exists c, w. by rewrite (Hf w v), E by apply Hr.
Qed.

Lemma sim_deref {A} (p : option A) : sim eq (deref p) (deref p).
Proof. destruct p; [by apply sim_ret|apply sim_throw]. Qed.

Lemma sim_call_if {A} (P : A -> A -> Prop) f g m n : sim P m n -> sim P (call_if f g m) (call_if f g n).
Proof. intros Hm. unfold call_if. case_bool_decide; [done|apply sim_throw]. Qed.

Lemma sim_brk {A} (P : A -> A -> Prop) (m n : loc -> M A) :
  (forall b, sim P (m b) (n b)) -> sim P (fun w => m (brk w) w) (fun w => n (brk w) w).
Proof.
  intros Hm. split.
  - intros v b v' E. by eapply Hm.
  - intros w v b v' es Hr. rewrite (al_brk _ _ _ (proj1 Hr)). by apply Hm.
Qed.

End primitives.

Create HintDb sim.
#[export] Hint Resolve sim_ret sim_throw sim_emit sim_errno sim_load sim_modify sim_free sim_malloc sim_deref : sim.
#[export] Hint Extern 1 (Other _) => typeclasses eauto : sim.
#[export] Hint Extern 1 (Maintained _ _) => typeclasses eauto : sim.
#[export] Hint Extern 2 (ordinary _ = true) => reflexivity : sim.

(** A message is refused by both protocols or by none. *)
Definition sign (a b : Z) : Prop := (a <? 0) = (b <? 0).

#[export] Instance sign_reflexive : Reflexive sign.
Proof. by intros a. Qed.

#[export] Hint Extern 2 (sign _ _) => reflexivity : sim.

(** Walk through two computations with the same text. *)
Ltac sim :=
  repeat first
    [ progress intros
    | match goal with H : ?a = ?b |- _ => is_var a; is_var b; subst b end
    | match goal with |- sim _ _ _ (_ ≫= _) (_ ≫= _) =>
        first [ apply (sim_bind _ _ eq); [exact _|solve [eauto with sim]|]
              | apply (sim_bind _ _ sign); [exact _|solve [eauto with sim]|]
              | apply (sim_bind _ _ eq); [exact _|..] ]
      end
    | solve [eauto with sim]
    | case_match ].

(** ** The library *)

Class SimProto (k : loc) (I : world -> Prop) (P1 P2 : Proto) : Prop := {
  sim_call_send f p t d n : sim k I sign (@call_send P1 f p t d n) (@call_send P2 f p t d n);
  sim_call_receive f p t d n : sim k I eq (@call_receive P1 f p t d n) (@call_receive P2 f p t d n);
}.

Class SimApp (k : loc) (I : world -> Prop) (A1 A2 : App) : Prop := {
  sim_app_call e : sim k I eq (@app_call A1 e) (@app_call A2 e);
  sim_app_received f a c : sim k I eq (@app_connectionReceived A1 f a c) (@app_connectionReceived A2 f a c);
}.

Section library.
Context `{Machine} (k : loc) (I : world -> Prop) `{!Maintained k I} `{!SimProto k I P1 P2} `{!SimApp k I A1 A2}.

#[local] Abbreviation sim := (sim k I).

Lemma sim_call_app f e :
  (forall g, ordinary (e g) = true) -> sim eq (@call_app A1 f e) (@call_app A2 f e).
Proof. intros He. unfold call_app. pose proof sim_app_call. sim. Qed.

#[local] Hint Resolve sim_call_app sim_call_send sim_call_receive sim_app_received : sim.

Lemma sim_len_at a row : sim eq (iov_len_at a row) (iov_len_at a row).
Proof.
  apply sim_step.
  - intros v c v'. unfold iov_len_at. repeat case_match; intros [= <- <-]; exists []; by rewrite app_nil_r.
  - intros w v c v' Hr. unfold iov_len_at. repeat case_match; intros [= <- <-]; (eexists _, w; split; [reflexivity|by split]).
Qed.

#[local] Hint Resolve sim_len_at : sim.

Lemma sim_truncate_loop fuel a n r i : sim eq (truncate_loop fuel a n r i) (truncate_loop fuel a n r i).
Proof.
  revert r i. induction fuel as [|fuel IH]; intros r i; [apply sim_throw|].
  apply (sim_bind _ _ eq); [exact _|apply sim_len_at|]. sim.
Qed.

Lemma sim_trunc_loop fuel a n r i : sim eq (trunc_loop fuel a n r i) (trunc_loop fuel a n r i).
Proof.
  revert n r i. induction fuel as [|fuel IH]; intros n r i; [apply sim_throw|].
  apply (sim_bind _ _ eq); [exact _|apply sim_len_at|]. sim.
Qed.

#[local] Hint Resolve sim_truncate_loop sim_trunc_loop : sim.

Lemma sim_MessageNew d n : sim eq (tapsMessageNew d n) (tapsMessageNew d n).
Proof. unfold tapsMessageNew. sim. Qed.
Lemma sim_GetFirstBuf m : sim eq (tapsMessageGetFirstBuf m) (tapsMessageGetFirstBuf m).
Proof. unfold tapsMessageGetFirstBuf. sim. Qed.
Lemma sim_GetIovec m : sim eq (tapsMessageGetIovec m) (tapsMessageGetIovec m).
Proof. unfold tapsMessageGetIovec. sim. Qed.
Lemma sim_Truncate m n : sim eq (tapsMessageTruncate m n) (tapsMessageTruncate m n).
Proof. unfold tapsMessageTruncate. sim. Qed.
Lemma sim_MessageFree m : sim eq (tapsMessageFree m) (tapsMessageFree m).
Proof. unfold tapsMessageFree. sim. Qed.

#[local] Hint Resolve sim_MessageNew sim_GetFirstBuf sim_GetIovec sim_Truncate sim_MessageFree : sim.

Lemma sim_ADD_ITEM T `{Linked T, !Other T} (f : field tapsConnection) c : sim eq (ADD_ITEM T f c) (ADD_ITEM T f c).
Proof. unfold ADD_ITEM, lv_get, lv_set. sim. Qed.

Lemma sim_DELETE_ITEM T `{Linked T, !Other T} m (f : field tapsConnection) c :
  sim eq m m -> sim eq (DELETE_ITEM T m f c) (DELETE_ITEM T m f c).
Proof. intros Hm. unfold DELETE_ITEM, lv_set, rd. sim. Qed.

#[local] Hint Resolve sim_ADD_ITEM sim_DELETE_ITEM : sim.

Lemma sim_load_handles h : sim eq (load_handles h) (load_handles h).
Proof. unfold load_handles. sim. Qed.
Lemma sim_free_handles h : sim eq (free_handles h) (free_handles h).
Proof. unfold free_handles. sim. Qed.

#[local] Hint Resolve sim_load_handles sim_free_handles : sim.

Lemma sim_Deref l : sim eq (@tapsListenerDeref _ A1 l) (@tapsListenerDeref _ A2 l).
Proof. unfold tapsListenerDeref. sim. Qed.
#[local] Hint Resolve sim_Deref : sim.

Lemma sim_detach c : sim eq (@detach _ A1 c) (@detach _ A2 c).
Proof. unfold detach. sim. Qed.
#[local] Hint Resolve sim_detach : sim.

Lemma sim_closed c : sim eq (@_taps_closed _ A1 c) (@_taps_closed _ A2 c).
Proof. unfold _taps_closed. sim. Qed.

Lemma sim_ConnectionNew p h l : sim eq (tapsConnectionNew p h l) (tapsConnectionNew p h l).
Proof. unfold tapsConnectionNew, memset0. sim. Qed.
Lemma sim_Initialize c a cb : sim eq (tapsConnectionInitialize c a cb) (tapsConnectionInitialize c a cb).
Proof. unfold tapsConnectionInitialize. sim. Qed.
#[local] Hint Resolve sim_closed sim_ConnectionNew sim_Initialize : sim.

Lemma sim_send_common c i : sim sign (@_taps_send_common _ P1 c i) (@_taps_send_common _ P2 c i).
Proof. unfold _taps_send_common. sim. Qed.
#[local] Hint Resolve sim_send_common : sim.

Lemma sim_sent i : sim eq (@_taps_sent _ A1 P1 i) (@_taps_sent _ A2 P2 i).
Proof. unfold _taps_sent. sim. Qed.

Lemma sim_Send c m a cb : sim sign (@tapsConnectionSend _ P1 c m a cb) (@tapsConnectionSend _ P2 c m a cb).
Proof. unfold tapsConnectionSend. sim. Qed.

Lemma sim_iov_array d : sim eq (iov_array d) (iov_array d).
Proof. unfold iov_array. sim. Qed.
Lemma sim_free_data d e : sim eq (free_data d e) (free_data d e).
Proof. unfold free_data. sim. Qed.
#[local] Hint Resolve sim_iov_array sim_free_data : sim.

Lemma sim_trunc_iovec d n l : sim eq (_taps_trunc_iovec d n l) (_taps_trunc_iovec d n l).
Proof. unfold _taps_trunc_iovec. sim. Qed.

Lemma sim_receive_error i d r : sim eq (@_taps_receive_error _ A1 i d r) (@_taps_receive_error _ A2 i d r).
Proof. unfold _taps_receive_error. sim. Qed.

Lemma sim_issue_receive c i d n : sim eq (@issue_receive _ P1 c i d n) (@issue_receive _ P2 c i d n).
Proof. unfold issue_receive. sim. Qed.
#[local] Hint Resolve sim_trunc_iovec sim_receive_error sim_issue_receive : sim.

Lemma sim_received_partial i d n :
  sim eq (@_taps_received_partial _ A1 P1 i d n) (@_taps_received_partial _ A2 P2 i d n).
Proof. unfold _taps_received_partial. sim. Qed.

Lemma sim_Receive c a m n x cb :
  sim eq (@tapsConnectionReceive _ P1 c a m n x cb) (@tapsConnectionReceive _ P2 c a m n x cb).
Proof. unfold tapsConnectionReceive. sim. Qed.

Lemma sim_field (get : tapsConnection -> ptr) c :
  sim eq (x ← load c; mret (get x)) (x ← load c; mret (get x)).
Proof. sim. Qed.
#[local] Hint Resolve sim_field : sim.

Lemma sim_drop_send c : sim eq (@drop_send _ A1 c) (@drop_send _ A2 c).
Proof. unfold drop_send. sim. Qed.
Lemma sim_drop_recv c : sim eq (@drop_recv _ A1 c) (@drop_recv _ A2 c).
Proof. unfold drop_recv. sim. Qed.
#[local] Hint Resolve sim_drop_send sim_drop_recv : sim.

Lemma sim_drop_all fuel get d1 d2 c :
  (forall p, sim eq (d1 p) (d2 p)) -> sim eq (drop_all fuel get d1 c) (drop_all fuel get d2 c).
Proof. intros Hd. induction fuel as [|fuel IH]; simpl; sim. Qed.
#[local] Hint Resolve sim_drop_all : sim.

Lemma sim_ConnectionFree c : sim eq (@tapsConnectionFree _ A1 c) (@tapsConnectionFree _ A2 c).
Proof.
  apply (sim_brk k I eq (fun b => drop_all (S (Pos.to_nat b)) c_sndq drop_send c ;; drop_all (S (Pos.to_nat b)) c_rcvq drop_recv c ;;
    free tapsConnection c) (fun b => drop_all (S (Pos.to_nat b)) c_sndq drop_send c ;; drop_all (S (Pos.to_nat b)) c_rcvq drop_recv c ;;
    free tapsConnection c)). intros b. sim.
Qed.

Lemma sim_connection_received t p : sim eq (@_taps_connection_received _ A1 t p) (@_taps_connection_received _ A2 t p).
Proof. unfold _taps_connection_received. sim. Qed.

End library.

#[export] Hint Resolve sim_MessageNew sim_GetFirstBuf sim_GetIovec sim_Truncate sim_MessageFree sim_Send sim_Receive
  sim_ConnectionFree : sim.

(** ** The echo application *)

Section application.
Context `{Machine} `{Buffers} (k : loc) (I : world -> Prop) `{!Maintained k I} `{!SimProto k I P1 P2}.

#[local] Abbreviation sim := (sim k I).

Lemma sim_conn_callbacks c : sim eq (conn_callbacks c) (conn_callbacks c).
Proof. unfold conn_callbacks. sim. Qed.
#[local] Hint Resolve sim_conn_callbacks sim_call_if : sim.

Lemma sim_receive_more c : sim eq (@receive_more _ P1 _ c) (@receive_more _ P2 _ c).
Proof. unfold receive_more. sim. Qed.
#[local] Hint Resolve sim_receive_more : sim.

Lemma sim_app_sent c m : sim eq (_app_sent c m) (_app_sent c m).
Proof. unfold _app_sent. sim. Qed.

Lemma sim_app_send_error c m r : sim eq (_app_send_error c m r) (_app_send_error c m r).
Proof. unfold _app_send_error. sim. Qed.

Lemma sim_app_received_partial c m n eom :
  sim eq (@_app_received_partial _ P1 _ c m n eom) (@_app_received_partial _ P2 _ c m n eom).
Proof. unfold _app_received_partial. sim; match goal with H : sign _ _ |- _ => unfold sign in H; congruence end. Qed.

Lemma sim_app_connection_received l c :
  sim eq (@_app_connection_received _ P1 _ l c) (@_app_connection_received _ P2 _ l c).
Proof. unfold _app_connection_received. sim. Qed.

Lemma sim_app_stopped l : sim eq (_app_stopped l) (_app_stopped l).
Proof. unfold _app_stopped. sim. Qed.

Lemma sim_app_closed `{!SimApp k I A1 A2} c : sim eq (@_app_closed _ A1 c) (@_app_closed _ A2 c).
Proof. unfold _app_closed. sim. Qed.

#[export] Instance sim_echo_app depth : SimApp k I (@echo_app _ P1 _ depth) (@echo_app _ P2 _ depth).
Proof.
  induction depth as [|depth IH]; split; intros; [apply sim_throw..| |].
  - pose proof sim_app_sent. pose proof sim_app_send_error. pose proof sim_app_received_partial.
    pose proof sim_app_stopped. pose proof (fun c => sim_app_closed (SimApp0 := IH) c).
    simpl. destruct e; (apply sim_call_if || (by apply sim_ret)); unfold _app_expired, _app_receive_error, _app_connection_error, _app_received; sim.
  - apply sim_call_if, sim_app_connection_received.
Qed.

End application.
