(* ===== verification/TcpPort.v ===== *)
(** * TcpPort: what the TCP library promises to the library above it

    A connection context is a port: it takes one message to be sent at a time
    and one vector to receive into at a time, until libevent says that the socket
    is writable or readable.  [port_of] reads the state of a port from the calls
    made so far, [port_proto] answers as a port does and keeps no state, and
    tcp/tcp.c is related to it by [sim]: it refines it. *)

From S2P Require Import Prelude Structs Memory Message Queue Listener Connection Accept Resources Frame Tcp TcpStack Echo.
From S2P Require Import Simulate.
Local Open Scope Z_scope.

(** ** Ports *)

(** The item that is being sent, what is being received into, and the vectors
    that were taken to be sent. *)
Record port := Port {
  pt_sending : option ptr;
  pt_receiving : option (ptr * iovptr * Z);
  pt_taken : list (iovptr * Z);
}.

Definition idle_port : port := Port None None [].

(** One call; a new event of the context starts the port afresh. *)
Definition port_step (k : loc) (p : port) (e : event) : port :=
  match e with
  | LNew _ _ _ a => if bool_decide (a = Some k) then idle_port else p
  | PSend _ a t d n =>
      if bool_decide (a = Some k)
      then match pt_sending p with
           | None => Port (Some t) (pt_receiving p) (pt_taken p ++ [(d, n)])
           | Some _ => p
           end
      else p
  | PReceive _ a t d n =>
      if bool_decide (a = Some k)
      then match pt_receiving p with
           | None => Port (pt_sending p) (Some (t, d, n)) (pt_taken p)
           | Some _ => p
           end
      else p
  | LFire _ what a =>
      if bool_decide (a = Some k)
      then if what =? EV_WRITE then Port None (pt_receiving p) (pt_taken p)
           else if what =? EV_READ then Port (pt_sending p) None (pt_taken p)
           else p
      else p
  | _ => p
  end.

Definition port_of (k : loc) (t : list event) : port := fold_left (port_step k) t idle_port.

(** A protocol that is a port and nothing else. *)
#[export] Instance port_proto (k : loc) : Proto := {|
  proto_listen _ _ _ _ := mret None;
  proto_stop _ _ := mret tt;
  proto_send _ _ _ _ _ := fun w =>
    (Ok (match pt_sending (port_of k (removelast (trace w))) with None => 0 | Some _ => -1 end), w);
  proto_receive _ _ _ _ _ := mret tt;
|}.

#[export] Instance port_proto_quiet k : @QuietProto (port_proto k).
Proof. split; try done. intros. by eexists. Qed.

(** ** libevent *)

(** An event is pending from when it is added until it happens or is taken out. *)
Definition pending_step (e : ptr) (b : bool) (ev : event) : bool :=
  match ev with
  | LAdd e' r => if bool_decide (e' = e) then (0 <=? r) || b else b
  | LNew e' _ _ _ | LDel e' | LFree e' | LFire e' _ _ => if bool_decide (e' = e) then false else b
  | _ => b
  end.

Definition pending (e : ptr) (t : list event) : bool := fold_left (pending_step e) t false.

(** The documented behaviour of event_pending; a new event is not one that
    exists; sockets and events work: writev takes some of the bytes, event_new
    and event_add succeed. *)
Class Working `{Sys} : Prop := {
  working_pending h e : lev_pending h e = pending e h;
  working_writev h fd d n : 0 <= sys_writev h fd d n < 2 ^ 31;
  working_add h e : 0 <= lev_add h e;
  working_new h b fd what a : events (lev_new h b fd what a) h = 0;
  working_made h b fd what a : lev_new h b fd what a <> None;
}.

(** The vectors written to a socket. *)
Definition write_of (fd : Z) (e : event) : option (iovptr * Z) :=
  match e with KWritev fd' d n _ => if fd' =? fd then Some (d, n) else None | _ => None end.

Definition writes (fd : Z) (t : list event) : list (iovptr * Z) := omap (write_of fd) t.

(** ** Lemmas on traces *)

Lemma port_of_snoc k t e : port_of k (t ++ [e]) = port_step k (port_of k t) e.
Proof. unfold port_of. by rewrite fold_left_app. Qed.

Lemma port_step_hidden k p e : hidden e = true -> port_step k p e = p.
Proof. by destruct e. Qed.

Lemma port_of_visible k t : port_of k (visible t) = port_of k t.
Proof.
  induction t as [|e t IH] using rev_ind; [done|]. unfold visible in *. rewrite filter_app, filter_cons, filter_nil.
  destruct (hidden e) eqn:He; simpl.
  - by rewrite app_nil_r, port_of_snoc, IH, port_step_hidden.
  - by rewrite !port_of_snoc, IH.
Qed.

Lemma pending_snoc e t ev : pending e (t ++ [ev]) = pending_step e (pending e t) ev.
Proof. unfold pending. by rewrite fold_left_app. Qed.

Lemma writes_app fd t1 t2 : writes fd (t1 ++ t2) = writes fd t1 ++ writes fd t2.
Proof. apply omap_app. Qed.

(** ** A context that is a port *)

(** The context [c] serves the port [p]. *)
Record serves (c : conn_ctx) (p : port) (t : list event) : Prop := {
  sv_events : cc_sendEvent c <> cc_receiveEvent c;
  sv_made : cc_sendEvent c <> None /\ cc_receiveEvent c <> None;
  sv_sending : pending (cc_sendEvent c) t = match pt_sending p with Some _ => true | None => false end;
  sv_receiving : pending (cc_receiveEvent c) t = match pt_receiving p with Some _ => true | None => false end;
  sv_sent : cc_sent c = None /\ pt_sending p = None \/ cc_sent c = Some fn_sent;
  sv_received : cc_received c = None /\ pt_receiving p = None
                \/ cc_received c = Some fn_received /\ cc_receivedPartial c = Some fn_received_partial;
  sv_item i : pt_sending p = Some i -> cc_send_ctx c = i;
  sv_vector i d n : pt_receiving p = Some (i, d, n) ->
    cc_receive_ctx c = i /\ cc_receive_buffer c = Some d /\ cc_iovcnt c = n;
}.

(** A call that has to do with the context [k], which holds [h], and with no
    other context: the library's own, a request for [k], an event of [k], a read
    or write of its socket. *)
Definition own_event (k : loc) (h : holding) (e : event) : Prop :=
  match e, h with
  | (PSend _ p _ _ _ | PReceive _ p _ _ _), _ => p = Some k
  | LFire e' _ p, HConnection _ _ se re _ _ => p = Some k /\ (e' = se \/ e' = re)
  | LAdd e' _, HConnection _ _ se re _ _ => e' = se \/ e' = re
  | (KWritev fd' _ _ _ | KReadv fd' _ _ _), HConnection fd _ _ _ _ _ => fd' = fd
  | (USent _ _ | UReceivedPartial _ _ _ _), _ => True
  | e, _ => ordinary e = true
  end.

(** What a context holds. *)
Definition context_events (h : holding) : list ptr :=
  match h with HConnection _ ce se re _ _ => [ce; se; re] | HAccepting l => [lc_event l] end.

Definition context_fd (h : holding) : Z :=
  match h with HConnection fd _ _ _ _ _ => fd | HAccepting l => lc_fd l end.

(** The call names the context [k], its socket or its events, or no context at
    all. *)
Definition about (k : loc) (h : holding) (e : event) : Prop :=
  match e with
  | PSend _ p _ _ _ | PReceive _ p _ _ _ => p = Some k
  | LFire e' _ p | LNew e' _ _ p => p = Some k /\ e' ∈ context_events h
  | LAdd e' _ | LDel e' | LFree e' => e' ∈ context_events h
  | KWritev fd _ _ _ | KReadv fd _ _ _ | KAccept _ fd | KClose fd => fd = context_fd h
  | KSocket _ => False
  | _ => True
  end.

Lemma own_about k h e : own_event k h e -> about k h e.
Proof. destruct e, h; simpl; try done; set_solver. Qed.

(** What a context holds from some point of the history on, and what was written
    to its socket before. *)
Record opening := Opening { op_held : holding; op_writes : list (iovptr * Z); op_trace : list event }.

(** Since then the context has kept what it holds, and nothing has to do with
    another one. *)
Definition kept_since (pre : opening) (k : loc) (c : conn_ctx) (t : list event) : Prop :=
  held c = op_held pre /\ exists es, t = op_trace pre ++ es /\ Forall (own_event k (op_held pre)) es.

Lemma kept_snoc pre k c t e : own_event k (held c) e -> kept_since pre k c t -> kept_since pre k c (t ++ [e]).
Proof.
  intros He [Hh (es & -> & Hes)]. split; [done|]. exists (es ++ [e]). rewrite Hh in He.
  split; [by rewrite app_assoc|]. apply Forall_app. by split; [|constructor].
Qed.

Lemma kept_context pre k c c' t : held c' = held c -> kept_since pre k c t -> kept_since pre k c' t.
Proof. intros E [Hh Hes]. split; congruence. Qed.

(** Nothing is opened, made, closed or freed. *)
Lemma own_balanced k h t es : Forall (own_event k h) es -> balanced t (t ++ es).
Proof.
  intros Hes. apply balanced_app; intros; induction Hes as [|ev es Hev Hes IH]; [done| |done|];
    unfold opens, events in *; simpl; rewrite IH; by destruct ev.
Qed.

Lemma kept_balanced pre k c t : kept_since pre k c t -> balanced (op_trace pre) t.
Proof. intros [_ (es & -> & Hes)]. by eapply own_balanced. Qed.

(** The context at [k], with socket [fd], is a port, and what the port has taken
    is what was written to the socket since [pre]. *)
Definition ported (k : loc) (fd : Z) (pre : opening) (w : world) : Prop :=
  exists c, heap w !! k = Some (OConnCtx c) /\ cc_fd c = fd /\ serves c (port_of k (trace w)) (trace w)
    /\ writes fd (trace w) = op_writes pre ++ pt_taken (port_of k (trace w))
    /\ kept_since pre k c (trace w).

(** An event that is neither a call at the port nor one of its events. *)
Lemma ported_event k fd pre e w :
  (forall p, port_step k p e = p) -> (forall ev b, pending_step ev b e = b) -> write_of fd e = None ->
  (forall c, cc_fd c = fd -> own_event k (held c) e) -> ported k fd pre w -> ported k fd pre (add_event e w).
Proof.
  intros Hp He Hw0 Hown (c & Hc & Hf & Hs & Hw & Ho). exists c. simpl. rewrite port_of_snoc, writes_app, Hp.
  assert (writes fd [e] = []) as -> by (unfold writes; simpl; by rewrite Hw0). rewrite app_nil_r.
  split; [done|]. split; [done|]. split; [|split; [done|by apply kept_snoc; [apply Hown|]]].
  destruct Hs. by split; rewrite ?pending_snoc, ?He.
Qed.

#[export] Instance ported_maintained k fd pre : Maintained k (ported k fd pre).
Proof.
  split.
  - intros w w' Eh Et (c & Hc & Hf & Hs & Hw & Ho). exists c. by rewrite Eh, Et.
  - intros w e He. apply ported_event; by destruct e.
Qed.

(** The context is told its connection. *)
Definition told (t : ptr) (pre : opening) : opening :=
  Opening (match op_held pre with HConnection fd ce se re f _ => HConnection fd ce se re f t | h => h end) (op_writes pre) (op_trace pre).

Lemma ported_taps_ctx k fd pre t w :
  ported k fd pre w ->
  exists w', modify (Some k) (set_cc_taps_ctx t) w = (Ok tt, w') /\ ported k fd (told t pre) w'
    /\ (forall j, j <> k -> heap w' !! j = heap w !! j) /\ brk w' = brk w /\ errno w' = errno w /\ trace w' = trace w.
Proof.
  intros (c & Hc & Hf & [] & Hw & Ho & es & Et & Hes). eexists. split; [by apply (modify_ok (T := conn_ctx))|]. splits; try done.
  - exists (set_cc_taps_ctx t c). split; [apply lookup_insert_eq|]. split; [done|]. split; [by split|]. split; [done|].
    unfold told. rewrite <- Ho in *. split; [done|]. exists es. split; [exact Et|].
    eapply Forall_impl; [exact Hes|]. intros ev. by destruct ev.
  - intros j Hj. simpl. by apply lookup_insert_ne.
Qed.

(** The events of the context happen. *)
Lemma ported_readable k fd pre c w :
  heap w !! k = Some (OConnCtx c) -> ported k fd pre w ->
  ported k fd pre (add_event (LFire (cc_receiveEvent c) EV_READ (Some k)) w).
Proof.
  intros Hk (c' & Hc & Hf & Hs & Hw & Ho). assert (c' = c) as -> by congruence. exists c. simpl.
  rewrite writes_app, port_of_snoc. cbn [port_step]. rewrite bool_decide_true, app_nil_r by done. simpl.
  split; [done|]. split; [done|]. split; [|split; [done|apply kept_snoc; [simpl; auto|done]]].
  destruct Hs. split; simpl; rewrite ?pending_snoc; simpl; auto.
  - by rewrite bool_decide_false by done.
  - by rewrite bool_decide_true.
  - by destruct sv_received0 as [[]|]; [left|right].
  - done.
Qed.

Lemma ported_writable k fd pre c w :
  heap w !! k = Some (OConnCtx c) -> ported k fd pre w ->
  ported k fd pre (add_event (LFire (cc_sendEvent c) EV_WRITE (Some k)) w).
Proof.
  intros Hk (c' & Hc & Hf & Hs & Hw & Ho). assert (c' = c) as -> by congruence. exists c. simpl.
  rewrite writes_app, port_of_snoc. cbn [port_step]. rewrite bool_decide_true, app_nil_r by done. simpl.
  split; [done|]. split; [done|]. split; [|split; [done|apply kept_snoc; [simpl; auto|done]]].
  destruct Hs. split; simpl; rewrite ?pending_snoc; simpl; auto.
  - by rewrite bool_decide_true.
  - by rewrite bool_decide_false by done.
  - by destruct sv_sent0 as [[]|]; [left|right].
  - done.
Qed.

Lemma events_in_a_row_new `{Sys} `{!Working} h k c :
  events_in_a_row h k c ->
  NoDup (context_events (held c)) /\ forall e, e ∈ context_events (held c) -> events e h = 0.
Proof.
  intros (b & E1 & E2 & E3). set (ce := LNew _ _ _ _) in E2, E3. set (se := LNew _ _ _ _) in E3.
  assert (events (cc_closeEvent c) h = 0) as H1 by (rewrite E1; apply working_new).
  assert (events (cc_sendEvent c) (h ++ [ce]) = 0) as H2 by (rewrite E2; apply working_new).
  assert (events (cc_receiveEvent c) ((h ++ [ce]) ++ [se]) = 0) as H3 by (rewrite E3; apply working_new).
  rewrite !events_app in *. unfold ce, se in *. unfold events at 2 in H2. unfold events at 2 3 in H3. simpl in *.
  assert (cc_closeEvent c <> cc_sendEvent c) as N1 by (intros E; rewrite <- E in *; repeat case_bool_decide; try lia; congruence).
  assert (cc_closeEvent c <> cc_receiveEvent c) as N2 by (intros E; rewrite <- E in *; repeat case_bool_decide; try lia; congruence).
  assert (cc_sendEvent c <> cc_receiveEvent c) as N3 by (intros E; rewrite <- E in *; repeat case_bool_decide; try lia; congruence).
  rewrite (bool_decide_false _ N1) in H2. rewrite (bool_decide_false _ N2), (bool_decide_false _ N3) in H3. simpl in H2, H3.
  split; [repeat apply NoDup_cons_2; [set_solver..|apply NoDup_nil_2]|].
  intros e. rewrite !elem_of_cons, elem_of_nil. intros [->|[->|[->|[]]]]; lia.
Qed.

Lemma events_in_a_row_made `{Sys} `{!Working} h k c :
  events_in_a_row h k c -> cc_closeEvent c <> None /\ cc_sendEvent c <> None /\ cc_receiveEvent c <> None.
Proof. intros (b & -> & -> & ->). splits; apply working_made. Qed.

(** A match on a pointer that is not NULL. *)
Lemma option_alive {A B} (p : option A) (x y : B) : p <> None -> match p with None => x | Some _ => y end = y.
Proof. by destruct p. Qed.

Section port.
Context `{Machine} `{App} `{Sys} `{!Working}.
Context (k : loc) (fd : Z) (pre : opening).

Lemma related_port w v : alike k w v -> port_of k (trace w) = port_of k (trace v).
Proof. intros Ha. rewrite <- (port_of_visible k (trace w)), (al_trace _ _ _ Ha). apply port_of_visible. Qed.

(** What the protocol may change. *)
Definition touched (w w' : world) : Prop :=
  (forall j, j <> k -> heap w' !! j = heap w !! j) /\ brk w' = brk w /\ errno w' = errno w
  /\ visible (trace w') = visible (trace w).

Lemma alike_touched w v w' :
  alike k w v -> touched w w' -> (exists c, heap w' !! k = Some (OConnCtx c)) -> alike k w' v.
Proof.
  intros [A1 A2 A3 A4 A5 A6 A7] (T1 & T2 & T3 & T4) Hc. split; try done; try congruence.
  intros j Hj. rewrite T1 by done. by apply A1.
Qed.

Lemma alike_event w v e : alike k w v -> alike k (add_event e w) (add_event e v).
Proof. intros []. split; try done. simpl. rewrite !visible_app. congruence. Qed.

(** The first send and the first receive leave the callbacks. *)
Lemma first_send w c :
  heap w !! k = Some (OConnCtx c) -> cc_sent c = None \/ cc_sent c = Some fn_sent ->
  let c' := match cc_sent c with
            | None => set_cc_sending (Some fn_sent) (Some fn_expired) (Some fn_send_error) c
            | Some _ => c
            end in
  match cc_sent c with
  | None => modify (Some k) (set_cc_sending (Some fn_sent) (Some fn_expired) (Some fn_send_error))
  | Some _ => mret tt
  end w = (Ok tt, set_heap (<[k := OConnCtx c']> (heap w)) w) /\ cc_sent c' = Some fn_sent.
Proof.
  intros Hk Hs. destruct (cc_sent c) eqn:E.
  - split; [|destruct Hs; [done|simpl; congruence]]. rewrite ret_ok. unfold set_heap. rewrite insert_id by done. by destruct w.
  - split; [exact (modify_ok k w c _ Hk)|done].
Qed.

Definition answer (p : port) : Z := match pt_sending p with None => 0 | Some _ => -1 end.

(** The callbacks are all that a first send changes in the context. *)
Lemma first_send_rest c sent expired error :
  let c0 := match cc_sent c with None => set_cc_sending sent expired error c | Some _ => c end in
  cc_fd c0 = cc_fd c /\ cc_sendEvent c0 = cc_sendEvent c /\ cc_receiveEvent c0 = cc_receiveEvent c
  /\ cc_received c0 = cc_received c /\ cc_receivedPartial c0 = cc_receivedPartial c /\ cc_receive_ctx c0 = cc_receive_ctx c
  /\ cc_receive_buffer c0 = cc_receive_buffer c /\ cc_iovcnt c0 = cc_iovcnt c /\ cc_send_ctx c0 = cc_send_ctx c
  /\ held c0 = held c.
Proof. by destruct (cc_sent c). Qed.

Lemma Send_port g t d n w :
  ported k fd pre w ->
  exists z w', Send (Some k) t d n (Some fn_sent) (Some fn_expired) (Some fn_send_error) (add_event (PSend g (Some k) t d n) w)
               = (Ok z, w')
    /\ sign z (answer (port_of k (trace w))) /\ ported k fd pre w' /\ touched (add_event (PSend g (Some k) t d n) w) w'.
Proof.
  intros (c & Hk & Hf & Hs & Hw & Ho). set (w0 := add_event _ w). set (p := port_of k (trace w)) in *.
  destruct (first_send w0 c Hk) as [E0 Ec]; [by destruct (sv_sent _ _ _ Hs) as [[]|]; auto|].
  pose proof (first_send_rest c (Some fn_sent) (Some fn_expired) (Some fn_send_error)) as F.
  set (c0 := match cc_sent c with None => _ | Some _ => c end) in *. destruct F as (F1 & F2 & F3 & F4 & F5 & F6 & F7 & F8 & F9 & F10).
  assert (forall t, kept_since pre k c t -> kept_since pre k c0 t) as Hc0 by (intros t'; by apply kept_context).
  unfold Send. erewrite bind_ok by (by apply (load_ok (T := conn_ctx))). erewrite bind_ok by exact E0.
  erewrite bind_ok by reflexivity. cbv beta. rewrite working_pending. change (trace (set_heap _ w0)) with (trace w ++ [PSend g (Some k) t d n]).
  rewrite pending_snoc. cbn [pending_step]. rewrite (sv_sending _ _ _ Hs). destruct Hs as [S1 [M1 M2] S2 S3 S4 S5 S6 S7].
  destruct (pt_sending p) as [i|] eqn:Ep.
  - eexists _, _. split; [done|]. unfold answer. rewrite Ep. split; [done|]. split.
    + exists c0. split; [apply lookup_insert_eq|]. split; [congruence|]. simpl.
      rewrite writes_app, port_of_snoc. fold p. simpl. rewrite bool_decide_true, Ep, Hw, app_nil_r by done.
      split; [|split; [done|by apply Hc0, kept_snoc]].
      split; rewrite ?F2, ?F3, ?F4, ?F5, ?F6, ?F7, ?F8, ?F9, ?pending_snoc; simpl; rewrite ?Ep; auto.
    + unfold touched. splits; [|done..]. intros j Hj. simpl. by apply lookup_insert_ne.
  - set (w1 := set_heap _ w0). set (c1 := set_cc_send_ctx t c0). set (bytes := sys_writev (trace w1) fd d n).
    pose proof (working_writev (trace w1) fd d n) as Hb. fold bytes in Hb.
    set (w2 := set_heap (<[k := OConnCtx c1]> (heap w1)) w1).
    set (w3 := add_event (KWritev fd d n bytes) w2). pose proof (working_add (trace w3) (cc_sendEvent c)) as Ha.
    set (w4 := add_event (LAdd (cc_sendEvent c) (lev_add (trace w3) (cc_sendEvent c))) w3).
    pose proof (to_int_small bytes) as Hi.
    exists (to_int bytes), w4. split; [|split; [|split]].
    + erewrite bind_ok by (apply (modify_ok (T := conn_ctx) k w1 c0), lookup_insert_eq). rewrite Hf.
      erewrite (bind_ok (ask _ _)) by reflexivity. change (trace (set_heap _ w1)) with (trace w1). fold bytes.
      rewrite (proj2 (Z.ltb_ge bytes 0)) by lia. rewrite event_add_ok by done.
      erewrite (bind_ok (ask _ _)) by reflexivity. fold w1 c1 w2 w3.
      rewrite (proj2 (Z.ltb_ge (lev_add _ _) 0)) by done. done.
    + rewrite Hi by lia. unfold answer, sign. rewrite Ep. by rewrite (proj2 (Z.ltb_ge bytes 0)) by lia.
    + exists c1. split; [apply lookup_insert_eq|]. split; [simpl; congruence|].
      change (trace w4) with (((trace w ++ [PSend g (Some k) t d n]) ++ [KWritev fd d n bytes])
        ++ [LAdd (cc_sendEvent c) (lev_add (trace w3) (cc_sendEvent c))]).
      rewrite !writes_app, !port_of_snoc, Hw. fold p. cbn [port_step]. rewrite bool_decide_true, Ep by done. simpl.
      rewrite Z.eqb_refl, !app_nil_r. split; [|split; [by rewrite <- app_assoc|]].
      2: { apply (kept_context _ _ c); [by rewrite <- F10|]. by repeat apply kept_snoc; [simpl; auto..|]. }
      split; simpl; rewrite ?F2, ?F3, ?F4, ?F5, ?F6, ?F7, ?F8, ?pending_snoc; simpl; auto.
      * rewrite bool_decide_true by done. by rewrite (proj2 (Z.leb_le _ _)).
      * by rewrite bool_decide_false by done.
      * congruence.
    + unfold touched. splits; [|done..|].
      * intros j Hj. simpl. by rewrite !lookup_insert_ne by done.
      * simpl. rewrite !visible_app. simpl. by rewrite !app_nil_r.
Qed.

Lemma first_receive w c :
  heap w !! k = Some (OConnCtx c) ->
  cc_received c = None \/ cc_received c = Some fn_received /\ cc_receivedPartial c = Some fn_received_partial ->
  let c' := match cc_received c with
            | None => set_cc_receiving (Some fn_received) (Some fn_received_partial) (Some fn_receive_error) c
            | Some _ => c
            end in
  match cc_received c with
  | None => modify (Some k) (set_cc_receiving (Some fn_received) (Some fn_received_partial) (Some fn_receive_error))
  | Some _ => mret tt
  end w = (Ok tt, set_heap (<[k := OConnCtx c']> (heap w)) w)
  /\ cc_received c' = Some fn_received /\ cc_receivedPartial c' = Some fn_received_partial.
Proof.
  intros Hk Hs. destruct (cc_received c) eqn:E.
  - split; [|destruct Hs as [|[]]; [done|simpl; split; congruence]]. rewrite ret_ok. unfold set_heap.
    rewrite insert_id by done. by destruct w.
  - split; [exact (modify_ok k w c _ Hk)|done].
Qed.

Lemma Receive_port g t d n w :
  ported k fd pre w ->
  exists z w', Receive (Some k) t d n (Some fn_received) (Some fn_received_partial) (Some fn_receive_error)
                 (add_event (PReceive g (Some k) t d n) w) = (Ok z, w')
    /\ ported k fd pre w' /\ touched (add_event (PReceive g (Some k) t d n) w) w'.
Proof.
  intros (c & Hk & Hf & Hs & Hw & Ho). set (w0 := add_event _ w). set (p := port_of k (trace w)) in *.
  destruct (first_receive w0 c Hk) as (E0 & Ec & Ec'); [by destruct (sv_received _ _ _ Hs) as [[]|]; auto|].
  set (c0 := match cc_received c with None => _ | Some _ => c end) in *.
  assert (cc_fd c0 = cc_fd c /\ cc_sendEvent c0 = cc_sendEvent c /\ cc_receiveEvent c0 = cc_receiveEvent c
    /\ cc_sent c0 = cc_sent c /\ cc_send_ctx c0 = cc_send_ctx c /\ cc_receive_ctx c0 = cc_receive_ctx c
    /\ cc_receive_buffer c0 = cc_receive_buffer c /\ cc_iovcnt c0 = cc_iovcnt c /\ held c0 = held c)
    as (F1 & F2 & F3 & F4 & F5 & F6 & F7 & F8 & F9) by (subst c0; by destruct (cc_received c)).
  assert (forall t, kept_since pre k c t -> kept_since pre k c0 t) as Hc0 by (intros t'; by apply kept_context).
  unfold Receive. erewrite bind_ok by (by apply (load_ok (T := conn_ctx))). erewrite bind_ok by exact E0.
  erewrite bind_ok by reflexivity. cbv beta. rewrite working_pending. change (trace (set_heap _ w0)) with (trace w ++ [PReceive g (Some k) t d n]).
  rewrite pending_snoc. cbn [pending_step]. rewrite (sv_receiving _ _ _ Hs). destruct Hs as [S1 [M1 M2] S2 S3 S4 S5 S6 S7].
  destruct (pt_receiving p) as [i|] eqn:Ep.
  - eexists _, _. split; [done|]. split.
    + exists c0. split; [apply lookup_insert_eq|]. split; [congruence|]. simpl.
      rewrite writes_app, port_of_snoc. fold p. simpl. rewrite bool_decide_true, Ep, Hw, app_nil_r by done.
      split; [|split; [done|by apply Hc0, kept_snoc]].
      split; rewrite ?F2, ?F3, ?F4, ?F5, ?F6, ?F7, ?F8, ?pending_snoc; simpl; rewrite ?Ep; auto.
    + unfold touched. splits; [|done..]. intros j Hj. simpl. by apply lookup_insert_ne.
  - set (w1 := set_heap _ w0). set (c1 := set_cc_receive t (Some d) n c0).
    set (w2 := set_heap (<[k := OConnCtx c1]> (heap w1)) w1). pose proof (working_add (trace w2) (cc_receiveEvent c)) as Ha.
    set (w3 := add_event (LAdd (cc_receiveEvent c) (lev_add (trace w2) (cc_receiveEvent c))) w2).
    exists 0, w3. split; [|split].
    + erewrite bind_ok by (apply (modify_ok (T := conn_ctx) k w1 c0), lookup_insert_eq). rewrite event_add_ok by done.
      erewrite (bind_ok (ask _ _)) by reflexivity. fold w1 c1 w2 w3.
      rewrite (proj2 (Z.ltb_ge (lev_add _ _) 0)) by done. done.
    + exists c1. split; [apply lookup_insert_eq|]. split; [simpl; congruence|].
      change (trace w3) with ((trace w ++ [PReceive g (Some k) t d n])
        ++ [LAdd (cc_receiveEvent c) (lev_add (trace w2) (cc_receiveEvent c))]).
      rewrite !writes_app, !port_of_snoc, Hw. fold p. cbn [port_step]. rewrite bool_decide_true, Ep by done. simpl.
      rewrite !app_nil_r. split; [|split; [done|apply (kept_context _ _ c); [by rewrite <- F9|]; by repeat apply kept_snoc; [simpl; auto..|]]].
      split; simpl; rewrite ?F2, ?F3, ?F4, ?F5, ?pending_snoc; simpl; auto.
      * by rewrite bool_decide_false by done.
      * rewrite bool_decide_true by done. by rewrite (proj2 (Z.leb_le _ _)).
      * by intros ??? [= <- <- <-].
    + unfold touched. splits; [|done..|].
      * intros j Hj. simpl. by rewrite !lookup_insert_ne by done.
      * simpl. rewrite !visible_app. simpl. by rewrite !app_nil_r.
Qed.

#[export] Instance tcp_port : SimProto k (ported k fd pre) tcp_proto (port_proto k).
Proof.
  split; intros f p t d n.
  - destruct f as [g|]; [|apply sim_throw]. split.
    { intros v b v' [= <- <-]. by apply prefix_app_r. }
    intros w v b v' es [Ha Hi] [= <- <-] T F. simpl in T. apply app_inv_head in T as <-.
    apply Forall_cons in F as [Fk _]. simpl in Fk. subst p.
    destruct (Send_port g t d n w Hi) as (z & w' & E & Hz & Hi' & Ht). exists z, w'.
    split; [exact E|]. split; [|split; [|done]].
    + simpl. rewrite removelast_last, <- (related_port w v Ha). exact Hz.
    + eapply alike_touched; [by apply alike_event|exact Ht|]. destruct Hi' as (c & Hc & _). by exists c.
  - destruct f as [g|]; [|apply sim_throw]. split.
    { intros v b v' [= <- <-]. by apply prefix_app_r. }
    intros w v b v' es [Ha Hi] [= <- <-] T F. simpl in T. apply app_inv_head in T as <-.
    apply Forall_cons in F as [Fk _]. simpl in Fk. subst p.
    destruct (Receive_port g t d n w Hi) as (z & w' & E & Hi' & Ht). exists tt, w'.
    split; [|split; [done|split; [|done]]].
    + unfold call_receive. erewrite bind_ok by reflexivity. cbn [proto_receive tcp_proto]. by erewrite bind_ok by exact E.
    + eapply alike_touched; [by apply alike_event|exact Ht|]. destruct Hi' as (c & Hc & _). by exists c.
Qed.

End port.
