(* ===== verification/EchoTcp.v ===== *)
(** * EchoTcp: the echo server on top of the TCP library

    The whole program: libevent calls tcp/tcp.c, which calls the library, which
    calls the application, which calls the library, which calls tcp/tcp.c.  What
    EchoRound.v proves above a protocol without state holds here by Simulate.v
    and TcpPort.v.  From the acceptance of a connection, every read is answered
    by a write of the bytes that were read; a second read before the socket is
    writable is not. *)

From S2P Require Import Prelude Structs Memory Message Queue Listener Connection Accept Resources Frame Tcp TcpStack.
From S2P Require Import Requests Sending Receiving Echo EchoRound Simulate TcpPort.
Local Open Scope Z_scope.

(** ** The program *)

Section program.
Context `{Machine} `{Sys} `{Buffers}.

(** The application above the library above TCP; [depth] bounds how often they
    call each other. *)
Fixpoint server (depth : nat) : App :=
  match depth with
  | O => echo_app (H0 := port_proto 1) O
  | S d => echo_app (H0 := tcp_proto (H0 := server d)) (S d)
  end.

(** libevent calls the handler of an event that was added, once. *)
Definition fire (event : conn_ctx -> ptr) (what : Z) (handler : ptr -> M unit) (k : loc) : M unit :=
  c ← load (Some k);
  emit (LFire (event c) what (Some k)) ;;
  handler (Some k).

Definition readable (depth : nat) : loc -> M unit :=
  fire cc_receiveEvent EV_READ (_tcp_received (H1 := library_taps (H0 := server depth))).
Definition writable (depth : nat) : loc -> M unit :=
  fire cc_sendEvent EV_WRITE (_tcp_sent (H1 := library_taps (H0 := server depth))).

End program.

(** ** States that look the same to the library *)

Section transfer.
Context `{Buffers} (gs gr : fn) (c cc al : loc) (ctx : ptr) (k : loc).

Lemma alike_kept w v j o : alike k w v -> heap v !! j = Some o -> (forall d, o <> OConnCtx d) -> heap w !! j = Some o.
Proof.
  intros Ha Hj Ho. rewrite (al_heap _ _ _ Ha); [done|]. intros ->.
  destruct (al_right _ _ _ Ha) as [d Hd]. rewrite Hd in Hj. by destruct (Ho d); simplify_eq.
Qed.

Lemma alike_fresh w v : alike k w v -> fresh_from (heap v) (brk v) -> fresh_from (heap w) (brk w).
Proof.
  intros Ha Hf j Hj. rewrite (al_brk _ _ _ Ha) in Hj. pose proof (al_below _ _ _ Ha).
  rewrite (al_heap _ _ _ Ha) by lia. by apply Hf.
Qed.

Lemma alike_echoing w v x rs hs es :
  alike k w v -> echoing gs gr c cc al ctx v x rs hs es -> echoing gs gr c cc al ctx w x rs hs es.
Proof.
  intros Ha [Hr Hs R1 R2 Hap Hh Hl].
  assert (forall j o, heap v !! j = Some o -> (forall d, o <> OConnCtx d) -> heap w !! j = Some o) as Hk
    by (intros; by eapply alike_kept).
  pose proof (ow_conn _ _ _ _ _ (rv_owner _ _ _ _ _ Hr)) as Hc.
  pose proof (alike_fresh _ _ Ha (ow_fresh _ _ _ _ _ (rv_owner _ _ _ _ _ Hr))) as Hf.
  assert (holds (heap w) (rs.*2 ++ hs ++ es.*2)) as Hh'.
  { eapply holds_kept; [|exact Hh]. intros j o E. specialize (Hk j o E). by destruct o; try apply Hk. }
  pose proof (hd_blocks _ _ Hh') as [Hb1 [_ Hb2]%Forall_app]%Forall_app. split; try done.
  - eapply receiver_move; [exact Hr|by apply Hk|done..| |by apply receives_have_messages].
    intros j o E. specialize (Hk j o E). destruct o; try done; by apply Hk.
  - eapply sender_move; [exact Hs|by apply Hk|done..| |by apply sends_have_messages].
    intros j o E. specialize (Hk j o E). destruct o; try done; by apply Hk.
  - eapply app_view_move; [exact Hap|done|]. intros j o E. specialize (Hk j o E). destruct o; try done; by apply Hk.
Qed.

Lemma alike_surrounds w v bg S : k ∈ S -> alike k w v -> surrounds bg v S -> surrounds bg w S.
Proof. intros Hk Ha [H1 H2]. split; [done|]. intros j Hj. rewrite (al_heap _ _ _ Ha) by congruence. by apply H2. Qed.

End transfer.

(** ** The events of a connection *)

(** The reads of a socket: the vector, its count, and the bytes. *)
Definition read_of (fd : Z) (e : event) : option (option iovptr * Z * Z) :=
  match e with KReadv fd' d n bytes => if fd' =? fd then Some (d, n, bytes) else None | _ => None end.

Definition reads (fd : Z) (t : list event) : list (option iovptr * Z * Z) := omap (read_of fd) t.

Lemma reads_app fd t1 t2 : reads fd (t1 ++ t2) = reads fd t1 ++ reads fd t2.
Proof. apply omap_app. Qed.

Lemma reads_visible fd t : reads fd (visible t) = reads fd t.
Proof.
  induction t as [|e t IH]; [done|]. change (e :: t) with ([e] ++ t). rewrite visible_app, !reads_app, IH. f_equal. by destruct e.
Qed.

Lemma alike_reads k fd w v : alike k w v -> reads fd (trace w) = reads fd (trace v).
Proof. intros Ha. rewrite <- (reads_visible fd (trace w)), (al_trace _ _ _ Ha). apply reads_visible. Qed.

Section steps.
Context `{Machine} `{Sys} `{Buffers} `{!Working} (gs gr : fn) (c cc al k : loc) (fd : Z) (pre : opening).
Context (L : loc) (bg : gmap loc obj) (depth : nat).
Hypothesis memory : forall l, malloc_ok l = true.

#[local] Abbreviation echoing := (echoing gs gr c cc al (Some cc)).
#[local] Abbreviation quiet := (echo_app (H0 := port_proto k) (S depth)).

(** The item that is being sent, if the library has any. *)
Definition sending (es : list (loc * body)) : option ptr :=
  match es with [] => None | (l, _) :: _ => Some (Some l) end.

(** The blocks of the connection at TCP, at the library and at the application. *)
Definition own_blocks : list loc := [k; c; cc].

(** The connection of the listener [L] receives into [b], sends [es], and the
    vectors [taken] were written since its acceptance; the rest of the heap is
    [bg]. *)
Record waits (w : world) (x : tapsConnection) (l : loc) (b : body) (es : list (loc * body)) (taken : list (iovptr * Z)) : Prop := {
  wt_echoing : echoing w x [(l, b)] [] es;
  wt_life : c_proto_ctx x = Some k /\ c_listener x = Some L /\ c_closed x = Some fn_app_closed;
  wt_ported : ported k fd pre w;
  wt_port : port_of k (trace w) = Port (sending es) (Some (Some l, IovMessage (b_message b), 1)) taken;
  wt_rest : surrounds bg w (own_blocks ++ echo_blocks ((l, b) :: es));
}.

Lemma life_kept x x' :
  same_life x x' -> c_proto_ctx x = Some k /\ c_listener x = Some L /\ c_closed x = Some fn_app_closed ->
  c_proto_ctx x' = Some k /\ c_listener x' = Some L /\ c_closed x' = Some fn_app_closed.
Proof. intros (-> & -> & ->). done. Qed.

Lemma echoing_fresh w x rs hs es : echoing w x rs hs es -> fresh_from (heap w) (brk w).
Proof. intros [Hr _ _ _ _ _ _]. apply Hr. Qed.

Lemma echoing_same_heap w w' x rs hs es : heap w' = heap w -> brk w' = brk w -> echoing w x rs hs es -> echoing w' x rs hs es.
Proof.
  intros E1 E2 Hg. eapply echoing_blocks; [exact Hg|by rewrite E1|rewrite E1, E2; by eapply echoing_fresh| |rewrite E1; apply Hg].
  intros j o Hj. rewrite E1. by destruct o.
Qed.

Lemma ported_related w : ported k fd pre w -> fresh_from (heap w) (brk w) -> related k (ported k fd pre) w w.
Proof.
  intros Hp Hf. split; [|done]. destruct Hp as (d & Hd & _). split; try done; [by exists d..|]. by eapply fresh_from_lt.
Qed.

(** A run of the library above a port, above TCP. *)
Lemma over_tcp {A} (P : A -> A -> Prop) (m n : M A) w b v' es :
  sim k (ported k fd pre) P m n -> ported k fd pre w -> fresh_from (heap w) (brk w) ->
  n w = (Ok b, v') -> trace v' = trace w ++ es -> Forall (for_context k) es ->
  exists a w', m w = (Ok a, w') /\ P a b /\ alike k w' v' /\ ported k fd pre w'
    /\ port_of k (trace w') = fold_left (port_step k) es (port_of k (trace w)).
Proof.
  intros [_ Hm] Hp Hf E T F. destruct (Hm w w b v' es) as (a & w' & E' & Hab & Ha & Hp'); [by apply ported_related|done..|].
  exists a, w'. splits; [done..|]. rewrite (related_port k w' v' Ha), T. apply fold_left_app.
Qed.

#[local] Instance server_quiet : SimApp k (ported k fd pre) (server (S depth)) quiet :=
  sim_echo_app (P1 := tcp_proto (H0 := server depth)) (P2 := port_proto k) k _ (S depth).

#[local] Abbreviation tcp := (tcp_proto (H0 := server (S depth))).

Lemma received_over_tcp i d n :
  sim k (ported k fd pre) eq (_taps_received_partial (H0 := server (S depth)) (H1 := tcp) i d n)
    (_taps_received_partial (H0 := quiet) (H1 := port_proto k) i d n).
Proof. exact (sim_received_partial (P1 := tcp) (P2 := port_proto k) k (ported k fd pre) i d n). Qed.

Lemma sent_over_tcp i :
  sim k (ported k fd pre) eq (_taps_sent (H0 := server (S depth)) (H1 := tcp) i)
    (_taps_sent (H0 := quiet) (H1 := port_proto k) i).
Proof. exact (sim_sent (P1 := tcp) (P2 := port_proto k) k (ported k fd pre) i). Qed.

(** What a connection that is writable reports to the library. *)
Lemma writable_run w s :
  ported k fd pre w -> pt_sending (port_of k (trace w)) = Some (Some s) ->
  exists w1, writable (S depth) k w = _taps_sent (H0 := server (S depth)) (H1 := tcp) (Some s) w1
    /\ ported k fd pre w1 /\ heap w1 = heap w /\ brk w1 = brk w
    /\ port_of k (trace w1) = Port None (pt_receiving (port_of k (trace w))) (pt_taken (port_of k (trace w)))
    /\ reads fd (trace w1) = reads fd (trace w).
Proof.
  intros Hp Ept. pose proof Hp as (d & Hd & Hf & Hs & _).
  assert (cc_sent d = Some fn_sent) as Hcb.
  { destruct (sv_sent _ _ _ Hs) as [[_ Hn]|]; [congruence|done]. }
  pose proof (sv_item _ _ _ Hs (Some s) Ept) as Hi.
  set (e1 := LFire (cc_sendEvent d) EV_WRITE (Some k)). set (e2 := USent fn_sent (Some s)).
  exists (add_event e2 (add_event e1 w)). splits; [|apply ported_event; [done..|]; by apply ported_writable|done|done| |].
  - unfold writable, fire. erewrite bind_ok by (by apply (load_ok (T := conn_ctx))). erewrite bind_ok by reflexivity.
    unfold _tcp_sent. erewrite bind_ok by (by apply (load_ok (T := conn_ctx))). by rewrite Hcb, Hi.
  - simpl. rewrite !port_of_snoc. simpl. by rewrite bool_decide_true.
  - simpl. rewrite !reads_app. simpl. by rewrite !app_nil_r.
Qed.

(** What a connection that is readable asks of the library. *)
Lemma readable_run w x l b es taken n :
  waits w x l b es taken -> 0 < n -> (forall h d m, length (reads fd h) = length (reads fd (trace w)) -> sys_readv h fd d m = n) ->
  exists w1, readable (S depth) k w
      = _taps_received_partial (H0 := server (S depth)) (H1 := tcp) (Some l) (IovMessage (b_message b)) n w1
    /\ echoing w1 x [(l, b)] [] es /\ ported k fd pre w1 /\ heap w1 = heap w /\ brk w1 = brk w
    /\ port_of k (trace w1) = Port (sending es) None taken /\ reads fd (trace w1) = reads fd (trace w) ++ [(Some (IovMessage (b_message b)), 1, n)].
Proof.
  intros [Hg Ep Hp Ept _] Hn Hrd. pose proof Hp as (d & Hd & Hf & Hs & _).
  destruct (sv_vector _ _ _ Hs (Some l) (IovMessage (b_message b)) 1) as (V1 & V2 & V3); [by rewrite Ept|].
  assert (cc_receivedPartial d = Some fn_received_partial) as Hcb.
  { destruct (sv_received _ _ _ Hs) as [[_ Hn']|[]]; [by rewrite Ept in Hn'|done]. }
  set (e1 := LFire (cc_receiveEvent d) EV_READ (Some k)). set (w0 := add_event e1 w).
  assert (reads fd (trace w0) = reads fd (trace w)) as Hr0 by (simpl; rewrite reads_app; simpl; apply app_nil_r).
  set (e2 := KReadv fd (Some (IovMessage (b_message b))) 1 n).
  set (e3 := UReceivedPartial fn_received_partial (Some l) (Some (IovMessage (b_message b))) n).
  exists (add_event e3 (add_event e2 w0)). splits; [|by do 3 apply echoing_event| |done|done| |].
  - unfold readable, fire. erewrite bind_ok by (by apply (load_ok (T := conn_ctx))). erewrite bind_ok by reflexivity.
    unfold _tcp_received. erewrite bind_ok by (by apply (load_ok (T := conn_ctx))).
    erewrite (bind_ok (ask _ _)) by reflexivity. rewrite Hf, V2, V3, (Hrd _ _ _ (f_equal length Hr0)).
    rewrite (proj2 (Z.ltb_ge _ _)), (proj2 (Z.eqb_neq _ _)) by lia.
    erewrite bind_ok by (by apply (load_ok (T := conn_ctx))). rewrite Hcb, V1, V2. done.
  - do 2 (apply ported_event; [done..|]). by apply ported_readable.
  - simpl. rewrite !port_of_snoc, Ept. simpl. by rewrite bool_decide_true.
  - change (reads fd ((trace w0 ++ [e2]) ++ [e3]) = reads fd (trace w) ++ [(Some (IovMessage (b_message b)), 1, n)]).
    rewrite !reads_app, Hr0. simpl. by rewrite Z.eqb_refl, app_nil_r.
Qed.

Lemma arrive_for_context l b n new : Forall (for_context k) (arrive_events gs gr cc (Some k) l b n new).
Proof. by repeat constructor. Qed.

(** Bytes arrive while nothing is being sent: they are written. *)
Lemma arrive_tcp w x l b taken n r :
  waits w x l b [] taken -> 0 < n <= BUF_SIZE -> stale l = Some (ORecv r) -> r_currLength r = n ->
  (forall h d m, length (reads fd h) = length (reads fd (trace w)) -> sys_readv h fd d m = n) ->
  exists w' x', readable (S depth) k w = (Ok tt, w')
    /\ waits w' x' (next_item (brk w)) (next_body (brk w)) [(brk w, Body (b_msg b) (b_message b) n)]
         (taken ++ [(IovMessage (b_message b), 1)])
    /\ brk w' = Pos.succ (next_item (brk w)) /\ reads fd (trace w') = reads fd (trace w) ++ [(Some (IovMessage (b_message b)), 1, n)].
Proof.
  intros Hw Hn Hst Hlen Hrd.
  destruct (readable_run w x l b [] taken n Hw) as (w1 & E1 & Hg1 & Hp1 & Eh & Eb & Ep1 & R1); [lia|done|].
  pose proof Hw as [_ El _ _ Hsr]. pose proof (proj1 El) as Ec. apply (surrounds_heap _ _ w1) in Hsr; [|done].
  destruct (arrive_step (H0 := port_proto k) gs gr c cc al depth memory w1 x l b [] n r) as (v' & x' & E2 & Hg2 & Ec2 & B2 & U2 & T2);
    [done|lia|done|done| |].
  { intros item d m v z v' Tv [= <- _]. rewrite Tv, removelast_last. unfold port_of. rewrite fold_left_app.
    fold (port_of k (trace w1)). by rewrite Ep1. }
  rewrite Ec in T2.
  destruct (over_tcp eq _ _ w1 tt v' _ (received_over_tcp (Some l) (IovMessage (b_message b)) n) Hp1 (echoing_fresh _ _ _ _ _ Hg1) E2 T2 (arrive_for_context _ _ _ _))
    as ([] & w' & E3 & _ & Ha & Hp' & Ept). rewrite Eb in *.
  exists w', x'. splits; [by rewrite E1| |by rewrite (al_brk _ _ _ Ha)|].
  - split; [by eapply alike_echoing|by eapply life_kept|done| |].
    + rewrite Ept, Ep1. simpl. by rewrite !bool_decide_true.
    + eapply alike_surrounds; [by left|exact Ha|]. apply (U2 bg own_blocks) in Hsr; [done|by right; left].
  - rewrite (alike_reads _ fd _ _ Ha), T2, reads_app, R1. apply app_nil_r.
Qed.

(** The socket is writable again: the message is given back. *)
Lemma written_tcp w x l b s bs taken :
  waits w x l b [(s, bs)] taken ->
  exists w' x', writable (S depth) k w = (Ok tt, w') /\ waits w' x' l b [] taken
    /\ brk w' = brk w /\ reads fd (trace w') = reads fd (trace w)
    /\ heap w' !! b_message bs = None /\ heap w' !! b_msg bs = None.
Proof.
  intros [Hg Ec Hp Ept Hsr].
  destruct (writable_run w s Hp) as (w1 & E1 & Hp1 & Eh & Eb & Ep1 & R1); [by rewrite Ept|].
  assert (echoing w1 x [(l, b)] [] [(s, bs)]) as Hg1 by (by eapply echoing_same_heap).
  destruct (written_step (H0 := port_proto k) gs gr c cc al depth memory w1 x [(l, b)] [] [] s bs)
    as (v' & x' & E2 & Hg2 & Ec2 & B2 & D1 & D2 & U2 & T2); [done|].
  apply (surrounds_heap _ _ w1) in Hsr; [|done].
  destruct (over_tcp eq _ _ w1 tt v' _ (sent_over_tcp (Some s)) Hp1
              (echoing_fresh _ _ _ _ _ Hg1) E2 T2) as ([] & w' & E3 & _ & Ha & Hp' & Ept'); [by repeat constructor|].
  assert (forall j, j <> k -> heap v' !! j = None -> heap w' !! j = None) as Hdead
    by (intros j Hj E; by rewrite (al_heap _ _ _ Ha)).
  destruct Hp as (d & Hd & _), Hg as [_ _ _ _ _ [[_ [_ [[B1' B2'] _]%Forall_cons]%Forall_app]%Forall_app _ _] _].
  exists w', x'. splits.
  - by rewrite E1.
  - split; [by eapply alike_echoing|by eapply life_kept|done|by rewrite Ept', Ep1, Ept|].
    eapply alike_surrounds; [by left|exact Ha|]. apply (U2 bg own_blocks); [by right; left|exact Hsr].
  - by rewrite (al_brk _ _ _ Ha), B2.
  - rewrite (alike_reads _ fd _ _ Ha), T2, reads_app, R1. apply app_nil_r.
  - apply Hdead; [|done]. intros E. simpl in *. congruence.
  - apply Hdead; [|done]. intros E. simpl in *. congruence.
Qed.

End steps.

(** ** The acceptance of a connection *)

(** What the end of a context gives back. *)
Definition close_calls (h : holding) : list event :=
  match h with HConnection fd ce se re _ _ => [LFree ce; LFree se; LFree re; KClose fd] | HAccepting _ => [] end.

(** The context [k] of connection [c] was opened on socket [fd] after the calls
    [t]: nothing is written to it yet, its events are new ones, and its end gives
    back what it took. *)
Record opened (t : list event) (k : loc) (fd : Z) (c : loc) (pre : opening) : Prop := {
  od_writes : op_writes pre = writes fd t;
  od_calls : exists es, op_trace pre = t ++ es /\ Forall (about k (op_held pre)) es;
  od_fresh e : e ∈ context_events (op_held pre) -> events e t = 0;
  od_distinct : NoDup (context_events (op_held pre));
  od_held : exists ce se re, op_held pre = HConnection fd ce se re (Some fn_closed) (Some c);
  od_balanced : balanced t (op_trace pre ++ close_calls (op_held pre));
}.

Lemma opened_told t k fd c pre ce se re p es :
  op_writes pre = writes fd t -> op_held pre = HConnection fd ce se re (Some fn_closed) p ->
  op_trace pre = t ++ es -> Forall (about k (op_held pre)) es ->
  (forall e, e ∈ context_events (op_held pre) -> events e t = 0) -> NoDup [ce; se; re] ->
  balanced t (op_trace pre ++ close_calls (op_held pre)) -> opened t k fd c (told (Some c) pre).
Proof.
  intros Hw Hh Ht Ha Hf Hd Hb. rewrite Hh in *. split; unfold told; rewrite Hh; try done; [|by exists ce, se, re].
  by exists es.
Qed.

Section accept.
Context `{Machine} `{Sys} `{Buffers} `{!Working} (gs gr : fn) (al : loc) (depth : nat).
Hypothesis memory : forall l, malloc_ok l = true.

Lemma distinct_events d :
  NoDup (context_events (held d)) ->
  cc_closeEvent d <> cc_sendEvent d /\ cc_closeEvent d <> cc_receiveEvent d /\ cc_sendEvent d <> cc_receiveEvent d.
Proof. simpl. rewrite !NoDup_cons, !not_elem_of_cons. tauto. Qed.

(** A new context is an idle port. *)
Lemma accepted_port lfd K lc w :
  heap w !! K = Some (OListenerCtx lc) -> fresh_from (heap w) (brk w) -> 0 <= sys_accept (trace w) lfd ->
  cc_sent (uninit (brk w)) = None -> cc_received (uninit (brk w)) = None ->
  lc_connectionReceived lc = Some fn_connection_received -> lc_closed lc = Some fn_closed ->
  let k := brk w in
  let fd := sys_accept (trace w) lfd in
  exists d w1 pre, _tcp_connection_received (H1 := library_taps (H0 := server (S depth))) lfd (Some K) w
      = (t ← _taps_connection_received (H0 := server (S depth)) (lc_taps_ctx lc) (Some k);
         modify (Some k) (set_cc_taps_ctx t) ;;
         match t with None => refuse (Some k) | Some _ => mret tt end) w1
    /\ heap w1 = <[k := OConnCtx d]> (heap w) /\ brk w1 = Pos.succ k
    /\ ported k fd pre w1 /\ port_of k (trace w1) = idle_port /\ reads fd (trace w1) = reads fd (trace w)
    /\ forall c, opened (trace w) k fd c (told (Some c) pre).
Proof.
  intros HK Hf Hfd Hs Hr Hcr Hcl. cbv zeta.
  destruct (accept_ok (H1 := library_taps (H0 := server (S depth))) lfd K lc w)
    as (d & h & wz & w1 & E1 & Eh1 & Eb1 & F1 & (F2 & F3 & Hrow) & T1); [done|apply Hf; lia|done|done|].
  destruct (events_in_a_row_made _ _ _ Hrow) as (M1 & M2 & M3).
  set (k := brk w) in *. set (fd := sys_accept (trace w) lfd) in *.
  assert (K <> k) as Hne by (pose proof (fresh_from_lt _ _ _ _ Hf HK); unfold k; lia).
  unfold close_event_calls in T1. rewrite (proj2 (Z.ltb_ge _ _)), app_nil_r in T1 by apply working_add.
  destruct (events_in_a_row_new _ _ _ Hrow) as [Hnd Hnew].
  set (d1 := set_cc_end (lc_closed lc) (lc_connectionError lc) d).
  set (w2 := set_heap (<[k := OConnCtx d1]> (heap w1)) w1). set (e := UConnectionReceived fn_connection_received (lc_taps_ctx lc) (Some k)).
  assert (forall r, port_of k ((trace w ++ accept_calls lfd k d r) ++ [e]) = idle_port) as Hidle.
  { intros r. unfold port_of. rewrite !fold_left_app. simpl. by rewrite !bool_decide_true. }
  assert (writes fd (trace (add_event e w2)) = writes fd (trace w)) as Hwr.
  { simpl. rewrite T1, !writes_app. simpl. by rewrite !app_nil_r. }
  exists d1, (add_event e w2), (Opening (held d1) (writes fd (trace w)) (trace (add_event e w2))). splits.
  - rewrite E1, (option_alive _ _ _ M1). unfold introduce. erewrite bind_ok by (apply (load_ok (T := listener_ctx)); by rewrite Eh1, lookup_insert_ne).
    erewrite bind_ok by (apply (modify_ok (T := conn_ctx)); rewrite Eh1; apply lookup_insert_eq).
    rewrite Hcr. unfold call_up. rewrite bind_assoc. by erewrite bind_ok by reflexivity.
  - simpl. by rewrite Eh1, insert_insert_eq.
  - done.
  - exists d1. cbn [op_trace]. simpl. rewrite lookup_insert_eq, T1.
    assert (port_of k ((trace w ++ accept_calls lfd k d (lev_add h (cc_closeEvent d))) ++ [e]) = idle_port) as -> by apply Hidle.
    split; [done|]. split; [by rewrite <- F1|].
    split; [|split; [rewrite !writes_app; simpl; by rewrite !app_nil_r|split; [done|exists []; by rewrite app_nil_r, <- T1]]].
    destruct (distinct_events d Hnd) as (N1 & N2 & N3).
    split; simpl; [done|done| | |left; split; congruence..|done|done]; unfold pending; rewrite !fold_left_app; simpl.
    + by rewrite (bool_decide_false (cc_closeEvent d = _)), (bool_decide_false (cc_receiveEvent d = _)), bool_decide_true by congruence.
    + by rewrite (bool_decide_false (cc_closeEvent d = _)), bool_decide_true by congruence.
  - simpl. rewrite T1. apply Hidle.
  - simpl. rewrite T1, !reads_app. simpl. by rewrite !app_nil_r.
  - intros c. eapply (opened_told _ k fd _ _ (cc_closeEvent d) (cc_sendEvent d) (cc_receiveEvent d) (cc_taps_ctx d1));
      cbn [op_trace op_held op_writes]; [done| | | | | |].
    + unfold held. simpl. by rewrite Hcl, F1.
    + simpl. rewrite T1, <- app_assoc. done.
    + repeat constructor; simpl; try done; set_solver.
    + intros e' He'. specialize (Hnew e' He'). rewrite events_app in Hnew. unfold events at 2 in Hnew. simpl in Hnew. lia.
    + exact Hnd.
    + simpl. rewrite T1, <- !app_assoc. apply balanced_app; intros; unfold opens, events; simpl; repeat case_match; lia.
Qed.

(** The seven blocks that are new. *)
Lemma accept_surrounds L o lo kd w v :
  let k := brk w in
  let cc := Pos.succ (Pos.succ k) in
  fresh_from (heap w) k -> heap w !! L = Some o -> fresh_from (heap v) (brk v) -> brk v = Pos.succ (next_item cc) ->
  (forall j, (j < Pos.succ k)%positive -> heap v !! j = <[L := lo]> (<[k := kd]> (heap w)) !! j) ->
  surrounds (<[L := lo]> (heap w)) v (own_blocks (Pos.succ k) cc k ++ echo_blocks [(next_item cc, next_body cc)]).
Proof.
  intros k cc Hf HL Hf' Hb Hk. pose proof (fresh_from_lt _ _ _ _ Hf HL).
  assert (forall j, (k <= j)%positive -> <[L := lo]> (heap w) !! j = None) as Hn.
  { intros j Hj. rewrite lookup_insert_ne by lia. by apply Hf. }
  unfold own_blocks, echo_blocks, queued_blocks, next_item in *. split; intros j; simpl; rewrite !elem_of_cons, elem_of_nil; intros Hj.
  - apply Hn. unfold cc in *. lia.
  - destruct (decide (j < k)%positive).
    + rewrite Hk by lia. destruct (decide (j = L)) as [->|]; [by rewrite !lookup_insert_eq|]. by rewrite !lookup_insert_ne by (done || lia).
    + rewrite Hn by lia. apply Hf'. rewrite Hb. unfold cc in *. lia.
Qed.

Lemma accept_tcp lfd K lc L lx y w :
  heap w !! K = Some (OListenerCtx lc) -> fresh_from (heap w) (brk w) -> 0 <= sys_accept (trace w) lfd ->
  cc_sent (uninit (brk w)) = None -> cc_received (uninit (brk w)) = None ->
  lc_connectionReceived lc = Some fn_connection_received -> lc_closed lc = Some fn_closed -> lc_taps_ctx lc = Some L ->
  heap w !! L = Some (OListener lx) -> l_connectionReceived lx = Some fn_app_connection_received ->
  l_app_ctx lx = Some al -> ph_send (l_handles lx) = Some gs -> ph_receive (l_handles lx) = Some gr ->
  heap w !! al = Some (OAppListener y) -> al_callbacks y = cbs ->
  let k := brk w in
  let fd := sys_accept (trace w) lfd in
  let cc := Pos.succ (Pos.succ k) in
  let bg := <[L := OListener (set_l_ref_count (u32 (l_ref_count lx + 1)) lx)]> (heap w) in
  exists w' x' pre, _tcp_connection_received (H1 := library_taps (H0 := server (S depth))) lfd (Some K) w = (Ok tt, w')
    /\ opened (trace w) k fd (Pos.succ k) pre
    /\ waits gs gr (Pos.succ k) cc al k fd pre L bg w' x' (next_item cc) (next_body cc) [] []
    /\ brk w' = Pos.succ (next_item cc) /\ reads fd (trace w') = reads fd (trace w).
Proof.
  intros HK Hf Hfd Hs Hr Hcr Hcl HT HL E1 E2 E3 E4 Hal Ecb. cbv zeta.
  destruct (accepted_port lfd K lc w) as (d & w1 & pre & Er & Eh1 & Eb1 & Hp1 & Ept1 & R1 & Hop); [done..|].
  rewrite HT in Er. set (k := brk w) in *. set (fd := sys_accept (trace w) lfd) in *.
  assert (fresh_from (heap w1) (brk w1)) as Hf1.
  { rewrite Eh1, Eb1. apply fresh_from_insert; [lia|]. intros j Hj. apply Hf. unfold k in Hj. lia. }
  assert (forall j o, heap w !! j = Some o -> heap w1 !! j = Some o) as Hk.
  { intros j o E. pose proof (fresh_from_lt _ _ _ _ Hf E). rewrite Eh1, lookup_insert_ne by (unfold k; lia). done. }
  destruct (accept_step (H0 := port_proto k) gs gr al depth w1 L lx (Some k) y)
    as (v' & x' & r & Eq & Hg & El & U & T & Er2 & B); [done|done|by apply Hk|done|done|done|done|by apply Hk|done|].
  destruct (over_tcp k fd _ eq _ _ w1 _ v' _ (sim_connection_received k _ (A1 := server (S depth)) (SimApp0 := server_quiet k fd _ depth) (Some L) (Some k)) Hp1 Hf1 Eq T)
    as (t & w2 & E & -> & Ha & Hp2 & Ept2); [by repeat constructor|].
  destruct (ported_taps_ctx k fd _ (Some (brk w1)) w2 Hp2) as (w3 & E5 & Hp3 & H3 & B3 & N3 & T3).
  assert (alike k w3 v') as Ha3.
  { eapply (alike_touched k); [exact Ha| |]; [|by destruct Hp3 as (d3 & ? & _); exists d3].
    unfold touched. splits; [done|done|done|by rewrite T3]. }
  subst r. rewrite Eb1 in *. exists w3, x', (told (Some (Pos.succ k)) pre). splits; [|apply Hop|..].
  - rewrite Er. erewrite bind_ok by exact E. by erewrite bind_ok by exact E5.
  - split; [by eapply alike_echoing|done|done| |].
    + rewrite T3, Ept2, Ept1. simpl. by rewrite bool_decide_true.
    + eapply alike_surrounds; [by left|exact Ha3|]. rewrite Eh1 in U.
      eapply (accept_surrounds L (OListener lx) _ (OConnCtx d)); try done. apply Hg.
  - by rewrite B3, (al_brk _ _ _ Ha).
  - rewrite T3, (alike_reads _ fd _ _ Ha), T, <- R1, reads_app. simpl. by rewrite app_nil_r.
Qed.

End accept.

(** ** Sessions *)

Section session.
Context `{Machine} `{Sys} `{Buffers} (depth : nat) (k : loc) (fd : Z).

(** A run of rounds at a connection: [n] bytes are read into the whole buffer at
    [a] of a message, the message is cut to them, it is written, and when the
    socket is writable again it is given back. *)
Inductive rounds : list Z -> world -> world -> Prop :=
| rounds_nil w : rounds [] w w
| rounds_cons n ns m a w w1 w2 w' :
    heap w !! m = Some (OMessage (Message (Iovec a BUF_SIZE) None 1)) ->
    readable depth k w = (Ok tt, w1) ->
    reads fd (trace w1) = reads fd (trace w) ++ [(Some (IovMessage m), 1, n)] ->
    heap w1 !! m = Some (OMessage (Message (Iovec a n) None 1)) ->
    writes fd (trace w1) = writes fd (trace w) ++ [(IovMessage m, 1)] ->
    writable depth k w1 = (Ok tt, w2) ->
    heap w2 !! m = None -> writes fd (trace w2) = writes fd (trace w1) ->
    rounds ns w2 w' -> rounds (n :: ns) w w'.

(** The peer sends [ns]: what the reads after the first [i] ones yield. *)
Definition peer_sends (i : nat) (ns : list Z) : Prop :=
  forall h d m j n, ns !! j = Some n -> length (reads fd h) = (i + j)%nat -> sys_readv h fd d m = n.

(** The items of the receives, the first one at [l], still hold the number of
    bytes when they are read after their release. *)
Fixpoint lengths_survive (l : loc) (ns : list Z) : Prop :=
  match ns with
  | [] => True
  | n :: ns => (exists r, stale l = Some (ORecv r) /\ r_currLength r = n) /\ lengths_survive (next_item (Pos.succ l)) ns
  end.

Lemma peer_next i n ns : peer_sends i (n :: ns) -> peer_sends (S i) ns.
Proof. intros Hp h d m j n' Hj Hl. apply (Hp h d m (S j) n'); [done|lia]. Qed.

Lemma peer_first i n ns h d m : peer_sends i (n :: ns) -> length (reads fd h) = i -> sys_readv h fd d m = n.
Proof. intros Hp Hl. apply (Hp h d m 0%nat n); [done|lia]. Qed.

End session.

Section sessions.
Context `{Machine} `{Sys} `{Buffers} `{!Working} (gs gr : fn) (c cc al k : loc) (fd : Z) (pre : opening).
Context (L : loc) (bg : gmap loc obj) (depth : nat).
Hypothesis memory : forall l, malloc_ok l = true.

#[local] Abbreviation waits := (waits gs gr c cc al k fd pre L bg).

Lemma waits_message w x l b es taken :
  waits w x l b es taken -> heap w !! b_message b = Some (OMessage (Message (Iovec (buf_of (b_msg b)) BUF_SIZE) None 1)).
Proof.
  intros [[_ _ _ _ _ [[[_ E] _]%Forall_cons _ _] [Hl _]%Forall_cons] _ _ _ _]. unfold body_message in E. simpl in *. by rewrite Hl in E.
Qed.

Lemma waits_sending w x l b s bs taken :
  waits w x l b [(s, bs)] taken -> heap w !! b_message bs = Some (OMessage (body_message bs)).
Proof. by intros [[_ _ _ _ _ [[_ [[_ E] _]%Forall_cons]%Forall_cons _ _] _] _ _ _ _]. Qed.

Lemma waits_writes w x l b es taken : waits w x l b es taken -> writes fd (trace w) = op_writes pre ++ taken.
Proof. intros [_ _ (d & _ & _ & _ & E & _) Ep _]. by rewrite Ep in E. Qed.

(** Any number of rounds. *)
Lemma waits_rounds ns w x l b taken :
  waits w x l b [] taken -> brk w = Pos.succ l -> Forall (fun n => 0 < n <= BUF_SIZE) ns ->
  peer_sends fd (length (reads fd (trace w))) ns -> lengths_survive l ns ->
  exists w' x' l' b' taken', rounds (S depth) k fd ns w w' /\ waits w' x' l' b' [] taken' /\ brk w' = Pos.succ l'.
Proof.
  revert w x l b taken. induction ns as [|n ns IH]; intros w x l b taken Hw Hb Hns Hp Hs.
  { exists w, x, l, b, taken. splits; [constructor|done|done]. }
  apply Forall_cons in Hns as [Hn Hns]. destruct Hs as [(r & Hst & Hlen) Hs].
  destruct (arrive_tcp gs gr c cc al k fd pre L bg depth memory w x l b taken n r Hw Hn Hst Hlen) as (w1 & x1 & E1 & Hw1 & B1 & R1).
  { intros h d m Hl. by eapply peer_first. }
  destruct (written_tcp gs gr c cc al k fd pre L bg depth memory w1 x1 _ _ _ _ _ Hw1) as (w2 & x2 & E2 & Hw2 & B2 & R2 & D & _).
  rewrite <- Hb in Hs.
  destruct (IH w2 x2 _ _ _ Hw2) as (w' & x' & l' & b' & taken' & Hr & Hw' & Hb'); [congruence|done| |done|].
  { rewrite R2, R1, length_app, Nat.add_1_r. by eapply peer_next. }
  exists w', x', l', b', taken'. split; [|done].
  eapply (rounds_cons _ _ _ n ns (b_message b) (buf_of (b_msg b))); [by eapply waits_message|exact E1|exact R1| | |exact E2|exact D| |exact Hr].
  - exact (waits_sending _ _ _ _ _ _ _ Hw1).
  - by rewrite (waits_writes _ _ _ _ _ _ Hw1), (waits_writes _ _ _ _ _ _ Hw), app_assoc.
  - by rewrite (waits_writes _ _ _ _ _ _ Hw2), (waits_writes _ _ _ _ _ _ Hw1).
Qed.

(** A read while a message is being sent: TCP refuses the next one, its message
    is freed, and the library reads it when the first one has been sent. *)
Lemma overrun w x l b s bs taken n r :
  waits w x l b [(s, bs)] taken -> 0 < n <= BUF_SIZE -> stale l = Some (ORecv r) -> r_currLength r = n ->
  (forall h d m, length (reads fd h) = length (reads fd (trace w)) -> sys_readv h fd d m = n) ->
  stale (b_message b) = None ->
  exists w1 w2, readable (S depth) k w = (Ok tt, w1) /\ writes fd (trace w1) = writes fd (trace w)
    /\ writable (S depth) k w1 = (Fault (UseAfterFree (b_message b)), w2).
Proof.
  intros Hw Hn Hst Hlen Hrd Hdead.
  destruct (readable_run gs gr c cc al k fd pre L bg depth w x l b _ taken n Hw) as (w1 & E1 & Hg1 & Hp1 & Eh & Eb & Ep1 & R1); [lia|done|].
  pose proof Hw as [_ [Ec _] _ _ _].
  destruct (refused_arrival (H0 := port_proto k) gs gr c cc al depth w1 x l b [(s, bs)] n r memory)
    as (v' & x' & E2 & Ho & D & T2); [|done|lia|done|done|].
  { intros item d m v z v' Tv [= <- _]. rewrite Tv, removelast_last. unfold port_of. rewrite fold_left_app.
    fold (port_of k (trace w1)). by rewrite Ep1. }
  rewrite Ec in T2.
  destruct (over_tcp k fd pre eq _ _ w1 tt v' _ (received_over_tcp k fd pre depth (Some l) (IovMessage (b_message b)) n) Hp1
              (echoing_fresh _ _ _ _ _ _ _ _ _ _ Hg1) E2 T2 (arrive_for_context gs gr cc k _ _ _ _))
    as ([] & w' & E3 & _ & Ha & Hp' & Ept).
  rewrite Ep1 in Ept. simpl in Ept. rewrite bool_decide_true in Ept by done. simpl in Ept.
  destruct (writable_run k fd pre depth w' s Hp') as (w2 & E4 & _ & Eh2 & Eb2 & _); [by rewrite Ept|].
  assert (b_message b <> k) as Hne.
  { intros E. pose proof (waits_message _ _ _ _ _ _ Hw) as Em. destruct Hp1 as (d & Hd & _). rewrite Eh, <- E in Hd. congruence. }
  assert (owner sndq w2 c x' (echo_send c <$> [(s, bs)] ++ [(brk w1, Body (b_msg b) (b_message b) n)])) as Ho2.
  { eapply (owner_move c sndq v' w2 x' x'); [exact Ho| |done| |]; rewrite ?Eh2, ?Eb2.
    - eapply alike_kept; [exact Ha|apply Ho|done].
    - eapply alike_fresh; [exact Ha|apply Ho].
    - intros j it Hj. by eapply alike_kept. }
  destruct (next_message_read (H3 := server (S depth)) (H0 := tcp_proto (H0 := server (S depth))) c w2 x' [] s _ _ _ [] (b_message b) Ho2)
    as (w3 & E5); [done|done| |done|].
  { rewrite Eh2, (al_heap _ _ _ Ha) by done. exact D. }
  exists w', w3. splits; [by rewrite E1| |by rewrite E4].
  destruct Hp' as (d & _ & _ & _ & Ew & _). by rewrite Ew, Ept, (waits_writes _ _ _ _ _ _ Hw).
Qed.

End sessions.

Section properties.
Context `{Machine} `{Sys} `{Buffers} `{!Working} (depth : nat).

(** The TCP context [K] listens for the library's listener [L], whose
    application is the echo server with its structure at [al]. *)
Record echo_listens (w : world) (K L al : loc) : Prop := {
  ls_fresh : fresh_from (heap w) (brk w);
  ls_context : exists lc, heap w !! K = Some (OListenerCtx lc) /\ lc_connectionReceived lc = Some fn_connection_received
                 /\ lc_closed lc = Some fn_closed /\ lc_taps_ctx lc = Some L;
  ls_listener : exists lx gs gr, heap w !! L = Some (OListener lx)
                 /\ l_connectionReceived lx = Some fn_app_connection_received /\ l_app_ctx lx = Some al
                 /\ ph_send (l_handles lx) = Some gs /\ ph_receive (l_handles lx) = Some gr;
  ls_app : exists y, heap w !! al = Some (OAppListener y) /\ al_callbacks y = cbs;
}.

(** A connection can be accepted: there is memory, a socket, and the memory of
    the new context is blank. *)
Record can_accept (w : world) (lfd : Z) : Prop := {
  ca_memory l : malloc_ok l = true;
  ca_socket : 0 <= sys_accept (trace w) lfd;
  ca_blank : cc_sent (uninit (brk w)) = None /\ cc_received (uninit (brk w)) = None;
}.

#[local] Abbreviation accept := (_tcp_connection_received (H1 := library_taps (H0 := server (S depth)))).

(** The state after the acceptance, for the lemmas on rounds. *)
Lemma accepted w lfd K L al :
  echo_listens w K L al -> can_accept w lfd ->
  let k := brk w in
  let cc := Pos.succ (Pos.succ k) in
  let fd := sys_accept (trace w) lfd in
  exists gs gr lx w' x' pre, accept lfd (Some K) w = (Ok tt, w')
    /\ opened (trace w) (brk w) fd (Pos.succ k) pre /\ heap w !! L = Some (OListener lx)
    /\ waits gs gr (Pos.succ k) cc al k fd pre L (<[L := OListener (set_l_ref_count (u32 (l_ref_count lx + 1)) lx)]> (heap w))
         w' x' (next_item cc) (next_body cc) [] []
    /\ brk w' = Pos.succ (next_item cc) /\ reads fd (trace w') = reads fd (trace w).
Proof.
  intros [Hf (lc & HK & E1 & E2 & E2') (lx & gs & gr & HL & E3 & E4 & E5 & E6) (y & Hy & E7)] [Hm Hfd [Hb1 Hb2]].
  destruct (accept_tcp gs gr al depth Hm lfd K lc L lx y w) as (w' & x' & pre & ?); [done..|].
  exists gs, gr, lx, w', x', pre. tauto.
Qed.

(** C5: one connection of the whole program echoes.  From the acceptance of a
    connection by the TCP library, for any sequence of reads of 1 to 1024 bytes,
    each followed by the socket being writable before the next: the bytes are
    read into the whole buffer of a message, the one vector written to the socket
    after it is that message cut to the bytes that were read, and the message is
    freed when the write is done.  Assumed: there is memory, the memory of the
    new context is blank, libevent and the sockets work as documented ([Working]),
    and the freed item of each receive still holds its byte count when the code
    reads it ([lengths_survive]); on a machine that traps that read the first
    arrival faults (C35). *)
Theorem tcp_echo_session w lfd K L al ns :
  echo_listens w K L al -> can_accept w lfd -> Forall (fun n => 0 < n <= BUF_SIZE) ns ->
  let fd := sys_accept (trace w) lfd in
  peer_sends fd (length (reads fd (trace w))) ns -> lengths_survive (next_item (Pos.succ (Pos.succ (brk w)))) ns ->
  exists w1 w2, accept lfd (Some K) w = (Ok tt, w1)
    /\ reads fd (trace w1) = reads fd (trace w) /\ writes fd (trace w1) = writes fd (trace w)
    /\ rounds (S depth) (brk w) fd ns w1 w2.
Proof.
  intros Hls Hca Hns fd Hp Hs. destruct (accepted w lfd K L al Hls Hca) as (gs & gr & lx & w1 & x1 & pre & E1 & Hop & _ & Hw & B1 & R1).
  fold fd in Hw, R1, Hop. destruct (waits_rounds gs gr _ _ al (brk w) fd _ L _ depth (ca_memory _ _ Hca) ns w1 x1 _ _ [] Hw B1 Hns)
    as (w2 & x2 & l & b & taken & Hr & _); [by rewrite R1|done|].
  exists w1, w2. splits; [done|done| |done]. by rewrite (waits_writes _ _ _ _ _ _ _ _ _ _ _ _ _ _ _ _ Hw), app_nil_r, (od_writes _ _ _ _ _ Hop).
Qed.

(** C33: two reads in a row break the echo server.  When the peer sends again
    before the socket is writable, the TCP library refuses the second message,
    the application frees it, and it stays queued: nothing is written for it,
    and when the first message has been written the library reads the freed
    one. *)
Theorem tcp_echo_overrun w lfd K L al n1 n2 :
  echo_listens w K L al -> can_accept w lfd -> Forall (fun n => 0 < n <= BUF_SIZE) [n1; n2] ->
  let fd := sys_accept (trace w) lfd in
  let k := brk w in
  let l := next_item (Pos.succ (Pos.succ k)) in
  let m := b_message (next_body (Pos.succ l)) in
  peer_sends fd (length (reads fd (trace w))) [n1; n2] -> lengths_survive l [n1; n2] -> stale m = None ->
  exists w1 w2 w3 w4, accept lfd (Some K) w = (Ok tt, w1) /\ readable (S depth) k w1 = (Ok tt, w2)
    /\ readable (S depth) k w2 = (Ok tt, w3) /\ writes fd (trace w3) = writes fd (trace w2)
    /\ writable (S depth) k w3 = (Fault (UseAfterFree m), w4).
Proof.
  intros Hls Hca [Hn1 [Hn2 _]%Forall_cons]%Forall_cons fd k l m Hp [(r1 & S1 & L1) [(r2 & S2 & L2) _]] Hd.
  destruct (accepted w lfd K L al Hls Hca) as (gs & gr & lx & w1 & x1 & pre & E1 & _ & _ & Hw & B1 & R1).
  fold fd k in Hw, R1, B1. fold l in Hw, B1.
  destruct (arrive_tcp gs gr _ _ al k fd _ L _ depth (ca_memory _ _ Hca) w1 x1 _ _ _ n1 r1 Hw Hn1 S1 L1) as (w2 & x2 & E2 & Hw2 & B2 & R2).
  { intros h d j Hl. eapply peer_first; [exact Hp|congruence]. }
  rewrite B1 in Hw2.
  destruct (overrun gs gr _ _ al k fd _ L _ depth (ca_memory _ _ Hca) w2 x2 _ _ _ _ _ n2 r2 Hw2 Hn2 S2 L2) as (w3 & w4 & E3 & W3 & E4); [|done|].
  { intros h d j Hl. apply (Hp h d j 1%nat n2); [done|]. by rewrite Hl, R2, length_app, R1. }
  by exists w1, w2, w3, w4.
Qed.

End properties.

(** ** A session at a sample server *)

Module EchoTcpSample.

#[local] Instance buffers : Buffers := fun l => 4096 * Z.pos l.

(** The items of the first two receives survive their release. *)
Definition item (n : Z) : recv_item := RecvItem None 0 BUF_SIZE n None None None None None None None.
#[local] Instance machine : Machine :=
  test_machine (fun l => if Pos.eqb l 9 then Some (ORecv (item 10)) else if Pos.eqb l 13 then Some (ORecv (item 20)) else None)
    (fun _ => None).

(** An event pointer above all that occur in a history. *)
Definition event_bound (h : list event) : positive :=
  foldr (fun ev m => match ev with LNew (Some e) _ _ _ | LFree (Some e) => Pos.max e m | _ => m end) 100%positive h.

(** The peer sends ten bytes, then twenty. *)
#[local] Instance sys : Sys := {|
  sys_socket _ _ := 5;
  sys_bind _ _ _ := 0;
  sys_listen _ _ _ := 0;
  sys_accept _ _ := 7;
  sys_readv h fd _ _ := nth (length (reads fd h)) [10; 20] 0;
  sys_writev _ _ _ _ := 10;
  lev_new h _ _ _ _ := Some (Pos.succ (event_bound h));
  lev_add _ _ := 0;
  lev_pending h e := pending e h;
|}.

Lemma above_bound h e : (event_bound h < e)%positive -> events (Some e) h = 0.
Proof.
  induction h as [|ev h IH]; intros He; [done|]. unfold events in *.
  destruct ev as [| | | | | | | | | | | | | | | | | | | | | | | | |[e'|]| | |[e'|]| | | | | | |]; simpl in *; try (apply IH; lia).
  all: rewrite bool_decide_false by (intros [= ->]; lia); apply IH; lia.
Qed.

#[local] Instance sys_working : Working.
Proof. split; intros; simpl; try done. apply above_bound. lia. Qed.

Definition lctx : listener_ctx :=
  ListenerCtx (Some 21%positive) (Some 22%positive) 5 (Some fn_connection_received) None (Some fn_closed)
    (Some fn_connection_error) (Some 2%positive).
Definition handles : proto_handles := Handles (Some 31%positive) (Some 101%positive) (Some 102%positive) (Some 103%positive) (Some 104%positive).
Definition listener : tapsListener :=
  Listener (Some 1%positive) (Some 3%positive) handles (Some fn_app_connection_received)
    (Some fn_app_establishment_error) None 0 4294967295 (Some 21%positive) 0 0.
Definition of_app : app_listener := AppListener (Some 21%positive) (Some 2%positive) cbs.
Definition started : world :=
  test_world [(1%positive, OListenerCtx lctx); (2%positive, OListener listener); (3%positive, OAppListener of_app)] 4.

Lemma started_listens : echo_listens started 1 2 3.
Proof.
  split; [apply test_world_fresh; by repeat constructor|by exists lctx|by exists listener, 103%positive, 104%positive|by exists of_app].
Qed.

Lemma started_can_accept : can_accept started 5.
Proof. by split. Qed.

Lemma sample_peer : peer_sends 7 (length (reads 7 (trace started))) [10; 20].
Proof. intros h d m j n Hj Hl. cbn [sys_readv sys]. rewrite Hl. exact (nth_lookup_Some _ _ 0 _ Hj). Qed.

Lemma sample_lengths : lengths_survive 9 [10; 20].
Proof. split; [by exists (item 10)|]. split; [by exists (item 20)|done]. Qed.

Definition accept : Z -> ptr -> M unit := _tcp_connection_received (H1 := library_taps (H0 := server 1)).

Lemma tcp_echo_session_witness :
  exists w1 w2, accept 5 (Some 1%positive) started = (Ok tt, w1)
    /\ reads 7 (trace w1) = [] /\ writes 7 (trace w1) = [] /\ rounds 1 4 7 [10; 20] w1 w2.
Proof.
  destruct (tcp_echo_session 0 started 5 1 2 3 [10; 20] started_listens started_can_accept ltac:(by repeat constructor)
    sample_peer sample_lengths) as (w1 & w2 & E & R & W & Hr).
  exists w1, w2. exact (conj E (conj R (conj W Hr))).
Defined.

Lemma tcp_echo_overrun_witness :
  exists w1 w2 w3 w4, accept 5 (Some 1%positive) started = (Ok tt, w1) /\ readable 1 4 w1 = (Ok tt, w2)
    /\ readable 1 4 w2 = (Ok tt, w3) /\ writes 7 (trace w3) = writes 7 (trace w2)
    /\ writable 1 4 w3 = (Fault (UseAfterFree 12), w4).
Proof.
  destruct (tcp_echo_overrun 0 started 5 1 2 3 10 20 started_listens started_can_accept ltac:(by repeat constructor)
    sample_peer sample_lengths eq_refl) as (w1 & w2 & w3 & w4 & E).
  exists w1, w2, w3, w4. exact E.
Defined.

End EchoTcpSample.
