(* ===== verification/EchoClose.v ===== *)
(** * EchoClose: the end of a connection of the echo server over TCP

    libevent reports that the peer has closed: tcp/tcp.c gives back the events
    and the socket, the library takes the connection off its listener, the
    application frees it, the library frees it, and tcp/tcp.c frees the context.
    From the acceptance to the end, what stays of a connection is the item of
    its last receive and the message it was for. *)

From S2P Require Import Prelude Structs Memory Message Queue Listener Connection Accept Resources Frame Lifecycle.
From S2P Require Import Requests Tcp TcpStack Release Receiving Echo EchoRound Simulate TcpPort EchoTcp.
Local Open Scope Z_scope.

Section program.
Context `{Machine} `{Sys} `{Buffers}.

Definition closing (depth : nat) : loc -> M unit :=
  fire cc_closeEvent EV_CLOSED (_tcp_closed (H1 := library_taps (H0 := server depth))).

End program.

(** ** The end in the library *)

Section library.
Context `{Machine} `{Sys} `{Buffers} (c cc al : loc) (depth : nat).

(** The listener with one connection less; when it was the last one of a listener
    that was to stop, the listener has reported it. *)
Definition released (ly : tapsListener) : tapsListener := set_l_ref_count (l_ref_count ly - 1) ly.
Definition drains (ly : tapsListener) : bool := truth (l_readyToStop ly) && (l_ref_count ly - 1 =? 0).
Definition after_release (ly : tapsListener) : tapsListener :=
  if drains ly then set_l_stopped None (released ly) else released ly.
Definition release_calls (base : ptr) (ly : tapsListener) : list event :=
  if drains ly then [EvStopped fn_app_stopped (Some al); EvLoopBreak base] else [].

(** A listener that is to stop stops as the application asked. *)
Definition stops_well (ly : tapsListener) : Prop :=
  drains ly = true -> l_stopped ly = Some fn_app_stopped /\ l_app_ctx ly = Some al.

Lemma stays_open ly : l_readyToStop ly = FALSE -> drains ly = false.
Proof. unfold drains. by intros ->. Qed.

(** The application ends the event loop. *)
Lemma stopped_call d y w :
  heap w !! al = Some (OAppListener y) ->
  call_app (H := server (S d)) (Some fn_app_stopped) (fun f => EvStopped f (Some al)) w
  = (Ok tt, add_event (EvLoopBreak (al_base y)) (add_event (EvStopped fn_app_stopped (Some al)) w)).
Proof.
  intros Hy. unfold call_app. steps. unfold call_if, _app_stopped. simpl.
  by erewrite bind_ok by (by apply (load_ok (T := app_listener))).
Qed.

Lemma deref_run d L ly y w :
  heap w !! L = Some (OListener ly) -> heap w !! al = Some (OAppListener y) -> 0 < l_ref_count ly < 2 ^ 32 -> stops_well ly ->
  tapsListenerDeref (H0 := server (S d)) (Some L) w
  = (Ok tt, World (<[L := OListener (after_release ly)]> (heap w)) (brk w) (errno w) (trace w ++ release_calls (al_base y) ly)).
Proof.
  intros HL Hy Hn Hs. rewrite (tapsListenerDeref_run L ly) by done. cbn zeta.
  unfold after_release, release_calls, stops_well, drains in *. destruct (truth _ && _).
  - destruct (Hs eq_refl) as [-> ->]. rewrite (stopped_call _ y) by (simpl; rewrite lookup_insert_ne by congruence; done).
    unfold set_heap, add_event. simpl. by rewrite <- app_assoc.
  - unfold set_heap. by rewrite app_nil_r.
Qed.

Lemma taps_closed_step w x L ly y l b :
  owner (T := send_item) sndq w c x [] -> owner rcvq w c x [echo_recv c (l, b)] ->
  c_app_ctx x = Some cc -> c_listener x = Some L -> c_closed x = Some fn_app_closed ->
  heap w !! cc = Some (OAppConn (AppConn (Some al) (Some c))) -> body_blocks (heap w) b ->
  heap w !! L = Some (OListener ly) -> heap w !! al = Some (OAppListener y) -> 0 < l_ref_count ly < 2 ^ 32 -> stops_well ly ->
  exists w', _taps_closed (H0 := server (S (S depth))) (Some c) w = (Ok tt, w')
    /\ heap w' = delete cc (delete c (delete (b_msg b) (<[L := OListener (after_release ly)]> (heap w)))) /\ brk w' = brk w
    /\ trace w' = trace w ++ release_calls (al_base y) ly ++ [EvClosed fn_app_closed (Some cc);
                              EvReceiveError fn_app_receive_error (Some cc) (Some (b_msg b)) (Some "Connection died"%string)].
Proof.
  intros Hos Ho Ex El Ecl Hcc [E1 E2] HL Hy Hn Hst. pose proof Ho as [Hc Hq Hf].
  pose proof (deref_run (S depth) L ly y w HL Hy Hn Hst) as ED. set (w1 := World _ _ _ _) in ED.
  assert (L <> c /\ L <> cc /\ L <> b_msg b /\ L <> b_message b) as (? & ? & ? & ?) by (splits; congruence).
  assert (forall j, j <> L -> heap w1 !! j = heap w !! j) as Hk by (intros; by apply lookup_insert_ne).
  set (x' := set_c_proto_ctx None (set_c_listener None x)).
  set (w2 := set_heap (<[c := OConnection x']> (heap w1)) w1).
  assert (fresh_from (heap w2) (brk w2)) as Hf2.
  { apply fresh_from_insert; [by eapply fresh_from_lt|]. apply fresh_from_insert; [by eapply fresh_from_lt|done]. }
  assert (forall j o, j <> c -> heap w !! j = Some o -> (forall lo, o <> OListener lo) -> heap w2 !! j = Some o) as Hk2.
  { intros j o Hj Ej Hlo. unfold w2. simpl. rewrite lookup_insert_ne by done. rewrite lookup_insert_ne; [done|].
    intros ->. rewrite HL in Ej. by destruct (Hlo ly); simplify_eq. }
  destruct (closed_step (H0 := tcp_proto (H0 := server (S depth))) al depth c cc w2 x' l b)
    as (w' & E & Eh & B & T); [| |done|by apply Hk2; [congruence|..]|by split; apply Hk2; [congruence|done|done|congruence|..]|].
  - eapply (owner_move c sndq w w2 x); [exact Hos|apply lookup_insert_eq|done|done|].
    intros j s Ej. simpl in Ej. apply Hk2; [congruence|done|done].
  - eapply (owner_move c rcvq w w2 x); [exact Ho|apply lookup_insert_eq|done|done|].
    intros j s Ej. simpl in Ej. apply Hk2; [congruence|done|done].
  - exists w'. splits; [|rewrite Eh; unfold w2; simpl; by rewrite delete_insert_ne, delete_insert_eq by congruence|by rewrite B|].
    + unfold _taps_closed, detach. erewrite bind_assoc, bind_ok by (by apply (load_ok (T := tapsConnection))). rewrite El.
      rewrite bind_assoc. erewrite bind_ok by exact ED.
      assert (heap w1 !! c = Some (OConnection x)) as Hc1 by (by rewrite Hk).
      erewrite bind_ok by (by apply (modify_ok (T := tapsConnection))).
      erewrite bind_ok by (apply (modify_ok (T := tapsConnection)), lookup_insert_eq).
      replace (set_heap _ _) with w2 by (unfold w2, set_heap; simpl; by rewrite insert_insert_eq).
      erewrite bind_ok by (apply (load_ok (T := tapsConnection) c _ x'), lookup_insert_eq).
      change (c_closed x') with (c_closed x). change (c_app_ctx x') with (c_app_ctx x). by rewrite Ecl, Ex.
    + rewrite T. unfold recv_died. simpl. by rewrite Ex, <- app_assoc.
Qed.

End library.

(** ** The end at TCP *)

Section tcp.
Context `{Machine} `{Sys} `{Buffers} `{!Working} (gs gr : fn) (c cc al k : loc) (fd : Z) (pre : opening).
Context (L : loc) (bg : gmap loc obj) (depth : nat).

#[local] Abbreviation waits := (waits gs gr c cc al k fd pre L bg).

(** The kinds of the blocks tell them apart. *)
Lemma waits_blocks w x l b taken :
  waits w x l b [] taken ->
  exists d it, heap w !! k = Some (OConnCtx d) /\ heap w !! c = Some (OConnection x)
    /\ heap w !! cc = Some (OAppConn (AppConn (Some al) (Some c))) /\ heap w !! l = Some (ORecv it)
    /\ heap w !! b_msg b = Some (OAppMsg (AppMsg (Some (b_message b))))
    /\ heap w !! b_message b = Some (OMessage (body_message b)).
Proof.
  intros [[[[Hc Hq _] _ _] _ _ _ [_ Ecc _] [[[E1 E2] _]%Forall_cons _ _] _] _ (d & Hk & _) _ _].
  pose proof (queue_lookup _ _ [] [] _ _ Hq) as Hl. by eexists d, _.
Qed.

(** What the end of a connection leaves of its blocks. *)
Lemma closed_heap w x l b taken ly :
  waits w x l b [] taken -> bg !! L = Some (OListener ly) ->
  exists it, delete k (delete cc (delete c (delete (b_msg b) (<[L := OListener (after_release ly)]> (heap w)))))
    = <[l := ORecv it]> (<[b_message b := OMessage (body_message b)]> (<[L := OListener (after_release ly)]> bg)).
Proof.
  intros Hw HL. destruct (waits_blocks _ _ _ _ _ Hw) as (d & it & E1 & E2 & E3 & E4 & E5 & E6).
  destruct Hw as [_ _ _ _ [Q1 Q2]]. unfold own_blocks, echo_blocks, queued_blocks in *. simpl in Q1, Q2.
  exists it. apply map_eq. intros j.
  destruct (decide (j ∈ [k; c; cc; l; b_msg b; b_message b])) as [Hin|Hin].
  - assert (j <> L) as HjL by (intros ->; rewrite Q1 in HL; done). pose proof (Q1 j Hin) as Hbg.
    rewrite !elem_of_cons, elem_of_nil in Hin. destruct Hin as [->|[->|[->|[->|[->|[->|[]]]]]]].
    all: repeat first [rewrite lookup_delete_eq|rewrite lookup_insert_eq|rewrite lookup_delete_ne by congruence
                      |rewrite lookup_insert_ne by congruence]; done.
  - pose proof (Q2 j Hin) as Hj. rewrite !elem_of_cons in Hin. rewrite !lookup_delete_ne by (intros <-; tauto).
    rewrite (lookup_insert_ne _ l), (lookup_insert_ne _ (b_message b)) by (intros <-; tauto).
    destruct (decide (j = L)) as [->|]; [by rewrite !lookup_insert_eq|]. by rewrite !lookup_insert_ne.
Qed.

Lemma closed_tcp w x l b taken ly ce se re :
  waits w x l b [] taken -> op_held pre = HConnection fd ce se re (Some fn_closed) (Some c) -> bg !! L = Some (OListener ly) ->
  0 < l_ref_count ly < 2 ^ 32 -> stops_well al ly ->
  exists w' it es, closing (S (S depth)) k w = (Ok tt, w')
    /\ heap w' = <[l := ORecv it]> (<[b_message b := OMessage (body_message b)]> (<[L := OListener (after_release ly)]> bg))
    /\ brk w' = brk w /\ fresh_from (heap w') (brk w')
    /\ trace w' = trace w ++ es /\ Forall (about k (op_held pre)) es
    /\ balanced (trace w ++ close_calls (op_held pre)) (trace w')
    /\ (drains ly = true -> EvStopped fn_app_stopped (Some al) ∈ es).
Proof.
  intros Hw Eh HL Hn Hst. destruct (waits_blocks _ _ _ _ _ Hw) as (d & it & Hk & E2 & E3 & E4 & E5 & E6).
  destruct (closed_heap w x l b taken ly Hw HL) as [it' Ehp].
  destruct Hw as [[[Ho _ _] [Hos _ _] _ _ [Ex _ (y & Hy & _)] _ _] (_ & El & Ecl) (d' & Hk' & _ & _ & _ & Hks) _ [Q1 Q2]].
  destruct Hks as [Ehd _]. assert (d' = d) as -> by congruence. rewrite Eh in *. injection Ehd as F1 F2 F3 F4 F5 F6.
  assert (heap w !! L = Some (OListener ly)) as HLw by (rewrite Q2; [done|intros Hin; by rewrite Q1 in HL]).
  set (w1 := add_event (UClosed fn_closed (Some c)) (add_event (KClose fd) (add_event (LFree re) (add_event (LDel re)
    (add_event (LFree se) (add_event (LDel se) (add_event (LFree ce) (add_event (LDel ce)
    (add_event (LFire ce EV_CLOSED (Some k)) w))))))))).
  destruct (taps_closed_step c cc al depth w1 x L ly y l b) as (w2 & E & Ehw & Bw & Tw); try done;
    [by apply (owner_same _ w)|by apply (owner_same _ w)|].
  set (es := [LFire ce EV_CLOSED (Some k); LDel ce; LFree ce; LDel se; LFree se; LDel re; LFree re; KClose fd;
    UClosed fn_closed (Some c)] ++ release_calls al (al_base y) ly ++ [EvClosed fn_app_closed (Some cc);
    EvReceiveError fn_app_receive_error (Some cc) (Some (b_msg b)) (Some "Connection died"%string)]).
  assert (trace w2 = trace w ++ es) as Tes by (rewrite Tw; subst w1 es; simpl; by rewrite <- !app_assoc).
  exists (set_heap (delete k (heap w2)) w2), it', es. splits.
  - unfold closing, fire. erewrite bind_ok by (by apply (load_ok (T := conn_ctx))). erewrite bind_ok by reflexivity.
    unfold _tcp_closed, drop_event, call_up. erewrite bind_ok by (by apply (load_ok (T := conn_ctx))).
    rewrite F1, F2, F3, F4, F5, F6. do 8 (rewrite ?bind_assoc; erewrite bind_ok by reflexivity).
    erewrite bind_ok by exact E. apply (free_ok (T := conn_ctx) _ _ d).
    assert (k <> L) by congruence. rewrite Ehw, !lookup_delete_ne, lookup_insert_ne by congruence. done.
  - simpl. rewrite Ehw. exact Ehp.
  - done.
  - simpl. rewrite Ehw, Bw. do 4 apply fresh_from_delete. destruct Ho as [_ _ Hf].
    apply fresh_from_insert; [by eapply fresh_from_lt|done].
  - exact Tes.
  - subst es. unfold release_calls. apply Forall_app. split; [repeat constructor; simpl; try done; set_solver|].
    by case_match; repeat constructor.
  - simpl. rewrite Tes. subst es. unfold release_calls. split; intros; unfold opens, events; rewrite !total_app; case_match; simpl; lia.
  - intros Hd. subst es. unfold release_calls. rewrite Hd. apply elem_of_app. right. by left.
Qed.

End tcp.

(** ** A connection from its acceptance to its end *)

Section properties.
Context `{Machine} `{Sys} `{Buffers} `{!Working} (depth : nat).

Lemma released_back lx :
  0 <= l_ref_count lx < 2 ^ 32 - 1 -> released (set_l_ref_count (u32 (l_ref_count lx + 1)) lx) = lx.
Proof.
  intros Hn. destruct lx. simpl in *. unfold released, set_l_ref_count. simpl. rewrite wrap_small by lia.
  f_equal. lia.
Qed.

(** A server that listens does so with more blocks in memory. *)
Lemma listens_extended w w' K L al l m ol om :
  echo_listens w K L al -> heap w !! l = None -> heap w !! m = None ->
  heap w' = <[l := ol]> (<[m := om]> (heap w)) -> fresh_from (heap w') (brk w') -> echo_listens w' K L al.
Proof.
  intros [_ (lc & HK & ?) (lx & gs & gr & HL & ?) (y & Hy & ?)] Hl Hm Eh Hf.
  assert (forall j o, heap w !! j = Some o -> heap w' !! j = Some o) as Hk.
  { intros j o Hj. rewrite Eh, !lookup_insert_ne by congruence. done. }
  split; [done|exists lc|exists lx, gs, gr|exists y]; (split; [by apply Hk|done]).
Qed.

#[local] Abbreviation accept := (_tcp_connection_received (H1 := library_taps (H0 := server (S (S depth))))).

(** A connection of the echo server over TCP leaks two blocks.  From its
    acceptance, through any number of rounds, to its end, the socket is closed
    and the events are freed, and the memory is what it was before, the count of
    the listener included, but for the item of the last receive and the message
    it was for; the server listens as before. *)
Theorem tcp_echo_leaks w lfd K L al lx ns :
  echo_listens w K L al -> can_accept w lfd -> Forall (fun n => 0 < n <= BUF_SIZE) ns ->
  heap w !! L = Some (OListener lx) -> l_readyToStop lx = FALSE -> 0 <= l_ref_count lx < 2 ^ 32 - 1 ->
  let k := brk w in
  let fd := sys_accept (trace w) lfd in
  peer_sends fd (length (reads fd (trace w))) ns -> lengths_survive (next_item (Pos.succ (Pos.succ k))) ns ->
  exists w1 w2 w3 l m it mm, accept lfd (Some K) w = (Ok tt, w1) /\ rounds (S (S depth)) k fd ns w1 w2
    /\ closing (S (S depth)) k w2 = (Ok tt, w3)
    /\ heap w3 = <[l := ORecv it]> (<[m := OMessage mm]> (heap w))
    /\ heap w !! l = None /\ heap w !! m = None /\ l <> m
    /\ balanced (trace w) (trace w3) /\ echo_listens w3 K L al.
Proof.
  intros Hls Hca Hns HL Hrd Hn k fd Hp Hs.
  destruct (accepted (S depth) w lfd K L al Hls Hca) as (gs & gr & lx' & w1 & x1 & pre & E1 & Hop & HL' & Hw & B1 & R1).
  assert (lx' = lx) as -> by congruence. fold fd k in Hw, R1, Hop, B1. set (bg := <[L := _]> (heap w)) in Hw.
  destruct (waits_rounds gs gr _ _ al k fd _ L bg (S depth) (ca_memory _ _ Hca) ns w1 x1 _ _ [] Hw B1 Hns)
    as (w2 & x2 & l & b & taken & Hr & Hw2 & _); [by rewrite R1|done|].
  destruct Hop as [_ _ _ _ (ce & se & re & Ehd) Hbal].
  destruct (closed_tcp gs gr _ _ al k fd _ L bg depth w2 x2 l b taken _ ce se re Hw2 Ehd (lookup_insert_eq _ _ _))
    as (w3 & it & es & E3 & Eh & Bw & Hf & _ & _ & Hb & _);
    [simpl; rewrite wrap_small; lia|intros Hd; by rewrite stays_open in Hd|].
  assert (balanced (trace w) (trace w3)) as Hb3.
  { etrans; [exact Hbal|]. etrans; [|exact Hb]. apply balanced_tail. destruct Hw2 as [_ _ (d & _ & _ & _ & _ & Hks) _ _].
    by apply kept_balanced in Hks. }
  unfold after_release in Eh. rewrite stays_open, released_back in Eh by done. unfold bg in Eh. rewrite insert_insert_eq, (insert_id _ L) in Eh by done.
  destruct (waits_blocks _ _ _ _ _ _ _ _ _ _ _ _ _ _ _ Hw2) as (_ & it' & _ & _ & _ & El & _ & Em).
  assert (forall j, bg !! j = None -> heap w !! j = None) as Hbg.
  { intros j. unfold bg. by intros [? _]%lookup_insert_None. }
  destruct Hw2 as [_ _ _ _ [Q _]]. unfold own_blocks, echo_blocks, queued_blocks in Q. simpl in Q.
  assert (heap w !! l = None) as Dl by (apply Hbg, Q; set_solver).
  assert (heap w !! b_message b = None) as Dm by (apply Hbg, Q; set_solver).
  exists w1, w2, w3, l, (b_message b), it, (body_message b). splits; [done..|congruence|done|].
  by eapply (listens_extended w w3 K L al l (b_message b)).
Qed.

End properties.

(** ** The session of the sample server *)

Module EchoCloseSample.
Import EchoTcpSample.

#[local] Existing Instances buffers machine sys sys_working.

Definition accept : Z -> ptr -> M unit := _tcp_connection_received (H1 := library_taps (H0 := server 2)).

Lemma tcp_echo_leaks_witness :
  exists w1 w2 w3 l m it mm, accept 5 (Some 1%positive) started = (Ok tt, w1) /\ rounds 2 4 7 [10; 20] w1 w2
    /\ closing 2 4 w2 = (Ok tt, w3)
    /\ heap w3 = <[l := ORecv it]> (<[m := OMessage mm]> (heap started))
    /\ heap started !! l = None /\ heap started !! m = None /\ l <> m
    /\ balanced [] (trace w3) /\ echo_listens w3 1 2 3.
Proof.
  apply (tcp_echo_leaks 0 started 5 1 2 3 listener [10; 20] started_listens started_can_accept ltac:(by repeat constructor)
    eq_refl eq_refl ltac:(done) sample_peer sample_lengths).
Defined.

End EchoCloseSample.
