(* ===== verification/EchoMain.v ===== *)
(** * EchoMain: the main function of the echo server

    [main] from the endpoint to the listener over the TCP library.  Either it
    gives back everything it took, or it waits for events with the listener, its
    TCP context and the structure of the application in memory and nothing else
    of what it made. *)

From S2P Require Import Prelude Structs Memory Message Queue Listener Connection Accept TransportProperties Endpoint.
From S2P Require Import Cfg Preconnection Resources Frame Lifecycle Listening Tcp TcpStack Echo EchoTcp.
Local Open Scope Z_scope.

(** ** Steps of main *)

Section steps.
Context `{Machine} `{App} `{Net} `{Sys}.

(** An endpoint without copies of strings, in any other state. *)
Lemma endpoint_move h0 w v e x a :
  endpoint_ok h0 w e x a -> (forall k, at_str a k = None) ->
  heap v !! e = Some (OEndpoint x) -> fresh_from (heap v) (brk v) -> endpoint_ok (delete e (heap v)) v e x a.
Proof.
  intros Ho Ha Hx Hf. assert (forall k, has k x = false /\ get k x = None) as Hk.
  { intros k. pose proof (eo_str _ _ _ _ _ Ho k) as Hs. by rewrite Ha in Hs. }
  destruct Ho. split; try done.
  - intros k. rewrite Ha. apply Hk.
  - intros i Hi _. by rewrite lookup_delete_ne.
  - intros i [->|(k & Hh & _)]; [apply lookup_delete_eq|]. destruct (Hk k). congruence.
Qed.

Definition with_port (n : Z) : attrs := Attrs (fun _ => None) (Some (wrap 16 n)) None None.
Definition with_ipv4 (n : Z) (ip : Z) : attrs := Attrs (fun _ => None) (Some (wrap 16 n)) (Some ip) None.

(** A new endpoint with a port. *)
Lemma new_endpoint (w : world) port :
  fresh_from (heap w) (brk w) -> malloc_ok (brk w) = true ->
  exists x w1 w', tapsEndpointNew w = (Ok (Some (brk w)), w1)
    /\ tapsEndpointWithPort (Some (brk w)) port w1 = (Ok 1, w')
    /\ endpoint_ok (heap w) w' (brk w) x (with_port port) /\ trace w' = trace w.
Proof.
  intros Hf Hm. destruct (tapsEndpointNew_ok w Hf Hm) as (w1 & E1 & O1 & T1).
  destruct (ep_op_ok (heap w) w1 (brk w) zero no_attrs (OpPort port) 1 None (with_port port)) as (x & w2 & E2 & O2 & _ & _ & T2);
    [done..|].
  exists x, w1, w2. splits; [done..|congruence].
Qed.

(** Its address, when there is one. *)
Lemma endpoint_address h0 (w : world) e x port s :
  endpoint_ok h0 w e x (with_port port) ->
  exists x' w', tapsEndpointWithIPv4Address (Some e) s w
      = (Ok (match inet_pton4 s with Some _ => 1 | None => 0 end), w')
    /\ endpoint_ok h0 w' e x' (match inet_pton4 s with Some ip => with_ipv4 port ip | None => with_port port end)
    /\ trace w' = trace w.
Proof.
  intros Ho. destruct (inet_pton4 s) as [ip|] eqn:Es.
  - destruct (ep_op_ok h0 w e x (with_port port) (OpIPv4 s) 1 None (with_ipv4 port ip)) as (x' & w' & E & O & _ & _ & T);
      [done|by simpl; rewrite Es|]. by exists x', w'.
  - destruct (ep_op_ok h0 w e x (with_port port) (OpIPv4 s) 0 (Some EINVAL) (with_port port)) as (x' & w' & E & O & _ & _ & T);
      [done|by simpl; rewrite Es|]. by exists x', w'.
Qed.

Lemma new_properties type (w : world) :
  malloc_ok (brk w) = true ->
  tapsTransportPropertiesNew type w
  = (Ok (Some (brk w)), World (<[brk w := OTransport (defaults type zero)]> (heap w)) (Pos.succ (brk w)) (errno w) (trace w)).
Proof.
  intros Hm. unfold tapsTransportPropertiesNew, memset0. erewrite bind_ok by (by apply malloc_succeeds). cbv beta iota.
  erewrite bind_ok by (apply (modify_ok (T := transportProperties)), lookup_insert_eq).
  erewrite bind_ok by (apply (modify_ok (T := transportProperties)), lookup_insert_eq).
  rewrite ret_ok. unfold set_heap. simpl. by rewrite !insert_insert_eq.
Qed.

(** A socket that listens. *)
Lemma Listen_ok taps base local f1 f2 f3 f4 (w : world) :
  malloc_ok (brk w) = true -> (forall h d, 0 <= sys_socket h d) ->
  (forall h fd a, 0 <= sys_bind h fd a) -> (forall h fd n, 0 <= sys_listen h fd n) ->
  (forall h b fd what a, lev_new h b fd what a <> None) ->
  exists fd e r, Listen taps base local f1 f2 f3 f4 w
    = (Ok (Some (brk w)),
       World (<[brk w := OListenerCtx (ListenerCtx base e fd f1 f2 f3 f4 taps)]> (heap w)) (Pos.succ (brk w)) (errno w)
         (trace w ++ [KSocket fd; KBind fd local; KListen fd; LNew e fd (EV_READ + EV_PERSIST) (Some (brk w)); LAdd e r])).
Proof.
  intros Hm Hs Hb Hl Hnew. unfold Listen, event_new.
  erewrite bind_ok by (by apply malloc_succeeds). cbv beta iota.
  erewrite (bind_ok (ask _ _)) by reflexivity. erewrite bind_ok by (eapply modify_ok; heap_lookup).
  rewrite (proj2 (Z.ltb_ge _ 0)) by apply Hs. erewrite bind_ok by (eapply modify_ok; heap_lookup).
  erewrite (bind_ok (ask _ _)) by reflexivity. rewrite (proj2 (Z.ltb_ge _ 0)) by apply Hb.
  erewrite (bind_ok (ask _ _)) by reflexivity. rewrite (proj2 (Z.ltb_ge _ 0)) by apply Hl.
  erewrite (bind_ok (ask _ _)) by reflexivity. erewrite bind_ok by (eapply modify_ok; heap_lookup).
  rewrite event_add_ok by apply Hnew. erewrite (bind_ok (ask _ _)) by reflexivity. eexists _, _, _.
  rewrite ret_ok. unfold add_event, set_heap. simpl. rewrite !insert_insert_eq, <- !app_assoc. reflexivity.
Qed.

End steps.

Lemma insert_around (m : gmap loc obj) i j a b c : i <> j -> <[i := a]> (<[j := b]> (<[i := c]> m)) = <[i := a]> (<[j := b]> m).
Proof. intros. rewrite (insert_insert_ne _ j i) by done. by rewrite insert_insert_eq. Qed.

(** ** What main holds before it listens *)

Section setup.
Context `{Machine} `{App} `{Net} `{Sys}.

(** In [v] the endpoint [e] and the properties [tp] are there on top of the heap
    of [w]. *)
Record ready (w v : world) (e tp : loc) (x : tapsEndpoint) (a : attrs) (t : transportProperties) : Prop := {
  rd_endpoint : heap v !! e = Some (OEndpoint x);
  rd_properties : heap v !! tp = Some (OTransport t);
  rd_below : (e < brk v)%positive /\ (tp < brk v)%positive /\ (brk w <= brk v)%positive;
  rd_rest : delete tp (delete e (heap v)) = heap w;
  rd_fresh : fresh_from (heap v) (brk v);
  rd_trace : trace v = trace w;
  rd_move u : heap u !! e = Some (OEndpoint x) -> fresh_from (heap u) (brk u) ->
    endpoint_ok (delete e (heap u)) u e x a;
}.

Lemma ready_ok h0 (w w1 : world) e x a t :
  h0 = heap w -> endpoint_ok h0 w1 e x a -> (forall k, at_str a k = None) -> (brk w <= brk w1)%positive ->
  trace w1 = trace w ->
  ready w (World (<[brk w1 := OTransport t]> (heap w1)) (Pos.succ (brk w1)) (errno w1) (trace w1)) e (brk w1) x a t.
Proof.
  intros -> Ho Ha Hb Ht. pose proof (endpoint_below _ _ _ _ _ e Ho (or_introl eq_refl)) as He.
  pose proof (eo_fresh _ _ _ _ _ Ho) as Hf. split; simpl; [|by apply lookup_insert_eq|splits; lia| | |done|].
  - rewrite lookup_insert_ne by lia. apply Ho.
  - rewrite delete_insert_ne, delete_insert_id by (try lia; rewrite lookup_delete_ne by lia; apply Hf; lia).
    apply map_eq. intros j. destruct (decide (j = e)) as [->|].
    + rewrite lookup_delete_eq. symmetry. apply (eo_new _ _ _ _ _ Ho). by left.
    + rewrite lookup_delete_ne by done. apply (eo_frame _ _ _ _ _ Ho); [done|]. intros (k & Hk & _).
      pose proof (eo_str _ _ _ _ _ Ho k) as Hs. rewrite Ha in Hs. destruct Hs. congruence.
  - apply fresh_from_insert; [lia|]. intros j Hj. apply Hf. lia.
  - intros u Hu Hfu. by eapply endpoint_move.
Qed.

(** The endpoint and the properties are given back. *)
Lemma release_ready w v e tp x a t u :
  ready w v e tp x a t -> heap u !! e = Some (OEndpoint x) -> heap u !! tp = Some (OTransport t) ->
  fresh_from (heap u) (brk u) ->
  let u' := set_heap (delete e (heap u)) u in
  tapsEndpointFree (Some e) u = (Ok tt, u')
  /\ tapsTransportPropertiesFree (Some tp) u' = (Ok tt, set_heap (delete tp (delete e (heap u))) u).
Proof.
  intros R He Ht Hf u'. split.
  - by eapply tapsEndpointFree_ok, (rd_move _ _ _ _ _ _ _ R).
  - assert (heap u' !! tp = Some (OTransport t)) as Hu by (simpl; rewrite lookup_delete_ne; [done|congruence]).
    unfold tapsTransportPropertiesFree. erewrite bind_ok by (apply (load_ok (T := transportProperties)); exact Hu).
    by rewrite (free_ok (T := transportProperties) tp u' t).
Qed.

(** The preconnection, the endpoint and the properties are given back, in a
    state that has more blocks than the one they were made in. *)
Lemma release_all w v e tp x a t kept w3 u :
  ready w v e tp x a t -> has_preconnection v w3 kept [Some e] 1 [] 0 tp ->
  (forall j, (j < brk v)%positive -> heap w3 !! j = heap v !! j) -> (brk v < brk w3)%positive ->
  (forall j, (j < brk w3)%positive -> heap u !! j = heap w3 !! j) ->
  fresh_from (heap u) (brk u) -> (brk w3 <= brk u)%positive ->
  exists u1 u2 u3, tapsPreconnectionFree (Some (brk v)) u = (Ok tt, u1) /\ tapsEndpointFree (Some e) u1 = (Ok tt, u2)
    /\ tapsTransportPropertiesFree (Some tp) u2 = (Ok tt, u3)
    /\ brk u3 = brk u /\ trace u3 = trace u
    /\ forall j, heap u3 !! j = if decide (j < brk w3)%positive then heap w !! j else heap u !! j.
Proof.
  intros R [_ Hfree] Hold Hlt Hu Hfu Hb. destruct (Hfree u Hu) as (u1 & E1 & B1 & _ & T1 & Hh).
  pose proof (rd_below _ _ _ _ _ _ _ R) as (Le & Lt & _).
  assert (forall j, (j < brk v)%positive -> heap u1 !! j = heap v !! j) as Hv.
  { intros j Hj. rewrite Hh, decide_True by lia. done. }
  destruct (release_ready w v e tp x a t u1 R) as [E2 E3].
  - rewrite Hv by done. apply (rd_endpoint _ _ _ _ _ _ _ R).
  - rewrite Hv by done. apply (rd_properties _ _ _ _ _ _ _ R).
  - intros j Hj. rewrite Hh, decide_False by lia. apply Hfu. lia.
  - eexists u1, _, _. splits; [done..|]. intros j. simpl. rewrite <- (rd_rest _ _ _ _ _ _ _ R).
    destruct (decide (j = tp)) as [->|]; [rewrite !lookup_delete_eq, decide_True by lia; done|].
    rewrite !(lookup_delete_ne _ tp) by done.
    destruct (decide (j = e)) as [->|]; [rewrite !lookup_delete_eq, decide_True by lia; done|].
    rewrite !(lookup_delete_ne _ e) by done. apply Hh.
Qed.

End setup.

(** ** The run of main *)

Section main.
Context `{Machine} `{App} `{Net} `{Sys}.
Context (fuel : nat) (entries : list dirent) (ds : list description) (stack : list tapsProtocol) (sin6 sin : sockaddr).
Hypothesis memory : forall c, malloc_ok c = true.
Hypothesis a_file : configured entries ds /\ (length ds <= length stack)%nat /\ (length ds < 256)%nat.
Hypothesis new_blocks : forall c, shaped (uninit c) /\ pc_numProtocols (uninit c) = 0.

Definition localhost : string := "127.0.0.1".
Definition PORT : Z := 5555.
Definition listener_properties : transportProperties := defaults TAPS_LISTENER zero.

(** The protocols of the host that a listener can use. *)
Definition usable : list description :=
  filter (fun d => fits listener_properties (abilities (ds_properties d) 0)) ds.

Definition run_main (event_base_dispatch : ptr -> M unit) : M Z :=
  main fuel (Some entries) stack sin6 sin event_base_dispatch.

(** [main] gives back what it took and returns. *)
Definition gives_up (w : world) : Prop :=
  forall event_base_dispatch, exists w', run_main event_base_dispatch w = (Ok 0, w') /\ heap w' = heap w.

(** Up to the preconnection. *)
Lemma main_prepares w :
  fresh_from (heap w) (brk w) ->
  match inet_pton4 localhost with
  | None => gives_up w
  | Some ip => exists e tp x v, ready w v e tp x (with_ipv4 PORT ip) listener_properties
      /\ forall event_base_dispatch, run_main event_base_dispatch w = (pc ← tapsPreconnectionNew fuel (Some entries) stack [Some e] 1 [] 0 (Some tp);
           match pc with
           | None => main_fail None (Some e) (Some tp) None
           | Some _ => main_listen sin6 sin event_base_dispatch pc (Some e) (Some tp)
           end) v
  end.
Proof.
  intros Hf. destruct (new_endpoint w PORT Hf (memory _)) as (x & w1 & w2 & E1 & E2 & O2 & T2).
  destruct (endpoint_address _ _ _ _ _ localhost O2) as (x' & w3 & E3 & O3 & T3).
  assert (brk w < brk w3)%positive as Hb by (eapply endpoint_below; [exact O3|by left]).
  assert (forall event_base_dispatch, run_main event_base_dispatch w = (if negb (truth (match inet_pton4 localhost with Some _ => 1 | None => 0 end))
    then main_fail None (Some (brk w)) None None
    else tp ← tapsTransportPropertiesNew TAPS_LISTENER;
         match tp with
         | None => main_fail None (Some (brk w)) None None
         | Some _ =>
             pc ← tapsPreconnectionNew fuel (Some entries) stack [Some (brk w)] 1 [] 0 tp;
             match pc with
             | None => main_fail None (Some (brk w)) tp None
             | Some _ => main_listen sin6 sin event_base_dispatch pc (Some (brk w)) tp
             end
         end) w3) as E.
  { intros D. unfold run_main, main. erewrite bind_ok by exact E1. cbv iota. erewrite bind_ok by exact E2. change (negb (truth 1)) with false. cbv iota.
    by erewrite bind_ok by exact E3. }
  destruct (inet_pton4 localhost) as [ip|]; simpl in E.
  - exists (brk w), (brk w3), x'. eexists. split; [apply (ready_ok (heap w) w w3); [done|exact O3|done|lia|congruence]|].
    intros D. rewrite E. by erewrite bind_ok by (apply new_properties, memory).
  - intros D. exists (set_heap (heap w) w3). split; [|done]. rewrite E. unfold main_fail, when.
    erewrite bind_ok by reflexivity. erewrite bind_ok by (eapply tapsEndpointFree_ok; exact O3).
    reflexivity.
Qed.

(** In [v3] there is a preconnection too, made in [v], whose first protocol is
    the one of [d]. *)
Definition selected (w : world) (ip : Z) (d : description) (e tp : loc) (v v3 : world) : Prop :=
  exists x row rows, ready w v e tp x (with_ipv4 PORT ip) listener_properties
    /\ (brk v < brk v3)%positive /\ fresh_from (heap v3) (brk v3) /\ trace v3 = trace w
    /\ (forall j, (j < brk v)%positive -> heap v3 !! j = heap v !! j)
    /\ has_preconnection v v3 (row :: rows) [Some e] 1 [] 0 tp /\ describes (heap v3) row d.

(** Up to the listener of the application. *)
Lemma main_selects w ip :
  fresh_from (heap w) (brk w) -> inet_pton4 localhost = Some ip ->
  match usable with
  | [] => gives_up w
  | d :: _ => exists e tp v v3, selected w ip d e tp v v3
      /\ forall event_base_dispatch, run_main event_base_dispatch w = main_listen sin6 sin event_base_dispatch (Some (brk v)) (Some e) (Some tp) v3
  end.
Proof.
  intros Hf Hip. pose proof (main_prepares w Hf) as Hp. rewrite Hip in Hp. destruct Hp as (e & tp & x & v & R & E).
  destruct a_file as (Hn & Hl & Hs), (new_blocks (brk v)) as [Hsh Hz].
  destruct (tapsPreconnectionNew_ok fuel entries ds stack [Some e] 1 [] 0 tp listener_properties v)
    as (rows & r & w3 & E3 & Hset & Hold & Hf3 & Hb & T3 & Hk);
    [done|apply R|done..|split; simpl; lia|split; simpl; lia|apply R|done|done|].
  setoid_rewrite (bind_ok _ _ _ _ _ E3) in E. pose proof (settled_kept _ _ _ _ Hset) as Hd. fold usable in Hd.
  destruct (filter (accepts listener_properties) rows) as [|row kept].
  - apply Forall2_nil_inv_l in Hd as ->. destruct Hk as (-> & _ & Hh).
    destruct (release_ready _ _ _ _ _ _ _ w3 R) as [F1 F2]; [rewrite Hh; apply R..|done|].
    intros D. eexists. split.
    + rewrite E. unfold main_fail, when. erewrite bind_ok by reflexivity. erewrite bind_ok by exact F1.
      erewrite bind_ok by exact F2. reflexivity.
    + simpl. rewrite Hh. apply R.
  - apply Forall2_cons_inv_l in Hd as (d & ds' & Hd & _ & ->). destruct Hk as (-> & Hpc).
    exists e, tp, v, w3. split; [|exact E]. exists x, row, kept. splits; try done. rewrite T3. apply R.
Qed.

(** The failures from here on. *)
Lemma main_fail_gives_back w ip d e tp v v3 base cb u :
  selected w ip d e tp v v3 -> fresh_from (heap w) (brk w) ->
  heap u !! brk v3 = Some (OAppListener (AppListener base None cb)) ->
  (forall j, j <> brk v3 -> heap u !! j = heap v3 !! j) -> (brk v3 < brk u)%positive ->
  exists u', main_fail (Some (brk v)) (Some e) (Some tp) (Some (brk v3)) u = (Ok 0, u') /\ heap u' = heap w.
Proof.
  intros (x & row & rows & R & Hb & Hf3 & T3 & Hold & Hpc & Hd) Hf Hl Hu Hbu.
  pose proof (rd_below _ _ _ _ _ _ _ R) as (_ & _ & Hw).
  destruct (release_all w v e tp x _ _ _ v3 u R Hpc Hold Hb) as (u1 & u2 & u3 & E1 & E2 & E3 & B3 & T & Hh).
  { intros j Hj. apply Hu. lia. }
  { intros j Hj. rewrite Hu by lia. apply Hf3. lia. }
  { lia. }
  assert (heap u3 !! brk v3 = Some (OAppListener (AppListener base None cb))) as Hl3.
  { rewrite Hh, decide_False by lia. exact Hl. }
  unfold main_fail, when. erewrite bind_ok by exact E1. erewrite bind_ok by exact E2. erewrite bind_ok by exact E3.
  exists (set_heap (delete (brk v3) (heap u3)) (match base with Some b => add_event (EvBaseFree (Some b)) u3 | None => u3 end)).
  split.
  - rewrite bind_assoc. erewrite bind_ok by (apply (load_ok (T := app_listener)); exact Hl3).
    rewrite bind_assoc. erewrite bind_ok by reflexivity. cbn [al_base].
    destruct base as [b|]; rewrite bind_assoc; (erewrite bind_ok by reflexivity);
      by erewrite bind_ok by (eapply (free_ok (T := app_listener)); exact Hl3).
  - simpl. apply map_eq. intros j. destruct (decide (j = brk v3)) as [->|Hj].
    + rewrite lookup_delete_eq. symmetry. apply Hf. lia.
    + rewrite lookup_delete_ne, Hh by done. case_decide; [done|]. rewrite Hu by done.
      rewrite Hf3, Hf by lia. done.
Qed.

(** The state in which the preconnection is asked to listen. *)
Definition with_app_listener (base : ptr) (v3 : world) : world :=
  World (<[brk v3 := OAppListener (AppListener base None cbs)]> (heap v3)) (Pos.succ (brk v3)) (errno v3) (trace v3).

(** The loopback address and the port, in network order. *)
Definition local_address (ip : Z) : sockaddr := Sockaddr AF_INET (network_order PORT) ip (sa_in6 sin).

Lemma listen_at w ip d e tp v v3 b :
  selected w ip d e tp v v3 ->
  let u := with_app_listener (Some b) v3 in
  tapsPreconnectionListen sin6 sin (Some (brk v)) (Some (brk v3)) (Some b) (Some cbs) u
  = tapsListenerNew (Some (brk v3)) (ds_libpath d) (local_address ip) (Some b) (Some cbs) u.
Proof.
  intros (x & row & rows & R & Hb & Hf3 & T3 & Hold & Hpc & Hd) u. destruct Hpc as [(p & Hp & _ & Hrows & _ & Hends) _].
  destruct Hd as (_ & _ & (c & Hc & Hlib) & _). pose proof (rd_below _ _ _ _ _ _ _ R) as (Le & _).
  destruct Hends as (Hnl & Hl & _). pose proof (fresh_from_lt _ _ _ _ Hf3 Hlib) as Lc.
  assert (fresh_from (heap u) (brk u)) as Hfu.
  { intros j Hj. simpl in *. rewrite lookup_insert_ne by lia. apply Hf3. lia. }
  assert (forall j, (j < brk v3)%positive -> heap u !! j = heap v3 !! j) as Hu.
  { intros j Hj. simpl. by rewrite lookup_insert_ne by lia. }
  rewrite (tapsPreconnectionListen_ok (delete e (heap u)) u (brk v) p e x (with_ipv4 PORT ip) row c (ds_libpath d)).
  - unfold can_listen. by rewrite Hnl.
  - by rewrite Hu.
  - destruct (pc_local p) as [|y ys]; [done|]. simpl in *. congruence.
  - apply R; [|done]. rewrite Hu, Hold by lia. apply R.
  - done.
  - destruct (pc_protocol p) as [|y ys]; [done|]. simpl in *. congruence.
  - done.
  - by rewrite Hu.
Qed.

(** Up to the answer of the listener. *)
Lemma main_asks event_base_dispatch w ip d e tp v v3 b :
  selected w ip d e tp v v3 -> event_base_new = Some b ->
  main_listen sin6 sin event_base_dispatch (Some (brk v)) (Some e) (Some tp) v3
  = (t ← tapsListenerNew (Some (brk v3)) (ds_libpath d) (local_address ip) (Some b) (Some cbs);
     modify (Some (brk v3)) (set_al_taps t) ;;
     match t with
     | None => main_fail (Some (brk v)) (Some e) (Some tp) (Some (brk v3))
     | Some _ => main_serve event_base_dispatch (Some (brk v)) (Some e) (Some tp) (Some (brk v3))
     end) (with_app_listener (Some b) v3).
Proof.
  intros Hs Hbase. unfold main_listen. rewrite Hbase. erewrite bind_ok by apply malloc_succeeds, memory. cbv iota.
  do 2 erewrite bind_ok by (apply (modify_ok (T := app_listener)), lookup_insert_eq).
  erewrite bind_ok by (apply (modify_ok (T := app_listener)), lookup_insert_eq).
  assert (forall A B (m m' : M A) (k : A -> M B) x x', x = x' -> m x' = m' x' -> (m ≫= k) x = (m' ≫= k) x') as Hbind.
  { intros A B m m' k y y' -> E. unfold mbind, M_bind. by rewrite E. }
  apply Hbind; [|by eapply listen_at].
  unfold set_heap, with_app_listener. simpl. by rewrite !insert_insert_eq.
Qed.

(** Without an event base, or without the library, everything is given back. *)
Lemma main_gives_up event_base_dispatch w ip d e tp v v3 :
  selected w ip d e tp v v3 -> fresh_from (heap w) (brk w) ->
  event_base_new = None \/ dlopen (ds_libpath d) = None
  \/ (exists lib s, dlopen (ds_libpath d) = Some lib /\ s ∈ symbols /\ dlsym (Some lib) s = None) ->
  exists u', main_listen sin6 sin event_base_dispatch (Some (brk v)) (Some e) (Some tp) v3 = (Ok 0, u') /\ heap u' = heap w.
Proof.
  intros Hs Hf Hno. pose proof Hs as (x & row & rows & _ & _ & Hf3 & _).
  assert (forall base, heap (with_app_listener base v3) !! brk (with_app_listener base v3) = None) as Hn.
  { intros base. simpl. rewrite lookup_insert_ne by lia. apply Hf3. lia. }
  destruct event_base_new as [b|] eqn:Hbase.
  - destruct Hno as [?|Hno]; [done|]. rewrite (main_asks _ w ip d e tp v v3 b Hs Hbase).
    assert (exists tr, tapsListenerNew (Some (brk v3)) (ds_libpath d) (local_address ip) (Some b) (Some cbs)
        (with_app_listener (Some b) v3) = (Ok None, without_listener tr (with_app_listener (Some b) v3))) as [tr E].
    { destruct Hno as [Hd|(lib & s & Hd & Hin & Hsym)]; eexists.
      - apply without_library; [apply Hn|apply memory|done].
      - eapply without_symbol; [apply Hn|apply memory|done..]. }
    erewrite bind_ok by exact E. erewrite bind_ok by (apply (modify_ok (T := app_listener)), lookup_insert_eq).
    eapply (main_fail_gives_back w ip d e tp v v3 (Some b) cbs); [done|done|apply lookup_insert_eq| |simpl; lia].
    intros j Hj. simpl. by rewrite !lookup_insert_ne.
  - unfold main_listen. rewrite Hbase. erewrite bind_ok by apply malloc_succeeds, memory. cbv iota.
    do 2 erewrite bind_ok by (apply (modify_ok (T := app_listener)), lookup_insert_eq).
    eapply (main_fail_gives_back w ip d e tp v v3 None); [done|done|apply lookup_insert_eq| |simpl; lia].
    intros j Hj. simpl. by rewrite !lookup_insert_ne.
Qed.

Context (sockets : (forall h f, 0 <= sys_socket h f) /\ (forall h fd a, 0 <= sys_bind h fd a)
  /\ (forall h fd k, 0 <= sys_listen h fd k) /\ (forall h b fd what a, lev_new h b fd what a <> None)).

(** What is in memory while the server waits for events, and how it got there. *)
Definition serving_heap (l L K : loc) (lib b : loc) (ev : ptr) (fd : Z) (h : gmap loc obj) : gmap loc obj :=
  <[l := OAppListener (AppListener (Some b) (Some L) cbs)]>
    (<[L := OListener (listener_done (Some lib) (Some b) (Some K) (Some l) L cbs)]>
       (<[K := OListenerCtx (ListenerCtx (Some b) ev fd (Some fn_connection_received) None (Some fn_closed)
           (Some fn_connection_error) (Some L))]> h)).

Definition listening_trace (path : string) (listen : fn) (L K : loc) (b : loc) (addr : sockaddr) (ev : ptr) (fd r : Z) : list event :=
  [EvDlopen path; PListen listen (Some L) (Some b) addr; KSocket fd; KBind fd addr; KListen fd;
   LNew ev fd (EV_READ + EV_PERSIST) (Some K); LAdd ev r].

(** The listener is made. *)
Lemma main_listens w ip d e tp v v3 b lib listen :
  selected w ip d e tp v v3 -> dlopen (ds_libpath d) = Some lib ->
  dlsym (Some lib) "Listen" = Some listen -> Forall (fun s => dlsym (Some lib) s <> None) symbols ->
  let l := brk v3 in let L := Pos.succ l in let K := Pos.succ L in
  let u := with_app_listener (Some b) v3 in
  exists ev fd r,
    tapsListenerNew (Some l) (ds_libpath d) (local_address ip) (Some b) (Some cbs) u
    = (Ok (Some L), World (<[L := OListener (listener_done (Some lib) (Some b) (Some K) (Some l) L cbs)]>
         (<[K := OListenerCtx (ListenerCtx (Some b) ev fd (Some fn_connection_received) None (Some fn_closed)
             (Some fn_connection_error) (Some L))]> (heap u))) (Pos.succ K) (errno v3)
         (trace v3 ++ listening_trace (ds_libpath d) listen L K b (local_address ip) ev fd r)).
Proof.
  intros Hs Hd E0 Hall l L K u. pose proof Hs as (x & row & rows & _ & _ & Hf3 & _).
  unfold symbols in Hall. rewrite !Forall_cons in Hall.
  destruct Hall as (_ & [stop E1]%not_eq_None_Some & [send E2]%not_eq_None_Some & [receive E3]%not_eq_None_Some & _).
  assert (heap u !! brk u = None) as Hn by (simpl; rewrite lookup_insert_ne by lia; apply Hf3; lia).
  erewrite up_to_listen by (exact Hn || apply memory || done).
  destruct sockets as (S1 & S2 & S3 & S4).
  edestruct (Listen_ok (Some L) (Some b) (local_address ip) (Some fn_connection_received) None (Some fn_closed)
      (Some fn_connection_error) (asked (ds_libpath d) listen (local_address ip) (Some b) u))
    as (fd & ev & r & E); [apply memory|done..|].
  exists ev, fd, r. unfold proto_listen, tcp_proto. erewrite bind_ok by exact E.
  erewrite (after_listen_run _ u lib b).
  2: { simpl. rewrite lookup_insert_ne by lia. rewrite lookup_insert_eq. by rewrite Hd. }
  unfold set_heap, listening_trace. simpl. rewrite <- app_assoc. do 2 f_equal.
  apply insert_around. lia.
Qed.

(** The state in which [main] has its listener. *)
Definition with_listeners (l L K : loc) (lib b : loc) (ev : ptr) (fd r : Z) (path : string) (listen : fn) (addr : sockaddr)
    (v3 : world) : world :=
  World (serving_heap l L K lib b ev fd (heap (with_app_listener (Some b) v3))) (Pos.succ K) (errno v3)
    (trace v3 ++ listening_trace path listen L K b addr ev fd r).

Lemma main_has_listener w ip d e tp v v3 b lib listen :
  selected w ip d e tp v v3 -> event_base_new = Some b -> dlopen (ds_libpath d) = Some lib ->
  dlsym (Some lib) "Listen" = Some listen -> Forall (fun s => dlsym (Some lib) s <> None) symbols ->
  let l := brk v3 in let L := Pos.succ l in let K := Pos.succ L in
  exists ev fd r, forall event_base_dispatch,
    main_listen sin6 sin event_base_dispatch (Some (brk v)) (Some e) (Some tp) v3
    = main_serve event_base_dispatch (Some (brk v)) (Some e) (Some tp) (Some l)
        (with_listeners l L K lib b ev fd r (ds_libpath d) listen (local_address ip) v3).
Proof.
  intros Hs Hbase Hd E0 Hall l L K. destruct (main_listens w ip d e tp v v3 b lib listen Hs Hd E0 Hall) as (ev & fd & r & E).
  exists ev, fd, r. intros D. rewrite (main_asks D w ip d e tp v v3 b Hs Hbase). erewrite bind_ok by exact E.
  erewrite bind_ok by (apply (modify_ok (T := app_listener)); simpl; rewrite !lookup_insert_ne by lia; apply lookup_insert_eq).
  done.
Qed.

Lemma main_serves w ip d e tp v v3 b lib listen :
  selected w ip d e tp v v3 -> fresh_from (heap w) (brk w) -> event_base_new = Some b ->
  dlopen (ds_libpath d) = Some lib ->
  dlsym (Some lib) "Listen" = Some listen -> Forall (fun s => dlsym (Some lib) s <> None) symbols ->
  let l := brk v3 in let L := Pos.succ l in let K := Pos.succ L in
  exists ev fd r s r' u,
    (forall event_base_dispatch, main_listen sin6 sin event_base_dispatch (Some (brk v)) (Some e) (Some tp) v3
      = main_waits event_base_dispatch (Some b) s (Some l) u)
    /\ heap u = serving_heap l L K lib b ev fd (heap w) /\ fresh_from (heap u) (brk u)
    /\ trace u = trace w ++ listening_trace (ds_libpath d) listen L K b (local_address ip) ev fd r
                 ++ [LNew s SIGINT EV_SIGNAL (Some l); LAdd s r'].
Proof.
  intros Hs Hf Hbase Hd E0 Hall l L K. destruct (main_has_listener w ip d e tp v v3 b lib listen Hs Hbase Hd E0 Hall) as (ev & fd & r & E).
  destruct Hs as (x & row & rows & R & Hb & Hf3 & T3 & Hold & Hpc & _). pose proof (rd_below _ _ _ _ _ _ _ R) as (_ & _ & Hw).
  fold l L K in E. set (u := with_listeners _ _ _ _ _ _ _ _ _ _ _ _) in E.
  assert (forall j, (j < l)%positive -> heap u !! j = heap v3 !! j) as Hu.
  { intros j Hj. simpl. unfold serving_heap. simpl. by rewrite !lookup_insert_ne by lia. }
  assert (fresh_from (heap u) (brk u)) as Hfu.
  { intros j Hj. simpl in *. unfold serving_heap. simpl. rewrite !lookup_insert_ne by lia. apply Hf3. lia. }
  destruct (release_all w v e tp x _ _ _ v3 u R Hpc Hold Hb) as (u1 & u2 & u3 & F1 & F2 & F3 & B3 & T & Hh);
    [done|done|simpl; lia|].
  assert (heap u3 = serving_heap l L K lib b ev fd (heap w)) as Hu3.
  { apply map_eq. intros j. rewrite Hh. unfold serving_heap. case_decide.
    { by rewrite !lookup_insert_ne by lia. }
    simpl. unfold serving_heap, with_app_listener. simpl. fold l L K.
    destruct (decide (j = l)) as [->|]; [by rewrite !lookup_insert_eq|rewrite !(lookup_insert_ne _ l) by done].
    destruct (decide (j = L)) as [->|]; [by rewrite !lookup_insert_eq|rewrite !(lookup_insert_ne _ L) by done].
    destruct (decide (j = K)) as [->|]; [by rewrite !lookup_insert_eq|rewrite !(lookup_insert_ne _ K) by done].
    rewrite lookup_insert_ne by done. rewrite Hf3, Hf by lia. done. }
  assert (heap u3 !! l = Some (OAppListener (AppListener (Some b) (Some L) cbs))) as Hl by (rewrite Hu3; apply lookup_insert_eq).
  eexists ev, fd, r, _, _, _. split.
  - intros D. rewrite (E D). unfold main_serve. erewrite bind_ok by exact F1. erewrite bind_ok by exact F2. erewrite bind_ok by exact F3.
    erewrite bind_ok by (apply (load_ok (T := app_listener)); exact Hl).
    erewrite (bind_ok (event_new _ _ _ _)) by reflexivity. rewrite event_add_ok by apply sockets.
    erewrite (bind_ok (ask _ _)) by reflexivity. reflexivity.
  - simpl. splits; [done| |rewrite T; simpl; rewrite T3, <- !app_assoc; reflexivity].
    intros j Hj. rewrite Hh, decide_False by (simpl in *; lia). apply Hfu. by rewrite <- B3.
Qed.

(** The server is one that EchoTcp.v is about. *)
Lemma serving_listens (u : world) l L K lib b ev fd h :
  heap u = serving_heap l L K lib b ev fd h -> NoDup [l; L; K] -> fresh_from (heap u) (brk u) ->
  Forall (fun s => dlsym (Some lib) s <> None) symbols -> echo_listens u K L l.
Proof.
  intros Hu Hd Hf Hall. unfold symbols in Hall. rewrite !Forall_cons in Hall.
  destruct Hall as (_ & _ & [gs E2]%not_eq_None_Some & [gr E3]%not_eq_None_Some & _).
  rewrite !NoDup_cons, !not_elem_of_cons in Hd. destruct Hd as ((N1 & N2 & _) & (N3 & _) & _).
  split; [exact Hf| | |]; rewrite Hu; unfold serving_heap.
  - rewrite !lookup_insert_ne, lookup_insert_eq by done. by eexists.
  - rewrite lookup_insert_ne, lookup_insert_eq by done. by exists (listener_done (Some lib) (Some b) (Some K) (Some l) L cbs), gs, gr.
  - rewrite lookup_insert_eq. by eexists.
Qed.

(** The end of the server. *)
Lemma main_ends event_base_dispatch (b s : ptr) l L lib x u v :
  event_base_dispatch b u = (Ok tt, v) ->
  heap v !! l = Some (OAppListener (AppListener b (Some L) cbs)) -> heap v !! L = Some (OListener x) ->
  l_readyToStop x = TRUE -> l_stopped x = None -> ph_proto (l_handles x) = lib ->
  main_waits event_base_dispatch b s (Some l) u
  = (Ok 0, World (delete l (delete L (heap v))) (brk v) (errno v)
             (trace v ++ [EvDlclose lib; LDel s; LFree s; EvBaseFree b])).
Proof.
  intros E Hl HL Hr Hst Hlib. unfold main_waits. erewrite bind_ok by exact E.
  erewrite bind_ok by (apply (load_ok (T := app_listener)); exact Hl). cbn [al_taps al_base].
  assert (L <> l) as Hne by congruence.
  erewrite (bind_ok (tapsListenerFree _)).
  2: { unfold tapsListenerFree. erewrite bind_ok by (apply (load_ok (T := tapsListener)); exact HL).
       rewrite Hr. cbn [truth negb Z.eqb TRUE andb].
       erewrite bind_ok by (apply (load_ok (T := tapsListener)); exact HL). rewrite Hst.
       erewrite bind_ok by reflexivity. erewrite bind_ok by (eapply (free_ok (T := tapsListener)); exact HL). reflexivity. }
  unfold drop_event. rewrite bind_assoc. do 3 erewrite bind_ok by reflexivity.
  erewrite bind_ok by (eapply (free_ok (T := app_listener)); simpl; rewrite lookup_delete_ne by done; exact Hl).
  rewrite ret_ok, Hlib. unfold set_heap, add_event. simpl. by rewrite <- !app_assoc.
Qed.

(** With all there is to have, [main] comes to the event loop. *)
Lemma main_comes_to_wait w ip d rest b lib listen :
  fresh_from (heap w) (brk w) -> inet_pton4 localhost = Some ip -> usable = d :: rest -> event_base_new = Some b ->
  dlopen (ds_libpath d) = Some lib -> dlsym (Some lib) "Listen" = Some listen ->
  Forall (fun s => dlsym (Some lib) s <> None) symbols ->
  exists l L K ev fd r s r' u,
    (forall event_base_dispatch, run_main event_base_dispatch w = main_waits event_base_dispatch (Some b) s (Some l) u)
    /\ heap u = serving_heap l L K lib b ev fd (heap w)
    /\ NoDup [l; L; K] /\ Forall (fun j => heap w !! j = None) [l; L; K] /\ echo_listens u K L l
    /\ trace u = trace w ++ listening_trace (ds_libpath d) listen L K b (local_address ip) ev fd r
                 ++ [LNew s SIGINT EV_SIGNAL (Some l); LAdd s r'].
Proof.
  intros Hf Hip Hu Hbase Hd E0 Hall. pose proof (main_selects w ip Hf Hip) as Hs.
  rewrite Hu in Hs. destruct Hs as (e & tp & v & v3 & Hs & E).
  pose proof Hs as (x & row & rows & R & Hb & _). pose proof (rd_below _ _ _ _ _ _ _ R) as (_ & _ & Hw).
  destruct (main_serves w ip d e tp v v3 b lib listen Hs Hf Hbase Hd E0 Hall) as (ev & fd & r & s & r' & u & E1 & Hh & Hfu & Ht).
  assert (NoDup [brk v3; Pos.succ (brk v3); Pos.succ (Pos.succ (brk v3))]) as Hnd.
  { rewrite !NoDup_cons, !not_elem_of_cons. splits; try lia; try apply not_elem_of_nil. apply NoDup_nil_2. }
  eexists _, _, _, ev, fd, r, s, r', u. split; [intros D; by rewrite E|]. split; [exact Hh|]. split; [exact Hnd|]. splits.
  - repeat constructor; apply Hf; lia.
  - by eapply serving_listens.
  - exact Ht.
Qed.

(** What [main] does not get over without giving up: no address, no protocol, no
    event base, no library or not all of its functions. *)
Definition obstacle : Prop :=
  inet_pton4 localhost = None \/ event_base_new = None
  \/ match usable with
     | [] => True
     | d :: _ => dlopen (ds_libpath d) = None
         \/ exists lib s, dlopen (ds_libpath d) = Some lib /\ s ∈ symbols /\ dlsym (Some lib) s = None
     end.

(** C6: [main] of the echo server as a whole, over the TCP library, when memory,
    socket, bind, listen and libevent do not fail, /etc/taps has at most one
    configuration file, a well-formed one, and the memory of the new
    preconnection holds the count 0.  If the address, a usable protocol, the
    event base, the shared library or one of its functions is missing, [main]
    returns with the heap it started with.  Otherwise it comes to wait for events
    with the port and the loopback address listened on, and then three blocks are
    in the heap that were not before: its own listener, the library's and the
    context of the TCP library; the endpoint, the properties, the preconnection
    and all rows of protocols are given back.  The state is one in which
    connections are accepted and echoed, as in Server.v.  When the loop ends with
    the listener stopped, the two listeners, the signal event, the shared object
    and the event base are given back too.  A bind that fails is C37, a malformed
    file C39; the buffers of libyaml's events are not in the heap and leak. *)
Theorem main_outcomes w :
  fresh_from (heap w) (brk w) ->
  (obstacle -> gives_up w) /\
  forall ip d rest b lib listen,
    inet_pton4 localhost = Some ip -> usable = d :: rest -> event_base_new = Some b ->
    dlopen (ds_libpath d) = Some lib -> dlsym (Some lib) "Listen" = Some listen ->
    Forall (fun s => dlsym (Some lib) s <> None) symbols ->
    exists l L K ev fd r s r' u,
      (forall event_base_dispatch, run_main event_base_dispatch w = main_waits event_base_dispatch (Some b) s (Some l) u)
      /\ heap u = serving_heap l L K lib b ev fd (heap w)
      /\ NoDup [l; L; K] /\ Forall (fun j => heap w !! j = None) [l; L; K] /\ echo_listens u K L l
      /\ trace u = trace w ++ listening_trace (ds_libpath d) listen L K b (local_address ip) ev fd r
                   ++ [LNew s SIGINT EV_SIGNAL (Some l); LAdd s r']
      /\ forall event_base_dispatch v x,
           event_base_dispatch (Some b) u = (Ok tt, v) ->
           heap v !! l = Some (OAppListener (AppListener (Some b) (Some L) cbs)) -> heap v !! L = Some (OListener x) ->
           l_readyToStop x = TRUE -> l_stopped x = None -> ph_proto (l_handles x) = Some lib ->
           exists w', run_main event_base_dispatch w = (Ok 0, w') /\ heap w' = delete l (delete L (heap v))
             /\ trace w' = trace v ++ [EvDlclose (Some lib); LDel s; LFree s; EvBaseFree (Some b)].
Proof.
  intros Hf. split.
  - intros Ho. destruct (inet_pton4 localhost) as [ip|] eqn:Hip.
    2: { pose proof (main_prepares w Hf) as Hp. by rewrite Hip in Hp. }
    pose proof (main_selects w ip Hf Hip) as Hs. destruct Ho as [?|Ho]; [congruence|].
    destruct usable as [|d rest]; [done|]. destruct Hs as (e & tp & v & v3 & Hs & E). intros D. rewrite E.
    by eapply main_gives_up.
  - intros ip d rest b lib listen Hip Hu Hbase Hd E0 Hall.
    destruct (main_comes_to_wait w ip d rest b lib listen Hf Hip Hu Hbase Hd E0 Hall)
      as (l & L & K & ev & fd & r & s & r' & u & E1 & Hh & Hnd & Hnew & Hls & Ht).
    exists l, L, K, ev, fd, r, s, r', u. do 6 (split; [done|]).
    intros D v' y Ev Hl HL Hr Hst Hlib. eexists. rewrite E1. split; [by eapply main_ends|]. done.
Qed.

End main.

(** ** The server from its start to an interrupt *)

Module EchoMainSample.

(** The memory of a freed listener context is not used again. *)
Definition context : listener_ctx :=
  ListenerCtx (Some 5%positive) (Some 106%positive) 5 (Some fn_connection_received) None (Some fn_closed)
    (Some fn_connection_error) (Some 33%positive).
#[local] Instance machine : Machine := {|
  malloc_ok _ := true;
  uninit T _ _ := zero;
  stale l := if bool_decide (l = 34%positive) then Some (OListenerCtx context) else None;
  wild _ := None;
  dlopen path := if String.eqb path "/usr/lib/x86_64-linux-gnu/libtaps_tcp.so" then Some 1%positive else None;
  dlsym := @dlsym strict_machine;
  event_base_new := Some 5%positive;
|}.
#[local] Existing Instance EndpointSample.net.
#[local] Instance sys : Sys := {|
  sys_socket _ _ := 5;
  sys_bind _ _ _ := 0;
  sys_listen _ _ _ := 0;
  sys_accept _ _ := 7;
  sys_readv _ _ _ _ := 10;
  sys_writev _ _ _ _ := 10;
  lev_new h _ _ _ _ := Some (Pos.of_succ_nat (100 + length h));
  lev_add _ _ := 0;
  lev_pending _ _ := false;
|}.
#[local] Instance buffers : Buffers := fun l => 1000 * Zpos l.
#[local] Instance app : App := server 2.

Definition start : world := test_world [] 1.
Definition stack : list tapsProtocol := replicate 255 zero_protocol.
Definition host : list description := [CfgSample.kernel_udp; CfgSample.kernel_tcp].
Definition host_dir : list dirent := [Dirent "." None; Dirent ".." None; Dirent "kernel.yaml" (Some (file host))].

Definition go (loop : ptr -> M unit) : M Z := run_main 0 host_dir stack (Sockaddr 0 0 0 0) (Sockaddr 0 0 0 0) loop.

(** The server is interrupted: everything is given back. *)
Definition interrupt : M unit := _app_sighandler (H0 := tcp_proto) (Some 32%positive).

Example interrupt_gives_back :
  let '(r, w) := go (fun _ => interrupt) start in r = Ok 0 /\ heap w = ∅ /\ last (trace w) = Some (EvBaseFree (Some 5%positive)).
Proof. by vm_compute. Qed.

Lemma has_memory c : malloc_ok c = true.
Proof. done. Qed.

Lemma new_blocks c : shaped (uninit c) /\ pc_numProtocols (uninit c) = 0.
Proof. done. Qed.

Lemma enough : configured host_dir host /\ (length host <= length stack)%nat /\ (length host < 256)%nat.
Proof.
  split; [right|simpl; lia]. exists [Dirent "." None; Dirent ".." None], "kernel.yaml"%string, [].
  splits; [done|by repeat constructor|by vm_compute|constructor].
Qed.

Lemma sockets_work :
  (forall h f, 0 <= sys_socket h f) /\ (forall h fd a, 0 <= sys_bind h fd a) /\ (forall h fd k, 0 <= sys_listen h fd k)
  /\ (forall h b fd what a, lev_new h b fd what a <> None).
Proof. splits; intros; simpl; done || lia. Qed.

Lemma start_fresh : fresh_from (heap start) (brk start).
Proof. intros j _. apply lookup_empty. Qed.

Lemma main_outcomes_witness :
  exists l L K ev fd r s r' u,
    go (fun _ => interrupt) start = main_waits (fun _ => interrupt) (Some 5%positive) s (Some l) u
    /\ heap u = serving_heap l L K 1 5 ev fd ∅ /\ echo_listens u K L l
    /\ trace u = listening_trace "/usr/lib/x86_64-linux-gnu/libtaps_tcp.so" 101 L K 5
                   (Sockaddr AF_INET 45845 16777343 0) ev fd r
                 ++ [LNew s SIGINT EV_SIGNAL (Some l); LAdd s r'].
Proof.
  destruct (proj2 (main_outcomes 0 host_dir host stack (Sockaddr 0 0 0 0) (Sockaddr 0 0 0 0)
      has_memory enough new_blocks sockets_work start start_fresh)
    16777343 CfgSample.kernel_tcp [] 5%positive 1%positive 101%positive)
    as (l & L & K & ev & fd & r & s & r' & u & E & Hh & _ & _ & Hl & Ht & _);
    [done|by vm_compute|done|done|done|repeat constructor; done|].
  exists l, L, K, ev, fd, r, s, r', u. exact (conj (E _) (conj Hh (conj Hl Ht))).
Defined.

End EchoMainSample.
