(* ===== verification/Clients.v ===== *)
(** * Clients: connections that do not know of each other

    What happens at one connection of the echo server leaves every other one as
    it is: the calls are about its own context, socket and events, and the
    blocks that change are its own.  [waits_stranger] says so of the state
    between two events; Server.v has any number of connections with it. *)

From S2P Require Import Prelude Structs Memory Message Queue Listener Connection Accept Resources Requests Sending Receiving.
From S2P Require Import Tcp Echo EchoRound Simulate TcpPort EchoTcp.
Local Open Scope Z_scope.

(** ** Calls about a context *)

(** Contexts with nothing in common. *)
Definition strangers (h h' : holding) : Prop :=
  context_fd h <> context_fd h' /\ forall e, e ∈ context_events h -> e ∈ context_events h' -> False.

Lemma strangers_sym h h' : strangers h h' -> strangers h' h.
Proof. intros [Hf He]. split; [done|]. intros e ? ?. by apply (He e). Qed.

Section about.
Context (k k' : loc) (h h' : holding).
Hypothesis (distinct : k <> k') (apart : strangers h h').

Lemma about_port t es : Forall (about k h) es -> port_of k' (t ++ es) = port_of k' t.
Proof.
  intros Hes. unfold port_of. rewrite fold_left_app. generalize (fold_left (port_step k') t idle_port).
  induction Hes as [|e es He _ IH]; [done|]. intros p. simpl. rewrite IH.
  destruct e; simpl in *; try done; try (by rewrite bool_decide_false by congruence);
    destruct He; by rewrite bool_decide_false by congruence.
Qed.

Lemma about_pending e' t es : e' ∈ context_events h' -> Forall (about k h) es -> pending e' (t ++ es) = pending e' t.
Proof.
  intros He' Hes. unfold pending. rewrite fold_left_app. generalize (fold_left (pending_step e') t false).
  destruct apart as [_ Hap]. induction Hes as [|e es He _ IH]; [done|]. intros p. simpl. rewrite IH.
  destruct e; simpl in *; try done; rewrite bool_decide_false; try done; intros ->; try (by eapply Hap);
    destruct He; by eapply Hap.
Qed.

Lemma about_writes t es : Forall (about k h) es -> writes (context_fd h') (t ++ es) = writes (context_fd h') t.
Proof.
  intros Hes. rewrite writes_app. destruct apart as [Hf _]. replace (writes _ es) with (@nil (iovptr * Z)); [apply app_nil_r|].
  induction Hes as [|e es He _ IH]; [done|]. change (e :: es) with ([e] ++ es). rewrite writes_app, <- IH.
  destruct e; simpl in *; try done. unfold writes. simpl. by rewrite (proj2 (Z.eqb_neq _ _)) by congruence.
Qed.

Lemma about_reads t es : Forall (about k h) es -> reads (context_fd h') (t ++ es) = reads (context_fd h') t.
Proof.
  intros Hes. rewrite reads_app. destruct apart as [Hf _].
  replace (reads _ es) with (@nil (option iovptr * Z * Z)); [apply app_nil_r|].
  induction Hes as [|e es He _ IH]; [done|]. change (e :: es) with ([e] ++ es). rewrite reads_app, <- IH.
  destruct e; simpl in *; try done. unfold reads. simpl. by rewrite (proj2 (Z.eqb_neq _ _)) by congruence.
Qed.

End about.

(** ** The blocks of a connection *)

(** Listeners may count differently, but lead to the same protocol. *)
Definition same_protocols (h h' : gmap loc obj) : Prop :=
  forall L lx, h !! L = Some (OListener lx) -> exists lx', h' !! L = Some (OListener lx') /\ l_handles lx' = l_handles lx.

Section footprint.
Context `{Buffers} (gs gr : fn) (c cc al : loc) (ctx : ptr).

Lemma receives_items rs : (echo_recv c <$> rs).*1 = rs.*1.
Proof. induction rs as [|p rs IH]; [done|]. by rewrite !fmap_cons, IH. Qed.

Lemma bodies_in_blocks ps h h' :
  (forall j, j ∈ echo_blocks ps -> h' !! j = h !! j) -> Forall (body_blocks h) ps.*2 -> Forall (body_blocks h') ps.*2.
Proof.
  intros Hk. rewrite !Forall_fmap, !Forall_forall. intros Hb p Hp. destruct (Hb p Hp) as [E1 E2].
  split; simpl in *; (rewrite Hk; [done|]); apply list_elem_of_bind; exists p; (split; [|done]); unfold queued_blocks; set_solver.
Qed.

Lemma has_handle_same h h' x get g : same_protocols h h' -> has_handle h x get g -> has_handle h' x get g.
Proof.
  intros Hk (L & lx & E1 & E2 & E3). destruct (Hk _ _ E2) as (lx' & E2' & E4). exists L, lx'. by rewrite E4.
Qed.

(** The state of a connection is in its blocks. *)
Lemma echoing_footprint w w' x rs es :
  echoing gs gr c cc al ctx w x rs [] es ->
  (forall j, j ∈ [c; cc; al] ++ echo_blocks (rs ++ es) -> heap w' !! j = heap w !! j) ->
  same_protocols (heap w) (heap w') -> fresh_from (heap w') (brk w') -> echoing gs gr c cc al ctx w' x rs [] es.
Proof.
  intros [[[Hc Hq Hf] Hh Hi] [[_ Hq' _] Hh' Hi'] R1 R2 [Ex Ecc (y & Hal & Hy)] [Hb Hn1 Hn2] Hl] Hk Hp Hf'.
  simpl in Hb, Hn1, Hn2. rewrite <- fmap_app in Hb.
  apply (bodies_in_blocks _ _ (heap w')) in Hb; [|intros j Hj; apply Hk; set_solver].
  pose proof Hb as Hbb. rewrite fmap_app in Hbb. apply Forall_app in Hbb as [Hb1 Hb2].
  rewrite echo_blocks_app in Hk.
  split; [| |done|done| | |done].
  - split; [split; [rewrite Hk by set_solver; done| |done]|by eapply has_handle_same|].
    + eapply queue_frame; [|exact Hq]. intros j. rewrite receives_items. intros ?%items_in_blocks. apply Hk. set_solver.
    + apply Forall_and. split; [eapply Forall_impl; [exact Hi|by intros p []]|by apply receives_have_messages].
  - split; [split; [rewrite Hk by set_solver; done| |done]|by eapply has_handle_same|].
    + eapply queue_frame; [|exact Hq']. intros j. rewrite sends_items. intros ?%items_in_blocks. apply Hk. set_solver.
    + apply Forall_and. split; [eapply Forall_impl; [exact Hi'|by intros p []]|by apply sends_have_messages].
  - split; [done|rewrite Hk by set_solver; done|]. exists y. by rewrite Hk by set_solver.
  - split; [|done|done]. simpl. by rewrite <- fmap_app.
Qed.

End footprint.

(** ** The state between two events *)

Section stranger.
Context `{Machine} `{Sys} `{Buffers} `{!Working} (gs gr : fn) (c cc al k : loc) (fd : Z) (pre : opening).
Context (L : loc) (bg bg' : gmap loc obj).

(** The same, seen from the present. *)
Definition since (t : list event) : opening := Opening (op_held pre) (op_writes pre) t.

Lemma waits_stranger w w' x l b es taken k1 h1 tr :
  waits gs gr c cc al k fd pre L bg w x l b es taken ->
  (forall j, j ∈ al :: own_blocks c cc k ++ echo_blocks ((l, b) :: es) -> heap w' !! j = heap w !! j) ->
  same_protocols (heap w) (heap w') -> fresh_from (heap w') (brk w') ->
  trace w' = trace w ++ tr -> Forall (about k1 h1) tr -> k1 <> k -> strangers h1 (op_held pre) ->
  surrounds bg' w' (own_blocks c cc k ++ echo_blocks ((l, b) :: es)) ->
  waits gs gr c cc al k fd (since (trace w')) L bg' w' x l b es taken.
Proof.
  intros [Hg Hlf (d & Hk & Hfd & Hs & Hw & Hh & _) Hpt _] Hfr Hp Hf Ht Htr Hne Hst Hsr.
  rewrite <- Hh in Hst. assert (context_fd (held d) = fd) as Hcf by done.
  pose proof (about_port k1 k h1 Hne (trace w) tr Htr) as E1.
  pose proof (about_writes k1 h1 (held d) Hst (trace w) tr Htr) as E2. rewrite Hcf in E2.
  pose proof (fun e He => about_pending k1 h1 (held d) Hst e (trace w) tr He Htr) as E3. rewrite <- Ht in E1, E2, E3.
  split; [|done| |congruence|done].
  - eapply echoing_footprint; [exact Hg| |done|done]. intros j Hj. apply Hfr. unfold own_blocks. set_solver.
  - exists d. rewrite Hfr by (unfold own_blocks; set_solver). rewrite E1, E2.
    split; [done|]. split; [done|]. split; [|split; [done|split; [done|exists []; by rewrite app_nil_r]]].
    destruct Hs as [S1 S2 S3 S4 S5 S6 S7]. split; try done; rewrite E3; try done; simpl; set_solver.
Qed.

End stranger.

(** ** From one event to the next *)

Section present.
Context `{Machine} `{Sys} `{Buffers} `{!Working} (gs gr : fn) (c cc al k : loc) (fd : Z) (pre : opening).
Context (L : loc) (bg : gmap loc obj).

#[local] Abbreviation waits := (waits gs gr c cc al k fd).

Lemma waits_now w x l b es taken :
  waits pre L bg w x l b es taken -> waits (since pre (trace w)) L bg w x l b es taken.
Proof.
  intros [Hg Hlf (d & Hk & Hf & Hs & Hw & Hh & _) Hp Hsr]. split; try done.
  exists d. do 4 (split; [done|]). split; [done|]. exists []. by rewrite app_nil_r.
Qed.

(** The calls since are about the context. *)
Lemma waits_calls w x l b es taken :
  waits pre L bg w x l b es taken -> exists tr, trace w = op_trace pre ++ tr /\ Forall (about k (op_held pre)) tr.
Proof.
  intros [_ _ (d & _ & _ & _ & _ & _ & tr & Et & Htr) _ _]. exists tr. split; [done|].
  eapply Forall_impl; [exact Htr|]. apply own_about.
Qed.

Lemma waits_fresh w x l b es taken : waits pre L bg w x l b es taken -> fresh_from (heap w) (brk w).
Proof. intros [Hg _ _ _ _]. by eapply echoing_fresh. Qed.

End present.

(** Two states with the same surroundings. *)
Lemma surrounds_frame bg w w' S S' j :
  surrounds bg w S -> surrounds bg w' S' -> j ∉ S -> j ∉ S' -> heap w' !! j = heap w !! j.
Proof. intros [_ H1] [_ H2] ??. by rewrite H1, H2. Qed.

Lemma surrounds_freed bg w w' S S' j :
  surrounds bg w S -> surrounds bg w' S' -> j ∈ S -> j ∉ S' -> heap w' !! j = None.
Proof. intros [H1 _] [_ H2] ??. by rewrite H2, H1. Qed.

Lemma surrounds_exists w S : exists bg, surrounds bg w S.
Proof.
  exists (filter (fun p => p.1 ∉ S) (heap w)). split; intros j Hj.
  - apply map_lookup_filter_None. right. by intros o _ ?.
  - apply option_eq. intros o. rewrite map_lookup_filter_Some. simpl. tauto.
Qed.
