(* ===== verification/Server.v ===== *)
(** * Server: any number of connections of the echo server over TCP

    libevent reports what happens at the listening socket and at the sockets of
    the connections, in any order.  The contract of the server says what it
    keeps for every connection; [server_refines] proves that the program
    implements it, the events of one connection coming between those of any
    other. *)

From S2P Require Import Prelude Structs Memory Message Queue Listener Connection Accept Resources Requests Sending Receiving.
From S2P Require Import Tcp TcpStack Echo EchoRound Simulate TcpPort EchoTcp EchoClose Clients.
Local Open Scope Z_scope.

(** ** The contract *)

(** A connection: its socket, the receive that waits for data with its message,
    the send that waits for the socket, if any, and the messages that were read
    into, with the number of bytes. *)
Record client := Client {
  cl_fd : Z;
  cl_recv : loc * body;
  cl_sends : list (loc * body);
  cl_log : list (loc * Z);
}.

(** The next address, the connections by the addresses of their contexts, and
    the blocks that nothing leads to any more. *)
Record service := Service {
  sv_next : loc;
  sv_clients : gmap loc client;
  sv_leaks : list loc;
}.

(** What libevent reports: a connection on socket [fd], [n] bytes for the
    connection of context [k], its socket writable, its end. *)
Inductive act :=
| Accept (fd : Z)
| Readable (k : loc) (n : Z)
| Writable (k : loc)
| Closed (k : loc).

Definition spec_act (a : act) (s : service) : option service :=
  let next := sv_next s in
  match a with
  | Accept fd =>
      let cc := Pos.succ (Pos.succ next) in
      Some (Service (Pos.succ (next_item cc))
              (<[next := Client fd (next_item cc, next_body cc) [] []]> (sv_clients s)) (sv_leaks s))
  | Readable k n =>
      cl ← sv_clients s !! k;
      let b := (cl_recv cl).2 in
      match cl_sends cl with
      | [] => Some (Service (Pos.succ (next_item next))
                (<[k := Client (cl_fd cl) (next_item next, next_body next) [(next, Body (b_msg b) (b_message b) n)]
                          (cl_log cl ++ [(b_message b, n)])]> (sv_clients s)) (sv_leaks s))
      | _ => None
      end
  | Writable k =>
      cl ← sv_clients s !! k;
      match cl_sends cl with
      | [_] => Some (Service next (<[k := Client (cl_fd cl) (cl_recv cl) [] (cl_log cl)]> (sv_clients s)) (sv_leaks s))
      | _ => None
      end
  | Closed k =>
      cl ← sv_clients s !! k;
      match cl_sends cl with
      | [] => Some (Service next (delete k (sv_clients s)) ((cl_recv cl).1 :: b_message (cl_recv cl).2 :: sv_leaks s))
      | _ => None
      end
  end.

Fixpoint spec_acts (acts : list act) (s : service) : option service :=
  match acts with [] => Some s | a :: acts => spec_act a s ≫= spec_acts acts end.

(** The blocks of a connection. *)
Definition client_blocks (k : loc) (cl : client) : list loc :=
  own_blocks (Pos.succ k) (Pos.succ (Pos.succ k)) k ++ echo_blocks (cl_recv cl :: cl_sends cl).

(** The blocks the connections have, or had and lost. *)
Definition footprint (s : service) (j : loc) : Prop :=
  j ∈ sv_leaks s \/ exists k cl, sv_clients s !! k = Some cl /\ j ∈ client_blocks k cl.

(** What was read and written, for the messages of the log: the same vectors. *)
Definition log_reads (log : list (loc * Z)) : list (option iovptr * Z * Z) :=
  (fun p => (Some (IovMessage p.1), 1, p.2)) <$> log.
Definition log_writes (log : list (loc * Z)) : list (iovptr * Z) := (fun p => (IovMessage p.1, 1)) <$> log.

(** ** What the program keeps *)

Section server.
Context `{Machine} `{Sys} `{Buffers} `{!Working} (K L al : loc) (lfd : Z) (depth : nat).

(** The connection [cl] with context [k], which holds [h]. *)
Definition client_ok (w : world) (k : loc) (cl : client) (h : holding) : Prop :=
  exists gs gr x pre bg before,
    waits gs gr (Pos.succ k) (Pos.succ (Pos.succ k)) al k (cl_fd cl) pre L bg w x (cl_recv cl).1 (cl_recv cl).2
      (cl_sends cl) (log_writes (cl_log cl))
    /\ op_held pre = h /\ (exists ce se re, h = HConnection (cl_fd cl) ce se re (Some fn_closed) (Some (Pos.succ k)))
    /\ NoDup (context_events h) /\ reads (cl_fd cl) (trace w) = before ++ log_reads (cl_log cl).

(** In state [w], which the server has come to from [w0], it has the connections
    of [s], whose contexts hold [hs]. *)
Record serving (w0 w : world) (s : service) (hs : gmap loc holding) : Prop := {
  sg_fresh : fresh_from (heap w) (brk w);
  sg_next : brk w = sv_next s;
  sg_count : exists lx, heap w0 !! L = Some (OListener lx)
               /\ heap w !! L = Some (OListener (set_l_ref_count (l_ref_count lx + Z.of_nat (size (sv_clients s))) lx))
               /\ 0 <= l_ref_count lx /\ l_ref_count lx + Z.of_nat (size (sv_clients s)) < 2 ^ 32;
  sg_clients k cl : sv_clients s !! k = Some cl -> exists h, hs !! k = Some h /\ client_ok w k cl h;
  sg_dom k : hs !! k = None <-> sv_clients s !! k = None;
  sg_apart k1 k2 cl1 cl2 j : k1 <> k2 -> sv_clients s !! k1 = Some cl1 -> sv_clients s !! k2 = Some cl2 ->
    j ∈ client_blocks k1 cl1 -> j ∈ client_blocks k2 cl2 -> False;
  sg_strangers k1 k2 h1 h2 : k1 <> k2 -> hs !! k1 = Some h1 -> hs !! k2 = Some h2 -> strangers h1 h2;
  sg_foreign k h : hs !! k = Some h ->
    opens (context_fd h) (trace w0) = 0 /\ forall e, e ∈ context_events h -> events e (trace w0) = 0;
  sg_opens f : opens f (trace w) = opens f (trace w0) + count (fun h => context_fd h =? f) hs;
  sg_events e : events e (trace w) = events e (trace w0) + count (fun h => bool_decide (e ∈ context_events h)) hs;
  sg_new j : footprint s j -> heap w0 !! j = None;
  sg_later : (brk w0 <= brk w)%positive;
  sg_born j : footprint s j -> (brk w0 <= j)%positive;
  sg_rest j : j <> L -> heap w !! j = heap w0 !! j \/ footprint s j;
}.

(** An event is handled by the program. *)
Definition handle (a : act) : M unit :=
  let depth := S (S depth) in
  match a with
  | Accept _ => _tcp_connection_received (H1 := library_taps (H0 := server depth)) lfd (Some K)
  | Readable k _ => readable depth k
  | Writable k => writable depth k
  | Closed k => closing depth k
  end.

Fixpoint handle_all (acts : list act) : M unit :=
  match acts with [] => mret tt | a :: acts => handle a ;; handle_all acts end.

End server.

(** ** The connections an event is not about *)

Section steps.
Context `{Machine} `{Sys} `{Buffers} `{!Working} (K L al : loc) (lfd : Z) (depth : nat) (w0 : world).
Hypothesis base : exists y, heap w0 !! al = Some (OAppListener y).

#[local] Abbreviation client_ok := (client_ok L al).
#[local] Abbreviation serving := (serving L al w0).
#[local] Abbreviation handle := (handle K lfd depth).

(** The blocks of a connection are in memory, and are no listeners. *)
Lemma client_live w k cl h j :
  client_ok w k cl h -> j ∈ client_blocks k cl -> exists o, heap w !! j = Some o /\ forall lx, o <> OListener lx.
Proof.
  intros (gs & gr & x & pre & bg & before & [[[[Hc Hq _] _ _] [[_ Hq' _] _ _] _ _ [_ Ecc _] [Hb _ _] _] _ (d & Hk & _) _ _] & _) Hj.
  unfold client_blocks, own_blocks in Hj. apply elem_of_app in Hj as [Hj|Hj].
  { rewrite !elem_of_cons, elem_of_nil in Hj. destruct Hj as [->|[->|[->|[]]]]; by eexists. }
  apply list_elem_of_bind in Hj as (p & Hj & Hp).
  assert (body_blocks (heap w) p.2) as [E1 E2].
  { rewrite Forall_forall in Hb. apply Hb. simpl. apply elem_of_cons in Hp as [->|Hp]; [by left|right].
    by apply list_elem_of_fmap_2. }
  assert (exists o, heap w !! p.1 = Some o /\ forall lx, o <> OListener lx) as El.
  { apply elem_of_cons in Hp as [->|Hp].
    - destruct (queue_typed _ _ _ (cl_recv cl).1 Hq) as [r Er]; [simpl; by left|]. by eexists.
    - destruct (queue_typed _ _ _ p.1 Hq') as [r Er]; [rewrite sends_items; by apply list_elem_of_fmap_2|]. by eexists. }
  unfold queued_blocks in Hj. rewrite !elem_of_cons, elem_of_nil in Hj. destruct Hj as [->|[->|[->|[]]]]; [done|by eexists..].
Qed.

(** What was there when the server began is still there. *)
Lemma base_kept w s hs j o : serving w s hs -> heap w0 !! j = Some o -> j <> L -> heap w !! j = Some o.
Proof. intros Hs Hj Hne. destruct (sg_rest _ _ _ _ _ _ Hs j Hne) as [->|Hf]; [done|]. by rewrite (sg_new _ _ _ _ _ _ Hs j Hf) in Hj. Qed.

Lemma base_new w s hs j : serving w s hs -> heap w !! j = None -> heap w0 !! j = None.
Proof.
  intros Hs Hj. destruct (heap w0 !! j) as [o|] eqn:E; [|done]. destruct (decide (j = L)) as [->|].
  - destruct (sg_count _ _ _ _ _ _ Hs) as (lx & _ & E' & _). congruence.
  - by rewrite (base_kept w s hs j o Hs E) in Hj.
Qed.

(** Another connection stays as it is. *)
Lemma client_stranger w w' k cl h k1 h1 tr :
  client_ok w k cl h -> (forall j, j ∈ al :: client_blocks k cl -> heap w' !! j = heap w !! j) ->
  same_protocols (heap w) (heap w') -> fresh_from (heap w') (brk w') -> trace w' = trace w ++ tr ->
  Forall (about k1 h1) tr -> k1 <> k -> strangers h1 h -> client_ok w' k cl h.
Proof.
  intros (gs & gr & x & pre & bg & before & Hw & Eh & Hh & Hd & Hr) Hfr Hp Hf Ht Htr Hne Hst.
  destruct (surrounds_exists w' (client_blocks k cl)) as [bg' Hsr].
  assert ((cl_recv cl) = ((cl_recv cl).1, (cl_recv cl).2)) as Er by (by destruct (cl_recv cl)).
  unfold client_blocks in Hfr, Hsr. rewrite Er in Hfr, Hsr. rewrite <- Eh in Hst.
  exists gs, gr, x, (since pre (trace w')), bg', before. split; [by eapply waits_stranger|].
  split; [done|]. split; [done|]. split; [done|]. rewrite <- Hr, Ht.
  destruct Hh as (ce & se & re & E). rewrite Eh, E in Hst. exact (about_reads k1 h1 _ Hst (trace w) tr Htr).
Qed.

(** ** One event *)

Section event.
Context (w w' : world) (s : service) (hs : gmap loc holding) (k : loc) (h : holding) (tr : list event).
Context (o : option client) (oh : option holding) (lk : list loc).

Definition blocks_of (o : option client) : list loc := match o with Some cl => client_blocks k cl | None => [] end.

#[local] Abbreviation old := (blocks_of (sv_clients s !! k)).
#[local] Abbreviation new := (blocks_of o).

Definition service_after : service :=
  Service (brk w') (partial_alter (fun _ => o) k (sv_clients s)) (lk ++ sv_leaks s).
Definition held_after : gmap loc holding := partial_alter (fun _ => oh) k hs.

(** What an event at the context [k] comes to: the connection becomes [o], the
    blocks [lk] are lost, and only blocks of the connection and new ones change. *)
Record event_at : Prop := {
  ea_before : serving w s hs;
  ea_calls : trace w' = trace w ++ tr;
  ea_about : Forall (about k h) tr;
  ea_strangers k2 h2 : k2 <> k -> hs !! k2 = Some h2 -> strangers h h2;
  ea_foreign : opens (context_fd h) (trace w0) = 0 /\ forall e, e ∈ context_events h -> events e (trace w0) = 0;
  ea_fresh : fresh_from (heap w') (brk w');
  ea_later : (brk w <= brk w')%positive;
  ea_count lx : heap w0 !! L = Some (OListener lx) ->
    heap w' !! L = Some (OListener (set_l_ref_count (l_ref_count lx + Z.of_nat (size (sv_clients service_after))) lx))
    /\ l_ref_count lx + Z.of_nat (size (sv_clients service_after)) < 2 ^ 32;
  ea_frame j : j <> L -> j ∉ old -> j ∉ new -> j ∉ lk -> heap w' !! j = heap w !! j;
  ea_new j : j ∈ lk \/ j ∈ new -> j ∈ old \/ (brk w <= j)%positive;
  ea_freed j : j ∈ old -> j ∉ new -> j ∉ lk -> heap w' !! j = None;
  ea_client : match o, oh with
              | Some cl, Some h' => h' = h /\ client_ok w' k cl h
              | None, None => True
              | _, _ => False
              end;
  ea_opens f : opens f (trace w') - opens f (trace w)
    = count (fun h => context_fd h =? f) held_after - count (fun h => context_fd h =? f) hs;
  ea_events e : events e (trace w') - events e (trace w)
    = count (fun h => bool_decide (e ∈ context_events h)) held_after - count (fun h => bool_decide (e ∈ context_events h)) hs;
}.

Hypothesis Hev : event_at.
Let Hs : serving w s hs := ea_before Hev.

Lemma old_footprint j : j ∈ old -> footprint s j.
Proof. unfold blocks_of. destruct (sv_clients s !! k) as [cl|] eqn:E; [|by intros ?%not_elem_of_nil]. right. by exists k, cl. Qed.

Lemma fresh_unused j : (brk w <= j)%positive -> heap w !! j = None.
Proof. apply (sg_fresh _ _ _ _ _ _ Hs). Qed.

(** What is in memory and of nobody stays. *)
Lemma others_kept j ob :
  heap w !! j = Some ob -> j <> L -> j ∉ old -> heap w' !! j = Some ob.
Proof.
  intros Hj Hne Ho. assert (j ∉ new /\ j ∉ lk) as [? ?].
  { split; intros Hin; (destruct (ea_new Hev j) as [|Hlt]; [tauto|done|]); by rewrite fresh_unused in Hj. }
  by rewrite (ea_frame Hev).
Qed.

Lemma listener_base : exists lx, heap w0 !! L = Some (OListener lx).
Proof. destruct (sg_count _ _ _ _ _ _ Hs) as (lx & E & _). by exists lx. Qed.

Lemma old_live j : j ∈ old -> exists ob, heap w !! j = Some ob /\ forall lx, ob <> OListener lx.
Proof.
  unfold blocks_of. destruct (sv_clients s !! k) as [cl|] eqn:E; [|by intros ?%not_elem_of_nil].
  destruct (sg_clients _ _ _ _ _ _ Hs _ _ E) as (h' & _ & Hcl). by apply (client_live w k cl h').
Qed.

Lemma event_same_protocols : same_protocols (heap w) (heap w').
Proof.
  intros L1 lx HL1. destruct (decide (L1 = L)) as [->|Hne].
  - destruct (sg_count _ _ _ _ _ _ Hs) as (lx0 & E0 & E & _). rewrite HL1 in E. injection E as ->.
    eexists. split; [by apply (ea_count Hev)|done].
  - exists lx. split; [|done]. apply others_kept; [done..|]. intros Ho. destruct (old_live _ Ho) as (ob & E & Hob). 
    destruct (Hob lx). congruence.
Qed.

Lemma other_client k2 cl2 h2 : k2 <> k -> sv_clients s !! k2 = Some cl2 -> hs !! k2 = Some h2 -> client_ok w k2 cl2 h2 ->
  client_ok w' k2 cl2 h2.
Proof.
  intros Hne Hc Hh Hok. destruct listener_base as [lx0 HL0].
  eapply (client_stranger w w' k2 cl2 h2 k h tr); [done| |apply event_same_protocols|apply (ea_fresh Hev)
    |apply (ea_calls Hev)|apply (ea_about Hev)|done|by apply (ea_strangers Hev k2)].
  intros j [->|Hj]%elem_of_cons.
  - destruct base as [y Hy]. assert (al <> L) by congruence.
    pose proof (base_kept w s hs al _ Hs Hy ltac:(done)) as Hal. rewrite Hal. apply others_kept; [done..|].
    intros Ho%old_footprint. by rewrite (sg_new _ _ _ _ _ _ Hs al Ho) in Hy.
  - destruct (client_live _ _ _ _ _ Hok Hj) as (ob & Hob & Hnl). rewrite Hob.
    assert (footprint s j) as Hfp by (right; by exists k2, cl2). apply others_kept; [done| |].
    + intros ->. by rewrite (sg_new _ _ _ _ _ _ Hs L Hfp) in HL0.
    + unfold blocks_of. destruct (sv_clients s !! k) as [cl|] eqn:E; [|apply not_elem_of_nil].
      intros Ho. by apply (sg_apart _ _ _ _ _ _ Hs k k2 cl cl2 j).
Qed.

(** The new blocks of the connection belong to no other one. *)
Lemma new_apart j k2 cl2 : k2 <> k -> sv_clients s !! k2 = Some cl2 -> j ∈ new -> j ∈ client_blocks k2 cl2 -> False.
Proof.
  intros Hne Hc Hj Hj2. destruct (ea_new Hev j) as [Ho|Hlt]; [by right|..].
  - revert Ho. unfold blocks_of. destruct (sv_clients s !! k) as [cl|] eqn:E; [|by intros ?%not_elem_of_nil].
    intros Ho. by apply (sg_apart _ _ _ _ _ _ Hs k k2 cl cl2 j).
  - destruct (sg_clients _ _ _ _ _ _ Hs _ _ Hc) as (h2 & _ & Hok).
    destruct (client_live _ _ _ _ _ Hok Hj2) as (ob & Hob & _). by rewrite fresh_unused in Hob.
Qed.

Lemma after_clients k2 cl : sv_clients service_after !! k2 = Some cl -> exists h2, held_after !! k2 = Some h2 /\ client_ok w' k2 cl h2.
Proof.
  unfold service_after, held_after. simpl. destruct (decide (k2 = k)) as [->|Hne].
  - rewrite !lookup_partial_alter_eq. intros E. pose proof (ea_client Hev) as Hcl. rewrite E in Hcl.
    destruct oh as [h'|]; [|done]. destruct Hcl as [-> Hok]. by exists h.
  - rewrite !lookup_partial_alter_ne by done. intros Hc.
    destruct (sg_clients _ _ _ _ _ _ Hs _ _ Hc) as (h2 & Hh & Hok). exists h2. split; [done|by apply (other_client k2 cl h2)].
Qed.

Lemma after_dom k2 : held_after !! k2 = None <-> sv_clients service_after !! k2 = None.
Proof.
  unfold service_after, held_after. simpl. destruct (decide (k2 = k)) as [->|Hne].
  - rewrite !lookup_partial_alter_eq. pose proof (ea_client Hev) as Hcl. by destruct o, oh.
  - rewrite !lookup_partial_alter_ne by done. apply Hs.
Qed.

Lemma after_apart k1 k2 cl1 cl2 j :
  k1 <> k2 -> sv_clients service_after !! k1 = Some cl1 -> sv_clients service_after !! k2 = Some cl2 ->
  j ∈ client_blocks k1 cl1 -> j ∈ client_blocks k2 cl2 -> False.
Proof.
  intros Hne. unfold service_after. simpl. destruct (decide (k1 = k)) as [->|N1]; [|destruct (decide (k2 = k)) as [->|N2]].
  - rewrite lookup_partial_alter_eq, lookup_partial_alter_ne by done. intros E Hc Hj Hj2.
    apply (new_apart j k2 cl2); [done|done|by rewrite E|done].
  - rewrite lookup_partial_alter_eq, lookup_partial_alter_ne by done. intros Hc E Hj Hj2.
    apply (new_apart j k1 cl1); [done|done|by rewrite E|done].
  - rewrite !lookup_partial_alter_ne by done. apply (sg_apart _ _ _ _ _ _ Hs); done.
Qed.

Lemma after_strangers k1 k2 h1 h2 : k1 <> k2 -> held_after !! k1 = Some h1 -> held_after !! k2 = Some h2 -> strangers h1 h2.
Proof.
  assert (forall h', oh = Some h' -> h' = h) as Hoh.
  { intros h' E. pose proof (ea_client Hev) as Hcl. rewrite E in Hcl. by destruct o; [destruct Hcl|]. }
  intros Hne. unfold held_after. destruct (decide (k1 = k)) as [->|N1]; [|destruct (decide (k2 = k)) as [->|N2]].
  - rewrite lookup_partial_alter_eq, lookup_partial_alter_ne by done. intros ->%Hoh. by apply (ea_strangers Hev).
  - rewrite lookup_partial_alter_eq, lookup_partial_alter_ne by done. intros Hh ->%Hoh.
    by apply strangers_sym, (ea_strangers Hev k1).
  - rewrite !lookup_partial_alter_ne by done. by apply (sg_strangers _ _ _ _ _ _ Hs).
Qed.

Lemma after_foreign k2 h2 :
  held_after !! k2 = Some h2 -> opens (context_fd h2) (trace w0) = 0 /\ forall e, e ∈ context_events h2 -> events e (trace w0) = 0.
Proof.
  unfold held_after. destruct (decide (k2 = k)) as [->|Hne].
  - rewrite lookup_partial_alter_eq. intros E. pose proof (ea_client Hev) as Hcl. rewrite E in Hcl.
    assert (h2 = h) as -> by (by destruct o; [destruct Hcl|]). apply (ea_foreign Hev).
  - rewrite lookup_partial_alter_ne by done. apply (sg_foreign _ _ _ _ _ _ Hs).
Qed.

(** What is lost or has come was of the connection, or is new. *)
Lemma after_footprint (P : loc -> Prop) :
  (forall j, footprint s j -> P j) -> (forall j, (brk w <= j)%positive -> P j) -> forall j, footprint service_after j -> P j.
Proof.
  intros H1' H2' j. assert (j ∈ lk \/ j ∈ new -> P j) as Hn by (intros [Ho|Hlt]%(ea_new Hev); [by apply H1', old_footprint|by apply H2']).
  intros [[Hj|Hj]%elem_of_app|(k2 & cl2 & Hc & Hj)]; [by apply Hn; left|by apply H1'; left|].
  unfold service_after in Hc. simpl in Hc. destruct (decide (k2 = k)) as [->|Hne].
  - rewrite lookup_partial_alter_eq in Hc. apply Hn. right. by rewrite Hc.
  - rewrite lookup_partial_alter_ne in Hc by done. apply H1'. right. by exists k2, cl2.
Qed.

Lemma after_rest j : j <> L -> heap w' !! j = heap w0 !! j \/ footprint service_after j.
Proof.
  intros Hne. destruct (decide (j ∈ lk)); [by right; left; apply elem_of_app; left|].
  destruct (decide (j ∈ new)) as [Hj|].
  { right. right. exists k. unfold blocks_of in Hj. destruct o as [cl|] eqn:Eo; [|by apply not_elem_of_nil in Hj].
    exists cl. split; [unfold service_after; simpl; by rewrite lookup_partial_alter_eq|done]. }
  destruct (decide (j ∈ old)) as [Ho|].
  { left. rewrite (ea_freed Hev) by done. symmetry. by apply (sg_new _ _ _ _ _ _ Hs), old_footprint. }
  rewrite (ea_frame Hev) by done. destruct (sg_rest _ _ _ _ _ _ Hs j Hne) as [|[Hj|(k2 & cl2 & Hc & Hj)]]; [by left|right..].
  - left. by apply elem_of_app; right.
  - right. exists k2, cl2. split; [|done]. unfold service_after. simpl. rewrite lookup_partial_alter_ne; [done|].
    intros <-. by rewrite Hc in *.
Qed.

(** After the event the server has the connections it should have. *)
Lemma serving_after : serving w' service_after held_after.
Proof.
  pose proof Hs as Hs0. destruct Hs as [_ _ (lx & E0 & E & Hn & Hb) _ _ _ _ _ Ho He _ _ _ _]. split.
  - apply (ea_fresh Hev).
  - done.
  - exists lx. split; [done|]. by destruct (ea_count Hev lx E0).
  - apply after_clients.
  - apply after_dom.
  - apply after_apart.
  - apply after_strangers.
  - apply after_foreign.
  - intros f. pose proof (ea_opens Hev f). specialize (Ho f). lia.
  - intros e. pose proof (ea_events Hev e). specialize (He e). lia.
  - apply after_footprint; [apply Hs0|]. intros j Hj. by apply (base_new w s hs), fresh_unused.
  - pose proof (sg_later _ _ _ _ _ _ Hs0). pose proof (ea_later Hev). simpl. lia.
  - apply after_footprint; [apply Hs0|]. intros j Hj. pose proof (sg_later _ _ _ _ _ _ Hs0). lia.
  - apply after_rest.
Qed.

End event.

(** ** The events *)

(** The server listens all the time. *)
Lemma still_listens w s hs : echo_listens w0 K L al -> serving w s hs -> echo_listens w K L al.
Proof.
  intros Hb Hs. destruct Hb as [_ (lc & HK & E1 & E2 & E2') (lx & gs & gr & HL & E3 & E4 & E5 & E6) (y & Hy & E7)].
  destruct (sg_count _ _ _ _ _ _ Hs) as (lx' & HL0 & HL' & _). assert (lx' = lx) as -> by congruence.
  split; [apply Hs|exists lc|eexists _, gs, gr|exists y].
  - split; [|done]. apply (base_kept w s hs K _ Hs); [done|congruence].
  - split; [exact HL'|done].
  - split; [|done]. apply (base_kept w s hs al _ Hs); [done|congruence].
Qed.

(** The end of a connection gives back one socket and three events. *)
Lemma close_opens h f fd ce se re p q :
  h = HConnection fd ce se re p q -> opens f (close_calls h) = - Z.b2z (context_fd h =? f).
Proof. intros ->. unfold opens. simpl. by destruct (fd =? f). Qed.

Lemma close_events h e fd ce se re p q :
  h = HConnection fd ce se re p q -> NoDup (context_events h) ->
  events e (close_calls h) = - Z.b2z (bool_decide (e ∈ context_events h)).
Proof.
  intros -> [D1 [D2 _]%NoDup_cons]%NoDup_cons. rewrite !not_elem_of_cons in D1. rewrite not_elem_of_cons in D2.
  rewrite (bool_decide_ext (e ∈ _) (ce = e \/ se = e \/ re = e)) by (simpl; rewrite !elem_of_cons, elem_of_nil; naive_solver).
  unfold events. simpl. repeat case_bool_decide; subst; simpl in *; naive_solver lia.
Qed.

Lemma opened_opens t k fd c pre f :
  opened t k fd c pre -> opens f (op_trace pre) = opens f t + Z.b2z (context_fd (op_held pre) =? f).
Proof.
  intros [_ _ _ _ (ce & se & re & Eh) [Ho _]]. specialize (Ho f). rewrite opens_app, (close_opens _ _ _ _ _ _ _ _ Eh) in Ho. lia.
Qed.

Lemma opened_events t k fd c pre e :
  opened t k fd c pre -> events e (op_trace pre) = events e t + Z.b2z (bool_decide (e ∈ context_events (op_held pre))).
Proof.
  intros [_ _ _ Hd (ce & se & re & Eh) [_ He]]. specialize (He e).
  rewrite events_app, (close_events _ _ _ _ _ _ _ _ Eh Hd) in He. lia.
Qed.

(** A connection keeps its blocks: they are in memory. *)
Lemma client_used w s hs k cl : serving w s hs -> sv_clients s !! k = Some cl -> heap w !! k <> None.
Proof.
  intros Hs Hc E. destruct (sg_clients _ _ _ _ _ _ Hs k cl Hc) as (h & _ & Hok).
  destruct (client_live w k cl h k Hok) as (ob & Hob & _); [by left|congruence].
Qed.

Lemma new_unknown w s hs : serving w s hs -> sv_clients s !! brk w = None.
Proof.
  intros Hs. destruct (sv_clients s !! brk w) as [cl|] eqn:E; [|done].
  destruct (client_used w s hs _ _ Hs E). apply (sg_fresh _ _ _ _ _ _ Hs). lia.
Qed.

(** The blocks of a new connection. *)
Lemma new_client_blocks k fd j :
  let cc := Pos.succ (Pos.succ k) in
  j ∈ client_blocks k (Client fd (next_item cc, next_body cc) [] []) -> (k <= j)%positive.
Proof.
  intros cc. unfold client_blocks, own_blocks, echo_blocks, queued_blocks, next_item. simpl. rewrite !elem_of_cons, elem_of_nil.
  unfold cc. lia.
Qed.

Lemma recount lx n m m' : m = m' -> set_l_ref_count m (set_l_ref_count n lx) = set_l_ref_count m' lx.
Proof. by intros ->. Qed.

Section accepting.
Hypothesis (sockets : forall f, 0 <= opens f (trace w0)) (pointers : forall e, 0 <= events e (trace w0)).

(** A socket that is not open, and events that are not in use, are of no
    connection. *)
Lemma new_strangers w s hs h k2 h2 :
  serving w s hs -> opens (context_fd h) (trace w) = 0 -> (forall e, e ∈ context_events h -> events e (trace w) = 0) ->
  hs !! k2 = Some h2 -> strangers h h2.
Proof.
  intros Hs Ho He Hh. split.
  - rewrite (sg_opens _ _ _ _ _ _ Hs) in Ho. pose proof (sockets (context_fd h)).
    pose proof (count_nonneg (fun h' => context_fd h' =? context_fd h) hs).
    assert (count (fun h' => context_fd h' =? context_fd h) hs = 0) as Hz by lia.
    pose proof (proj1 (count_zero _ _) Hz k2 h2 Hh) as E. simpl in E. lia.
  - intros e Hi Hi2. specialize (He e Hi). rewrite (sg_events _ _ _ _ _ _ Hs) in He. pose proof (pointers e).
    set (P := fun h' => bool_decide (e ∈ context_events h')) in *. pose proof (count_nonneg P hs).
    assert (count P hs = 0) as Hz by lia. pose proof (proj1 (count_zero _ _) Hz k2 h2 Hh) as E. unfold P in E.
    by apply bool_decide_eq_false in E.
Qed.

Lemma new_foreign w s hs h :
  serving w s hs -> opens (context_fd h) (trace w) = 0 -> (forall e, e ∈ context_events h -> events e (trace w) = 0) ->
  opens (context_fd h) (trace w0) = 0 /\ forall e, e ∈ context_events h -> events e (trace w0) = 0.
Proof.
  intros Hs Ho He. split; [|intros e Hi; specialize (He e Hi)].
  - rewrite (sg_opens _ _ _ _ _ _ Hs) in Ho. pose proof (sockets (context_fd h)).
    pose proof (count_nonneg (fun h' => context_fd h' =? context_fd h) hs). lia.
  - rewrite (sg_events _ _ _ _ _ _ Hs) in He. pose proof (pointers e).
    pose proof (count_nonneg (fun h' => bool_decide (e ∈ context_events h')) hs). lia.
Qed.

(** A connection is accepted. *)
Lemma accept_event w s hs lx gs gr w' x' pre :
  let k := brk w in
  let cc := Pos.succ (Pos.succ k) in
  let fd := sys_accept (trace w) lfd in
  serving w s hs -> opens fd (trace w) = 0 -> heap w !! L = Some (OListener lx) -> l_ref_count lx < 2 ^ 32 - 1 ->
  opened (trace w) k fd (Pos.succ k) pre ->
  waits gs gr (Pos.succ k) cc al k fd pre L (<[L := OListener (set_l_ref_count (u32 (l_ref_count lx + 1)) lx)]> (heap w))
    w' x' (next_item cc) (next_body cc) [] [] ->
  reads fd (trace w') = reads fd (trace w) -> brk w' = Pos.succ (next_item cc) ->
  exists tr, event_at w w' s hs k (op_held pre) tr (Some (Client fd (next_item cc, next_body cc) [] [])) (Some (op_held pre)) [].
Proof.
  intros k cc fd Hs Ho HL Hn Hop Hw Hr Eb. pose proof (new_unknown w s hs Hs) as Hk. fold k in Hk.
  pose proof (proj2 (sg_dom _ _ _ _ _ _ Hs k) Hk) as Hhk.
  destruct (od_calls _ _ _ _ _ Hop) as (es1 & T1 & A1). destruct (waits_calls _ _ _ _ _ _ _ _ _ _ _ _ _ _ _ _ Hw) as (es2 & T2 & A2).
  destruct (sg_count _ _ _ _ _ _ Hs) as (lx0 & HL0 & HL' & Hpos & Hbig). assert (lx = set_l_ref_count (l_ref_count lx0 + Z.of_nat (size (sv_clients s))) lx0) as -> by congruence.
  destruct (od_held _ _ _ _ _ Hop) as (ce & se & re & Eh).
  assert (context_fd (op_held pre) = fd) as Ef by (by rewrite Eh).
  pose proof (wt_rest _ _ _ _ _ _ _ _ _ _ _ _ _ _ _ _ Hw) as [Q1 Q2].
  assert (balanced (op_trace pre) (trace w')) as [Bo Be].
  { destruct Hw as [_ _ (d & _ & _ & _ & _ & Hks) _ _]. by eapply kept_balanced. }
  exists (es1 ++ es2). split; unfold blocks_of; rewrite ?Hk.
  - done.
  - by rewrite T2, T1, app_assoc.
  - by apply Forall_app.
  - intros k2 h2 _. apply (new_strangers w s hs); [done|by rewrite Ef|apply Hop].
  - apply (new_foreign w s hs); [done|by rewrite Ef|apply Hop].
  - by eapply waits_fresh.
  - rewrite Eb. unfold next_item, cc, k. lia.
  - intros lx HLx. assert (lx = lx0) as -> by congruence. unfold service_after. simpl.
    change (partial_alter _ _ _) with (<[k := Client fd (next_item cc, next_body cc) [] []]> (sv_clients s)).
    rewrite map_size_insert_None by done. split; [|simpl in Hn; lia].
    rewrite Q2; [rewrite lookup_insert_eq; simpl; rewrite wrap_small by (simpl in Hn; lia)|].
    + do 2 f_equal. apply recount. lia.
    + intros Hin. specialize (Q1 L Hin). by rewrite lookup_insert_eq in Q1.
  - intros j Hj _ Hnew _. rewrite Q2 by done. by apply lookup_insert_ne.
  - intros j [[]%not_elem_of_nil|Hj]. right. by apply new_client_blocks in Hj.
  - by intros j ?%not_elem_of_nil.
  - split; [done|]. eexists gs, gr, x', pre, _, (reads fd (trace w)). split; [exact Hw|]. split; [done|].
    split; [by exists ce, se, re|]. split; [apply Hop|]. by rewrite app_nil_r.
  - intros f. rewrite Bo, (opened_opens _ _ _ _ _ f Hop). unfold held_after.
    change (partial_alter _ _ _) with (<[k := op_held pre]> hs). rewrite count_insert by done. lia.
  - intros e. rewrite Be, (opened_events _ _ _ _ _ e Hop). unfold held_after.
    change (partial_alter _ _ _) with (<[k := op_held pre]> hs). rewrite count_insert by done. lia.
Qed.

Lemma handle_accept w s hs :
  let fd := sys_accept (trace w) lfd in
  echo_listens w0 K L al -> serving w s hs -> can_accept w lfd -> opens fd (trace w) = 0 ->
  (forall lx, heap w !! L = Some (OListener lx) -> l_ref_count lx < 2 ^ 32 - 1) ->
  exists w' s' hs', handle (Accept fd) w = (Ok tt, w') /\ spec_act (Accept fd) s = Some s' /\ serving w' s' hs'.
Proof.
  intros fd Hls Hs Hca Ho Hn.
  destruct (accepted (S depth) w lfd K L al (still_listens w s hs Hls Hs) Hca) as (gs & gr & lx & w' & x' & pre & E & Hop & HL & Hw & Eb & Hr).
  destruct (accept_event w s hs lx gs gr w' x' pre Hs Ho HL (Hn lx HL) Hop Hw Hr Eb) as (tr & Hev).
  apply serving_after in Hev. unfold service_after in Hev. rewrite Eb in Hev.
  eexists w', _, _. split; [exact E|]. split; [|exact Hev]. simpl. by rewrite <- (sg_next _ _ _ _ _ _ Hs).
Qed.

End accepting.

(** The listener is no block of a connection. *)
Lemma listener_apart w s hs k cl : serving w s hs -> sv_clients s !! k = Some cl -> L ∉ client_blocks k cl.
Proof.
  intros Hs Hc Hin. destruct (sg_clients _ _ _ _ _ _ Hs k cl Hc) as (h & _ & Hok).
  destruct (client_live w k cl h L Hok Hin) as (ob & Hob & Hnl).
  destruct (sg_count _ _ _ _ _ _ Hs) as (lx & _ & E & _). destruct (Hnl (set_l_ref_count (l_ref_count lx + Z.of_nat (size (sv_clients s))) lx)).
  congruence.
Qed.

(** What a connection holds is apart from what others hold. *)
Lemma client_holds w s hs k cl :
  serving w s hs -> sv_clients s !! k = Some cl ->
  exists gs gr x pre bg before,
    waits gs gr (Pos.succ k) (Pos.succ (Pos.succ k)) al k (cl_fd cl) (since pre (trace w)) L bg w x (cl_recv cl).1 (cl_recv cl).2
      (cl_sends cl) (log_writes (cl_log cl))
    /\ hs !! k = Some (op_held pre)
    /\ (exists ce se re, op_held pre = HConnection (cl_fd cl) ce se re (Some fn_closed) (Some (Pos.succ k)))
    /\ NoDup (context_events (op_held pre)) /\ reads (cl_fd cl) (trace w) = before ++ log_reads (cl_log cl).
Proof.
  intros Hs Hc. destruct (sg_clients _ _ _ _ _ _ Hs k cl Hc) as (h & Hh & gs & gr & x & pre & bg & before & Hw & <- & ?).
  exists gs, gr, x, pre, bg, before. split; [|done]. by eapply waits_now.
Qed.

Lemma client_blocks_split k cl :
  client_blocks k cl = own_blocks (Pos.succ k) (Pos.succ (Pos.succ k)) k ++ echo_blocks (((cl_recv cl).1, (cl_recv cl).2) :: cl_sends cl).
Proof. unfold client_blocks. by destruct (cl_recv cl). Qed.

(** A connection goes on. *)
Lemma goes_on w w' s hs k cl cl' gs gr x x' pre bg before :
  serving w s hs -> sv_clients s !! k = Some cl -> hs !! k = Some (op_held pre) ->
  (exists ce se re, op_held pre = HConnection (cl_fd cl) ce se re (Some fn_closed) (Some (Pos.succ k))) ->
  NoDup (context_events (op_held pre)) ->
  waits gs gr (Pos.succ k) (Pos.succ (Pos.succ k)) al k (cl_fd cl) (since pre (trace w)) L bg w x (cl_recv cl).1 (cl_recv cl).2
    (cl_sends cl) (log_writes (cl_log cl)) ->
  waits gs gr (Pos.succ k) (Pos.succ (Pos.succ k)) al k (cl_fd cl') (since pre (trace w)) L bg w' x' (cl_recv cl').1 (cl_recv cl').2
    (cl_sends cl') (log_writes (cl_log cl')) ->
  (brk w <= brk w')%positive -> cl_fd cl' = cl_fd cl -> reads (cl_fd cl) (trace w') = before ++ log_reads (cl_log cl') ->
  (forall j, j ∈ client_blocks k cl' -> j ∈ client_blocks k cl \/ (brk w <= j)%positive) ->
  exists tr, event_at w w' s hs k (op_held pre) tr (Some cl') (Some (op_held pre)) [].
Proof.
  intros Hs Hc Hh Hheld Hnd Hw Hw' Hlater Hfd Hr Hnew.
  destruct (waits_calls _ _ _ _ _ _ _ _ _ _ _ _ _ _ _ _ Hw') as (tr & T & A). simpl in T, A.
  pose proof (wt_rest _ _ _ _ _ _ _ _ _ _ _ _ _ _ _ _ Hw) as Hsr.
  pose proof (wt_rest _ _ _ _ _ _ _ _ _ _ _ _ _ _ _ _ Hw') as Hsr'.
  rewrite <- client_blocks_split in Hsr, Hsr'.
  pose proof (listener_apart w s hs k cl Hs Hc) as HL.
  assert (L ∉ client_blocks k cl') as HL'.
  { intros [|Hlt]%Hnew; [done|]. destruct (sg_count _ _ _ _ _ _ Hs) as (lx & _ & E & _).
    by rewrite (sg_fresh _ _ _ _ _ _ Hs L Hlt) in E. }
  assert (balanced (trace w) (trace w')) as [Bo Be].
  { destruct Hw' as [_ _ (d & _ & _ & _ & _ & Hks) _ _]. exact (kept_balanced _ _ _ _ Hks). }
  assert (held_after hs k (Some (op_held pre)) = hs) as Ea by exact (insert_id hs k _ Hh).
  exists tr. split; unfold blocks_of; rewrite ?Hc.
  - done.
  - done.
  - done.
  - intros k2 h2 Hne Hh2. by apply (sg_strangers _ _ _ _ _ _ Hs k k2).
  - by apply (sg_foreign _ _ _ _ _ _ Hs k).
  - by eapply waits_fresh.
  - done.
  - intros lx HL0. destruct (sg_count _ _ _ _ _ _ Hs) as (lx' & HL0' & E & _ & Hb).
    assert (lx' = lx) as -> by congruence. unfold service_after. simpl.
    change (partial_alter _ _ _) with (<[k := cl']> (sv_clients s)). rewrite map_size_insert_Some by done.
    split; [|done]. by rewrite (surrounds_frame bg w w' (client_blocks k cl) (client_blocks k cl')).
  - intros j _ ???. by apply (surrounds_frame bg w w' (client_blocks k cl) (client_blocks k cl')).
  - by intros j [?%not_elem_of_nil|]; [|apply Hnew].
  - intros j ???. by apply (surrounds_freed bg w w' (client_blocks k cl) (client_blocks k cl')).
  - split; [done|]. exists gs, gr, x', (since pre (trace w)), bg, before. rewrite Hfd in Hw' |- *. done.
  - intros f. rewrite Bo, Ea. lia.
  - intros e. rewrite Be, Ea. lia.
Qed.

(** A connection ends. *)
Lemma ends w w' s hs k fd l b log h bg tr lx it mm :
  let cl := Client fd (l, b) [] log in
  serving w s hs -> sv_clients s !! k = Some cl -> hs !! k = Some h ->
  (exists ce se re, h = HConnection fd ce se re (Some fn_closed) (Some (Pos.succ k))) -> NoDup (context_events h) ->
  surrounds bg w (client_blocks k cl) -> heap w !! L = Some (OListener lx) ->
  heap w' = <[l := ORecv it]> (<[b_message b := OMessage mm]> (<[L := OListener (released lx)]> bg)) ->
  brk w' = brk w -> fresh_from (heap w') (brk w') -> trace w' = trace w ++ tr -> Forall (about k h) tr ->
  balanced (trace w ++ close_calls h) (trace w') ->
  event_at w w' s hs k h tr None None [l; b_message b].
Proof.
  intros cl Hs Hc Hh (ce & se & re & Eh) Hnd [Q1 Q2] HL Ehp Eb Hf T A [Bo Be].
  pose proof (listener_apart w s hs k cl Hs Hc) as HLk.
  assert (l ∈ client_blocks k cl /\ b_message b ∈ client_blocks k cl) as [Hl Hm].
  { unfold client_blocks, own_blocks, echo_blocks, queued_blocks. simpl. split; set_solver. }
  assert (l <> L /\ b_message b <> L) as [Nl Nm] by (split; congruence).
  split; unfold blocks_of; rewrite ?Hc.
  - done.
  - done.
  - done.
  - intros k2 h2 Hne Hh2. by apply (sg_strangers _ _ _ _ _ _ Hs k k2).
  - by apply (sg_foreign _ _ _ _ _ _ Hs k).
  - done.
  - by rewrite Eb.
  - intros lx0 HL0. destruct (sg_count _ _ _ _ _ _ Hs) as (lx' & HL0' & E & _ & Hb). assert (lx' = lx0) as -> by congruence.
    unfold service_after. simpl. change (partial_alter _ _ _) with (delete k (sv_clients s)).
    rewrite map_size_delete_Some by (by exists cl). assert (size (sv_clients s) <> 0)%nat as Hz.
    { intros Hz%map_size_empty_inv. by rewrite Hz in Hc. }
    split; [|lia]. rewrite Ehp, !lookup_insert_ne, lookup_insert_eq by done.
    assert (lx = set_l_ref_count (l_ref_count lx0 + Z.of_nat (size (sv_clients s))) lx0) as -> by congruence.
    unfold released. do 2 f_equal. apply recount. simpl. lia.
  - intros j Hj Ho _ Hlk. rewrite !not_elem_of_cons in Hlk. rewrite Ehp, !lookup_insert_ne by naive_solver. symmetry. by apply Q2.
  - intros j [Hj|[]%not_elem_of_nil]. left. rewrite !elem_of_cons, elem_of_nil in Hj. destruct Hj as [->|[->|[]]]; done.
  - intros j Hj _ Hlk. rewrite !not_elem_of_cons in Hlk. rewrite Ehp, !lookup_insert_ne by (naive_solver congruence). by apply Q1.
  - done.
  - intros f. specialize (Bo f). rewrite opens_app, (close_opens _ _ _ _ _ _ _ _ Eh) in Bo.
    unfold held_after. change (partial_alter _ _ _) with (delete k hs). rewrite (count_delete _ _ _ _ Hh). lia.
  - intros e. specialize (Be e). rewrite events_app, (close_events _ _ _ _ _ _ _ _ Eh Hnd) in Be.
    unfold held_after. change (partial_alter _ _ _) with (delete k hs). rewrite (count_delete _ _ _ _ Hh). lia.
Qed.

(** ** The handlers *)

(** A connection ends; the report that it was the last one is apart. *)
Lemma closes w s hs k cl :
  serving w s hs -> sv_clients s !! k = Some cl -> cl_sends cl = [] ->
  (forall lx, heap w !! L = Some (OListener lx) -> stops_well al lx) ->
  exists w' s' hs' lx, handle (Closed k) w = (Ok tt, w') /\ spec_act (Closed k) s = Some s'
    /\ heap w !! L = Some (OListener lx) /\ heap w' !! L = Some (OListener (after_release lx))
    /\ serving (set_heap (<[L := OListener (released lx)]> (heap w')) w') s' hs'
    /\ (drains lx = true -> EvStopped fn_app_stopped (Some al) ∈ trace w').
Proof.
  intros Hs Hc Hsd Hsw.
  destruct (client_holds w s hs k cl Hs Hc) as (gs & gr & x & pre & bg & before & Hw & Hh & (ce & se & re & Eh) & Hnd & Hr). rewrite Hsd in Hw.
  destruct (sg_count _ _ _ _ _ _ Hs) as (lx & HL0 & HL & Hpos & Hbig).
  pose proof (listener_apart w s hs k cl Hs Hc) as HLk.
  pose proof (wt_rest _ _ _ _ _ _ _ _ _ _ _ _ _ _ _ _ Hw) as Hsr.
  destruct cl as [fd [l b] sends log]. simpl in Hsd, Hw, Hh, Eh, Hsr. subst sends.
  assert (bg !! L = heap w !! L) as HbL by (symmetry; by apply Hsr).
  assert (size (sv_clients s) <> 0)%nat as Hz by (intros Hz%map_size_empty_inv; by rewrite Hz in Hc).
  destruct (closed_tcp gs gr _ _ al k fd _ L bg depth w x l b _ _ ce se re Hw Eh (eq_trans HbL HL)) as (w' & it & es & E & Ehp & Eb & Hf & T & A & Hb & Hlast);
    [simpl; lia|by apply Hsw|].
  set (lx1 := set_l_ref_count _ lx) in *. set (w1 := set_heap (<[L := OListener (released lx1)]> (heap w')) w').
  assert (l <> L /\ b_message b <> L) as [Nl Nm].
  { split; intros E1; apply HLk; rewrite client_blocks_split; unfold own_blocks, echo_blocks, queued_blocks; simpl; rewrite E1; set_solver. }
  assert (heap w1 = <[l := ORecv it]> (<[b_message b := OMessage (body_message b)]> (<[L := OListener (released lx1)]> bg))) as Ehp1.
  { unfold w1. simpl. rewrite Ehp. by rewrite (insert_insert_ne _ L l), (insert_insert_ne _ L (b_message b)), insert_insert_eq by done. }
  assert (heap w' !! L = Some (OListener (after_release lx1))) as HL'.
  { by rewrite Ehp, !lookup_insert_ne, lookup_insert_eq by done. }
  assert (fresh_from (heap w1) (brk w1)) as Hf1 by (apply fresh_from_insert; [by eapply fresh_from_lt|done]).
  pose proof (ends w w1 s hs k fd l b log _ bg es _ it _ Hs Hc Hh ltac:(by exists ce, se, re) Hnd Hsr HL Ehp1 Eb Hf1 T A Hb) as Hev.
  apply serving_after in Hev. unfold service_after in Hev. change (brk w1) with (brk w') in Hev. rewrite Eb in Hev.
  eexists w', _, _, lx1. split; [exact E|]. split; [simpl; rewrite Hc; simpl; by rewrite <- (sg_next _ _ _ _ _ _ Hs)|].
  split; [exact HL|]. split; [exact HL'|]. split; [exact Hev|]. intros Hd. rewrite T. apply elem_of_app. right. by apply Hlast.
Qed.

Lemma handle_closed w s hs k cl :
  serving w s hs -> sv_clients s !! k = Some cl -> cl_sends cl = [] ->
  (forall lx, heap w !! L = Some (OListener lx) -> drains lx = false) ->
  exists w' s' hs', handle (Closed k) w = (Ok tt, w') /\ spec_act (Closed k) s = Some s' /\ serving w' s' hs'.
Proof.
  intros Hs Hc Hsd Hno. destruct (closes w s hs k cl Hs Hc Hsd) as (w' & s' & hs' & lx & E & Hsp & HL & HL' & Hs' & _).
  { intros lx HL Hd. by rewrite (Hno lx HL) in Hd. }
  exists w', s', hs'. split; [done|]. split; [done|]. unfold after_release in HL'. rewrite (Hno lx HL) in HL'.
  unfold set_heap in Hs'. rewrite insert_id in Hs' by done. by destruct w'.
Qed.

Hypothesis memory : forall l, malloc_ok l = true.

Lemma handle_readable w s hs k cl n :
  serving w s hs -> sv_clients s !! k = Some cl -> cl_sends cl = [] -> 0 < n <= BUF_SIZE ->
  (exists r, stale (cl_recv cl).1 = Some (ORecv r) /\ r_currLength r = n) ->
  (forall h d m, length (reads (cl_fd cl) h) = length (reads (cl_fd cl) (trace w)) -> sys_readv h (cl_fd cl) d m = n) ->
  exists w' s' hs', handle (Readable k n) w = (Ok tt, w') /\ spec_act (Readable k n) s = Some s' /\ serving w' s' hs'.
Proof.
  intros Hs Hc Hsd Hn (r & Hst & Hlen) Hrd.
  destruct (client_holds w s hs k cl Hs Hc) as (gs & gr & x & pre & bg & before & Hw & Hh & Hheld & Hnd & Hr). rewrite Hsd in Hw.
  destruct (arrive_tcp gs gr _ _ al k _ _ L bg (S depth) memory w x _ _ _ n r Hw Hn Hst Hlen Hrd) as (w' & x' & E & Hw' & Eb & Hr').
  set (b := (cl_recv cl).2) in *. set (next := brk w) in *.
  set (cl' := Client (cl_fd cl) (next_item next, next_body next) [(next, Body (b_msg b) (b_message b) n)] (cl_log cl ++ [(b_message b, n)])).
  destruct (goes_on w w' s hs k cl cl' gs gr x x' pre bg before Hs Hc Hh Hheld Hnd) as (tr & Hev).
  - by rewrite Hsd.
  - unfold cl', log_writes in *. simpl. rewrite fmap_app. exact Hw'.
  - rewrite Eb. unfold next_item, next. lia.
  - done.
  - unfold cl', log_reads in *. simpl. by rewrite Hr', Hr, fmap_app, app_assoc.
  - intros j. unfold client_blocks, cl', echo_blocks, queued_blocks, next_item. rewrite Hsd. simpl.
    rewrite !elem_of_cons, elem_of_nil. fold next b. intuition (subst; auto; right; lia).
  - apply serving_after in Hev. unfold service_after in Hev. rewrite Eb in Hev.
    eexists w', _, _. split; [exact E|]. split; [|exact Hev]. simpl. rewrite Hc. simpl. rewrite Hsd. by rewrite <- (sg_next _ _ _ _ _ _ Hs).
Qed.

Lemma handle_writable w s hs k cl p :
  serving w s hs -> sv_clients s !! k = Some cl -> cl_sends cl = [p] ->
  exists w' s' hs', handle (Writable k) w = (Ok tt, w') /\ spec_act (Writable k) s = Some s' /\ serving w' s' hs'.
Proof.
  intros Hs Hc Hsd.
  destruct (client_holds w s hs k cl Hs Hc) as (gs & gr & x & pre & bg & before & Hw & Hh & Hheld & Hnd & Hr). rewrite Hsd in Hw.
  destruct p as [i b].
  destruct (written_tcp gs gr _ _ al k _ _ L bg (S depth) memory w x _ _ i b _ Hw) as (w' & x' & E & Hw' & Eb & Hr' & _).
  destruct (goes_on w w' s hs k cl (Client (cl_fd cl) (cl_recv cl) [] (cl_log cl)) gs gr x x' pre bg before Hs Hc Hh Hheld Hnd) as (tr & Hev).
  - by rewrite Hsd.
  - exact Hw'.
  - by rewrite Eb.
  - done.
  - by rewrite Hr', Hr.
  - intros j. unfold client_blocks, own_blocks. rewrite Hsd. simpl. rewrite !elem_of_cons. tauto.
  - apply serving_after in Hev. unfold service_after in Hev. rewrite Eb in Hev.
    eexists w', _, _. split; [exact E|]. split; [|exact Hev]. simpl. rewrite Hc. simpl. rewrite Hsd. by rewrite <- (sg_next _ _ _ _ _ _ Hs).
Qed.

End steps.

(** ** Schedules *)

Section properties.
Context `{Machine} `{Sys} `{Buffers} `{!Working} (K L al : loc) (lfd : Z) (depth : nat).

#[local] Abbreviation handle := (handle K lfd depth).
#[local] Abbreviation handle_all := (handle_all K lfd depth).

(** What the environment owes: a connection that is accepted comes with a socket
    that is not open; the bytes that are read were sent by the peer and fit the
    buffer, and their number is still in the item of the receive. *)
Definition obliged (a : act) (w : world) (s : service) : Prop :=
  match a with
  | Accept fd => can_accept w lfd /\ fd = sys_accept (trace w) lfd /\ opens fd (trace w) = 0
                 /\ forall lx, heap w !! L = Some (OListener lx) -> l_ref_count lx < 2 ^ 32 - 1
  | Readable k n => 0 < n <= BUF_SIZE /\ forall cl, sv_clients s !! k = Some cl ->
      (exists r, stale (cl_recv cl).1 = Some (ORecv r) /\ r_currLength r = n)
      /\ forall h d m, length (reads (cl_fd cl) h) = length (reads (cl_fd cl) (trace w)) -> sys_readv h (cl_fd cl) d m = n
  | Writable _ | Closed _ => True
  end.

(** The events happen one after the other, each of them when the contract has it. *)
Fixpoint scheduled (acts : list act) (w : world) (s : service) : Prop :=
  match acts with
  | [] => True
  | a :: acts => obliged a w s /\ exists s', spec_act a s = Some s' /\ scheduled acts (handle a w).2 s'
  end.

(** The server before its first connection; no socket was closed and no event
    freed that was not there. *)
Record at_rest (w : world) : Prop := {
  rs_listens : echo_listens w K L al;
  rs_listener : exists lx, heap w !! L = Some (OListener lx) /\ l_readyToStop lx = FALSE /\ 0 <= l_ref_count lx < 2 ^ 32;
  rs_sockets f : 0 <= opens f (trace w);
  rs_events e : 0 <= events e (trace w);
  rs_memory l : malloc_ok l = true;
}.

Lemma serving_nothing w : at_rest w -> serving L al w w (Service (brk w) ∅ []) ∅.
Proof.
  intros [Hls (lx & HL & Hr & Hn) _ _ _]. assert (forall j, ~ footprint (Service (brk w) ∅ []) j) as Hno.
  { intros j [Hj%not_elem_of_nil|(k & cl & Hk & _)]; done. }
  split; simpl; try done.
  - apply Hls.
  - exists lx. rewrite map_size_empty, Z.add_0_r. split; [done|]. split; [by destruct lx|]. lia.
  - intros f. rewrite count_empty. lia.
  - intros e. rewrite count_empty. lia.
  - by intros j ?%Hno.
  - by intros j ?%Hno.
  - intros j _. by left.
Qed.

(** What an event needs of the listener: that it listens, or that it does not
    stop yet. *)
Definition allowed (a : act) (w0 w : world) : Prop :=
  match a with
  | Accept _ => echo_listens w0 K L al /\ (forall f, 0 <= opens f (trace w0)) /\ forall e, 0 <= events e (trace w0)
  | Closed _ => forall lx, heap w !! L = Some (OListener lx) -> drains lx = false
  | _ => True
  end.

Lemma handled a w0 w s s' hs :
  (exists y, heap w0 !! al = Some (OAppListener y)) -> (forall l, malloc_ok l = true) -> allowed a w0 w ->
  serving L al w0 w s hs -> obliged a w s -> spec_act a s = Some s' ->
  exists w' hs', handle a w = (Ok tt, w') /\ serving L al w0 w' s' hs'.
Proof.
  intros Hb Hm Hal Hs Hob Hsp.
  assert (forall r, (exists w' s'' hs', handle a w = (r, w') /\ spec_act a s = Some s'' /\ serving L al w0 w' s'' hs') ->
    exists w' hs', handle a w = (r, w') /\ serving L al w0 w' s' hs') as Hstep.
  { intros r (w' & s'' & hs' & E & E' & Hs'). exists w', hs'. split; [done|]. congruence. }
  apply Hstep. clear Hstep. destruct a as [fd|k n|k|k]; simpl in Hal, Hob, Hsp.
  - destruct Hob as (Hca & -> & Hf & Hn), Hal as (? & ? & ?). by eapply handle_accept.
  - destruct Hob as (Hn & Hcl). destruct (sv_clients s !! k) as [cl|] eqn:Hc; [|done]. simpl in Hsp.
    destruct (cl_sends cl) eqn:Hsd; [|done]. destruct (Hcl cl eq_refl). by eapply handle_readable.
  - destruct (sv_clients s !! k) as [cl|] eqn:Hc; [|done]. simpl in Hsp.
    destruct (cl_sends cl) as [|p [|]] eqn:Hsd; [done| |done]. by eapply handle_writable.
  - destruct (sv_clients s !! k) as [cl|] eqn:Hc; [|done]. simpl in Hsp.
    destruct (cl_sends cl) eqn:Hsd; [|done]. by eapply handle_closed.
Qed.

(** A server that listens takes every event. *)
Lemma rest_allows a w0 w s hs : at_rest w0 -> serving L al w0 w s hs -> allowed a w0 w.
Proof.
  intros [Hls (lx & HL & Hr & _) Ho He _] Hs. destruct a; simpl; try done. intros lx' HL'.
  destruct (sg_count _ _ _ _ _ _ Hs) as (lx0 & HL0 & E & _). apply stays_open.
  assert (lx0 = lx) as -> by congruence. rewrite HL' in E. by injection E as ->.
Qed.

Lemma rest_app w0 : at_rest w0 -> exists y, heap w0 !! al = Some (OAppListener y).
Proof. intros [[_ _ _ (y & Hy & _)] _ _ _ _]. by exists y. Qed.

Lemma handled_all acts w0 w s hs :
  at_rest w0 -> serving L al w0 w s hs -> scheduled acts w s ->
  exists w' s' hs', handle_all acts w = (Ok tt, w') /\ spec_acts acts s = Some s' /\ serving L al w0 w' s' hs'.
Proof.
  intros Hr. revert w s hs. induction acts as [|a acts IH]; intros w s hs Hs; [by eexists _, _, _|].
  intros [Hob (s1 & Hsp & Hsc)]. destruct (handled a w0 w s s1 hs (rest_app _ Hr) (rs_memory _ Hr) (rest_allows _ _ _ _ _ Hr Hs) Hs Hob Hsp) as (w1 & hs1 & E & Hs1).
  rewrite E in Hsc. destruct (IH w1 s1 hs1 Hs1 Hsc) as (w' & s' & hs' & E' & Hsp' & Hs').
  exists w', s', hs'. split; [|split; [by simpl; rewrite Hsp|done]]. simpl. by erewrite bind_ok.
Qed.

(** What was read from a connection was written to it. *)
Definition echoes (t : list event) (s : service) : Prop :=
  forall k cl, sv_clients s !! k = Some cl -> exists before before',
    reads (cl_fd cl) t = before ++ log_reads (cl_log cl) /\ writes (cl_fd cl) t = before' ++ log_writes (cl_log cl).

Lemma serving_echoes w0 w s hs : serving L al w0 w s hs -> echoes (trace w) s.
Proof.
  intros Hs k cl Hc. destruct (sg_clients _ _ _ _ _ _ Hs k cl Hc) as (h & _ & gs & gr & x & pre & bg & before & Hw & _ & _ & _ & Hr).
  exists before, (op_writes pre). split; [exact Hr|]. by eapply waits_writes.
Qed.

(** C4: the echo server serves any number of connections.  For any events that
    [scheduled] allows, at any of the connections and interleaved in any way, each
    is handled without a fault, and the program has the connections the contract
    says, each with the receive that waits and the send that is under way: the
    vectors written to a socket are those that were read from it, each cut to its
    bytes, in that order, whatever happens at others.  Allowed are new
    connections, the arrival of 1 to 1024 bytes at a connection and its end while
    it has no send pending, and its socket being writable while it has one; data
    that arrives while a send is pending is outside, and faults (C33).  Assumed:
    memory, sockets and libevent do not fail, new TCP contexts are blank, and the
    freed item of a receive still holds its byte count when the code reads it; on
    a machine that traps that read, every arrival faults (C35). *)
Theorem server_refines w acts :
  at_rest w -> scheduled acts w (Service (brk w) ∅ []) ->
  exists w' s hs, handle_all acts w = (Ok tt, w') /\ spec_acts acts (Service (brk w) ∅ []) = Some s
    /\ serving L al w w' s hs /\ echoes (trace w') s.
Proof.
  intros Hr Hsc. destruct (handled_all acts w w _ ∅ Hr (serving_nothing w Hr) Hsc) as (w' & s & hs & E & Hsp & Hs).
  exists w', s, hs. do 3 (split; [done|]). by eapply serving_echoes.
Qed.

(** *** When all connections have ended *)

Definition ended (a : act) : nat := match a with Closed _ => 1 | _ => 0 end.

(** Every end of a connection leaves two blocks. *)
Lemma spec_acts_leaks acts s s' :
  spec_acts acts s = Some s' -> length (sv_leaks s') = (length (sv_leaks s) + 2 * sum_list_with ended acts)%nat.
Proof.
  revert s. induction acts as [|a acts IH]; intros s; simpl; [intros [= ->]; lia|].
  intros (s1 & Ha & Hs')%bind_Some. rewrite (IH s1 Hs').
  destruct a as [fd|k n|k|k]; simpl in *.
  - injection Ha as <-. simpl. lia.
  - apply bind_Some in Ha as (cl & _ & Ha). destruct (cl_sends cl); [|done]. injection Ha as <-. simpl. lia.
  - apply bind_Some in Ha as (cl & _ & Ha). destruct (cl_sends cl) as [|? []]; [done| |done]. injection Ha as <-. simpl. lia.
  - apply bind_Some in Ha as (cl & _ & Ha). destruct (cl_sends cl); [|done]. injection Ha as <-. simpl. lia.
Qed.

Lemma serving_none w w' n leaks hs :
  serving L al w w' (Service n ∅ leaks) hs ->
  balanced (trace w) (trace w') /\ (forall j, j ∉ leaks -> heap w' !! j = heap w !! j) /\ (forall j, j ∈ leaks -> heap w !! j = None).
Proof.
  intros Hs. assert (hs = ∅) as -> by (apply map_empty; intros k; by apply (sg_dom _ _ _ _ _ _ Hs)).
  destruct Hs as [_ _ (lx & E0 & E & _) _ _ _ _ _ Ho He Hn _ _ Hr]. split; [|split].
  - split; [intros f; rewrite Ho|intros e; rewrite He]; rewrite count_empty; lia.
  - intros j Hj. destruct (decide (j = L)) as [->|Hne].
    + simpl in E. rewrite map_size_empty, Z.add_0_r in E. rewrite E, E0. by destruct lx.
    + destruct (Hr j Hne) as [|[|(k & cl & Hk & _)]]; done.
  - intros j Hj. apply Hn. by left.
Qed.

End properties.

(** On a concrete state: the contract has the event, and what the environment
    owes is there; [accepts] and [sent] prove the rest. *)
Ltac comes accepts sent :=
  lazymatch goal with
  | |- obliged _ _ (Accept _) _ _ =>
      split; [accepts|split; [vm_compute; reflexivity|split; [vm_compute; reflexivity|]]];
      let E := fresh in intros lx E; vm_compute in E; injection E as <-; vm_compute; reflexivity
  | |- obliged _ _ (Readable _ _) _ _ => sent
  | |- obliged _ _ _ _ _ => exact I
  end.

Ltac all_come accepts sent :=
  repeat (split; [comes accepts sent|eexists; split; [vm_compute; reflexivity|]]); exact I.

(** ** Two connections of the sample server *)

Module ServerSample.

#[local] Existing Instance EchoTcpSample.buffers.

(** Every item survives its release and says ten bytes, and ten bytes come with
    every read; sockets are numbered from 7 on. *)
#[local] Instance machine : Machine := test_machine (fun _ => Some (ORecv (EchoTcpSample.item 10))) (fun _ => None).
Definition accepted_sockets (h : list event) : list Z := omap (fun e => match e with KAccept _ fd => Some fd | _ => None end) h.
#[local] Instance sys : Sys := {|
  sys_socket _ _ := 5;
  sys_bind _ _ _ := 0;
  sys_listen _ _ _ := 0;
  sys_accept h _ := 7 + Z.of_nat (length (accepted_sockets h));
  sys_readv _ _ _ _ := 10;
  sys_writev _ _ _ _ := 10;
  lev_new h _ _ _ _ := Some (Pos.succ (EchoTcpSample.event_bound h));
  lev_add _ _ := 0;
  lev_pending h e := pending e h;
|}.
#[local] Instance sys_working : Working.
Proof. split; intros; simpl; try done. apply EchoTcpSample.above_bound. lia. Qed.

(** The first connection is read, the second one comes and is read too, both are
    written, the first one ends, the second one is served again and ends. *)
Definition acts : list act :=
  [Accept 7; Readable 4 10; Accept 8; Readable 14 10; Writable 14; Writable 4; Closed 4; Readable 14 10; Writable 14; Closed 14].
Definition nobody : service := Service 4 ∅ [].

Lemma started_at_rest : at_rest 1 2 3 EchoTcpSample.started.
Proof. split; [apply EchoTcpSample.started_listens|by exists EchoTcpSample.listener|done..]. Qed.

Lemma always_accepts (w : world) : can_accept w 5.
Proof. split; [done|simpl; lia|done]. Qed.

Lemma readable_obliged w s k : obliged 2 5 (Readable k 10) w s.
Proof. split; [done|]. intros cl _. split; [by eexists|done]. Qed.

(** After the first seven events only the second connection is left, which was
    read once and written once. *)
Lemma server_refines_witness :
  exists w' s hs, handle_all 1 5 0 (take 7 acts) EchoTcpSample.started = (Ok tt, w')
    /\ s = Service 24 {[14%positive := Client 8 (23%positive, Body 21 22 1024) [] [(18%positive, 10)]]} [13%positive; 12%positive]
    /\ serving 2 3 EchoTcpSample.started w' s hs /\ echoes (trace w') s.
Proof.
  destruct (server_refines 1 2 3 5 0 EchoTcpSample.started (take 7 acts) started_at_rest) as (w' & s & hs & E & Hsp & Hs).
  - unfold acts. all_come ltac:(apply always_accepts) ltac:(apply readable_obliged).
  - exists w', s, hs. split; [exact E|]. split; [|exact Hs]. vm_compute in Hsp. injection Hsp as <-. vm_compute. reflexivity.
Defined.

End ServerSample.
