(* ===== verification/Stopping.v ===== *)
(** * Stopping: the interrupt, and the connections that are left

    SIGINT stops the listener: its socket is closed and its context freed.  The
    connections are served as before; when the last one has ended the stop is
    reported and the application ends the event loop.  [winds_down] is that. *)

From S2P Require Import Prelude Structs Memory Message Queue Listener Connection Accept Resources Lifecycle.
From S2P Require Import Tcp TcpStack Echo EchoRound TcpPort EchoTcp EchoClose Clients Server.
Local Open Scope Z_scope.

(** ** The interrupt *)

Section interrupt.
Context `{Machine} `{Sys} `{Buffers} (l L K : loc) (depth : nat).

Definition interrupt : M unit := _app_sighandler (H0 := tcp_proto (H0 := server (S depth))) (Some l).

(** The listener that is asked to stop, and the one that has no connection. *)
Definition stopping (lx : tapsListener) : tapsListener := set_l_readyToStop TRUE (set_l_stopped (Some fn_app_stopped) lx).
Definition after_stop (lx : tapsListener) : tapsListener :=
  if l_ref_count lx =? 0 then set_l_stopped None (stopping lx) else stopping lx.

(** The calls of the stop, and those of the report. *)
Definition stop_calls (stop : fn) (x : listener_ctx) : list event :=
  [PStop stop (Some K); LDel (lc_event x); LFree (lc_event x); KClose (lc_fd x); DeadRead K; UStopped fn_stopped (Some L)].
Definition report_calls (base : ptr) : list event := [EvStopped fn_app_stopped (Some l); EvLoopBreak base].

(** The TCP library stops listening and says so. *)
Lemma stop_run f x w :
  heap w !! K = Some (OListenerCtx x) -> stale K = Some (OListenerCtx x) -> lc_taps_ctx x = Some L ->
  proto_stop (Proto := tcp_proto (H0 := server (S depth))) f (Some K) w
  = _taps_stopped (H0 := server (S depth)) (Some L)
      (World (delete K (heap w)) (brk w) (errno w)
         (trace w ++ [LDel (lc_event x); LFree (lc_event x); KClose (lc_fd x); DeadRead K; UStopped fn_stopped (Some L)])).
Proof.
  intros HK Hst Hx. cbn [proto_stop tcp_proto]. unfold Stop, drop_event. steps.
  erewrite bind_ok by (apply (load_stale (T := listener_ctx)); [apply lookup_delete_eq|exact Hst]). unfold call_up. steps.
  unfold set_heap, add_event. simpl. rewrite Hx. by rewrite <- !app_assoc.
Qed.

(** The library reports the stop when no connection is left. *)
Lemma stopped_run y lx w :
  heap w !! l = Some (OAppListener y) -> heap w !! L = Some (OListener lx) ->
  l_app_ctx lx = Some l -> l_stopped lx = Some fn_app_stopped ->
  _taps_stopped (H0 := server (S depth)) (Some L) w
  = (Ok tt, World (<[L := OListener (after_stop lx)]> (heap w)) (brk w) (errno w)
              (trace w ++ if l_ref_count lx =? 0 then report_calls (al_base y) else [])).
Proof.
  intros Hl HL Ha Hs. assert (L <> l) as Hne by congruence. unfold _taps_stopped, after_stop, stopping.
  steps. destruct (l_ref_count lx =? 0).
  - steps. rewrite Hs, Ha, insert_insert_eq. etransitivity; [apply (stopped_call l depth y); simpl; by rewrite lookup_insert_ne|].
    unfold set_heap, add_event, report_calls. simpl. by rewrite <- !app_assoc.
  - rewrite ret_ok, app_nil_r. unfold set_heap. destruct lx; simpl in *. by subst.
Qed.

Lemma interrupt_run base lx x stop w :
  heap w !! l = Some (OAppListener (AppListener base (Some L) cbs)) -> heap w !! L = Some (OListener lx) ->
  heap w !! K = Some (OListenerCtx x) -> stale K = Some (OListenerCtx x) -> lc_taps_ctx x = Some L ->
  l_proto_ctx lx = Some K -> l_app_ctx lx = Some l -> ph_stop (l_handles lx) = Some stop ->
  exists w', interrupt w = (Ok tt, w')
    /\ heap w' = <[L := OListener (after_stop lx)]> (delete K (heap w)) /\ brk w' = brk w
    /\ trace w' = trace w ++ stop_calls stop x ++ if l_ref_count lx =? 0 then report_calls base else [].
Proof.
  intros Hl HL HK Hst Hx Hp Ha Hs. assert (L <> l /\ K <> L /\ K <> l) as (N1 & N2 & N3) by (splits; congruence).
  set (lx1 := set_l_stopped (Some fn_app_stopped) lx).
  set (w1 := add_event (PStop stop (Some K)) (set_heap (<[L := OListener lx1]> (heap w)) w)).
  eexists. split; [unfold interrupt, _app_sighandler|split; [|split]].
  - erewrite bind_ok by (by apply (load_ok (T := app_listener))). cbn [al_taps al_callbacks].
    unfold tapsListenerStop. cbn [mbind option_bind cbs cb_stopped].
    erewrite bind_ok; [reflexivity|].
    erewrite bind_ok by (by apply (modify_ok (T := tapsListener))).
    erewrite bind_ok by (apply (load_ok (T := tapsListener)), lookup_insert_eq).
    unfold call_stop. cbn [set_l_stopped l_handles l_proto_ctx]. rewrite Hs, Hp, bind_assoc.
    erewrite bind_ok by reflexivity. change (add_event _ _) with w1.
    erewrite bind_ok; [apply ret_ok|]. rewrite (stop_run stop x w1);
      [|unfold w1; simpl; rewrite lookup_insert_ne by done; exact HK|done..].
    apply (stopped_run (AppListener base (Some L) cbs) lx1); [|unfold w1; simpl; rewrite lookup_delete_ne, lookup_insert_eq by done; done|done..].
    unfold w1. simpl. by rewrite lookup_delete_ne, lookup_insert_ne by done.
  - unfold w1. simpl. rewrite delete_insert_ne, insert_insert_eq by done. by destruct lx.
  - done.
  - unfold w1, stop_calls. simpl. by rewrite <- !app_assoc.
Qed.

End interrupt.

(** ** The connections that are left *)

Section left.
Context `{Machine} `{Sys} `{Buffers} `{!Working} (K L al : loc) (lfd : Z) (depth : nat).

#[local] Abbreviation serving := (serving L al).

(** The server as if it had been stopped before its first connection. *)
Definition stopped_base (stop : fn) (x : listener_ctx) (lx : tapsListener) (w0 : world) : world :=
  World (<[L := OListener (stopping lx)]> (delete K (heap w0))) (brk w0) (errno w0) (trace w0 ++ stop_calls L K stop x).

(** What the stop gives back: the socket of the listener and its event. *)
Lemma stop_opens stop x f : opens f (stop_calls L K stop x) = - Z.b2z (lc_fd x =? f).
Proof. unfold opens. simpl. by destruct (lc_fd x =? f). Qed.

Lemma stop_events stop x e : events e (stop_calls L K stop x) = - Z.b2z (bool_decide (lc_event x = e)).
Proof. unfold events. simpl. by destruct (bool_decide _). Qed.

Section interrupted.
Context (w0 w w' : world) (s : service) (hs : gmap loc holding) (x : listener_ctx) (lx : tapsListener) (y : app_listener) (stop : fn).
Hypothesis before : serving w0 w s hs.
Hypothesis (listener : heap w0 !! L = Some (OListener lx)) (context : heap w0 !! K = Some (OListenerCtx x))
  (app : heap w0 !! al = Some (OAppListener y)).
Hypothesis (socket : 0 < opens (lc_fd x) (trace w0)) (event : 0 < events (lc_event x) (trace w0)).

Let counted : tapsListener := set_l_ref_count (l_ref_count lx + Z.of_nat (size (sv_clients s))) lx.

Lemma counted_listener : heap w !! L = Some (OListener counted).
Proof.
  destruct (sg_count _ _ _ _ _ _ before) as (lx' & E0 & E & _). unfold counted. by assert (lx' = lx) as <- by (rewrite listener in E0; by injection E0).
Qed.

Hypothesis (heap_after : heap w' = <[L := OListener (stopping counted)]> (delete K (heap w)))
  (brk_after : brk w' = brk w) (trace_after : trace w' = trace w ++ stop_calls L K stop x).

(** The listener is none of the connections. *)
Lemma listener_strangers k h : hs !! k = Some h -> strangers (HAccepting x) h.
Proof.
  intros Hh. destruct (sg_foreign _ _ _ _ _ _ before k h Hh) as [Ho He]. split; simpl.
  - intros E. rewrite E in socket. lia.
  - intros e ->%list_elem_of_singleton Hin. specialize (He _ Hin). lia.
Qed.

Lemma interrupted_keeps j o : heap w !! j = Some o -> j <> L -> j <> K -> heap w' !! j = Some o.
Proof. intros Hj N1 N2. by rewrite heap_after, lookup_insert_ne, lookup_delete_ne. Qed.

Lemma interrupted_client k cl h : sv_clients s !! k = Some cl -> hs !! k = Some h -> client_ok L al w k cl h -> client_ok L al w' k cl h.
Proof.
  intros Hc Hh Hok.
  assert (forall j, footprint s j -> j <> K) as HK by (intros j Hj%(sg_new _ _ _ _ _ _ before); congruence).
  assert (forall j, j ∈ client_blocks k cl -> footprint s j) as Hfp by (intros j Hj; right; by exists k, cl).
  eapply (client_stranger L al w w' k cl h K (HAccepting x)); [done| | | |exact trace_after| | |by eapply listener_strangers].
  - intros j [->|Hj]%elem_of_cons.
    + rewrite heap_after, lookup_insert_ne, lookup_delete_ne by congruence. done.
    + destruct (client_live _ _ _ _ _ _ _ Hok Hj) as (ob & Hob & Hnl). rewrite Hob.
      apply interrupted_keeps; [done|intros ->; by apply (Hnl counted); pose proof counted_listener; congruence|by apply HK, Hfp].
  - intros L1 lx1 HL1. destruct (decide (L1 = L)) as [->|Hne].
    + rewrite counted_listener in HL1. injection HL1 as <-. eexists. split; [rewrite heap_after; apply lookup_insert_eq|done].
    + exists lx1. split; [|done]. apply interrupted_keeps; [done|done|]. intros ->.
      rewrite (base_kept _ _ _ _ _ _ _ _ before context) in HL1; congruence.
  - rewrite heap_after, brk_after. pose proof (sg_fresh _ _ _ _ _ _ before) as Hf.
    apply fresh_from_insert; [eapply fresh_from_lt; [exact Hf|exact counted_listener]|by apply fresh_from_delete].
  - unfold stop_calls. repeat constructor; simpl; try done; set_solver.
  - intros ->. apply (HK k); [|done]. apply Hfp. by left.
Qed.

(** The connections are served as before. *)
Lemma interrupted : serving (stopped_base stop x lx w0) w' s hs.
Proof.
  assert (K <> L) as HKL by congruence. pose proof before as [Hf Hn (lx' & E0 & E & Hpos & Hb) Hcl Hd Ha Hst Hfo Ho He Hnew Hla Hbo Hrest].
  split.
  - rewrite heap_after, brk_after. apply fresh_from_insert; [eapply fresh_from_lt; [exact Hf|exact counted_listener]|by apply fresh_from_delete].
  - by rewrite brk_after.
  - assert (lx' = lx) as -> by congruence. exists (stopping lx). simpl. rewrite lookup_insert_eq. split; [done|].
    by rewrite heap_after, lookup_insert_eq.
  - intros k cl Hc. destruct (Hcl k cl Hc) as (h & Hh & Hok). exists h. split; [done|by apply (interrupted_client k)].
  - done.
  - done.
  - done.
  - intros k h Hh. destruct (Hfo k h Hh) as [Fo Fe], (listener_strangers k h Hh) as [So Se]. simpl in *. split.
    + rewrite opens_app, stop_opens, Fo. by rewrite (proj2 (Z.eqb_neq _ _) So).
    + intros e Hin. rewrite events_app, stop_events, (Fe e Hin), bool_decide_false; [done|]. intros <-.
      apply (Se (lc_event x)); [by left|done].
  - intros f. rewrite trace_after. simpl. rewrite !opens_app, Ho. lia.
  - intros e. rewrite trace_after. simpl. rewrite !events_app, He. lia.
  - intros j Hj%Hnew. simpl. rewrite lookup_insert_ne by congruence. apply lookup_delete_None. by right.
  - by rewrite brk_after.
  - done.
  - intros j Hj. rewrite heap_after. simpl. rewrite !lookup_insert_ne by done. destruct (decide (j = K)) as [->|].
    + left. by rewrite !lookup_delete_eq.
    + rewrite !lookup_delete_ne by done. by apply Hrest.
Qed.

End interrupted.

(** *** The last connections *)

Definition no_accept (a : act) : Prop := match a with Accept _ => False | _ => True end.

Lemma nothing_left a s : no_accept a -> sv_clients s = ∅ -> spec_act a s = None.
Proof. intros Ha Hs. destruct a as [fd|k n|k|k]; simpl in *; try done; by rewrite Hs, lookup_empty. Qed.

Lemma still_some a s s' : match a with Closed _ => False | _ => True end -> spec_act a s = Some s' -> sv_clients s' <> ∅.
Proof.
  intros Ha Hs. destruct a as [fd|k n|k|k]; simpl in *; try done; simplify_option_eq; repeat case_match; simplify_eq; apply insert_non_empty.
Qed.

Section down.
Context (w0 : world) (lx : tapsListener).
Hypothesis memory : forall l, malloc_ok l = true.
Hypothesis (listener : heap w0 !! L = Some (OListener lx)) (app : exists y, heap w0 !! al = Some (OAppListener y)).
Hypothesis (ready : l_readyToStop lx = TRUE) (stopped : l_stopped lx = Some fn_app_stopped) (ctx : l_app_ctx lx = Some al)
  (alone : l_ref_count lx = 0).

Lemma down_listener w s hs :
  serving w0 w s hs -> heap w !! L = Some (OListener (set_l_ref_count (Z.of_nat (size (sv_clients s))) lx)).
Proof.
  intros Hs. destruct (sg_count _ _ _ _ _ _ Hs) as (lx' & E0 & E & _). assert (lx' = lx) as -> by congruence.
  by rewrite alone, Z.add_0_l in E.
Qed.

Lemma down_drains n : drains (set_l_ref_count (Z.of_nat n) lx) = bool_decide (n = 1%nat).
Proof.
  unfold drains. simpl. rewrite ready. case_bool_decide as E; simpl; [by subst|]. apply Z.eqb_neq. lia.
Qed.

(** The last connection ends. *)
Lemma last_ends w s hs k s' :
  serving w0 w s hs -> size (sv_clients s) = 1%nat -> spec_act (Closed k) s = Some s' ->
  sv_clients s' = ∅ /\ exists w' hs', handle K lfd depth (Closed k) w = (Ok tt, w')
    /\ heap w' !! L = Some (OListener (set_l_stopped None lx)) /\ EvStopped fn_app_stopped (Some al) ∈ trace w'
    /\ serving w0 (set_heap (<[L := OListener lx]> (heap w')) w') s' hs'.
Proof.
  intros Hs Hz Hsp. pose proof (down_listener w s hs Hs) as HL. rewrite Hz in HL.
  pose proof Hsp as Hsp'. apply bind_Some in Hsp' as (cl & Hc & Hsp'). destruct (cl_sends cl) eqn:Hsd; [|done].
  injection Hsp' as <-. split.
  { simpl. apply map_size_empty_inv. rewrite map_size_delete_Some by (by exists cl). by rewrite Hz. }
  destruct (closes K L al lfd depth w0 app w s hs k cl Hs Hc Hsd) as (w' & s' & hs' & lx' & E & Hsp' & HL1 & HL2 & Hs' & Hev).
  { intros lx' HL' _. assert (lx' = set_l_ref_count 1 lx) as -> by (rewrite HL in HL'; by injection HL'). done. }
  assert (lx' = set_l_ref_count 1 lx) as -> by (rewrite HL in HL1; by injection HL1).
  assert (drains (set_l_ref_count 1 lx) = true) as Hd by apply (down_drains 1).
  assert (released (set_l_ref_count 1 lx) = lx) as Hrl by (unfold released; destruct lx; simpl in *; by subst).
  unfold after_release in HL2. rewrite Hd, Hrl in HL2. rewrite Hrl in Hs'. rewrite Hsp in Hsp'. injection Hsp' as <-.
  exists w', hs'. split; [done|]. split; [done|]. split; [by apply Hev|done].
Qed.

(** The connections that are left are served until the last one has ended; then
    the stop is reported. *)
Lemma winds_down acts w s hs n leaks :
  serving w0 w s hs -> sv_clients s <> ∅ -> Forall no_accept acts -> scheduled K L lfd depth acts w s ->
  spec_acts acts s = Some (Service n ∅ leaks) ->
  exists w' hs', handle_all K lfd depth acts w = (Ok tt, w')
    /\ heap w' !! L = Some (OListener (set_l_stopped None lx)) /\ EvStopped fn_app_stopped (Some al) ∈ trace w'
    /\ serving w0 (set_heap (<[L := OListener lx]> (heap w')) w') (Service n ∅ leaks) hs'.
Proof.
  revert w s hs. induction acts as [|a acts IH]; intros w s hs Hs Hne Hno Hsc Hsp; [simpl in Hsp; by simplify_eq|].
  apply Forall_cons in Hno as [Ha Hno]. destruct Hsc as [Hob (s1 & Hs1 & Hsc)]. simpl in Hsp. rewrite Hs1 in Hsp. simpl in Hsp.
  pose proof (down_listener w s hs Hs) as HL.
  assert (allowed K L al a w0 w -> sv_clients s1 <> ∅ -> exists w' hs', handle_all K lfd depth (a :: acts) w = (Ok tt, w')
    /\ heap w' !! L = Some (OListener (set_l_stopped None lx)) /\ EvStopped fn_app_stopped (Some al) ∈ trace w'
    /\ serving w0 (set_heap (<[L := OListener lx]> (heap w')) w') (Service n ∅ leaks) hs') as Hgo.
  { intros Hal Hne1. destruct (handled K L al lfd depth a w0 w s s1 hs app memory Hal Hs Hob Hs1) as (w1 & hs1 & E & Hs1').
    rewrite E in Hsc. destruct (IH w1 s1 hs1 Hs1' Hne1 Hno Hsc Hsp) as (w' & hs' & E' & Hw'). exists w', hs'.
    split; [simpl; by erewrite bind_ok|done]. }
  destruct a as [fd|k m|k|k]; [done|apply Hgo; [done|by eapply (still_some (Readable k m))]|apply Hgo; [done|by eapply (still_some (Writable k))]|].
  destruct (decide (size (sv_clients s) = 1%nat)) as [Hz|Hz].
  - destruct (last_ends w s hs k s1 Hs Hz Hs1) as (He & w1 & hs1 & E & HL1 & Hev & Hs1').
    destruct acts as [|b acts]; [|simpl in Hsp; apply Forall_cons in Hno as [Hb _]; by rewrite nothing_left in Hsp].
    injection Hsp as ->. exists w1, hs1. split; [simpl; by erewrite bind_ok|done].
  - apply Hgo.
    + intros lx' HL'. rewrite HL in HL'. injection HL' as <-. rewrite down_drains. by apply bool_decide_eq_false.
    + pose proof Hs1 as Hs2. apply bind_Some in Hs2 as (cl & Hc & Hs2). destruct (cl_sends cl); [|done]. injection Hs2 as <-. simpl.
      intros He. apply (f_equal size) in He. rewrite map_size_delete_Some, map_size_empty in He by (by exists cl).
      apply map_size_non_empty_iff in Hne. lia.
Qed.

End down.

(** *** The event loop *)

(** Events, the interrupt, and the events after it; libevent returns when the
    application has ended the loop. *)
Definition loop (acts acts' : list act) : M unit :=
  handle_all K lfd depth acts ;; interrupt al (S depth) ;; handle_all K lfd depth acts'.

(** The state after the interrupt. *)
Definition after_interrupt (acts : list act) (u : world) : world := (interrupt al (S depth) (handle_all K lfd depth acts u).2).2.

(** A whole session: [acts] before the interrupt and [acts'] after it, when no
    connection is accepted any more, up to the end of the last one. *)
Definition whole_session (u : world) (acts acts' : list act) (n : loc) (leaks : list loc) : Prop :=
  exists s, scheduled K L lfd depth acts u (Service (brk u) ∅ []) /\ spec_acts acts (Service (brk u) ∅ []) = Some s
    /\ Forall no_accept acts' /\ scheduled K L lfd depth acts' (after_interrupt acts u) s
    /\ spec_acts acts' s = Some (Service n ∅ leaks).

Lemma whole_session_leaks u acts acts' n leaks :
  whole_session u acts acts' n leaks -> length leaks = (2 * (sum_list_with ended acts + sum_list_with ended acts'))%nat.
Proof.
  intros (s & _ & Hsp & _ & _ & Hsp'). apply spec_acts_leaks in Hsp, Hsp'. simpl in *. lia.
Qed.

(** The listener at [L] of the application's at [al], with its TCP context. *)
Record listens_for (u : world) (base : ptr) (lx : tapsListener) (x : listener_ctx) (stop : fn) : Prop := {
  lf_app : heap u !! al = Some (OAppListener (AppListener base (Some L) cbs));
  lf_listener : heap u !! L = Some (OListener lx);
  lf_context : heap u !! K = Some (OListenerCtx x);
  lf_calls : l_proto_ctx lx = Some K /\ l_app_ctx lx = Some al /\ ph_stop (l_handles lx) = Some stop /\ lc_taps_ctx x = Some L;
  lf_alone : l_ref_count lx = 0;
  lf_stale : stale K = Some (OListenerCtx x);
  lf_socket : 0 < opens (lc_fd x) (trace u);
  lf_event : 0 < events (lc_event x) (trace u);
}.

Section loop.
Context (u : world) (base : ptr) (lx : tapsListener) (x : listener_ctx) (stop : fn).
Hypothesis (rest : at_rest K L al u) (there : listens_for u base lx x stop).

(** The interrupt, whatever connections there are. *)
Lemma interrupted_run w s hs :
  serving u w s hs ->
  exists w', interrupt al (S depth) w = (Ok tt, w')
    /\ heap w' !! L = Some (OListener (after_stop (set_l_ref_count (Z.of_nat (size (sv_clients s))) lx)))
    /\ trace w' = trace w ++ stop_calls L K stop x ++ (if Z.of_nat (size (sv_clients s)) =? 0 then report_calls al base else [])
    /\ serving (stopped_base stop x lx u)
         (World (<[L := OListener (stopping (set_l_ref_count (Z.of_nat (size (sv_clients s))) lx))]> (heap w')) (brk w') (errno w')
            (trace w ++ stop_calls L K stop x)) s hs.
Proof.
  intros Hs. destruct there as [Ea El Ek (C1 & C2 & C3 & C4) Hz Hst Ho He].
  assert (K <> L /\ al <> L /\ K <> al) as (N1 & N2 & N3) by (splits; congruence).
  assert (heap w !! L = Some (OListener (set_l_ref_count (Z.of_nat (size (sv_clients s))) lx))) as HL.
  { pose proof (counted_listener u w s hs lx Hs El) as E. by rewrite Hz, Z.add_0_l in E. }
  destruct (interrupt_run al L K (S depth) base (set_l_ref_count (Z.of_nat (size (sv_clients s))) lx) x stop w)
    as (w' & E & Eh & Eb & Et); try done; try (by eapply base_kept).
  exists w'. split; [done|]. split; [rewrite Eh; apply lookup_insert_eq|]. split; [done|].
  eapply (interrupted u w); try done. simpl. by rewrite Eh, insert_insert_eq, Hz, Z.add_0_l.
Qed.

(** The loop ends stopped, when the last connection has. *)
Lemma loop_stops acts acts' n leaks :
  whole_session u acts acts' n leaks ->
  exists v v' hs, loop acts acts' u = (Ok tt, v)
    /\ heap v !! L = Some (OListener (set_l_stopped None (stopping lx))) /\ EvStopped fn_app_stopped (Some al) ∈ trace v
    /\ serving (stopped_base stop x lx u) v' (Service n ∅ leaks) hs
    /\ (forall j, j <> L -> heap v' !! j = heap v !! j) /\ balanced (trace v') (trace v).
Proof.
  intros (s & Hsc & Hsp & Hno & Hsc' & Hsp').
  destruct (handled_all K L al lfd depth acts u u _ ∅ rest (serving_nothing K L al u rest) Hsc) as (w & s' & hs & E & E' & Hs).
  assert (s' = s) as -> by congruence. destruct (interrupted_run w s hs Hs) as (w' & Ei & HL & Ht & Hs').
  unfold loop. erewrite bind_ok by exact E. erewrite bind_ok by exact Ei.
  unfold after_interrupt in Hsc'. rewrite E in Hsc'. simpl in Hsc'. rewrite Ei in Hsc'. simpl in Hsc'.
  pose proof (lf_alone _ _ _ _ _ there) as Hz. destruct (decide (sv_clients s = ∅)) as [He|He].
  - destruct acts' as [|a acts']; [|apply Forall_cons in Hno as [Ha _]; simpl in Hsp'; by rewrite nothing_left in Hsp'].
    assert (Z.of_nat (size (sv_clients s)) = 0) as Hn by (by rewrite He, map_size_empty). rewrite Hn in HL, Ht, Hs'.
    injection Hsp' as ->. eexists w', _, hs. split; [done|]. split; [|split; [|split; [exact Hs'|split]]].
    + rewrite HL. unfold after_stop. simpl. do 2 f_equal. destruct lx. simpl in *. by subst.
    + rewrite Ht. simpl. set_solver.
    + intros j Hj. by apply lookup_insert_ne.
    + rewrite Ht, app_assoc. by apply balanced_app.
  - assert (Z.of_nat (size (sv_clients s)) <> 0) as Hn by (apply map_size_non_empty_iff in He; lia).
    unfold after_stop in HL. simpl in HL. rewrite (proj2 (Z.eqb_neq _ _) Hn) in *. rewrite app_nil_r in Ht. rewrite <- Ht, insert_id in Hs' by done.
    replace (World _ _ _ _) with w' in Hs' by (by destruct w').
    destruct there as [Ea El Ek (C1 & C2 & C3 & C4) _ _ _ _].
    destruct (winds_down (stopped_base stop x lx u) (stopping lx) (rs_memory _ _ _ _ rest)) with acts' w' s hs n leaks
      as (v & hs' & Ev & HLv & Hev & Hv); try done.
    + apply lookup_insert_eq.
    + eexists. simpl. rewrite lookup_insert_ne, lookup_delete_ne by congruence. exact Ea.
    + exists v. eexists _, hs'. split; [done|]. split; [done|]. split; [done|]. split; [exact Hv|]. split; [|done].
      intros j Hj. by apply lookup_insert_ne.
Qed.

End loop.

End left.
