(* ===== verification/Program.v ===== *)
(** * Program: the echo server from its start to its end

    [main] up to the event loop, any number of connections in the loop, the
    interrupt, the connections that are left then, and what [main] does after
    the loop. *)

From S2P Require Import Prelude Structs Memory Message Queue Listener Connection Accept TransportProperties Endpoint.
From S2P Require Import Cfg Preconnection Resources Frame Lifecycle Listening Tcp TcpStack Echo TcpPort EchoTcp EchoMain Server Stopping.
Local Open Scope Z_scope.

Section program.
Context `{Machine} `{Net} `{Sys} `{Buffers} `{!Working} (depth : nat).
Context (fuel : nat) (entries : list dirent) (ds : list description) (stack : list tapsProtocol) (sin6 sin : sockaddr).
Hypothesis memory : forall c, malloc_ok c = true.
Hypothesis a_file : configured entries ds /\ (length ds <= length stack)%nat /\ (length ds < 256)%nat.
Hypothesis new_blocks : forall c, shaped (uninit c) /\ pc_numProtocols (uninit c) = 0.
Hypothesis sockets : (forall h f, 0 <= sys_socket h f) /\ (forall h fd a, 0 <= sys_bind h fd a)
  /\ (forall h fd k, 0 <= sys_listen h fd k) /\ (forall h b fd what a, lev_new h b fd what a <> None).

#[local] Abbreviation run_main := (run_main (H0 := server (S (S depth))) fuel entries stack sin6 sin).

#[local] Abbreviation waits := (main_waits (H1 := tcp_proto (H0 := server (S (S depth))))).

(** The TCP context of the listener of [main]. *)
Definition listens_on (b L : loc) (ev : ptr) (fd : Z) : listener_ctx :=
  ListenerCtx (Some b) ev fd (Some fn_connection_received) None (Some fn_closed) (Some fn_connection_error) (Some L).

Lemma at_rest_at_loop w u l L K lib b ev s r r' fd path listen addr :
  heap u = serving_heap l L K lib b ev fd (heap w) -> NoDup [l; L; K] -> echo_listens u K L l ->
  trace u = trace w ++ listening_trace path listen L K b addr ev fd r ++ [LNew s SIGINT EV_SIGNAL (Some l); LAdd s r'] ->
  (forall f, 0 <= opens f (trace w)) -> (forall e, 0 <= events e (trace w)) -> at_rest K L l u.
Proof.
  intros Hh Hnd Hls Ht Ho He. split; [done| | | |done].
  - eexists. split; [rewrite Hh; unfold serving_heap; rewrite lookup_insert_ne, lookup_insert_eq; [done|]|by split].
    by apply NoDup_cons in Hnd as [[? _]%not_elem_of_cons _].
  - intros f. specialize (Ho f). rewrite Ht, opens_app. unfold opens in *. simpl. case_match; lia.
  - intros e. specialize (He e). rewrite Ht, events_app. unfold events in *. simpl. repeat case_match; lia.
Qed.

(** What the listener of [main] was given. *)
Lemma listens_for_at_loop w u l L K lib b ev s r r' fd path listen addr stop :
  heap u = serving_heap l L K lib b ev fd (heap w) -> NoDup [l; L; K] -> dlsym (Some lib) "Stop" = Some stop ->
  trace u = trace w ++ listening_trace path listen L K b addr ev fd r ++ [LNew s SIGINT EV_SIGNAL (Some l); LAdd s r'] ->
  (forall f, 0 <= opens f (trace w)) -> (forall e, 0 <= events e (trace w)) ->
  stale K = Some (OListenerCtx (listens_on b L ev fd)) ->
  listens_for K L l u (Some b) (listener_done (Some lib) (Some b) (Some K) (Some l) L cbs) (listens_on b L ev fd) stop.
Proof.
  intros Hh Hnd Es Ht Ho He Hst. rewrite !NoDup_cons, !not_elem_of_cons in Hnd. destruct Hnd as ((N1 & N2 & _) & (N3 & _) & _).
  split; try done.
  - rewrite Hh. apply lookup_insert_eq.
  - rewrite Hh. unfold serving_heap. rewrite lookup_insert_ne by done. apply lookup_insert_eq.
  - rewrite Hh. unfold serving_heap. rewrite !lookup_insert_ne by done. apply lookup_insert_eq.
  - specialize (Ho fd). rewrite Ht, opens_app. unfold opens in *. simpl. rewrite Z.eqb_refl. lia.
  - specialize (He ev). rewrite Ht, events_app. unfold events in *. simpl. rewrite bool_decide_true by done. case_match; lia.
Qed.

(** The loop, from the outside: the stop is reported, and what is left are the
    leaks and what [main] gives back. *)
Lemma loop_run u l L K lib b ev fd h stop acts acts' m leaks :
  heap u = serving_heap l L K lib b ev fd h -> NoDup [l; L; K] -> at_rest K L l u ->
  listens_for K L l u (Some b) (listener_done (Some lib) (Some b) (Some K) (Some l) L cbs) (listens_on b L ev fd) stop ->
  whole_session K L l fd depth u acts acts' m leaks ->
  exists v, loop K l fd depth acts acts' u = (Ok tt, v) /\ EvStopped fn_app_stopped (Some l) ∈ trace v
    /\ heap v !! l = heap u !! l /\ heap v !! K = None
    /\ heap v !! L = Some (OListener (set_l_stopped None (stopping (listener_done (Some lib) (Some b) (Some K) (Some l) L cbs))))
    /\ (forall j, j ∉ [l; L; K] -> j ∉ leaks -> heap v !! j = heap u !! j) /\ (forall j, j ∈ leaks -> heap u !! j = None)
    /\ balanced (trace u ++ stop_calls L K stop (listens_on b L ev fd)) (trace v).
Proof.
  intros Hh Hnd Hr Hf Hw.
  destruct (loop_stops K L l fd depth u (Some b) _ _ stop Hr Hf acts acts' m leaks Hw) as (v & v' & hs & E & HL & Hev & Hs & Hv & Hb).
  destruct (serving_none _ _ _ _ _ _ _ Hs) as (Hb' & Hk & _).
  assert (forall j, j ∈ leaks -> heap u !! j = None) as Hn.
  { intros j Hj. apply (ls_fresh _ _ _ _ (rs_listens _ _ _ _ Hr)). apply (sg_born _ _ _ _ _ _ Hs). by left. }
  assert (forall j, j ∈ [l; L; K] -> j ∉ leaks) as Hnl.
  { intros j Hj Hin%Hn. destruct Hf as [F1 F2 F3 _ _ _ _ _]. rewrite !elem_of_cons, elem_of_nil in Hj. naive_solver congruence. }
  rewrite !NoDup_cons, !not_elem_of_cons in Hnd. destruct Hnd as ((N1 & N2 & _) & (N3 & _) & _).
  exists v. split; [done|]. split; [done|]. split; [|split; [|split; [done|split; [|split; [done|by etrans]]]]].
  - rewrite <- Hv, Hk by (done || apply Hnl; set_solver). simpl. by rewrite lookup_insert_ne, lookup_delete_ne by done.
  - rewrite <- Hv, Hk by (done || apply Hnl; set_solver). simpl. rewrite lookup_insert_ne by done. apply lookup_delete_eq.
  - intros j Hj Hl. rewrite !not_elem_of_cons in Hj. rewrite <- Hv, Hk by naive_solver. simpl.
    by rewrite lookup_insert_ne, lookup_delete_ne by naive_solver.
Qed.

(** From the start to the end of [main], everything that is opened or made is
    closed or freed. *)
Lemma main_calls_balanced (t : list event) path listen l L K b addr ev fd r s r' stop lib :
  balanced t (((t ++ listening_trace path listen L K b addr ev fd r ++ [LNew s SIGINT EV_SIGNAL (Some l); LAdd s r'])
    ++ stop_calls L K stop (listens_on b L ev fd)) ++ [EvDlclose lib; LDel s; LFree s; EvBaseFree (Some b)]).
Proof.
  rewrite <- !app_assoc. apply balanced_app; intros; unfold opens, events; simpl; repeat case_match; lia.
Qed.

Lemma serving_heap_rest l L K lib b ev fd h j : j ∉ [l; L; K] -> serving_heap l L K lib b ev fd h !! j = h !! j.
Proof. rewrite !not_elem_of_cons. intros (N1 & N2 & N3 & _). unfold serving_heap. by rewrite !lookup_insert_ne by done. Qed.

(** C3: the whole program, from its start to its end.  With the address, a usable
    protocol, its library and an event base, [main] comes to the event loop.  From
    there, let connections be accepted, read, written and ended as [whole_session]
    has it, one event after the other, before an interrupt and after it, up to
    the end of the last connection: then Stopped is reported, the loop ends,
    [main] returns 0, every socket that was opened is closed and every event that
    was made is freed, and the heap of the program is what it was at the start
    but for two blocks for every connection that ended.  Assumed: memory, sockets
    and libevent never fail; /etc/taps has at most one configuration file, and a
    well-formed one; the count of protocols in the new preconnection's memory is
    0 and the memory of a new TCP context blank; no data arrives at a connection
    and it does not end while a send of it is pending (C33 has what happens
    otherwise); a freed receive still holds its byte count and the freed context
    of the listener its fields when the code reads them (C35, C37).  The buffers
    of libyaml's events, which the code never deletes, are not in the heap. *)
Theorem main_serves_until_interrupted w ip d rest b lib listen :
  fresh_from (heap w) (brk w) -> (forall f, 0 <= opens f (trace w)) -> (forall e, 0 <= events e (trace w)) ->
  inet_pton4 localhost = Some ip -> usable ds = d :: rest -> event_base_new = Some b ->
  dlopen (ds_libpath d) = Some lib -> dlsym (Some lib) "Listen" = Some listen ->
  Forall (fun s => dlsym (Some lib) s <> None) symbols ->
  exists l L K ev fd r s r' u,
    (forall event_base_dispatch, run_main event_base_dispatch w = waits event_base_dispatch (Some b) s (Some l) u)
    /\ at_rest K L l u
    /\ trace u = trace w ++ listening_trace (ds_libpath d) listen L K b (local_address sin ip) ev fd r
                 ++ [LNew s SIGINT EV_SIGNAL (Some l); LAdd s r']
    /\ forall event_base_dispatch acts acts' m leaks,
         event_base_dispatch (Some b) u = loop K l fd depth acts acts' u -> whole_session K L l fd depth u acts acts' m leaks ->
         stale K = Some (OListenerCtx (listens_on b L ev fd)) ->
         exists w', run_main event_base_dispatch w = (Ok 0, w') /\ EvStopped fn_app_stopped (Some l) ∈ trace w'
           /\ (forall j, j ∉ leaks -> heap w' !! j = heap w !! j) /\ (forall j, j ∈ leaks -> heap w !! j = None)
           /\ length leaks = (2 * (sum_list_with ended acts + sum_list_with ended acts'))%nat /\ balanced (trace w) (trace w').
Proof.
  intros Hf Ho He Hip Hu Hbase Hd E0 Hall.
  destruct (main_comes_to_wait (H0 := server (S (S depth))) fuel entries ds stack sin6 sin memory a_file new_blocks sockets
    w ip d rest b lib listen Hf Hip Hu Hbase Hd E0 Hall)
    as (l & L & K & ev & fd & r & s & r' & u & E1 & Hh & Hnd & Hnew & Hls & Ht).
  pose proof (at_rest_at_loop w u l L K lib b ev s r r' fd _ _ _ Hh Hnd Hls Ht Ho He) as Hr.
  exists l, L, K, ev, fd, r, s, r', u. split; [exact E1|]. split; [exact Hr|]. split; [exact Ht|].
  intros D acts acts' m leaks Hloop Hsc Hst.
  unfold symbols in Hall. rewrite !Forall_cons in Hall. destruct Hall as (_ & [stop Es]%not_eq_None_Some & _).
  pose proof (listens_for_at_loop w u l L K lib b ev s r r' fd _ _ _ stop Hh Hnd Es Ht Ho He Hst) as Hlf.
  destruct (loop_run u l L K lib b ev fd _ stop acts acts' m leaks Hh Hnd Hr Hlf Hsc) as (v & E2 & Hev & Vl & VK & VL & Vk & Vn & Hb).
  rewrite Hh in Vl. unfold serving_heap in Vl. rewrite lookup_insert_eq in Vl.
  eexists. split; [rewrite E1; eapply main_ends; [by rewrite Hloop|exact Vl|exact VL|done..]|].
  assert (forall j, j ∈ leaks -> j ∉ [l; L; K]) as Hnl.
  { intros j Hj%Vn Hin. rewrite Hh in Hj. unfold serving_heap in Hj. apply lookup_insert_None in Hj as [[Hj N2]%lookup_insert_None N1].
    apply lookup_insert_None in Hj as [_ N3]. rewrite !elem_of_cons, elem_of_nil in Hin. naive_solver. }
  simpl. splits; [apply elem_of_app; by left| | |by eapply whole_session_leaks|].
  - intros j Hj. destruct (decide (j ∈ [l; L; K])) as [Hin|Hin].
    + rewrite Forall_forall in Hnew. rewrite (Hnew j Hin). rewrite !lookup_delete_None.
      rewrite !elem_of_cons, elem_of_nil in Hin. naive_solver.
    + pose proof Hin as Hin'. rewrite !not_elem_of_cons in Hin'. rewrite !lookup_delete_ne by naive_solver.
      by rewrite Vk, Hh, serving_heap_rest.
  - intros j Hj. by rewrite <- (Vn j Hj), Hh, serving_heap_rest by (by apply Hnl).
  - etrans; [|apply balanced_tail; exact Hb]. rewrite Ht. apply main_calls_balanced.
Qed.

End program.

(** ** Two connections, and the interrupt while one is left *)

Module ProgramSample.
Import EchoMainSample.

#[local] Existing Instance EndpointSample.net.
#[local] Existing Instance EchoTcpSample.buffers.
#[local] Existing Instances ServerSample.sys ServerSample.sys_working.

(** The block of the listener context keeps what it had; every other block says
    that ten bytes were received. *)
Definition context : listener_ctx := listens_on 5 33 (Some 101%positive) 5.
#[local] Instance machine : Machine := {|
  malloc_ok _ := true;
  uninit T _ _ := zero;
  stale l := Some (if bool_decide (l = 34%positive) then OListenerCtx context else ORecv (EchoTcpSample.item 10));
  wild _ := None;
  dlopen path := if String.eqb path "/usr/lib/x86_64-linux-gnu/libtaps_tcp.so" then Some 1%positive else None;
  dlsym := @dlsym strict_machine;
  event_base_new := Some 5%positive;
|}.

(** One connection ends before the interrupt, the other one is served after it. *)
Definition acts : list act := [Accept 7; Readable 35 10; Accept 8; Readable 45 10; Writable 45; Writable 35; Closed 35].
Definition acts' : list act := [Readable 45 10; Writable 45; Closed 45].

Definition program (loop : ptr -> M unit) : M Z :=
  run_main (H0 := server 2) 0 host_dir stack (Sockaddr 0 0 0 0) (Sockaddr 0 0 0 0) loop.

Definition sample_memory c : malloc_ok c = true := eq_refl.

Lemma sample_blocks c : shaped (uninit c) /\ pc_numProtocols (uninit c) = 0.
Proof. done. Qed.

Lemma sample_sockets :
  (forall h f, 0 <= sys_socket h f) /\ (forall h fd a, 0 <= sys_bind h fd a) /\ (forall h fd k, 0 <= sys_listen h fd k)
  /\ (forall h b fd what a, lev_new h b fd what a <> None).
Proof. splits; intros; simpl; done || lia. Qed.

Lemma sample_accepts (w : world) : can_accept w 5.
Proof. split; [done|simpl; lia|done]. Qed.

(** The receives are not at the address of the listener context. *)
Lemma sample_sent w s k : (forall cl, sv_clients s !! k = Some cl -> (cl_recv cl).1 <> 34%positive) -> obliged 33 5 (Readable k 10) w s.
Proof.
  intros Hne. split; [done|]. intros cl Hc. split; [|done]. eexists. simpl. rewrite bool_decide_false by (by apply Hne). done.
Qed.

(** The state in which the loop begins. *)
Definition at_loop : world := (program (fun _ => throw OutOfFuel) start).2.

Lemma sample_session : whole_session 34 33 32 5 0 at_loop acts acts' 59 [58; 57; 44; 43]%positive.
Proof.
  eexists. split; [unfold acts|split; [vm_compute; reflexivity|split; [by repeat constructor|split; [unfold acts'|vm_compute; reflexivity]]]].
  all: all_come ltac:(apply sample_accepts)
    ltac:(apply sample_sent; let Hc := fresh in intros cl Hc; vm_compute in Hc; injection Hc as <-; vm_compute; discriminate).
Qed.

Lemma main_serves_until_interrupted_witness :
  exists w', program (fun _ => loop 34 32 5 0 acts acts') start = (Ok 0, w') /\ EvStopped fn_app_stopped (Some 32%positive) ∈ trace w'
    /\ (forall j, j ∉ [58; 57; 44; 43]%positive -> heap w' !! j = None) /\ balanced [] (trace w').
Proof.
  destruct (main_serves_until_interrupted 0 0 host_dir host stack (Sockaddr 0 0 0 0) (Sockaddr 0 0 0 0)
      sample_memory enough sample_blocks sample_sockets start 16777343 CfgSample.kernel_tcp [] 5%positive 1%positive 101%positive)
    as (l & L & K & ev & fd & r & s & r' & u & E & _ & Ht & Hloop);
    [apply start_fresh|done|done|done|by vm_compute|done|done|done|repeat constructor; done|].
  assert (u = at_loop) as -> by exact (eq_sym (f_equal snd (E (fun _ => throw OutOfFuel)))).
  vm_compute in Ht. injection Ht. intros _ _ <- _ _ <- <- <- _ _ _ _ <-.
  destruct (Hloop (fun _ => loop 34 32 5 0 acts acts') acts acts' 59%positive _ eq_refl sample_session eq_refl)
    as (w' & Ew & Hev & Hw & _ & _ & Hb).
  exists w'. exact (conj Ew (conj Hev (conj Hw Hb))).
Defined.

End ProgramSample.
