(* ===== verification/Daemon.v ===== *)
(** * Daemon: old/tapsd.c, the abandoned daemon

    The daemon watches the directory of configuration files with inotify.  It is
    not part of the build and calls tapsReadProtocols, a function the repository
    does not have; its [main] is modelled after that call.  What the system
    answers are arguments: the results of the calls that set the daemon up, and
    what each read of the watch yields. *)

From S2P Require Import Prelude Structs Memory.
Local Open Scope Z_scope.

(** ** Definitions *)

(** [struct inotify_event], as far as the daemon looks at it: the length of the
    name that follows. *)
Record inotify_event := InotifyEvent {
  in_mask : Z;
  in_len : Z;
}.

Definition EVENT_SIZE : Z := 16.
Definition EVENT_BUF_LEN : Z := 1024 * (EVENT_SIZE + 16).

(** The events of a read, one behind the other: how many bytes they take, and
    the one that begins at the offset [i].  What the code reads at an offset
    inside of an event is not modelled: there is no event there. *)
Definition extent (e : inotify_event) : Z := EVENT_SIZE + in_len e.
Definition size (buffer : list inotify_event) : Z := foldr (fun e n => extent e + n) 0 buffer.

Fixpoint event_at (buffer : list inotify_event) (i : Z) : option inotify_event :=
  match buffer with
  | [] => None
  | e :: buffer => if i =? 0 then Some e else event_at buffer (i - extent e)
  end.

(** [while (i < length)]; the result is [i].  Nothing is done for a new file,
    and an event without a name does not move [i]. *)
Fixpoint event_loop (fuel : nat) (buffer : list inotify_event) (i length : Z) : result Z :=
  match fuel with
  | O => Fault OutOfFuel
  | S fuel =>
      if i <? length then
        match event_at buffer i with
        | None => Fault OutOfBounds
        | Some event =>
            if truth (in_len event) then event_loop fuel buffer (to_int (i + EVENT_SIZE + in_len event)) length
            else event_loop fuel buffer i length
        end
      else Ok i
  end.

(** The daemon returns, waits for a read, or comes to no end. *)
Inductive outcome :=
| Returned (code : Z)
| Waiting (i : Z)
| Stuck (f : fault).

(** [while (1)]: a read fails, or fills the buffer from its start. *)
Fixpoint read_loop (fuel : nat) (reads : list (option (list inotify_event))) (i : Z) : outcome :=
  match reads with
  | [] => Waiting i
  | None :: _ => Returned 0
  | Some buffer :: reads =>
      match event_loop fuel buffer i (size buffer) with
      | Fault f => Stuck f
      | Ok i => read_loop fuel reads i
      end
  end.

(** [i] is what the variable holds, which is not initialised. *)
Definition tapsd_main (fuel : nat) (inotify_init inotify_add_watch fork setsid : Z)
    (reads : list (option (list inotify_event))) (i : Z) : outcome :=
  if inotify_init <? 0 then Returned 0
  else if inotify_add_watch <? 0 then Returned 0
  else if fork =? -1 then Returned 0
  else if 0 <? fork then Returned 1
  else if setsid =? -1 then Returned 0
  else read_loop fuel reads i.

(** ** The loop over the events *)

Definition named (e : inotify_event) : Prop := 0 < in_len e.

Lemma size_app b1 b2 : size (b1 ++ b2) = size b1 + size b2.
Proof. induction b1 as [|e b1 IH]; simpl; [done|]. rewrite IH. lia. Qed.

Lemma size_nonneg b : Forall (fun e => 0 <= in_len e) b -> 0 <= size b.
Proof. induction 1; simpl; unfold extent, EVENT_SIZE in *; lia. Qed.

Lemma named_nonneg b : Forall named b -> Forall (fun e => 0 <= in_len e) b.
Proof. intros Hb. eapply Forall_impl; [exact Hb|]. unfold named. lia. Qed.

Lemma event_at_middle b1 e b2 : Forall (fun e => 0 <= in_len e) b1 -> event_at (b1 ++ e :: b2) (size b1) = Some e.
Proof.
  induction 1 as [|e' b1 He Hb IH]; [done|]. simpl. pose proof (size_nonneg _ Hb).
  rewrite (proj2 (Z.eqb_neq _ _)) by (unfold extent, EVENT_SIZE; lia).
  by replace (extent e' + size b1 - extent e') with (size b1) by lia.
Qed.

(** Events with names are passed one by one. *)
Lemma event_loop_passes b2 : forall b1 b3 fuel n,
  Forall named (b1 ++ b2) -> size (b1 ++ b2) < 2 ^ 31 -> size (b1 ++ b2) <= n ->
  event_loop fuel (b1 ++ b2 ++ b3) (size b1) n
  = if (fuel <=? length b2)%nat then Fault OutOfFuel
    else event_loop (fuel - length b2) (b1 ++ b2 ++ b3) (size (b1 ++ b2)) n.
Proof.
  induction b2 as [|e b2 IH]; intros b1 b3 [|fuel] n Hn Hs Hl; try done.
  { simpl app. by rewrite app_nil_r. }
  pose proof Hn as [Hn1 [He Hn2]%Forall_cons]%Forall_app. apply named_nonneg in Hn1, Hn2.
  pose proof (size_nonneg _ Hn1). pose proof (size_nonneg _ Hn2). unfold named in He.
  specialize (IH (b1 ++ [e]) b3 fuel n). rewrite <- !app_assoc in IH. simpl app in IH.
  assert (size (b1 ++ [e]) = size b1 + EVENT_SIZE + in_len e) as Hse by (rewrite size_app; simpl; unfold extent; lia).
  assert (size (b1 ++ e :: b2) = size b1 + EVENT_SIZE + in_len e + size b2) as Hsb
    by (rewrite size_app; simpl; unfold extent; lia).
  cbn [event_loop length app]. unfold EVENT_SIZE in *. rewrite (proj2 (Z.ltb_lt _ _)) by lia. rewrite event_at_middle by done.
  unfold truth. rewrite (proj2 (Z.eqb_neq _ _)) by lia. cbn [negb]. rewrite to_int_small by lia.
  rewrite <- Hse. by apply IH.
Qed.

Lemma event_loop_named b fuel :
  Forall named b -> size b < 2 ^ 31 -> (length b < fuel)%nat -> event_loop fuel b 0 (size b) = Ok (size b).
Proof.
  intros Hn Hs Hf. pose proof (event_loop_passes b [] [] fuel (size b)) as E. simpl app in E. rewrite app_nil_r in E.
  simpl size in E. rewrite E by (done || lia). rewrite (proj2 (Nat.leb_gt _ _)) by done.
  destruct (fuel - length b)%nat eqn:Ef; [lia|]. cbn [event_loop]. by rewrite Z.ltb_irrefl.
Qed.

(** An event without a name is never passed. *)
Lemma event_loop_spins b i n e : i < n -> event_at b i = Some e -> in_len e = 0 ->
  forall fuel, event_loop fuel b i n = Fault OutOfFuel.
Proof.
  intros Hi He Hl. induction fuel as [|fuel IH]; [done|]. cbn [event_loop].
  by rewrite (proj2 (Z.ltb_lt _ _)), He, Hl by done.
Qed.

Lemma event_loop_unnamed b e rest fuel :
  Forall named b -> in_len e = 0 -> Forall (fun e => 0 <= in_len e) rest -> size (b ++ e :: rest) < 2 ^ 31 ->
  event_loop fuel (b ++ e :: rest) 0 (size (b ++ e :: rest)) = Fault OutOfFuel.
Proof.
  intros Hn He Hr Hs. pose proof (size_nonneg _ Hr) as H0. rewrite size_app in *. simpl size in *. unfold extent, EVENT_SIZE in *.
  pose proof (event_loop_passes b [] (e :: rest) fuel (size b + (16 + in_len e + size rest))) as E. simpl in E.
  rewrite E by (done || lia). case_match; [done|].
  by apply (event_loop_spins _ _ _ e); [lia|apply event_at_middle, named_nonneg|].
Qed.

(** ** Properties *)

(** C40: the event loop of the daemon, if the variable it starts from happens to
    hold 0.  A read of events that all have a name is passed to its end with one
    turn per event and one to see the end.  The variable is not reset: of the
    next read, unless it is longer than the first, no event is looked at.  An
    event without a name, which is what inotify reports about the directory
    itself, is never passed, however many turns there are. *)
Theorem tapsd_event_loop fuel fd wd sid b :
  0 <= fd -> 0 <= wd -> 0 <= sid -> Forall named b -> size b <= EVENT_BUF_LEN -> 
  ((length b < fuel)%nat ->
     tapsd_main fuel fd wd 0 sid [Some b] 0 = Waiting (size b)
     /\ forall next, size next <= size b -> tapsd_main fuel fd wd 0 sid [Some b; Some next] 0 = Waiting (size b))
  /\ forall e rest, in_len e = 0 -> Forall (fun e => 0 <= in_len e) rest -> size (b ++ e :: rest) <= EVENT_BUF_LEN ->
       tapsd_main fuel fd wd 0 sid [Some (b ++ e :: rest)] 0 = Stuck OutOfFuel.
Proof.
  intros Hfd Hwd Hsid Hn Hs. assert (forall reads, tapsd_main fuel fd wd 0 sid reads 0 = read_loop fuel reads 0) as E.
  { intros reads. unfold tapsd_main. rewrite (proj2 (Z.ltb_ge fd 0)), (proj2 (Z.ltb_ge wd 0)) by done.
    by rewrite (proj2 (Z.eqb_neq sid _)) by lia. }
  unfold EVENT_BUF_LEN, EVENT_SIZE in *. split.
  - intros Hf. pose proof (event_loop_named b fuel Hn ltac:(lia) Hf) as Eb.
    split; [by rewrite E; cbn [read_loop]; rewrite Eb|]. intros next Hx. rewrite E. cbn [read_loop]. rewrite Eb.
    destruct fuel as [|fuel]; [lia|]. cbn [event_loop]. by rewrite (proj2 (Z.ltb_ge _ _)) by done.
  - intros e rest He Hr Hl. rewrite E. cbn [read_loop]. by rewrite event_loop_unnamed by (done || lia).
Qed.

(** ** The loop at two events *)

Module DaemonSample.

Definition created : list inotify_event := [InotifyEvent 256 16; InotifyEvent 8 16].
Definition directory : inotify_event := InotifyEvent 0x8000 0.

Lemma tapsd_event_loop_witness :
  tapsd_main 3 3 1 0 7 [Some created] 0 = Waiting 64
  /\ tapsd_main 3 3 1 0 7 [Some created; Some created] 0 = Waiting 64
  /\ tapsd_main 3 3 1 0 7 [Some (created ++ directory :: created)] 0 = Stuck OutOfFuel.
Proof.
  destruct (tapsd_event_loop 3 3 1 7 created) as [Hb Hd]; [lia|lia|lia|by repeat constructor|by vm_compute|].
  destruct Hb as [H1 H2]; [simpl; lia|]. split; [exact H1|]. split; [apply H2; lia|].
  apply Hd; [done|repeat constructor; simpl; lia|by vm_compute].
Defined.

End DaemonSample.
